(** * The quiz game engine of [src/components/quiz-game/quiz-game.tsx]

    A shallow embedding of the canvas game loop (the frame callback
    [gameLoop]), of the input handler [handleCanvasClick] with [jump], of the
    pipe constructors and of [createInitialScore] from [src/lib/game-data.ts],
    followed by the properties of the scoring and phase state machine.

    Modelling conventions.
    - A JavaScript number that holds a position, a speed or a time is an exact
      rational ([Q]) kept in lowest terms: the arithmetic is the source's,
      without rounding, NaN or infinities.  Counters and scores are integers
      ([Z]); array indices are [nat].
    - The mutable [gameStateRef.current] object is passed explicitly: every
      handler takes the component state and returns the next one.
    - An uncaught [TypeError] (reading a property of [undefined]) ends the
      frame callback before it re-schedules itself; the frame function returns
      [None] there, and a run of the component ends with it.
    - The chapter list is any list: the component itself falls back to its
      sample data when it is given none (line 128), so that the list is not
      empty there, but a chapter may come without questions.
    - Canvas drawing and sound only read the state; they are left out, but
      for the three screens that read a chapter or a chapter score that may
      be [undefined] ([drawChapterIntro], [drawChapterComplete],
      [drawGameComplete]), of which the [TypeError] is kept. *)

From Stdlib Require Import String Ascii ZArith QArith Qminmax Lqa Lia List
  Bool.
Import ListNotations.

(* ------------------------------------------------------------------ *)
(** ** Numbers *)

Declare Scope js_scope.
Delimit Scope js_scope with js.
(** From here on an expression of type [Q] is read with the operations of
    [Num] below; the comparisons [<], [<=] and [==] stay those of [Q]. *)
Bind Scope js_scope with Q.
Open Scope Q_scope.

Module Num.

Definition add (a b : Q) : Q := Qred (a + b)%Q.
Definition sub (a b : Q) : Q := Qred (a - b)%Q.
Definition mul (a b : Q) : Q := Qred (a * b)%Q.
Definition div (a b : Q) : Q := Qred (a / b)%Q.
Definition neg (a : Q) : Q := Qred (- a)%Q.

(** [a < b], [a > b], [a >= b] and [a === b] as the booleans the source
    branches on. *)
Definition ltb (a b : Q) : bool := negb (Qle_bool b a).
Definition gtb (a b : Q) : bool := ltb b a.
Definition geb (a b : Q) : bool := Qle_bool b a.
Definition eqb (a b : Q) : bool := Qeq_bool a b.

(** [Math.min] and [Math.max] on numbers. *)
Definition Math_min (a b : Q) : Q := if ltb b a then b else a.
Definition Math_max (a b : Q) : Q := if ltb a b then b else a.

(** [v || 0] for an optional numeric field. *)
Definition orZero (v : option Q) : Q :=
  match v with Some q => q | None => 0 end.

(** Truthiness of an optional boolean field ([undefined] is falsy). *)
Definition truthy (v : option bool) : bool :=
  match v with Some b => b | None => false end.

End Num.

Infix "+" := Num.add : js_scope.
Infix "-" := Num.sub : js_scope.
Infix "*" := Num.mul : js_scope.
Infix "/" := Num.div : js_scope.
Notation "- a" := (Num.neg a) : js_scope.
Infix "<?" := Num.ltb : js_scope.
Infix ">?" := Num.gtb (at level 70) : js_scope.
Infix ">=?" := Num.geb (at level 70) : js_scope.
Infix "=?" := Num.eqb : js_scope.
Open Scope js_scope.

(* ------------------------------------------------------------------ *)
(** ** Constants (quiz-game.tsx, lines 7-52) *)

Definition CANVAS_WIDTH : Q := 288.
Definition CANVAS_HEIGHT : Q := 512.

Definition GRAVITY : Q := 1 # 2.            (* 0.5 *)
Definition JUMP_STRENGTH : Q := 9.
Definition BIRD_WIDTH : Q := 34.
Definition BIRD_HEIGHT : Q := 24.
Definition TARGET_FPS : Q := 60.
Definition MAX_DELTA_TIME : Q := 3 # 2.     (* 1.5 *)
Definition JUMP_COOLDOWN : Z := 150.

Definition PIPE_WIDTH : Q := 52.
Definition PIPE_SPEED : Q := 2.
Definition PIPE_SPAWN_X : Q := CANVAS_WIDTH + 20.
Definition PIPE_GAP_NORMAL : Q := 200.
Definition MIDDLE_PIPE_HEIGHT : Q := 30.
Definition SLOT_HEIGHT : Q := 160.

Definition NORMAL_PIPES_BETWEEN_QUESTIONS : Z := 5.

Definition SCROLL_HEIGHT : Q := 110.
Definition SCROLL_Y : Q := CANVAS_HEIGHT - SCROLL_HEIGHT - 10.

Definition PLAY_AREA_TOP : Q := 0.
Definition PLAY_AREA_BOTTOM : Q := CANVAS_HEIGHT.

Definition PIPE_AREA_TOP : Q := 50.
Definition PIPE_AREA_BOTTOM : Q := SCROLL_Y - 20.

Definition SCROLL_ANIMATION_DURATION : Q := 600.
Definition CHAPTER_INTRO_TIME : Q := 3000.
Definition QUESTION_PREVIEW_TIME : Q := 3000.
Definition AUTO_FLY_TIME : Q := 4000.

(* ------------------------------------------------------------------ *)
(** ** Data (game-data.ts lines 7-28, quiz-game.tsx lines 59-111) *)

Module Question.
Record t := mk {
  id : string;
  text : string;
  answer : bool;            (* true = YES is correct *)
  feedbackCorrect : string;
  feedbackWrong : string
}.
End Question.

Module Chapter.
Record t := mk {
  id : string;
  number : Z;
  title : string;
  subtitle : string;
  description : string;
  questions : list Question.t
}.
End Chapter.

Module ChapterScore.
Record t := mk { correct : Z; total : Z }.
End ChapterScore.

Module GameScore.
Record t := mk {
  chapterScores : list ChapterScore.t;
  totalCorrect : Z;
  totalQuestions : Z
}.
End GameScore.

Inductive PipeType := normal | question.

Inductive GamePhase :=
  | loading
  | chapter_intro
  | ready_to_play
  | auto_fly
  | playing
  | question_preview
  | game_over
  | chapter_complete
  | game_complete.

Definition PipeType_eqb (a b : PipeType) : bool :=
  match a, b with
  | normal, normal | question, question => true
  | _, _ => false
  end.

Module Bird.
Record t := mk { y : Q; velocity : Q; frame : Z }.
Definition set_y (v : Q) (b : t) := mk v (velocity b) (frame b).
Definition set_velocity (v : Q) (b : t) := mk (y b) v (frame b).
Definition set_frame (v : Z) (b : t) := mk (y b) (velocity b) v.
End Bird.

Module Pipe.
Record t := mk {
  x : Q;
  type : PipeType;
  gapTop : option Q;
  gapBottom : option Q;
  topPipeBottom : option Q;
  middlePipeTop : option Q;
  middlePipeBottom : option Q;
  bottomPipeTop : option Q;
  passed : bool;
  scored : bool;
  questionAnswered : option bool
}.
Definition set_x (v : Q) (p : t) :=
  mk v (type p) (gapTop p) (gapBottom p) (topPipeBottom p) (middlePipeTop p)
     (middlePipeBottom p) (bottomPipeTop p) (passed p) (scored p)
     (questionAnswered p).
Definition set_passed (v : bool) (p : t) :=
  mk (x p) (type p) (gapTop p) (gapBottom p) (topPipeBottom p)
     (middlePipeTop p) (middlePipeBottom p) (bottomPipeTop p) v (scored p)
     (questionAnswered p).
Definition set_scored (v : bool) (p : t) :=
  mk (x p) (type p) (gapTop p) (gapBottom p) (topPipeBottom p)
     (middlePipeTop p) (middlePipeBottom p) (bottomPipeTop p) (passed p) v
     (questionAnswered p).
Definition set_questionAnswered (v : option bool) (p : t) :=
  mk (x p) (type p) (gapTop p) (gapBottom p) (topPipeBottom p)
     (middlePipeTop p) (middlePipeBottom p) (bottomPipeTop p) (passed p)
     (scored p) v.
End Pipe.

Module GameState.
Record t := mk {
  phase : GamePhase;
  bird : Bird.t;
  pipes : list Pipe.t;
  chapterIndex : nat;
  questionIndex : nat;
  score : GameScore.t;
  displayScore : Z;
  pipesSinceLastQuestion : Z;
  currentQuestionActive : bool;
  scrollProgress : Q;
  phaseStartTime : Q;
  frameCount : Z;
  questionPreviewProgress : Q
}.
Definition set_phase v s :=
  mk v (bird s) (pipes s) (chapterIndex s) (questionIndex s) (score s)
     (displayScore s) (pipesSinceLastQuestion s) (currentQuestionActive s)
     (scrollProgress s) (phaseStartTime s) (frameCount s)
     (questionPreviewProgress s).
Definition set_bird v s :=
  mk (phase s) v (pipes s) (chapterIndex s) (questionIndex s) (score s)
     (displayScore s) (pipesSinceLastQuestion s) (currentQuestionActive s)
     (scrollProgress s) (phaseStartTime s) (frameCount s)
     (questionPreviewProgress s).
Definition set_pipes v s :=
  mk (phase s) (bird s) v (chapterIndex s) (questionIndex s) (score s)
     (displayScore s) (pipesSinceLastQuestion s) (currentQuestionActive s)
     (scrollProgress s) (phaseStartTime s) (frameCount s)
     (questionPreviewProgress s).
Definition set_chapterIndex v s :=
  mk (phase s) (bird s) (pipes s) v (questionIndex s) (score s)
     (displayScore s) (pipesSinceLastQuestion s) (currentQuestionActive s)
     (scrollProgress s) (phaseStartTime s) (frameCount s)
     (questionPreviewProgress s).
Definition set_questionIndex v s :=
  mk (phase s) (bird s) (pipes s) (chapterIndex s) v (score s)
     (displayScore s) (pipesSinceLastQuestion s) (currentQuestionActive s)
     (scrollProgress s) (phaseStartTime s) (frameCount s)
     (questionPreviewProgress s).
Definition set_score v s :=
  mk (phase s) (bird s) (pipes s) (chapterIndex s) (questionIndex s) v
     (displayScore s) (pipesSinceLastQuestion s) (currentQuestionActive s)
     (scrollProgress s) (phaseStartTime s) (frameCount s)
     (questionPreviewProgress s).
Definition set_displayScore v s :=
  mk (phase s) (bird s) (pipes s) (chapterIndex s) (questionIndex s)
     (score s) v (pipesSinceLastQuestion s) (currentQuestionActive s)
     (scrollProgress s) (phaseStartTime s) (frameCount s)
     (questionPreviewProgress s).
Definition set_pipesSinceLastQuestion v s :=
  mk (phase s) (bird s) (pipes s) (chapterIndex s) (questionIndex s)
     (score s) (displayScore s) v (currentQuestionActive s)
     (scrollProgress s) (phaseStartTime s) (frameCount s)
     (questionPreviewProgress s).
Definition set_currentQuestionActive v s :=
  mk (phase s) (bird s) (pipes s) (chapterIndex s) (questionIndex s)
     (score s) (displayScore s) (pipesSinceLastQuestion s) v
     (scrollProgress s) (phaseStartTime s) (frameCount s)
     (questionPreviewProgress s).
Definition set_scrollProgress v s :=
  mk (phase s) (bird s) (pipes s) (chapterIndex s) (questionIndex s)
     (score s) (displayScore s) (pipesSinceLastQuestion s)
     (currentQuestionActive s) v (phaseStartTime s) (frameCount s)
     (questionPreviewProgress s).
Definition set_phaseStartTime v s :=
  mk (phase s) (bird s) (pipes s) (chapterIndex s) (questionIndex s)
     (score s) (displayScore s) (pipesSinceLastQuestion s)
     (currentQuestionActive s) (scrollProgress s) v (frameCount s)
     (questionPreviewProgress s).
Definition set_frameCount v s :=
  mk (phase s) (bird s) (pipes s) (chapterIndex s) (questionIndex s)
     (score s) (displayScore s) (pipesSinceLastQuestion s)
     (currentQuestionActive s) (scrollProgress s) (phaseStartTime s) v
     (questionPreviewProgress s).
Definition set_questionPreviewProgress v s :=
  mk (phase s) (bird s) (pipes s) (chapterIndex s) (questionIndex s)
     (score s) (displayScore s) (pipesSinceLastQuestion s)
     (currentQuestionActive s) (scrollProgress s) (phaseStartTime s)
     (frameCount s) v.
End GameState.

(** The component: the game state object and the two time refs
    ([lastFrameTimeRef], [lastJumpTimeRef]) with the [assetsLoaded] flag that
    guards the frame loop. *)
Module Component.
Record t := mk {
  assetsLoaded : bool;
  gameStateRef : GameState.t;
  lastFrameTimeRef : Q;
  lastJumpTimeRef : Z
}.
End Component.

(* ------------------------------------------------------------------ *)
(** ** game-data.ts: [createInitialScore] (lines 239-245) *)

Definition createInitialScore (chapters : list Chapter.t) : GameScore.t :=
  GameScore.mk
    (map (fun c => ChapterScore.mk 0 (Z.of_nat (length (Chapter.questions c))))
         chapters)
    0
    (fold_left (fun sum c => (sum + Z.of_nat (length (Chapter.questions c)))%Z)
               chapters 0%Z).

(** [score.chapterScores[i].correct += 1; score.totalCorrect += 1]
    (lines 1079-1080); [None] when [chapterScores[i]] is [undefined]. *)
Fixpoint bumpCorrect (i : nat) (l : list ChapterScore.t)
  : option (list ChapterScore.t) :=
  match l, i with
  | [], _ => None
  | cs :: rest, O =>
      Some (ChapterScore.mk (ChapterScore.correct cs + 1) (ChapterScore.total cs)
              :: rest)
  | cs :: rest, S j =>
      match bumpCorrect j rest with
      | Some rest' => Some (cs :: rest')
      | None => None
      end
  end.

Definition scoreCorrectAnswer (i : nat) (sc : GameScore.t) : option GameScore.t :=
  match bumpCorrect i (GameScore.chapterScores sc) with
  | Some l =>
      Some (GameScore.mk l (GameScore.totalCorrect sc + 1)
              (GameScore.totalQuestions sc))
  | None => None
  end.

(* ------------------------------------------------------------------ *)
(** ** Pipes: constructors and collision (lines 790-851) *)

(** [createNormalPipe]; [random] is the value [Math.random()] returned. *)
Definition createNormalPipe (random : Q) : Pipe.t :=
  let minGapTop := PIPE_AREA_TOP in
  let maxGapTop := PIPE_AREA_BOTTOM - PIPE_GAP_NORMAL in
  let gapTop := minGapTop + random * (maxGapTop - minGapTop) in
  Pipe.mk PIPE_SPAWN_X normal (Some gapTop) (Some (gapTop + PIPE_GAP_NORMAL))
          None None None None false false None.

Definition createQuestionPipe : Pipe.t :=
  let pipeHeight := PIPE_AREA_BOTTOM - PIPE_AREA_TOP in
  let totalNeeded := SLOT_HEIGHT * 2 + MIDDLE_PIPE_HEIGHT in
  let topOffset := PIPE_AREA_TOP + (pipeHeight - totalNeeded) / 2 in
  Pipe.mk PIPE_SPAWN_X question None None
          (Some topOffset)
          (Some (topOffset + SLOT_HEIGHT))
          (Some (topOffset + SLOT_HEIGHT + MIDDLE_PIPE_HEIGHT))
          (Some (topOffset + SLOT_HEIGHT * 2 + MIDDLE_PIPE_HEIGHT))
          false false (Some false).

Definition checkCollision (bird : Bird.t) (pipe : Pipe.t) : bool :=
  let birdLeft := 50 in
  let birdRight := 50 + BIRD_WIDTH in
  let birdTop := Bird.y bird in
  let birdBottom := Bird.y bird + BIRD_HEIGHT in
  if (birdRight <? Pipe.x pipe) || (birdLeft >? Pipe.x pipe + PIPE_WIDTH) then
    false
  else
    match Pipe.type pipe with
    | normal =>
        (birdTop <? Num.orZero (Pipe.gapTop pipe))
        || (birdBottom >? Num.orZero (Pipe.gapBottom pipe))
    | question =>
        if birdTop <? Num.orZero (Pipe.topPipeBottom pipe) then true
        else if (birdTop <? Num.orZero (Pipe.middlePipeBottom pipe))
                && (birdBottom >? Num.orZero (Pipe.middlePipeTop pipe))
        then true
        else if birdBottom >? Num.orZero (Pipe.bottomPipeTop pipe) then true
        else false
    end.

(* ------------------------------------------------------------------ *)
(** ** The frame loop over the pipes *)

(** What an iteration of [for (const pipe of state.pipes)] ends with. *)
Inductive Flow := Continue | Break.

(** The [for ... of] loop with [break]: the pipes are objects updated in
    place, so the pipes after a [break] stay as they were. *)
Fixpoint forPipes (body : Pipe.t -> GameState.t -> option (Pipe.t * GameState.t * Flow))
    (pipes : list Pipe.t) (state : GameState.t)
  : option (list Pipe.t * GameState.t * Flow) :=
  match pipes with
  | [] => Some ([], state, Continue)
  | pipe :: rest =>
      match body pipe state with
      | None => None
      | Some (pipe', state', Break) => Some (pipe' :: rest, state', Break)
      | Some (pipe', state', Continue) =>
          match forPipes body rest state' with
          | None => None
          | Some (rest', state'', fl) => Some (pipe' :: rest', state'', fl)
          end
      end
  end.

Definition centerY : Q := (PIPE_AREA_TOP + PIPE_AREA_BOTTOM) / 2.

(** [state.phase = "game_over"; state.phaseStartTime = currentTime]. *)
Definition crash (currentTime : Q) (state : GameState.t) : GameState.t :=
  GameState.set_phaseStartTime currentTime (GameState.set_phase game_over state).

(** Lines 1030-1059: the bird has passed the pipe. *)
Definition passThrough (currentTime : Q) (currentChapter : option Chapter.t)
    (pipe : Pipe.t) (state : GameState.t)
  : option (Pipe.t * GameState.t * Flow) :=
  let birdLeft := 50 in
  if negb (Pipe.passed pipe) && (Pipe.x pipe + PIPE_WIDTH <? birdLeft) then
    let pipe := Pipe.set_passed true pipe in
    match Pipe.type pipe with
    | normal =>
        if negb (Pipe.scored pipe) then
          Some (Pipe.set_scored true pipe,
                GameState.set_pipesSinceLastQuestion
                  (GameState.pipesSinceLastQuestion state + 1)%Z
                  (GameState.set_displayScore
                     (GameState.displayScore state + 1)%Z state),
                Continue)
        else Some (pipe, state, Continue)
    | question =>
        let state :=
          GameState.set_currentQuestionActive false
            (GameState.set_pipesSinceLastQuestion 0%Z state) in
        match currentChapter with
        | None => None
        | Some chapter =>
            if (Z.of_nat (GameState.questionIndex state)
                <? Z.of_nat (length (Chapter.questions chapter)) - 1)%Z
            then
              Some (pipe,
                    GameState.set_questionIndex
                      (S (GameState.questionIndex state)) state,
                    Continue)
            else
              Some (pipe,
                    GameState.set_scrollProgress 0
                      (GameState.set_phaseStartTime currentTime
                         (GameState.set_phase chapter_complete state)),
                    Break)
        end
    end
  else Some (pipe, state, Continue).

(** Lines 1061-1089: answer selection for question pipes. *)
Definition answerSelection (currentQuestion : option Question.t)
    (pipe : Pipe.t) (state : GameState.t) : option (Pipe.t * GameState.t) :=
  if PipeType_eqb (Pipe.type pipe) question
     && negb (Num.truthy (Pipe.questionAnswered pipe)) then
    let birdRight := 50 + BIRD_WIDTH in
    let birdY := Bird.y (GameState.bird state) in
    if (birdRight >? Pipe.x pipe) && (50 <? Pipe.x pipe + PIPE_WIDTH) then
      let inYesSlot :=
        (birdY >? Num.orZero (Pipe.topPipeBottom pipe))
        && (birdY + BIRD_HEIGHT <? Num.orZero (Pipe.middlePipeTop pipe)) in
      let inNoSlot :=
        (birdY >? Num.orZero (Pipe.middlePipeBottom pipe))
        && (birdY + BIRD_HEIGHT <? Num.orZero (Pipe.bottomPipeTop pipe)) in
      if inYesSlot || inNoSlot then
        let pipe := Pipe.set_questionAnswered (Some true) pipe in
        let selectedYes := inYesSlot in
        match currentQuestion with
        | None => None
        | Some q =>
            let correct := Bool.eqb (Question.answer q) selectedYes in
            if correct then
              match scoreCorrectAnswer (GameState.chapterIndex state)
                      (GameState.score state) with
              | None => None
              | Some sc =>
                  Some (pipe,
                        GameState.set_displayScore
                          (GameState.displayScore state + 5)%Z
                          (GameState.set_score sc state))
              end
            else
              Some (pipe,
                    GameState.set_displayScore
                      (Z.max 0 (GameState.displayScore state - 2)) state)
        end
      else Some (pipe, state)
    else Some (pipe, state)
  else Some (pipe, state).

(** [pipe.x -= PIPE_SPEED * deltaTime] (lines 1020 and 1144). *)
Definition movePipe (deltaTime : Q) (pipe : Pipe.t) : Pipe.t :=
  Pipe.set_x (Pipe.x pipe - PIPE_SPEED * deltaTime) pipe.

(** Lines 1019-1090: the body of the pipe loop of the [playing] phase. *)
Definition playingPipe (currentTime deltaTime : Q)
    (currentChapter : option Chapter.t) (currentQuestion : option Question.t)
    (pipe : Pipe.t) (state : GameState.t)
  : option (Pipe.t * GameState.t * Flow) :=
  let pipe := movePipe deltaTime pipe in
  if checkCollision (GameState.bird state) pipe then
    Some (pipe, crash currentTime state, Break)
  else
    match passThrough currentTime currentChapter pipe state with
    | None => None
    | Some (pipe, state, Break) => Some (pipe, state, Break)
    | Some (pipe, state, Continue) =>
        match answerSelection currentQuestion pipe state with
        | None => None
        | Some (pipe, state) => Some (pipe, state, Continue)
        end
    end.

(** Lines 1143-1164: the body of the pipe loop of [question_preview]. *)
Definition previewPipe (currentTime deltaTime : Q)
    (pipe : Pipe.t) (state : GameState.t)
  : option (Pipe.t * GameState.t * Flow) :=
  let pipe := movePipe deltaTime pipe in
  if checkCollision (GameState.bird state) pipe then
    Some (pipe, crash currentTime state, Break)
  else if PipeType_eqb (Pipe.type pipe) normal
          && negb (Pipe.passed pipe)
          && (Pipe.x pipe + PIPE_WIDTH <? 50) then
    let pipe := Pipe.set_passed true pipe in
    if negb (Pipe.scored pipe) then
      Some (Pipe.set_scored true pipe,
            GameState.set_pipesSinceLastQuestion
              (GameState.pipesSinceLastQuestion state + 1)%Z
              (GameState.set_displayScore
                 (GameState.displayScore state + 1)%Z state),
            Continue)
    else Some (pipe, state, Continue)
  else Some (pipe, state, Continue).

(** [state.pipes.filter(p => p.x + PIPE_WIDTH > -50)]. *)
Definition removeOffscreen (pipes : list Pipe.t) : list Pipe.t :=
  filter (fun p => Pipe.x p + PIPE_WIDTH >? -(50)) pipes.

(** [state.pipes[state.pipes.length - 1]]. *)
Definition lastPipe (pipes : list Pipe.t) : option Pipe.t :=
  nth_error pipes (length pipes - 1)%nat.

(** Lines 978-979 / 1125-1126: [velocity += GRAVITY * dt; y += velocity * dt]. *)
Definition updateBirdPhysics (deltaTime : Q) (bird : Bird.t) : Bird.t :=
  let velocity := Bird.velocity bird + GRAVITY * deltaTime in
  Bird.set_y (Bird.y bird + velocity * deltaTime)
             (Bird.set_velocity velocity bird).

Definition outOfBounds (bird : Bird.t) : bool :=
  (Bird.y bird <? PLAY_AREA_TOP)
  || (Bird.y bird + BIRD_HEIGHT >? PLAY_AREA_BOTTOM).

(** The screens that read a chapter (lines 361-412, 687-729 and 731-788):
    each returns before it writes any text while [progress < 0.3]; after
    that [drawChapterIntro] reads [chapter.number], [drawChapterComplete]
    reads [chapter.number] and [chapterScore.correct], and [drawGameComplete]
    reads [score.chapterScores[i].correct] for every chapter [i], which
    throws when the object is [undefined]. *)
Definition drawChapterIntro (chapter : option Chapter.t) (progress : Q)
  : option unit :=
  if progress <? (3 # 10) then Some tt
  else match chapter with Some _ => Some tt | None => None end.

Definition drawChapterComplete (chapter : option Chapter.t)
    (chapterScore : option ChapterScore.t) (progress : Q) : option unit :=
  if progress <? (3 # 10) then Some tt
  else
    match chapter, chapterScore with
    | Some _, Some _ => Some tt
    | _, _ => None
    end.

Definition drawGameComplete (chaptersData : list Chapter.t)
    (score : GameScore.t) (progress : Q) : option unit :=
  if progress <? (3 # 10) then Some tt
  else if (length chaptersData <=? length (GameScore.chapterScores score))%nat
       then Some tt
       else None.

(** [state.frameCount++; if (state.frameCount % n === 0) bird.frame = (bird.frame + 1) % 3]. *)
Definition animateBird (n : Z) (state : GameState.t) : GameState.t :=
  let state := GameState.set_frameCount (GameState.frameCount state + 1)%Z state in
  if (Z.rem (GameState.frameCount state) n =? 0)%Z then
    GameState.set_bird
      (Bird.set_frame (Z.rem (Bird.frame (GameState.bird state) + 1) 3)
                      (GameState.bird state))
      state
  else state.

(* ------------------------------------------------------------------ *)
(** ** The component's handlers *)

Section QuizGame.

(** [Math.sin] of the host, and the chapter list the component holds
    ([useState], line 128). *)
Variable Math_sin : Q -> Q.
Variable chapters : list Chapter.t.

(** The initial [gameStateRef] (lines 140-154) with both time refs at 0. *)
Definition initialState : GameState.t :=
  GameState.mk loading (Bird.mk centerY 0 0) [] 0 0
               (createInitialScore chapters) 0 0 false 0 0 0 0.

Definition initialComponent : Component.t :=
  Component.mk false initialState 0 0.

(** Lines 223-230: the assets are loaded. *)
Definition onAssetsLoaded (now : Q) (c : Component.t) : Component.t :=
  Component.mk true
    (GameState.set_phaseStartTime now
       (GameState.set_phase chapter_intro (Component.gameStateRef c)))
    (Component.lastFrameTimeRef c) (Component.lastJumpTimeRef c).

(** Whether [jump] gets past its cooldown test (line 256). *)
Definition jumpAccepted (now : Z) (c : Component.t) : bool :=
  negb (now - Component.lastJumpTimeRef c <? JUMP_COOLDOWN)%Z.

(** [jump] (lines 252-272); [now] is [Date.now()]. *)
Definition jump (now : Z) (c : Component.t) : Component.t :=
  let state := Component.gameStateRef c in
  if (now - Component.lastJumpTimeRef c <? JUMP_COOLDOWN)%Z then c
  else
    let state :=
      match GameState.phase state with
      | playing | question_preview =>
          GameState.set_bird
            (Bird.set_velocity (- JUMP_STRENGTH) (GameState.bird state)) state
      | _ => state
      end in
    Component.mk (Component.assetsLoaded c) state
                 (Component.lastFrameTimeRef c) now.

(** The [playing] case of the frame switch (lines 974-1117). *)
Definition framePlaying (currentTime deltaTime elapsed random : Q)
    (currentChapter : option Chapter.t) (currentQuestion : option Question.t)
    (state : GameState.t) : option GameState.t :=
  let state :=
    GameState.set_scrollProgress
      (Num.Math_min 1 (elapsed / SCROLL_ANIMATION_DURATION)) state in
  let state :=
    GameState.set_bird (updateBirdPhysics deltaTime (GameState.bird state))
                       state in
  if outOfBounds (GameState.bird state) then Some (crash currentTime state)
  else
    let state := animateBird 6 state in
    let hasQuestionPipeOnScreen :=
      existsb (fun p => PipeType_eqb (Pipe.type p) question
                        && negb (Pipe.passed p))
              (GameState.pipes state) in
    let toPreview (_ : unit) :=
      GameState.set_scrollProgress 0
        (GameState.set_currentQuestionActive true
           (GameState.set_questionPreviewProgress 0
              (GameState.set_phaseStartTime currentTime
                 (GameState.set_phase question_preview state)))) in
    let continuePlaying (_ : unit) :=
      let shouldSpawnPipe :=
        match lastPipe (GameState.pipes state) with
        | None => true
        | Some lastPipe => Pipe.x lastPipe <? CANVAS_WIDTH - 180
        end in
      let pipes :=
        if shouldSpawnPipe && negb hasQuestionPipeOnScreen
        then GameState.pipes state ++ [createNormalPipe random]
        else GameState.pipes state in
      match forPipes (playingPipe currentTime deltaTime currentChapter
                                  currentQuestion)
                     pipes state with
      | None => None
      | Some (pipes, state, _) =>
          Some (GameState.set_pipes (removeOffscreen pipes) state)
      end in
    if (GameState.pipesSinceLastQuestion state
        >=? NORMAL_PIPES_BETWEEN_QUESTIONS)%Z
       && negb hasQuestionPipeOnScreen
    then
      match currentChapter with
      | None => None
      | Some chapter =>
          if (GameState.questionIndex state
              <? length (Chapter.questions chapter))%nat
          then Some (toPreview tt)
          else continuePlaying tt
      end
    else continuePlaying tt.

(** The [question_preview] case (lines 1119-1195). *)
Definition frameQuestionPreview (currentTime deltaTime elapsed : Q)
    (state : GameState.t) : option GameState.t :=
  let state :=
    GameState.set_questionPreviewProgress
      (Num.Math_min 1 (elapsed / QUESTION_PREVIEW_TIME)) state in
  let state :=
    GameState.set_scrollProgress
      (Num.Math_min 1 (elapsed / SCROLL_ANIMATION_DURATION)) state in
  let state :=
    GameState.set_bird (updateBirdPhysics deltaTime (GameState.bird state))
                       state in
  if outOfBounds (GameState.bird state) then Some (crash currentTime state)
  else
    let state := animateBird 6 state in
    match forPipes (previewPipe currentTime deltaTime)
                   (GameState.pipes state) state with
    | None => None
    | Some (pipes, state, _) =>
        let state := GameState.set_pipes (removeOffscreen pipes) state in
        if GameState.questionPreviewProgress state >=? 1 then
          Some (GameState.set_scrollProgress 1
                  (GameState.set_phaseStartTime currentTime
                     (GameState.set_phase playing
                        (GameState.set_pipes
                           (GameState.pipes state ++ [createQuestionPipe])
                           state))))
        else Some state
    end.

(** The [switch (state.phase)] of the frame callback (lines 902-1239). *)
Definition framePhase (currentTime deltaTime random : Q)
    (state : GameState.t) : option GameState.t :=
  let elapsed := currentTime - GameState.phaseStartTime state in
  let currentChapter := nth_error chapters (GameState.chapterIndex state) in
  let currentQuestion :=
    match currentChapter with
    | Some chapter =>
        nth_error (Chapter.questions chapter) (GameState.questionIndex state)
    | None => None
    end in
  match GameState.phase state with
  | chapter_intro =>
      let state :=
        GameState.set_scrollProgress
          (Num.Math_min 1 (elapsed / SCROLL_ANIMATION_DURATION)) state in
      match drawChapterIntro currentChapter
                             (GameState.scrollProgress state) with
      | None => None
      | Some _ =>
          if elapsed >? CHAPTER_INTRO_TIME then
            Some (GameState.set_currentQuestionActive false
                    (GameState.set_pipesSinceLastQuestion
                       NORMAL_PIPES_BETWEEN_QUESTIONS
                       (GameState.set_pipes []
                          (GameState.set_bird
                             (Bird.set_velocity 0
                                (Bird.set_y centerY (GameState.bird state)))
                             (GameState.set_scrollProgress 0
                                (GameState.set_phaseStartTime currentTime
                                   (GameState.set_phase ready_to_play
                                                        state)))))))
          else Some state
      end
  | ready_to_play =>
      let bobOffset := Math_sin (currentTime / 300) * 3 in
      let state :=
        GameState.set_bird
          (Bird.set_y (centerY + bobOffset) (GameState.bird state)) state in
      Some (animateBird 8 state)
  | auto_fly =>
      let autoFlyProgress := Num.Math_min 1 (elapsed / AUTO_FLY_TIME) in
      let state :=
        GameState.set_scrollProgress
          (Num.Math_min 1 (elapsed / SCROLL_ANIMATION_DURATION)) state in
      let flyAmplitude := 40 in
      let flySpeed := 3 # 1000 in
      let state :=
        GameState.set_bird
          (Bird.set_y (centerY + Math_sin (currentTime * flySpeed) * flyAmplitude)
                      (GameState.bird state))
          state in
      let state := animateBird 5 state in
      if autoFlyProgress >=? 1 then
        Some (GameState.set_bird
                (Bird.set_velocity 0 (GameState.bird state))
                (GameState.set_phaseStartTime currentTime
                   (GameState.set_phase playing
                      (GameState.set_pipes
                         (GameState.pipes state ++ [createQuestionPipe])
                         state))))
      else Some state
  | playing =>
      framePlaying currentTime deltaTime elapsed random currentChapter
                   currentQuestion state
  | question_preview =>
      frameQuestionPreview currentTime deltaTime elapsed state
  | game_over =>
      let bird := GameState.bird state in
      let velocity := Bird.velocity bird + GRAVITY * deltaTime * (1 # 2) in
      Some (GameState.set_bird
              (Bird.set_y
                 (Num.Math_min (PLAY_AREA_BOTTOM - BIRD_HEIGHT)
                               (Bird.y bird + velocity * deltaTime))
                 (Bird.set_velocity velocity bird))
              state)
  | chapter_complete =>
      let state :=
        GameState.set_scrollProgress
          (Num.Math_min 1 (elapsed / SCROLL_ANIMATION_DURATION)) state in
      match drawChapterComplete
              currentChapter
              (nth_error (GameScore.chapterScores (GameState.score state))
                         (GameState.chapterIndex state))
              (GameState.scrollProgress state) with
      | None => None
      | Some _ => Some state
      end
  | game_complete =>
      let state :=
        GameState.set_scrollProgress
          (Num.Math_min 1 (elapsed / SCROLL_ANIMATION_DURATION)) state in
      match drawGameComplete chapters (GameState.score state)
                             (GameState.scrollProgress state) with
      | None => None
      | Some _ => Some state
      end
  | loading => Some state
  end.

(** The elapsed-time factor of a frame (lines 867-872). *)
Definition frameDelta (currentTime lastFrameTime : Q) : Q :=
  let lastFrameTime :=
    if lastFrameTime =? 0 then currentTime else lastFrameTime in
  let deltaTime := (currentTime - lastFrameTime) / (1000 / TARGET_FPS) in
  Num.Math_min deltaTime MAX_DELTA_TIME.

(** [gameLoop] (lines 863-1242): one frame at time stamp [currentTime]. *)
Definition gameLoop (currentTime random : Q) (c : Component.t)
  : option Component.t :=
  let deltaTime := frameDelta currentTime (Component.lastFrameTimeRef c) in
  match framePhase currentTime deltaTime random (Component.gameStateRef c) with
  | None => None
  | Some state =>
      Some (Component.mk (Component.assetsLoaded c) state currentTime
                         (Component.lastJumpTimeRef c))
  end.

(** [handleCanvasClick] (lines 1261-1323); [perfNow] is
    [performance.now()], [dateNow] is [Date.now()]. *)
Definition handleCanvasClick (perfNow : Q) (dateNow : Z) (c : Component.t)
  : Component.t :=
  let state := Component.gameStateRef c in
  let put state :=
    Component.mk (Component.assetsLoaded c) state
                 (Component.lastFrameTimeRef c) (Component.lastJumpTimeRef c) in
  match GameState.phase state with
  | ready_to_play =>
      put (GameState.set_currentQuestionActive true
             (GameState.set_scrollProgress 0
                (GameState.set_phaseStartTime perfNow
                   (GameState.set_phase auto_fly state))))
  | game_over =>
      put (GameState.set_pipes
             (filter (fun p => Pipe.x p >? 100) (GameState.pipes state))
             (GameState.set_bird
                (Bird.set_velocity 0
                   (Bird.set_y centerY (GameState.bird state)))
                (GameState.set_phaseStartTime perfNow
                   (GameState.set_phase playing state))))
  | chapter_complete =>
      if (Z.of_nat (GameState.chapterIndex state)
          <? Z.of_nat (length chapters) - 1)%Z
      then
        put (GameState.set_currentQuestionActive false
               (GameState.set_pipesSinceLastQuestion
                  NORMAL_PIPES_BETWEEN_QUESTIONS
                  (GameState.set_pipes []
                     (GameState.set_scrollProgress 0
                        (GameState.set_phaseStartTime perfNow
                           (GameState.set_phase chapter_intro
                              (GameState.set_questionIndex 0%nat
                                 (GameState.set_chapterIndex
                                    (S (GameState.chapterIndex state))
                                    state))))))))
      else
        put (GameState.set_scrollProgress 0
               (GameState.set_phaseStartTime perfNow
                  (GameState.set_phase game_complete state)))
  | game_complete =>
      put (GameState.mk chapter_intro (Bird.mk centerY 0 0) [] 0 0
                        (createInitialScore chapters) 0
                        NORMAL_PIPES_BETWEEN_QUESTIONS false 0 perfNow 0 0)
  | _ => jump dateNow c
  end.

(** *** Runs of the component *)

Inductive Event :=
| AssetsLoaded (now : Q)
| Frame (currentTime random : Q)
| Input (perfNow : Q) (dateNow : Z).

Definition handle (e : Event) (c : Component.t) : option Component.t :=
  match e with
  | AssetsLoaded now => Some (onAssetsLoaded now c)
  | Frame currentTime random => gameLoop currentTime random c
  | Input perfNow dateNow => Some (handleCanvasClick perfNow dateNow c)
  end.

Fixpoint run (events : list Event) (c : Component.t) : option Component.t :=
  match events with
  | [] => Some c
  | e :: rest =>
      match handle e c with
      | Some c' => run rest c'
      | None => None
      end
  end.

(** What the host guarantees of an event: the assets load once; frames run
    only once they are loaded, with time stamps that do not go back and a
    [Math.random()] in [[0, 1)]. *)
Definition admissible (e : Event) (c : Component.t) : Prop :=
  match e with
  | AssetsLoaded _ => Component.assetsLoaded c = false
  | Frame currentTime random =>
      Component.assetsLoaded c = true
      /\ (Component.lastFrameTimeRef c <= currentTime)%Q
      /\ (0 <= random)%Q /\ (random < 1)%Q
  | Input _ _ => True
  end.

Inductive reachable : Component.t -> Prop :=
| reachable_init : reachable initialComponent
| reachable_step : forall e c c',
    reachable c -> admissible e c -> handle e c = Some c' -> reachable c'.

End QuizGame.

(* ------------------------------------------------------------------ *)
(** ** More of the source: functions beside the frame loop *)

(** *** quiz-game.tsx: [updateScale] (lines 163-170) *)

(** The scale [updateScale] sets for a window of inner size [innerWidth] by
    [innerHeight]. *)
Definition updateScale (innerWidth innerHeight : Q) : Q :=
  if innerWidth <? 768 then
    let scaleX := innerWidth / CANVAS_WIDTH in
    let scaleY := innerHeight / CANVAS_HEIGHT in
    Num.Math_max scaleX scaleY
  else 1.

(** *** quiz-game.tsx: [wrapText] (lines 275-292) *)

(** [text.split(" ")]: the pieces between the spaces, empty ones too. *)
Fixpoint splitOnSpace (text : string) : list string :=
  match text with
  | EmptyString => [EmptyString]
  | String c rest =>
      if Ascii.eqb c " " then EmptyString :: splitOnSpace rest
      else
        match splitOnSpace rest with
        | word :: words => String c word :: words
        | [] => [String c EmptyString]
        end
  end.

(** A string is truthy when it is not empty. *)
Definition nonEmpty (s : string) : bool :=
  match s with EmptyString => false | String _ _ => true end.

(** One round of the loop over the words; [measureText] is the width
    [ctx.measureText] gives. *)
Definition wrapWord (measureText : string -> Q) (maxWidth : Q)
    (acc : list string * string) (word : string) : list string * string :=
  let (lines, currentLine) := acc in
  let testLine :=
    if nonEmpty currentLine then (currentLine ++ " " ++ word)%string
    else word in
  if (measureText testLine >? maxWidth) && nonEmpty currentLine
  then ((lines ++ [currentLine])%list, word)
  else (lines, testLine).

Definition wrapText (measureText : string -> Q) (text : string) (maxWidth : Q)
  : list string :=
  let (lines, currentLine) :=
    fold_left (wrapWord measureText maxWidth) (splitOnSpace text)
              ([], EmptyString) in
  if nonEmpty currentLine then (lines ++ [currentLine])%list else lines.

(** *** game-data.ts: [validateChapters] (lines 250-281) *)

(** The values an [unknown] may hold; numbers are the finite ones. *)
#[local] Unset Elimination Schemes.
Inductive JsValue :=
| JsUndefined
| JsNull
| JsBoolean (b : bool)
| JsNumber (n : Q)
| JsString (s : string)
| JsFunction
| JsArray (items : list JsValue)
| JsObject (props : list (string * JsValue)).
#[local] Set Elimination Schemes.

Definition typeof (v : JsValue) : string :=
  match v with
  | JsUndefined => "undefined"
  | JsNull => "object"
  | JsBoolean _ => "boolean"
  | JsNumber _ => "number"
  | JsString _ => "string"
  | JsFunction => "function"
  | JsArray _ => "object"
  | JsObject _ => "object"
  end.

Definition Array_isArray (v : JsValue) : bool :=
  match v with JsArray _ => true | _ => false end.

Definition isNull (v : JsValue) : bool :=
  match v with JsNull => true | _ => false end.

Fixpoint lookup (key : string) (props : list (string * JsValue)) : JsValue :=
  match props with
  | [] => JsUndefined
  | (k, v) :: rest => if String.eqb k key then v else lookup key rest
  end.

(** [v.key] for a value that is an object and not [null]: a property of an
    object; an array has none of the names read here. *)
Definition get (v : JsValue) (key : string) : JsValue :=
  match v with
  | JsObject props => lookup key props
  | _ => JsUndefined
  end.

Definition validQuestion (question : JsValue) : bool :=
  if negb (String.eqb (typeof question) "object") || isNull question then false
  else
    let q := question in
    String.eqb (typeof (get q "id")) "string"
    && String.eqb (typeof (get q "text")) "string"
    && String.eqb (typeof (get q "answer")) "boolean"
    && String.eqb (typeof (get q "feedbackCorrect")) "string"
    && String.eqb (typeof (get q "feedbackWrong")) "string".

Definition validChapter (chapter : JsValue) : bool :=
  if negb (String.eqb (typeof chapter) "object") || isNull chapter then false
  else
    let c := chapter in
    if negb (String.eqb (typeof (get c "id")) "string")
       || negb (String.eqb (typeof (get c "number")) "number")
       || negb (String.eqb (typeof (get c "title")) "string")
       || negb (String.eqb (typeof (get c "subtitle")) "string")
       || negb (String.eqb (typeof (get c "description")) "string")
       || negb (Array_isArray (get c "questions"))
    then false
    else
      match get c "questions" with
      | JsArray questions => forallb validQuestion questions
      | _ => false
      end.

Definition validateChapters (chapters : JsValue) : bool :=
  match chapters with
  | JsArray items => forallb validChapter items
  | _ => false
  end.

(** The values of the types [Question], [Chapter] and [Chapter[]]
    (lines 7-22) as objects. *)
Definition questionToJs (q : Question.t) : JsValue :=
  JsObject [("id", JsString (Question.id q));
            ("text", JsString (Question.text q));
            ("answer", JsBoolean (Question.answer q));
            ("feedbackCorrect", JsString (Question.feedbackCorrect q));
            ("feedbackWrong", JsString (Question.feedbackWrong q))]%string.

Definition chapterToJs (c : Chapter.t) : JsValue :=
  JsObject [("id", JsString (Chapter.id c));
            ("number", JsNumber (inject_Z (Chapter.number c)));
            ("title", JsString (Chapter.title c));
            ("subtitle", JsString (Chapter.subtitle c));
            ("description", JsString (Chapter.description c));
            ("questions", JsArray (map questionToJs (Chapter.questions c)))
           ]%string.

Definition chaptersToJs (chapters : list Chapter.t) : JsValue :=
  JsArray (map chapterToJs chapters).

(** *** game-data.ts: [SAMPLE_GAME_DATA] (lines 109-221) and [getGameData]
    (lines 231-234) *)

Definition SAMPLE_GAME_DATA : list Chapter.t :=
  [ Chapter.mk "border-immigration" 1 "BORDER SECURITY" "& IMMIGRATION"
      "California's proposed changes to sanctuary laws"
      [ Question.mk "q1-1"
          "The Border Security Initiative would END California's sanctuary state status"
          true
          "Correct! It would fully repeal sanctuary laws"
          "Actually, it WOULD end sanctuary status statewide";
        Question.mk "q1-2"
          "California currently has state guard deployed at the southern border"
          false
          "Right! The initiative would START this deployment"
          "No troops currently - the measure would deploy them";
        Question.mk "q1-3"
          "The initiative would cut state welfare funding for undocumented immigrants"
          true
          "Correct! It revokes state and local welfare funding"
          "Yes, it would immediately revoke welfare program funding";
        Question.mk "q1-4"
          "This initiative has already qualified for the 2026 ballot"
          false
          "Right! Still collecting signatures"
          "Not yet - needs 875,000 valid signatures first" ];
    Chapter.mk "taxes-economy" 2 "TAXES" "& ECONOMY"
      "Proposed changes to California's tax system"
      [ Question.mk "q2-1"
          "The Wealth Tax would apply to income over $50,000 per year"
          false
          "Right! It's $50 MILLION, not thousand"
          "Actually $50 MILLION - only ultra-wealthy";
        Question.mk "q2-2"
          "The Wealth Tax would raise approximately $12 billion annually"
          true
          "Correct! Projected $12B per year"
          "Yes - estimated $12 billion in new revenue";
        Question.mk "q2-3"
          "Revenue from the Wealth Tax must be spent on education and healthcare"
          true
          "Yes! Funds are earmarked for schools & health"
          "Actually YES - it's restricted to education/healthcare";
        Question.mk "q2-4"
          "The tax rate would be 1.5% on qualifying income"
          true
          "Correct! 1.5% annual tax on $50M+ income"
          "Yes - 1.5% on income above the threshold" ];
    Chapter.mk "housing-elections" 3 "HOUSING" "& ELECTIONS"
      "Rent control and voting changes for 2026"
      [ Question.mk "q3-1"
          "The Rent Control measure would cap increases at 5% per year statewide"
          true
          "Correct! 5% annual cap for all rentals"
          "Yes - 5% maximum annual increase";
        Question.mk "q3-2"
          "California currently requires photo ID to vote in all elections"
          false
          "Right! CA doesn't currently require photo ID"
          "No - this would be a NEW requirement";
        Question.mk "q3-3"
          "The Voter ID initiative would require ID for mail-in ballots as well"
          true
          "Yes! Last 4 digits of ID number required"
          "Yes - mail ballots would need ID number too";
        Question.mk "q3-4"
          "Rent control would apply to all housing, including single-family homes"
          true
          "Correct! All rental properties statewide"
          "Yes - includes single-family rentals too" ] ]%string.

Definition getGameData (topics : option (list string)) : list Chapter.t :=
  SAMPLE_GAME_DATA.

(** *** quiz-game.tsx: the chapters the component holds (line 128) *)

(** [propChapters && propChapters.length > 0 ? propChapters
    : getGameData(topics)]; an absent prop is [None]. *)
Definition initialChapters (propChapters : option (list Chapter.t))
    (topics : list string) : list Chapter.t :=
  match propChapters with
  | Some chapters =>
      if (0 <? length chapters)%nat then chapters
      else getGameData (Some topics)
  | None => getGameData (Some topics)
  end.

(** *** onboarding-flow.tsx: [toggleTopic] (lines 142-151) *)

(** The [topics] the state update of [toggleTopic] leaves. *)
Definition toggleTopic (topicId : string) (topics : list string)
  : list string :=
  if existsb (String.eqb topicId) topics then
    filter (fun t => negb (String.eqb t topicId)) topics
  else if (length topics <? 3)%nat then (topics ++ [topicId])%list
  else topics.

(* ================================================================== *)
(** * Properties *)

(** ** Numbers: the booleans and the reduced operations *)

Module NumFacts.

Lemma ltb_lt a b : (a <? b) = true <-> a < b.
Proof.
  unfold Num.ltb. rewrite negb_true_iff. split; intro H.
  - apply Qnot_le_lt. intro L. apply Qle_bool_iff in L. congruence.
  - destruct (Qle_bool b a) eqn:E; auto. apply Qle_bool_iff in E. lra.
Qed.

Lemma ltb_ge a b : (a <? b) = false <-> b <= a.
Proof.
  unfold Num.ltb. rewrite negb_false_iff. apply Qle_bool_iff.
Qed.

Lemma gtb_lt a b : (a >? b) = true <-> b < a.
Proof. apply ltb_lt. Qed.

Lemma gtb_le a b : (a >? b) = false <-> a <= b.
Proof. apply ltb_ge. Qed.

Lemma geb_le a b : (a >=? b) = true <-> b <= a.
Proof. apply Qle_bool_iff. Qed.

Lemma geb_gt a b : (a >=? b) = false <-> a < b.
Proof.
  unfold Num.geb. split; intro H.
  - apply Qnot_le_lt. intro L. apply Qle_bool_iff in L. congruence.
  - destruct (Qle_bool b a) eqn:E; auto. apply Qle_bool_iff in E. lra.
Qed.

Lemma eqb_eq a b : (a =? b) = true <-> a == b.
Proof. apply Qeq_bool_iff. Qed.

Lemma add_eq a b : (a + b)%js == (a + b)%Q.
Proof. apply Qred_correct. Qed.
Lemma sub_eq a b : (a - b)%js == (a - b)%Q.
Proof. apply Qred_correct. Qed.
Lemma mul_eq a b : (a * b)%js == (a * b)%Q.
Proof. apply Qred_correct. Qed.
Lemma div_eq a b : (a / b)%js == (a / b)%Q.
Proof. apply Qred_correct. Qed.
Lemma neg_eq a : (- a)%js == (- a)%Q.
Proof. apply Qred_correct. Qed.

Lemma Math_min_le_l a b : Num.Math_min a b <= a.
Proof.
  unfold Num.Math_min. destruct (b <? a) eqn:E.
  - apply ltb_lt in E. lra.
  - lra.
Qed.

Lemma Math_min_le_r a b : Num.Math_min a b <= b.
Proof.
  unfold Num.Math_min. destruct (b <? a) eqn:E.
  - lra.
  - apply ltb_ge in E. lra.
Qed.

Lemma Math_min_glb a b c : c <= a -> c <= b -> c <= Num.Math_min a b.
Proof. unfold Num.Math_min. destruct (b <? a); auto. Qed.

End NumFacts.

(** Turns the boolean tests of the context into order facts of [Q]. *)
Ltac num_bools :=
  repeat match goal with
    | H : (_ && _) = true |- _ => apply andb_prop in H; destruct H
    | H : (_ || _) = false |- _ => apply orb_false_elim in H; destruct H
    | H : negb _ = true |- _ => apply negb_true_iff in H
    | H : negb _ = false |- _ => apply negb_false_iff in H
    | H : Num.ltb _ _ = true |- _ => apply NumFacts.ltb_lt in H
    | H : Num.ltb _ _ = false |- _ => apply NumFacts.ltb_ge in H
    | H : Num.gtb _ _ = true |- _ => apply NumFacts.gtb_lt in H
    | H : Num.gtb _ _ = false |- _ => apply NumFacts.gtb_le in H
    | H : Num.geb _ _ = true |- _ => apply NumFacts.geb_le in H
    | H : Num.geb _ _ = false |- _ => apply NumFacts.geb_gt in H
    | H : Num.eqb _ _ = true |- _ => apply NumFacts.eqb_eq in H
    end.

(** Strips the reductions to lowest terms, so that [lra] sees plain
    arithmetic of [Q]. *)
Ltac num_plain :=
  unfold Num.add, Num.sub, Num.mul, Num.div, Num.neg in *;
  repeat match goal with
    | H : context [Qred _] |- _ => setoid_rewrite Qred_correct in H
    | |- context [Qred _] => setoid_rewrite Qred_correct
    end.

Ltac unfold_consts :=
  unfold centerY, PIPE_SPAWN_X, PIPE_AREA_BOTTOM, SCROLL_Y, PIPE_AREA_TOP,
    PLAY_AREA_BOTTOM, PLAY_AREA_TOP, CANVAS_HEIGHT, CANVAS_WIDTH, SCROLL_HEIGHT,
    PIPE_WIDTH, PIPE_SPEED, BIRD_WIDTH, BIRD_HEIGHT, PIPE_GAP_NORMAL,
    SLOT_HEIGHT, MIDDLE_PIPE_HEIGHT, GRAVITY, JUMP_STRENGTH, MAX_DELTA_TIME,
    TARGET_FPS in *.

Ltac num_lra := num_bools; unfold_consts; num_plain; lra.

(** ** Runs that are checked to be admissible, and a game to run *)

Definition admissibleb (e : Event) (c : Component.t) : bool :=
  match e with
  | AssetsLoaded _ => negb (Component.assetsLoaded c)
  | Frame currentTime random =>
      Component.assetsLoaded c
      && Qle_bool (Component.lastFrameTimeRef c) currentTime
      && Qle_bool 0 random && (random <? 1)
  | Input _ _ => true
  end.

Lemma admissibleb_sound e c : admissibleb e c = true -> admissible e c.
Proof.
  destruct e as [now | currentTime random | perfNow dateNow]; cbn.
  - apply negb_true_iff.
  - intro H. apply andb_prop in H. destruct H as [H H4].
    apply andb_prop in H. destruct H as [H H3].
    apply andb_prop in H. destruct H as [H1 H2].
    repeat split; auto; try now apply Qle_bool_iff.
    now apply NumFacts.ltb_lt.
  - trivial.
Qed.

Section CheckedRuns.

Variable Math_sin : Q -> Q.
Variable chapters : list Chapter.t.

Fixpoint runChecked (events : list Event) (c : Component.t)
  : option Component.t :=
  match events with
  | [] => Some c
  | e :: rest =>
      if admissibleb e c then
        match handle Math_sin chapters e c with
        | Some c' => runChecked rest c'
        | None => None
        end
      else None
  end.

Lemma runChecked_reachable events : forall c c',
  reachable Math_sin chapters c ->
  runChecked events c = Some c' -> reachable Math_sin chapters c'.
Proof.
  induction events as [| e rest IH]; intros c c' Hr Hrun; cbn in Hrun.
  - inversion Hrun; subst. exact Hr.
  - destruct (admissibleb e c) eqn:Ha; [| discriminate].
    destruct (handle Math_sin chapters e c) as [c1 |] eqn:Hh; [| discriminate].
    apply (IH c1); [| exact Hrun].
    eapply reachable_step; eauto. now apply admissibleb_sound.
Qed.

Lemma runChecked_run events : forall c c',
  runChecked events c = Some c' -> run Math_sin chapters events c = Some c'.
Proof.
  induction events as [| e rest IH]; intros c c' Hrun; cbn in *; [exact Hrun |].
  destruct (admissibleb e c); [| discriminate].
  destruct (handle Math_sin chapters e c) as [c1 |]; [| discriminate]. auto.
Qed.

End CheckedRuns.

(** A game of one chapter with one question whose answer is YES, and a host
    sine to run it with. *)
Definition yesQuestion : Question.t :=
  Question.mk "q1" "The measure caps rent increases" true "Correct!" "No".

Definition housingChapter : Chapter.t :=
  Chapter.mk "housing" 1 "HOUSING" "& ELECTIONS" "Rent control" [yesQuestion].

Definition singleQuestionGame : list Chapter.t := [housingChapter].

Definition flatSine (_ : Q) : Q := 0.

(** Loading ends, the intro elapses, the player taps, the auto-fly elapses:
    the first question pipe is on screen. *)
Definition openingEvents : list Event :=
  [AssetsLoaded 0; Frame 3001 0; Input 3002 3002; Frame 7002 0].

Definition afterOpening : Component.t :=
  Eval vm_compute in
    match runChecked flatSine singleQuestionGame openingEvents
                     (initialComponent singleQuestionGame) with
    | Some c => c
    | None => initialComponent singleQuestionGame
    end.

Lemma openingEvents_run :
  runChecked flatSine singleQuestionGame openingEvents
             (initialComponent singleQuestionGame) = Some afterOpening.
Proof. vm_compute. reflexivity. Qed.

Lemma afterOpening_reachable : reachable flatSine singleQuestionGame afterOpening.
Proof.
  exact (runChecked_reachable flatSine singleQuestionGame openingEvents _ _
           (reachable_init flatSine singleQuestionGame) openingEvents_run).
Qed.

(** [n] frames 1000/60 ms apart, numbered from [k], frame [k] at
    [start + k * 50/3]; the player taps just before the frames whose numbers
    are in [taps]. *)
Fixpoint flightEvents (start : Q) (date : Z) (taps : list Z) (k : Z) (n : nat)
  : list Event :=
  match n with
  | O => []
  | S m =>
      (if existsb (Z.eqb k) taps
       then [Input (start + inject_Z k * (50 # 3) - 1) (date + 17 * k)%Z]
       else [])
      ++ Frame (start + inject_Z k * (50 # 3)) 0
      :: flightEvents start date taps (k + 1)%Z m
  end.

(** Two flights of frames 1000/60 ms apart after [openingEvents], one for a
    bird that starts between 171 and 211, one for a bird that starts between
    211 and 251: five taps carry it into the YES slot, where the answer is
    chosen in frame 113, and keep it there until the pipe is passed in frame
    156. *)
Definition lowFlight (k : Z) (n : nat) : list Event :=
  flightEvents 7002 7002 [27; 55; 75; 105; 132]%Z k n.

Definition highFlight (k : Z) (n : nat) : list Event :=
  flightEvents 7002 7002 [20; 55; 83; 105; 132]%Z k n.

(** Two more states of that run.  In the first the player has tapped once,
    at [Date.now() = 1000], and one frame has passed; in the second a flight
    of 112 frames has ended in the lower part of the question pipe. *)
Definition flyingComponent : Component.t :=
  Eval vm_compute in
    match runChecked flatSine singleQuestionGame
                     [Input 7010 1000; Frame (7002 + (50 # 3)) 0]
                     afterOpening with
    | Some c => c
    | None => afterOpening
    end.

Lemma flyingComponent_reachable :
  reachable flatSine singleQuestionGame flyingComponent.
Proof.
  apply (runChecked_reachable flatSine singleQuestionGame
           [Input 7010 1000; Frame (7002 + (50 # 3)) 0] afterOpening);
    [exact afterOpening_reachable | vm_compute; reflexivity].
Qed.

Definition crashedComponent : Component.t :=
  Eval vm_compute in
    match runChecked flatSine singleQuestionGame
                     (flightEvents 7002 7002 [1; 23; 57]%Z 1 112)
                     afterOpening with
    | Some c => c
    | None => afterOpening
    end.

Lemma crashedComponent_reachable :
  reachable flatSine singleQuestionGame crashedComponent.
Proof.
  apply (runChecked_reachable flatSine singleQuestionGame
           (flightEvents 7002 7002 [1; 23; 57]%Z 1 112) afterOpening);
    [exact afterOpening_reachable | vm_compute; reflexivity].
Qed.

(** ** Question pipe geometry (C4) *)

(** The four edges of the pipe [createQuestionPipe] builds. *)
Lemma createQuestionPipe_edges :
  Pipe.topPipeBottom createQuestionPipe = Some 36
  /\ Pipe.middlePipeTop createQuestionPipe = Some 196
  /\ Pipe.middlePipeBottom createQuestionPipe = Some 226
  /\ Pipe.bottomPipeTop createQuestionPipe = Some 386.
Proof. repeat split; vm_compute; reflexivity. Qed.

(** C4, as the spec states it, fails: the height of the YES slot of the pipe
    [createQuestionPipe] builds ([middlePipeTop - topPipeBottom], 160) is not
    greater than the gap of a normal pipe ([PIPE_GAP_NORMAL], 200). *)
Lemma C4_slot_not_larger_than_gap :
  ~ (PIPE_GAP_NORMAL
     < Num.orZero (Pipe.middlePipeTop createQuestionPipe)
       - Num.orZero (Pipe.topPipeBottom createQuestionPipe)).
Proof. vm_compute. intro H. discriminate H. Qed.

(** C4 (amended): the question pipe [createQuestionPipe] builds has
    [topPipeBottom < middlePipeTop < middlePipeBottom < bottomPipeTop], its
    two slots have the same height [SLOT_HEIGHT], and that height is strictly
    smaller than the gap [PIPE_GAP_NORMAL] of a normal pipe. *)
Theorem C4_question_pipe_geometry :
  exists topEdge midTop midBottom bottomEdge : Q,
    Pipe.type createQuestionPipe = question
    /\ Pipe.topPipeBottom createQuestionPipe = Some topEdge
    /\ Pipe.middlePipeTop createQuestionPipe = Some midTop
    /\ Pipe.middlePipeBottom createQuestionPipe = Some midBottom
    /\ Pipe.bottomPipeTop createQuestionPipe = Some bottomEdge
    /\ topEdge < midTop /\ midTop < midBottom /\ midBottom < bottomEdge
    /\ midTop - topEdge == bottomEdge - midBottom
    /\ midTop - topEdge == SLOT_HEIGHT
    /\ SLOT_HEIGHT < PIPE_GAP_NORMAL.
Proof.
  exists 36, 196, 226, 386.
  repeat split; vm_compute; reflexivity.
Qed.

(** ** Retry after a crash (C7) *)

(** C7: an input in the [game_over] phase puts the phase back to [playing],
    the bird at the centre of the pipe band with velocity 0, and keeps exactly
    the pipes with [x > 100]; chapter and question indices, the score
    aggregate and [displayScore] (and the question counters) are unchanged. *)
Theorem C7_crash_retry_frame :
  forall (chapters : list Chapter.t) (perfNow : Q) (dateNow : Z)
         (c : Component.t),
    GameState.phase (Component.gameStateRef c) = game_over ->
    let s := Component.gameStateRef c in
    let s' := Component.gameStateRef
                (handleCanvasClick chapters perfNow dateNow c) in
    GameState.phase s' = playing
    /\ Bird.y (GameState.bird s') = centerY
    /\ centerY == (PIPE_AREA_TOP + PIPE_AREA_BOTTOM) / 2
    /\ Bird.velocity (GameState.bird s') = 0
    /\ (forall p, In p (GameState.pipes s')
                  <-> In p (GameState.pipes s) /\ 100 < Pipe.x p)
    /\ GameState.chapterIndex s' = GameState.chapterIndex s
    /\ GameState.questionIndex s' = GameState.questionIndex s
    /\ GameState.score s' = GameState.score s
    /\ GameState.displayScore s' = GameState.displayScore s
    /\ GameState.pipesSinceLastQuestion s' = GameState.pipesSinceLastQuestion s
    /\ GameState.currentQuestionActive s' = GameState.currentQuestionActive s.
Proof.
  intros chapters perfNow dateNow c Hphase s s'.
  subst s s'. unfold handleCanvasClick. rewrite Hphase. cbn.
  split; [reflexivity |]. split; [reflexivity |].
  split; [vm_compute; reflexivity |]. split; [reflexivity |].
  split; [| repeat split; reflexivity].
  intro p. rewrite filter_In. rewrite NumFacts.gtb_lt. reflexivity.
Qed.

Lemma C7_crash_retry_frame_witness :
  reachable flatSine singleQuestionGame crashedComponent
  /\ map Pipe.x (GameState.pipes (Component.gameStateRef crashedComponent))
     = [84]
  /\ GameState.pipes
       (Component.gameStateRef
          (handleCanvasClick singleQuestionGame 9200 9200 crashedComponent))
     = []
  /\ GameState.displayScore
       (Component.gameStateRef
          (handleCanvasClick singleQuestionGame 9200 9200 crashedComponent))
     = GameState.displayScore (Component.gameStateRef crashedComponent).
Proof.
  split; [exact crashedComponent_reachable |].
  split; [reflexivity |]. split; [vm_compute; reflexivity |].
  apply (C7_crash_retry_frame singleQuestionGame 9200 9200 crashedComponent).
  reflexivity.
Defined.

(** ** Jump cooldown (C8) *)

Section Cooldown.

Variable Math_sin : Q -> Q.
Variable chapters : list Chapter.t.

(** Events that may come between two jump inputs at [t1] and [t2]: frames,
    the end of loading, and inputs whose [Date.now()] lies between them. *)
Definition between (t1 t2 : Z) (e : Event) : Prop :=
  match e with
  | Input _ dateNow => (t1 <= dateNow <= t2)%Z
  | _ => True
  end.

Lemma gameLoop_lastJumpTimeRef currentTime random c c' :
  gameLoop Math_sin chapters currentTime random c = Some c' ->
  Component.lastJumpTimeRef c' = Component.lastJumpTimeRef c.
Proof.
  unfold gameLoop.
  destruct (framePhase _ _ _ _ _ _); intro H; inversion H; reflexivity.
Qed.

Lemma jump_ignored now c :
  jumpAccepted now c = false -> jump now c = c.
Proof.
  unfold jumpAccepted, jump. intro H. apply negb_false_iff in H.
  now rewrite H.
Qed.

Lemma jump_accepted_ref now c :
  jumpAccepted now c = true ->
  Component.lastJumpTimeRef (jump now c) = now.
Proof.
  unfold jumpAccepted, jump. intro H. apply negb_true_iff in H.
  now rewrite H.
Qed.

Lemma handleCanvasClick_within_cooldown t1 t2 perfNow dateNow c :
  Component.lastJumpTimeRef c = t1 ->
  (t2 - t1 < JUMP_COOLDOWN)%Z -> (t1 <= dateNow <= t2)%Z ->
  Component.lastJumpTimeRef (handleCanvasClick chapters perfNow dateNow c) = t1.
Proof.
  intros Hl Hc Hd. unfold handleCanvasClick.
  assert (Hj : jump dateNow c = c).
  { apply jump_ignored. unfold jumpAccepted. apply negb_false_iff.
    apply Z.ltb_lt. lia. }
  destruct (GameState.phase (Component.gameStateRef c));
    rewrite ?Hj; try exact Hl; cbn; try exact Hl.
  destruct (_ <? _)%Z; exact Hl.
Qed.

Lemma run_within_cooldown t1 t2 events :
  (t2 - t1 < JUMP_COOLDOWN)%Z ->
  Forall (between t1 t2) events ->
  forall c c',
    Component.lastJumpTimeRef c = t1 ->
    run Math_sin chapters events c = Some c' ->
    Component.lastJumpTimeRef c' = t1.
Proof.
  intros Hc Hall. induction Hall as [| e events He _ IH]; intros c c' Hl Hrun.
  - inversion Hrun. now subst.
  - cbn in Hrun. destruct (handle Math_sin chapters e c) as [c1 |] eqn:Hh;
      [| discriminate].
    apply (IH c1); [| exact Hrun].
    destruct e as [now | currentTime random | perfNow dateNow]; cbn in Hh.
    + inversion Hh. exact Hl.
    + apply gameLoop_lastJumpTimeRef in Hh. congruence.
    + inversion Hh. now apply handleCanvasClick_within_cooldown with (t2 := t2).
Qed.

End Cooldown.

(** C8, as the spec states it, fails.  In [flyingComponent] the last
    accepted jump was at 1000: of the jump inputs at 1100 and 1200, less than
    150 ms apart, the first is ignored (it is within the cooldown of the jump
    at 1000) and the second one, not ignored, sets the velocity. *)
Lemma C8_second_jump_not_ignored :
  reachable flatSine singleQuestionGame flyingComponent
  /\ (1200 - 1100 < JUMP_COOLDOWN)%Z
  /\ jump 1100 flyingComponent = flyingComponent
  /\ jumpAccepted 1200 (jump 1100 flyingComponent) = true
  /\ Bird.velocity
       (GameState.bird
          (Component.gameStateRef (jump 1200 (jump 1100 flyingComponent))))
     = - JUMP_STRENGTH
  /\ ~ Bird.velocity
         (GameState.bird
            (Component.gameStateRef (jump 1200 (jump 1100 flyingComponent))))
       == Bird.velocity (GameState.bird (Component.gameStateRef flyingComponent)).
Proof.
  split; [exact flyingComponent_reachable |].
  repeat split; try (vm_compute; reflexivity).
  vm_compute. intro H. discriminate H.
Qed.

(** C8 (amended): of two jump inputs at [t1 <= t2] less than [JUMP_COOLDOWN]
    (150 ms) apart, when the first gets past the cooldown test (it comes at
    least 150 ms after the last accepted jump) the second is ignored: it
    leaves the whole component state as it is, whatever frames and inputs
    came between the two; and the first sets the velocity to
    [-JUMP_STRENGTH] when the phase is [playing] or [question_preview]. *)
Theorem C8_jump_cooldown :
  forall (Math_sin : Q -> Q) (chapters : list Chapter.t)
         (t1 t2 : Z) (events : list Event) (c c' : Component.t),
    (t1 <= t2)%Z -> (t2 - t1 < JUMP_COOLDOWN)%Z ->
    jumpAccepted t1 c = true ->
    Forall (between t1 t2) events ->
    run Math_sin chapters events (jump t1 c) = Some c' ->
    jumpAccepted t2 c' = false
    /\ jump t2 c' = c'
    /\ (GameState.phase (Component.gameStateRef c) = playing
        \/ GameState.phase (Component.gameStateRef c) = question_preview ->
        Bird.velocity (GameState.bird (Component.gameStateRef (jump t1 c)))
        = - JUMP_STRENGTH).
Proof.
  intros Math_sin chapters t1 t2 events c c' Ht Hc Hacc Hev Hrun.
  assert (Hl : Component.lastJumpTimeRef c' = t1).
  { apply (run_within_cooldown Math_sin chapters t1 t2 events Hc Hev
             (jump t1 c)); [| exact Hrun].
    now apply jump_accepted_ref. }
  assert (Hn : jumpAccepted t2 c' = false).
  { unfold jumpAccepted. rewrite Hl. apply negb_false_iff.
    apply Z.ltb_lt. exact Hc. }
  split; [exact Hn |]. split; [now apply jump_ignored |].
  unfold jumpAccepted in Hacc. apply negb_true_iff in Hacc.
  unfold jump. rewrite Hacc. intros [Hp | Hp]; rewrite Hp; reflexivity.
Qed.

Lemma C8_jump_cooldown_witness :
  jumpAccepted 1150 flyingComponent = true
  /\ jumpAccepted 1200 (jump 1150 flyingComponent) = false.
Proof.
  split; [reflexivity |].
  refine (proj1 (C8_jump_cooldown flatSine singleQuestionGame 1150 1200 []
                   flyingComponent (jump 1150 flyingComponent) _ _ _ _ _)).
  - lia.
  - reflexivity.
  - reflexivity.
  - constructor.
  - reflexivity.
Defined.

(** ** The loop bodies on one pipe *)

Definition questionGeometry (p : Pipe.t) : Prop :=
  Pipe.type p = question
  /\ Pipe.topPipeBottom p = Pipe.topPipeBottom createQuestionPipe
  /\ Pipe.middlePipeTop p = Pipe.middlePipeTop createQuestionPipe
  /\ Pipe.middlePipeBottom p = Pipe.middlePipeBottom createQuestionPipe
  /\ Pipe.bottomPipeTop p = Pipe.bottomPipeTop createQuestionPipe.

(** The bird's vertical span lies strictly inside the YES (upper) slot,
    respectively the NO (lower) slot, of the pipe. *)
Definition inYesSlot (bird : Bird.t) (p : Pipe.t) : Prop :=
  Num.orZero (Pipe.topPipeBottom p) < Bird.y bird
  /\ Bird.y bird + BIRD_HEIGHT < Num.orZero (Pipe.middlePipeTop p).

Definition inNoSlot (bird : Bird.t) (p : Pipe.t) : Prop :=
  Num.orZero (Pipe.middlePipeBottom p) < Bird.y bird
  /\ Bird.y bird + BIRD_HEIGHT < Num.orZero (Pipe.bottomPipeTop p).

(** The pipe and the bird overlap horizontally (line 1066). *)
Definition overBird (p : Pipe.t) : Prop :=
  Pipe.x p < 50 + BIRD_WIDTH /\ 50 < Pipe.x p + PIPE_WIDTH.

(** The pipe's right edge is left of the bird's left edge (line 1032). *)
Definition behindBird (p : Pipe.t) : Prop := Pipe.x p + PIPE_WIDTH < 50.

Lemma checkCollision_behind bird p :
  behindBird p -> checkCollision bird p = false.
Proof.
  unfold behindBird, checkCollision. intro H.
  assert (E : (50 >? Pipe.x p + PIPE_WIDTH) = true).
  { apply NumFacts.gtb_lt. num_lra. }
  rewrite E, orb_true_r. reflexivity.
Qed.

Lemma ltb_of_lt a b : a < b -> (a <? b) = true.
Proof. apply NumFacts.ltb_lt. Qed.
Lemma ltb_of_ge a b : b <= a -> (a <? b) = false.
Proof. apply NumFacts.ltb_ge. Qed.

Lemma checkCollision_in_slot bird p :
  questionGeometry p -> inYesSlot bird p \/ inNoSlot bird p ->
  checkCollision bird p = false.
Proof.
  intros (Ht & G1 & G2 & G3 & G4) Hs.
  destruct createQuestionPipe_edges as (E1 & E2 & E3 & E4).
  unfold inYesSlot, inNoSlot in Hs. unfold checkCollision.
  rewrite Ht, G1, G2, G3, G4, E1, E2, E3, E4 in *. cbn [Num.orZero] in *.
  destruct (_ || _); [reflexivity |].
  unfold Num.gtb.
  destruct Hs as [[H1 H2] | [H1 H2]].
  - rewrite (ltb_of_ge (Bird.y bird) 36) by lra.
    rewrite (ltb_of_ge 196 (Bird.y bird + BIRD_HEIGHT)) by num_lra.
    rewrite andb_false_r.
    rewrite (ltb_of_ge 386 (Bird.y bird + BIRD_HEIGHT)) by num_lra.
    reflexivity.
  - rewrite (ltb_of_ge (Bird.y bird) 36) by lra.
    rewrite (ltb_of_ge (Bird.y bird) 226) by lra.
    rewrite andb_false_l.
    rewrite (ltb_of_ge 386 (Bird.y bird + BIRD_HEIGHT)) by num_lra.
    reflexivity.
Qed.

Lemma passThrough_not_behind currentTime currentChapter p s :
  ~ behindBird p ->
  passThrough currentTime currentChapter p s = Some (p, s, Continue).
Proof.
  unfold behindBird, passThrough. intro H.
  rewrite (ltb_of_ge (Pipe.x p + PIPE_WIDTH) 50) by num_lra.
  rewrite andb_false_r. reflexivity.
Qed.

Lemma bumpCorrect_spec i : forall l cs,
  nth_error l i = Some cs ->
  exists l',
    bumpCorrect i l = Some l'
    /\ nth_error l' i
       = Some (ChapterScore.mk (ChapterScore.correct cs + 1)
                               (ChapterScore.total cs))
    /\ (forall j, j <> i -> nth_error l' j = nth_error l j)
    /\ length l' = length l.
Proof.
  induction i as [| i IH]; intros [| c l] cs H; try discriminate.
  - cbn in H. inversion H; subst. eexists. cbn.
    split; [reflexivity |]. split; [reflexivity |]. split; [| reflexivity].
    intros [| j] Hj; [congruence | reflexivity].
  - cbn in H. destruct (IH l cs H) as (l' & Hb & Hn & Ho & Hlen).
    exists (c :: l'). cbn. rewrite Hb.
    split; [reflexivity |]. split; [exact Hn |]. split.
    + intros [| j] Hj; [reflexivity |]. cbn. apply Ho. congruence.
    + cbn. now rewrite Hlen.
Qed.

(** The loop body of the [playing] phase, run on a question pipe that is not
    answered yet, that overlaps the bird horizontally after its move and in
    one of whose slots the bird's vertical span lies, locks the answer in
    ([questionAnswered] becomes true and no later frame scores the pipe
    again).  When the selected answer (YES = true) is the question's, the
    chapter's [correct] counter and [totalCorrect] both grow by exactly 1 and
    [displayScore] by 5; otherwise [displayScore] drops by 2 but not below 0
    and the score aggregate is unchanged. *)
Lemma playingPipe_answer :
  forall (currentTime deltaTime : Q) (currentChapter : option Chapter.t)
         (q : Question.t) (pipe : Pipe.t) (state : GameState.t)
         (cs : ChapterScore.t) (selectedYes : bool),
    questionGeometry pipe ->
    Num.truthy (Pipe.questionAnswered pipe) = false ->
    overBird (movePipe deltaTime pipe) ->
    (if selectedYes then inYesSlot (GameState.bird state) pipe
     else inNoSlot (GameState.bird state) pipe) ->
    nth_error (GameScore.chapterScores (GameState.score state))
              (GameState.chapterIndex state) = Some cs ->
    exists pipe' state',
      playingPipe currentTime deltaTime currentChapter (Some q) pipe state
      = Some (pipe', state', Continue)
      /\ Pipe.questionAnswered pipe' = Some true
      /\ (forall cq s, answerSelection cq pipe' s = Some (pipe', s))
      /\ (Question.answer q = selectedYes ->
          GameState.displayScore state' = (GameState.displayScore state + 5)%Z
          /\ GameScore.totalCorrect (GameState.score state')
             = (GameScore.totalCorrect (GameState.score state) + 1)%Z
          /\ nth_error (GameScore.chapterScores (GameState.score state'))
                       (GameState.chapterIndex state)
             = Some (ChapterScore.mk (ChapterScore.correct cs + 1)
                                     (ChapterScore.total cs))
          /\ (forall j, j <> GameState.chapterIndex state ->
                nth_error (GameScore.chapterScores (GameState.score state')) j
                = nth_error (GameScore.chapterScores (GameState.score state)) j))
      /\ (Question.answer q <> selectedYes ->
          GameState.displayScore state'
          = Z.max 0 (GameState.displayScore state - 2)
          /\ (0 <= GameState.displayScore state')%Z
          /\ GameState.score state' = GameState.score state).
Proof.
  intros currentTime deltaTime currentChapter q pipe state cs selectedYes
         HG Hna Hov Hslot Hcs.
  unfold playingPipe.
  set (p1 := movePipe deltaTime pipe) in *.
  assert (HG1 : questionGeometry p1) by exact HG.
  assert (Hslot1 : if selectedYes then inYesSlot (GameState.bird state) p1
                   else inNoSlot (GameState.bird state) p1) by exact Hslot.
  assert (Hna1 : Num.truthy (Pipe.questionAnswered p1) = false) by exact Hna.
  clearbody p1. clear HG Hslot Hna pipe.
  rewrite checkCollision_in_slot;
    [| exact HG1 | destruct selectedYes; [left | right]; exact Hslot1].
  rewrite passThrough_not_behind
    by (unfold behindBird; destruct Hov; num_lra).
  unfold answerSelection.
  destruct HG1 as (Ht & G1 & G2 & G3 & G4).
  destruct createQuestionPipe_edges as (E1 & E2 & E3 & E4).
  rewrite Ht, Hna1. cbn [PipeType_eqb negb andb].
  destruct Hov as [Ho1 Ho2].
  unfold Num.gtb at 1.
  rewrite (ltb_of_lt (Pipe.x p1) (50 + BIRD_WIDTH)) by num_lra.
  rewrite (ltb_of_lt 50 (Pipe.x p1 + PIPE_WIDTH)) by num_lra.
  cbn [andb].
  unfold inYesSlot, inNoSlot in Hslot1.
  rewrite G1, G2, G3, G4, E1, E2, E3, E4 in *. cbn [Num.orZero] in *.
  unfold Num.gtb.
  set (by_ := Bird.y (GameState.bird state)) in *.
  assert (Hyes : ((36 <? by_) && (by_ + BIRD_HEIGHT <? 196)) = selectedYes).
  { destruct selectedYes; destruct Hslot1 as [H1 H2].
    - rewrite (ltb_of_lt 36 by_) by lra.
      rewrite (ltb_of_lt (by_ + BIRD_HEIGHT) 196) by num_lra. reflexivity.
    - rewrite (ltb_of_ge (by_ + BIRD_HEIGHT) 196) by num_lra.
      apply andb_false_r. }
  assert (Hany : (((36 <? by_) && (by_ + BIRD_HEIGHT <? 196))
                  || ((226 <? by_) && (by_ + BIRD_HEIGHT <? 386))) = true).
  { destruct selectedYes; destruct Hslot1 as [H1 H2].
    - rewrite Hyes. reflexivity.
    - rewrite (ltb_of_lt 226 by_) by lra.
      rewrite (ltb_of_lt (by_ + BIRD_HEIGHT) 386) by num_lra.
      apply orb_true_r. }
  rewrite Hany, Hyes.
  assert (Hlock : forall cq s,
             answerSelection cq (Pipe.set_questionAnswered (Some true) p1) s
             = Some (Pipe.set_questionAnswered (Some true) p1, s)).
  { intros cq s. unfold answerSelection. cbn. rewrite andb_false_r.
    reflexivity. }
  destruct (bumpCorrect_spec _ _ _ Hcs) as (l' & Hb & Hn & Hoth & _).
  destruct (Bool.eqb (Question.answer q) selectedYes) eqn:Heq.
  - apply eqb_prop in Heq. unfold scoreCorrectAnswer. rewrite Hb.
    eexists _, _. split; [reflexivity |]. split; [reflexivity |].
    split; [exact Hlock |]. split.
    + intros _. cbn. repeat split; assumption.
    + intro Hne. contradiction.
  - apply eqb_false_iff in Heq.
    eexists _, _. split; [reflexivity |]. split; [reflexivity |].
    split; [exact Hlock |]. split.
    + intro He. contradiction.
    + intros _. cbn. repeat split. apply Z.le_max_l.
Qed.

(** ** Scoring is idempotent per obstacle (C6) *)

Inductive LoopBody :=
| InPlaying (currentTime deltaTime : Q) (currentChapter : option Chapter.t)
            (currentQuestion : option Question.t)
| InPreview (currentTime deltaTime : Q).

Definition loopBody (b : LoopBody)
  : Pipe.t -> GameState.t -> option (Pipe.t * GameState.t * Flow) :=
  match b with
  | InPlaying t d ch cq => playingPipe t d ch cq
  | InPreview t d => previewPipe t d
  end.

Definition bodyDelta (b : LoopBody) : Q :=
  match b with InPlaying _ d _ _ => d | InPreview _ d => d end.

(** The pipe has given what it can give: a normal pipe is passed, a question
    pipe is answered. *)
Definition spent (p : Pipe.t) : bool :=
  match Pipe.type p with
  | normal => Pipe.passed p
  | question => Num.truthy (Pipe.questionAnswered p)
  end.

(** The obstacle through its frames: each frame runs a loop body on the pipe
    as the frame before left it, in the game state of that moment; the result
    lists what each frame added to [displayScore] and to
    [pipesSinceLastQuestion]. *)
Fixpoint gains (frames : list (LoopBody * GameState.t)) (pipe : Pipe.t)
  : list (Z * Z) :=
  match frames with
  | [] => []
  | (b, s) :: rest =>
      match loopBody b pipe s with
      | None => []
      | Some (pipe', s', _) =>
          ((GameState.displayScore s' - GameState.displayScore s)%Z,
           (GameState.pipesSinceLastQuestion s'
            - GameState.pipesSinceLastQuestion s)%Z)
          :: gains rest pipe'
      end
  end.

(** Projections of updated game states. *)
Ltac gs_simpl :=
  cbn [GameState.phase GameState.bird GameState.pipes GameState.chapterIndex
       GameState.questionIndex GameState.score GameState.displayScore
       GameState.pipesSinceLastQuestion GameState.currentQuestionActive
       GameState.scrollProgress GameState.phaseStartTime GameState.frameCount
       GameState.questionPreviewProgress
       GameState.set_phase GameState.set_bird GameState.set_pipes
       GameState.set_chapterIndex GameState.set_questionIndex
       GameState.set_score GameState.set_displayScore
       GameState.set_pipesSinceLastQuestion
       GameState.set_currentQuestionActive GameState.set_scrollProgress
       GameState.set_phaseStartTime GameState.set_frameCount
       GameState.set_questionPreviewProgress crash] in *.

Ltac destruct_branches :=
  repeat match goal with
    | H : context [if ?b then _ else _] |- _ => destruct b eqn:?
    | H : context [match ?x with _ => _ end] |- _ => destruct x eqn:?
    end.

Lemma answerSelection_step cq p s p' s' :
  answerSelection cq p s = Some (p', s') ->
  Pipe.type p' = Pipe.type p
  /\ Pipe.passed p' = Pipe.passed p
  /\ Pipe.x p' = Pipe.x p
  /\ GameState.pipesSinceLastQuestion s' = GameState.pipesSinceLastQuestion s
  /\ GameState.phase s' = GameState.phase s
  /\ (spent p = true -> p' = p /\ s' = s)
  /\ (Pipe.type p = normal -> p' = p /\ s' = s)
  /\ (GameState.displayScore s < GameState.displayScore s' ->
      spent p = false /\ spent p' = true)%Z.
Proof.
  unfold answerSelection, spent. intro H.
  destruct (Pipe.type p) eqn:Ht; cbn [PipeType_eqb andb] in H.
  - inversion H; subst. rewrite Ht. repeat split; auto; try lia.
  - destruct (Num.truthy (Pipe.questionAnswered p)) eqn:Ha; cbn [negb] in H.
    + inversion H; subst. rewrite Ht, Ha. repeat split; auto; try lia;
        discriminate.
    + destruct_branches; inversion H; subst; cbn; rewrite ?Ht, ?Ha;
        repeat split; auto; try discriminate; try lia.
Qed.

Lemma passThrough_step t ch p s p' s' fl :
  passThrough t ch p s = Some (p', s', fl) ->
  Pipe.type p' = Pipe.type p
  /\ Pipe.x p' = Pipe.x p
  /\ Pipe.questionAnswered p' = Pipe.questionAnswered p
  /\ GameState.score s' = GameState.score s
  /\ (Pipe.passed p = true -> p' = p /\ s' = s /\ fl = Continue)
  /\ (Pipe.passed p = true \/ behindBird p <-> Pipe.passed p' = true)
  /\ (Pipe.type p = normal ->
      fl = Continue
      /\ GameState.phase s' = GameState.phase s
      /\ (GameState.displayScore s' - GameState.displayScore s
          = GameState.pipesSinceLastQuestion s'
            - GameState.pipesSinceLastQuestion s)%Z
      /\ (GameState.displayScore s' = GameState.displayScore s
          \/ GameState.displayScore s' = GameState.displayScore s + 1
             /\ Pipe.passed p' = true)%Z)
  /\ (Pipe.type p = question ->
      GameState.displayScore s' = GameState.displayScore s).
Proof.
  unfold passThrough. intro H.
  destruct (Pipe.passed p) eqn:Hp; cbn [negb andb] in H.
  - inversion H; subst. rewrite Hp.
    repeat split; auto; try lia; intros; auto.
  - destruct (Pipe.x p + PIPE_WIDTH <? 50) eqn:Hx.
    + assert (Hb : behindBird p) by (unfold behindBird; num_lra).
      cbn [Pipe.type Pipe.set_passed] in H.
      destruct (Pipe.type p) eqn:Ht.
      * cbn [Pipe.scored Pipe.set_passed] in H.
        destruct (negb (Pipe.scored p)); inversion H; subst; cbn;
          repeat split; auto; try discriminate; try lia; intros; auto.
      * destruct ch as [chapter |]; [| discriminate].
        destruct (_ <? _)%Z; inversion H; subst; cbn;
          repeat split; auto; try discriminate; try lia; intros; auto.
    + assert (Hb : ~ behindBird p) by (unfold behindBird; num_lra).
      inversion H; subst. rewrite Hp.
      repeat split; auto; try discriminate; try lia; intros; auto.
      all: try tauto.
Qed.

Lemma loopBody_step b p s p' s' fl :
  loopBody b p s = Some (p', s', fl) ->
  Pipe.type p' = Pipe.type p
  /\ (spent p = true ->
      spent p' = true
      /\ GameState.displayScore s' = GameState.displayScore s)
  /\ (GameState.displayScore s < GameState.displayScore s' ->
      spent p' = true)%Z
  /\ (Pipe.type p = normal ->
      (GameState.displayScore s' - GameState.displayScore s
       = GameState.pipesSinceLastQuestion s'
         - GameState.pipesSinceLastQuestion s)%Z
      /\ (GameState.displayScore s' = GameState.displayScore s
          \/ GameState.displayScore s' = GameState.displayScore s + 1)%Z).
Proof.
  destruct b as [t d ch cq | t d]; cbn [loopBody].
  - unfold playingPipe. set (p1 := movePipe d p).
    assert (Hs1 : spent p1 = spent p) by reflexivity.
    assert (Ht1 : Pipe.type p1 = Pipe.type p) by reflexivity.
    clearbody p1. rewrite <- Hs1, <- Ht1. clear Hs1 Ht1.
    destruct (checkCollision (GameState.bird s) p1).
    { intro H; inversion H; subst. cbn. repeat split; auto; try lia. }
    destruct (passThrough t ch p1 s) as [[[p2 s2] fl2] |] eqn:Hpt;
      [| discriminate].
    apply passThrough_step in Hpt.
    destruct Hpt as (T2 & X2 & A2 & Sc2 & Pd2 & Pp2 & Hn2 & Hq2).
    assert (Hsp : spent p1 = true -> spent p2 = true
                                     /\ GameState.displayScore s2
                                        = GameState.displayScore s).
    { unfold spent. rewrite T2, A2. destruct (Pipe.type p1) eqn:Ht.
      - intro Hp. destruct (Pd2 Hp) as (-> & -> & _). auto.
      - intro Ha. split; [exact Ha | now apply Hq2]. }
    assert (Hgain : (GameState.displayScore s < GameState.displayScore s2)%Z
                    -> spent p2 = true).
    { unfold spent. rewrite T2. destruct (Pipe.type p1) eqn:Ht.
      - intro Hlt. destruct (Hn2 eq_refl) as (_ & _ & _ & [He | [He Hp]]);
          [lia | exact Hp].
      - intro Hlt. rewrite (Hq2 eq_refl) in Hlt. lia. }
    destruct fl2.
    + destruct (answerSelection cq p2 s2) as [[p3 s3] |] eqn:Has;
        [| discriminate].
      apply answerSelection_step in Has.
      destruct Has as (T3 & P3 & X3 & C3 & Ph3 & Sp3 & N3 & G3).
      intro H; inversion H; subst p' s' fl. clear H.
      split; [congruence |]. split; [| split].
      * intro Hs. destruct (Hsp Hs) as [Hs2 Hd2].
        destruct (Sp3 Hs2) as [-> ->]. auto.
      * intro Hlt.
        destruct (Z.lt_ge_cases (GameState.displayScore s2)
                                (GameState.displayScore s3)) as [Hl | Hl].
        -- now apply G3.
        -- assert (Hs2 : spent p2 = true) by (apply Hgain; lia).
           destruct (Sp3 Hs2) as [-> _]. exact Hs2.
      * intro Hnorm. rewrite <- T2 in Hnorm.
        destruct (N3 Hnorm) as [-> ->]. rewrite T2 in Hnorm.
        destruct (Hn2 Hnorm) as (_ & _ & He & Hc). split; [exact He |].
        destruct Hc as [Hc | [Hc _]]; auto.
    + intro H; inversion H; subst p' s' fl. clear H.
      split; [exact T2 |]. split; [exact Hsp |]. split; [exact Hgain |].
      intro Hnorm. destruct (Hn2 Hnorm) as (Hfl & _). discriminate.
  - unfold previewPipe. set (p1 := movePipe d p).
    assert (Hs1 : spent p1 = spent p) by reflexivity.
    assert (Ht1 : Pipe.type p1 = Pipe.type p) by reflexivity.
    clearbody p1. rewrite <- Hs1, <- Ht1. clear Hs1 Ht1.
    unfold spent.
    destruct (checkCollision (GameState.bird s) p1).
    { intro H; inversion H; subst. cbn. repeat split; auto; try lia. }
    destruct (Pipe.type p1) eqn:Ht; cbn [PipeType_eqb andb].
    + destruct (Pipe.passed p1) eqn:Hp; cbn [negb andb].
      { intro H; inversion H; subst. rewrite Ht.
        repeat split; auto; try lia. }
      destruct (_ <? _).
      * cbn [Pipe.scored Pipe.set_passed].
        destruct (negb (Pipe.scored p1)); intro H; inversion H; subst; cbn;
          rewrite ?Ht; cbn; repeat split; auto; try discriminate; try lia.
      * intro H; inversion H; subst. rewrite Ht.
        repeat split; auto; try discriminate; try lia.
    + intro H; inversion H; subst. rewrite Ht.
      repeat split; auto; try discriminate; try lia.
Qed.

Definition positive (g : Z * Z) : bool := (0 <? fst g)%Z.

Lemma gains_spent frames : forall p,
  spent p = true -> filter positive (gains frames p) = [].
Proof.
  induction frames as [| [b s] rest IH]; intros p Hs; [reflexivity |].
  cbn. destruct (loopBody b p s) as [[[p' s'] fl] |] eqn:Hb; [| reflexivity].
  apply loopBody_step in Hb. destruct Hb as (_ & Hsp & _).
  destruct (Hsp Hs) as [Hs' Hd]. cbn. unfold positive at 1. cbn.
  rewrite Hd, Z.sub_diag. cbn. now apply IH.
Qed.

Lemma gains_at_most_once frames : forall p,
  (length (filter positive (gains frames p)) <= 1)%nat.
Proof.
  induction frames as [| [b s] rest IH]; intros p; [cbn; lia |].
  cbn. destruct (loopBody b p s) as [[[p' s'] fl] |] eqn:Hb; [| cbn; lia].
  apply loopBody_step in Hb. destruct Hb as (_ & _ & Hg & _).
  cbn. unfold positive at 1. cbn.
  destruct (0 <? _)%Z eqn:E.
  - apply Z.ltb_lt in E. rewrite gains_spent by (apply Hg; lia). cbn. lia.
  - apply IH.
Qed.

Lemma playingPipe_normal_pass t d ch cq p s :
  Pipe.type p = normal -> Pipe.passed p = false -> Pipe.scored p = false ->
  behindBird (movePipe d p) ->
  playingPipe t d ch cq p s
  = Some (Pipe.set_scored true (Pipe.set_passed true (movePipe d p)),
          GameState.set_pipesSinceLastQuestion
            (GameState.pipesSinceLastQuestion s + 1)%Z
            (GameState.set_displayScore (GameState.displayScore s + 1)%Z s),
          Continue).
Proof.
  intros Ht Hp Hs Hb. unfold playingPipe.
  change (Pipe.type p) with (Pipe.type (movePipe d p)) in Ht.
  change (Pipe.passed p) with (Pipe.passed (movePipe d p)) in Hp.
  change (Pipe.scored p) with (Pipe.scored (movePipe d p)) in Hs.
  revert Ht Hp Hs Hb. generalize (movePipe d p). intros p1 Ht Hp Hs Hb.
  rewrite (checkCollision_behind _ _ Hb).
  unfold passThrough. rewrite Hp.
  rewrite (ltb_of_lt (Pipe.x p1 + PIPE_WIDTH) 50)
    by (unfold behindBird in Hb; num_lra).
  cbn [negb andb Pipe.type Pipe.scored Pipe.set_passed].
  rewrite Ht, Hs. cbn [negb].
  unfold answerSelection. cbn [Pipe.type Pipe.set_scored Pipe.set_passed].
  rewrite Ht. reflexivity.
Qed.

Lemma previewPipe_normal_pass t d p s :
  Pipe.type p = normal -> Pipe.passed p = false -> Pipe.scored p = false ->
  behindBird (movePipe d p) ->
  previewPipe t d p s
  = Some (Pipe.set_scored true (Pipe.set_passed true (movePipe d p)),
          GameState.set_pipesSinceLastQuestion
            (GameState.pipesSinceLastQuestion s + 1)%Z
            (GameState.set_displayScore (GameState.displayScore s + 1)%Z s),
          Continue).
Proof.
  intros Ht Hp Hs Hb. unfold previewPipe.
  change (Pipe.type p) with (Pipe.type (movePipe d p)) in Ht.
  change (Pipe.passed p) with (Pipe.passed (movePipe d p)) in Hp.
  change (Pipe.scored p) with (Pipe.scored (movePipe d p)) in Hs.
  revert Ht Hp Hs Hb. generalize (movePipe d p). intros p1 Ht Hp Hs Hb.
  rewrite (checkCollision_behind _ _ Hb), Ht, Hp.
  rewrite (ltb_of_lt (Pipe.x p1 + PIPE_WIDTH) 50)
    by (unfold behindBird in Hb; num_lra).
  cbn [negb andb PipeType_eqb Pipe.scored Pipe.set_passed].
  rewrite Hs. reflexivity.
Qed.

(** C6: passing a normal pipe (its right edge left of the bird, the pipe not
    passed before) adds exactly 1 to [displayScore] and 1 to
    [pipesSinceLastQuestion] and marks the pipe passed and scored, in the
    loop of [playing] and in the loop of [question_preview]; over any
    sequence of later frames no pipe raises [displayScore] twice, and for a
    normal pipe what a frame adds to the counter is what it adds to
    [displayScore], 0 or 1. *)
Theorem C6_pass_scoring_idempotent :
  (forall (b : LoopBody) (p : Pipe.t) (s : GameState.t),
      Pipe.type p = normal -> Pipe.passed p = false -> Pipe.scored p = false ->
      behindBird (movePipe (bodyDelta b) p) ->
      exists p' s',
        loopBody b p s = Some (p', s', Continue)
        /\ Pipe.passed p' = true /\ Pipe.scored p' = true
        /\ GameState.displayScore s' = (GameState.displayScore s + 1)%Z
        /\ GameState.pipesSinceLastQuestion s'
           = (GameState.pipesSinceLastQuestion s + 1)%Z)
  /\ (forall (frames : list (LoopBody * GameState.t)) (p : Pipe.t),
         (length (filter positive (gains frames p)) <= 1)%nat)
  /\ (forall (frames : list (LoopBody * GameState.t)) (p : Pipe.t),
         Pipe.type p = normal ->
         Forall (fun g => fst g = snd g /\ (fst g = 0 \/ fst g = 1)%Z)
                (gains frames p)).
Proof.
  split; [| split].
  - intros b p s Ht Hp Hs Hb.
    destruct b as [t d ch cq | t d]; cbn [loopBody bodyDelta] in *.
    + rewrite (playingPipe_normal_pass t d ch cq p s Ht Hp Hs Hb).
      eexists _, _. repeat split.
    + rewrite (previewPipe_normal_pass t d p s Ht Hp Hs Hb).
      eexists _, _. repeat split.
  - intros frames p. apply gains_at_most_once.
  - intros frames. induction frames as [| [b s] rest IH]; intros p Ht;
      [constructor |].
    cbn. destruct (loopBody b p s) as [[[p' s'] fl] |] eqn:Hb;
      [| constructor].
    apply loopBody_step in Hb. destruct Hb as (Ht' & _ & _ & Hn).
    destruct (Hn Ht) as [He Hc]. constructor.
    + cbn. split; [exact He | lia].
    + apply IH. congruence.
Qed.

Lemma C6_pass_scoring_idempotent_witness :
  exists p' s',
    loopBody (InPreview 9100 1) (Pipe.set_x (-(1)) (createNormalPipe (1 # 2)))
             (Component.gameStateRef afterOpening)
    = Some (p', s', Continue)
    /\ GameState.displayScore s' = 1%Z
    /\ GameState.pipesSinceLastQuestion s' = 6%Z.
Proof.
  destruct (proj1 C6_pass_scoring_idempotent (InPreview 9100 1)
              (Pipe.set_x (-(1)) (createNormalPipe (1 # 2)))
              (Component.gameStateRef afterOpening))
    as (p' & s' & Hrun & _ & _ & Hd & Hc).
  - reflexivity.
  - reflexivity.
  - reflexivity.
  - vm_compute. reflexivity.
  - exists p', s'. split; [exact Hrun |]. split; [exact Hd | exact Hc].
Defined.

(** ** The frame as a step relation *)

(** The fields the scoring and phase machine lives on; the bird, the
    animation counters and the clocks are left free. *)
Definition sameGame (s s' : GameState.t) : Prop :=
  GameState.phase s' = GameState.phase s
  /\ GameState.pipes s' = GameState.pipes s
  /\ GameState.chapterIndex s' = GameState.chapterIndex s
  /\ GameState.questionIndex s' = GameState.questionIndex s
  /\ GameState.score s' = GameState.score s
  /\ GameState.displayScore s' = GameState.displayScore s
  /\ GameState.pipesSinceLastQuestion s' = GameState.pipesSinceLastQuestion s.

Lemma sameGame_refl s : sameGame s s.
Proof. repeat split. Qed.

(** [state.pipes.some(p => p.type === "question" && !p.passed)]. *)
Definition hasQuestionPipe (pipes : list Pipe.t) : bool :=
  existsb (fun p => PipeType_eqb (Pipe.type p) question && negb (Pipe.passed p))
          pipes.

Definition currentQuestionOf (chapters : list Chapter.t) (s : GameState.t)
  : option Question.t :=
  match nth_error chapters (GameState.chapterIndex s) with
  | Some chapter =>
      nth_error (Chapter.questions chapter) (GameState.questionIndex s)
  | None => None
  end.

Section FrameStep.

Variable chapters : list Chapter.t.
Variables currentTime deltaTime random : Q.

Inductive frameStep (s s' : GameState.t) : Prop :=
| frame_quiet :
    sameGame s s' -> frameStep s s'
| frame_crash :
    GameState.phase s = playing \/ GameState.phase s = question_preview ->
    sameGame (GameState.set_phase game_over s) s' -> frameStep s s'
| frame_intro_end :
    GameState.phase s = chapter_intro ->
    sameGame (GameState.set_pipesSinceLastQuestion
                NORMAL_PIPES_BETWEEN_QUESTIONS
                (GameState.set_pipes [] (GameState.set_phase ready_to_play s)))
             s' ->
    frameStep s s'
| frame_auto_fly_end :
    GameState.phase s = auto_fly ->
    sameGame (GameState.set_pipes (GameState.pipes s ++ [createQuestionPipe])
                (GameState.set_phase playing s))
             s' ->
    frameStep s s'
| frame_to_preview chapter :
    GameState.phase s = playing ->
    (NORMAL_PIPES_BETWEEN_QUESTIONS <= GameState.pipesSinceLastQuestion s)%Z ->
    hasQuestionPipe (GameState.pipes s) = false ->
    nth_error chapters (GameState.chapterIndex s) = Some chapter ->
    (GameState.questionIndex s < length (Chapter.questions chapter))%nat ->
    sameGame (GameState.set_phase question_preview s) s' ->
    frameStep s s'
| frame_playing s0 pipes0 pipes' s1 fl :
    GameState.phase s = playing ->
    sameGame s s0 ->
    pipes0 = GameState.pipes s
    \/ (hasQuestionPipe (GameState.pipes s) = false
        /\ pipes0 = GameState.pipes s ++ [createNormalPipe random]) ->
    hasQuestionPipe (GameState.pipes s) = true
    \/ (GameState.pipesSinceLastQuestion s < NORMAL_PIPES_BETWEEN_QUESTIONS)%Z
    \/ (exists chapter,
           nth_error chapters (GameState.chapterIndex s) = Some chapter
           /\ (length (Chapter.questions chapter)
               <= GameState.questionIndex s)%nat) ->
    forPipes (playingPipe currentTime deltaTime
                          (nth_error chapters (GameState.chapterIndex s))
                          (currentQuestionOf chapters s))
             pipes0 s0
    = Some (pipes', s1, fl) ->
    s' = GameState.set_pipes (removeOffscreen pipes') s1 ->
    frameStep s s'
| frame_preview s0 pipes' s1 fl :
    GameState.phase s = question_preview ->
    sameGame s s0 ->
    forPipes (previewPipe currentTime deltaTime) (GameState.pipes s) s0
    = Some (pipes', s1, fl) ->
    s' = GameState.set_pipes (removeOffscreen pipes') s1
    \/ sameGame (GameState.set_phase playing
                   (GameState.set_pipes
                      (removeOffscreen pipes' ++ [createQuestionPipe]) s1))
                s' ->
    frameStep s s'.

Variable Math_sin : Q -> Q.

Lemma animateBird_sameGame n s : sameGame s (animateBird n s).
Proof.
  unfold animateBird. cbn. destruct (_ =? _)%Z; repeat split.
Qed.

Lemma framePhase_frameStep s s' :
  framePhase Math_sin chapters currentTime deltaTime random s = Some s' ->
  frameStep s s'.
Proof.
  unfold framePhase. destruct (GameState.phase s) eqn:Hphase.
  - (* loading *)
    intro H; inversion H; subst. apply frame_quiet, sameGame_refl.
  - (* chapter_intro *)
    destruct (drawChapterIntro _ _); [| discriminate].
    destruct (_ >? _); intro H; inversion H; subst.
    + apply frame_intro_end; [exact Hphase | repeat split].
    + apply frame_quiet. repeat split.
  - (* ready_to_play *)
    intro H; inversion H; subst. apply frame_quiet.
    match goal with |- sameGame _ (animateBird _ ?x) =>
      destruct (animateBird_sameGame 8 x) as (A & B & C & D & E & F & G) end.
    repeat split; assumption.
  - (* auto_fly *)
    match goal with |- (if _ then Some (_ (_ _ (GameState.bird (animateBird ?n ?x))) _) else _) = _ -> _ =>
      destruct (animateBird_sameGame n x) as (A & B & C & D & E & F & G) end.
    destruct (_ >=? _); intro H; inversion H; subst.
    + apply frame_auto_fly_end; [exact Hphase |].
      unfold sameGame. gs_simpl. rewrite ?A, ?B, ?C, ?D, ?E, ?F, ?G.
      repeat split.
    + apply frame_quiet. repeat split; assumption.
  - (* playing *)
    unfold framePlaying.
    set (s2 := GameState.set_bird _ _).
    assert (H2 : sameGame s s2) by (repeat split).
    destruct (outOfBounds (GameState.bird s2)).
    { intro H; inversion H; subst. apply frame_crash; [now left |].
      repeat split. }
    set (s3 := animateBird 6 s2).
    assert (H3 : sameGame s s3).
    { destruct (animateBird_sameGame 6 s2) as (A & B & C & D & E & F & G).
      repeat split; assumption. }
    clearbody s3. clear H2. clearbody s2.
    destruct H3 as (A & B & C & D & E & F & G).
    fold (hasQuestionPipe (GameState.pipes s3)).
    rewrite ?B, ?C, ?D, ?G.
    assert (Hcq :
      match nth_error chapters (GameState.chapterIndex s) with
      | Some chapter =>
          nth_error (Chapter.questions chapter) (GameState.questionIndex s)
      | None => None
      end = currentQuestionOf chapters s) by reflexivity.
    rewrite Hcq. clear Hcq.
    set (loop := fun pipes0 =>
           forPipes (playingPipe currentTime deltaTime
                       (nth_error chapters (GameState.chapterIndex s))
                       (currentQuestionOf chapters s)) pipes0 s3).
    assert (Hloop : forall pipes0,
      pipes0 = GameState.pipes s
      \/ (hasQuestionPipe (GameState.pipes s) = false
          /\ pipes0 = GameState.pipes s ++ [createNormalPipe random]) ->
      hasQuestionPipe (GameState.pipes s) = true
      \/ (GameState.pipesSinceLastQuestion s
          < NORMAL_PIPES_BETWEEN_QUESTIONS)%Z
      \/ (exists chapter,
             nth_error chapters (GameState.chapterIndex s) = Some chapter
             /\ (length (Chapter.questions chapter)
                 <= GameState.questionIndex s)%nat) ->
      match loop pipes0 with
      | Some (pipes1, state, _) =>
          Some (GameState.set_pipes (removeOffscreen pipes1) state)
      | None => None
      end = Some s' -> frameStep s s').
    { intros pipes0 Hp Hc. unfold loop.
      destruct (forPipes _ pipes0 s3) as [[[pipes1 s1] fl] |] eqn:Hf;
        [| discriminate].
      intro H; inversion H; subst s'.
      eapply frame_playing with (s0 := s3); eauto. repeat split; assumption. }
    assert (Hspawn : forall b : bool,
      (if b && negb (hasQuestionPipe (GameState.pipes s))
       then GameState.pipes s ++ [createNormalPipe random]
       else GameState.pipes s) = GameState.pipes s
      \/ (hasQuestionPipe (GameState.pipes s) = false
          /\ (if b && negb (hasQuestionPipe (GameState.pipes s))
              then GameState.pipes s ++ [createNormalPipe random]
              else GameState.pipes s)
             = GameState.pipes s ++ [createNormalPipe random])).
    { intros b. destruct b; cbn; [| now left].
      destruct (hasQuestionPipe (GameState.pipes s)); cbn; auto. }
    destruct (_ >=? _)%Z eqn:Hge; cbn [andb].
    + destruct (hasQuestionPipe (GameState.pipes s)) eqn:Hq; cbn [negb].
      * apply Hloop; auto.
      * destruct (nth_error chapters (GameState.chapterIndex s))
          as [chapter |] eqn:Hch; [| discriminate].
        destruct (_ <? _)%nat eqn:Hlt.
        -- intro H; inversion H; subst s'.
           eapply frame_to_preview; eauto.
           ++ apply Z.geb_le in Hge. exact Hge.
           ++ apply Nat.ltb_lt in Hlt. exact Hlt.
           ++ repeat split; cbn; assumption.
        -- apply Hloop; [apply Hspawn |].
           right. right. exists chapter. split; [reflexivity |].
           apply Nat.ltb_ge in Hlt. exact Hlt.
    + apply Hloop; [apply Hspawn |].
      right. left. rewrite Z.geb_leb in Hge. apply Z.leb_gt in Hge. exact Hge.
  - (* question_preview *)
    unfold frameQuestionPreview.
    set (s2 := GameState.set_bird _ _).
    assert (H2 : sameGame s s2) by (repeat split).
    destruct (outOfBounds (GameState.bird s2)).
    { intro H; inversion H; subst. apply frame_crash; [now right |].
      repeat split. }
    set (s3 := animateBird 6 s2).
    assert (H3 : sameGame s s3).
    { destruct (animateBird_sameGame 6 s2) as (A & B & C & D & E & F & G).
      repeat split; assumption. }
    clearbody s3. clear H2. clearbody s2.
    assert (B : GameState.pipes s3 = GameState.pipes s) by apply H3.
    rewrite B.
    destruct (forPipes _ (GameState.pipes s) s3) as [[[pipes1 s1] fl] |] eqn:Hf;
      [| discriminate].
    destruct (_ >=? _); intro H; inversion H; subst s'.
    + eapply frame_preview with (s0 := s3); eauto.
      right. repeat split.
    + eapply frame_preview with (s0 := s3); eauto.
  - (* game_over *)
    intro H; inversion H; subst. apply frame_quiet. repeat split.
  - (* chapter_complete *)
    destruct (drawChapterComplete _ _ _); [| discriminate].
    intro H; inversion H; subst. apply frame_quiet. repeat split.
  - (* game_complete *)
    destruct (drawGameComplete _ _ _); [| discriminate].
    intro H; inversion H; subst. apply frame_quiet. repeat split.
Qed.
End FrameStep.

(** ** The pipe loop: elimination and concatenation *)

Lemma forPipes_elim body
      (P : list Pipe.t -> GameState.t -> list Pipe.t -> GameState.t -> Flow -> Prop) :
  (forall s, P [] s [] s Continue) ->
  (forall p s p' s' rest,
      body p s = Some (p', s', Break) -> P (p :: rest) s (p' :: rest) s' Break) ->
  (forall p s p' s1 rest rest' s' fl,
      body p s = Some (p', s1, Continue) ->
      forPipes body rest s1 = Some (rest', s', fl) ->
      P rest s1 rest' s' fl ->
      P (p :: rest) s (p' :: rest') s' fl) ->
  forall l s l' s' fl,
    forPipes body l s = Some (l', s', fl) -> P l s l' s' fl.
Proof.
  intros Hnil Hbrk Hcont. induction l as [| p rest IH]; intros s l' s' fl H.
  - cbn in H. inversion H; subst. apply Hnil.
  - cbn in H. destruct (body p s) as [[[p' s1] [|]] |] eqn:Hb; try discriminate.
    + destruct (forPipes body rest s1) as [[[rest' s2] fl2] |] eqn:Hr;
        [| discriminate].
      inversion H; subst. eapply Hcont; eauto.
    + inversion H; subst. now apply Hbrk.
Qed.

Lemma forPipes_app body l1 l2 s :
  forPipes body (l1 ++ l2) s
  = match forPipes body l1 s with
    | None => None
    | Some (l1', s1, Break) => Some (l1' ++ l2, s1, Break)
    | Some (l1', s1, Continue) =>
        match forPipes body l2 s1 with
        | None => None
        | Some (l2', s2, fl) => Some (l1' ++ l2', s2, fl)
        end
    end.
Proof.
  revert s. induction l1 as [| p l1 IH]; intro s; cbn.
  - destruct (forPipes body l2 s) as [[[l2' s2] fl] |]; reflexivity.
  - destruct (body p s) as [[[p' s1] [|]] |]; try reflexivity.
    rewrite IH.
    destruct (forPipes body l1 s1) as [[[l1' s2] [|]] |]; try reflexivity.
    destruct (forPipes body l2 s2) as [[[l2' s3] fl] |]; reflexivity.
Qed.

(** ** What a loop body does to its pipe and to the counters *)

Definition isPlayingBody (b : LoopBody) : Prop :=
  match b with InPlaying _ _ _ _ => True | InPreview _ _ => False end.

Lemma movePipe_le d p : 0 <= d -> Pipe.x (movePipe d p) <= Pipe.x p.
Proof. intro H. unfold movePipe. cbn [Pipe.x Pipe.set_x]. num_lra. Qed.

Lemma loopBody_pipe b p s p' s' fl :
  loopBody b p s = Some (p', s', fl) ->
  Pipe.type p' = Pipe.type p
  /\ Pipe.x p' = Pipe.x (movePipe (bodyDelta b) p)
  /\ (Pipe.passed p = true -> Pipe.passed p' = true)
  /\ (Pipe.passed p' = true -> Pipe.passed p = true \/ behindBird p')
  /\ GameState.chapterIndex s' = GameState.chapterIndex s.
Proof.
  destruct b as [t d ch cq | t d]; cbn [loopBody bodyDelta].
  - unfold playingPipe.
    change (Pipe.type p) with (Pipe.type (movePipe d p)).
    change (Pipe.passed p) with (Pipe.passed (movePipe d p)).
    generalize (movePipe d p). intro p1.
    destruct (checkCollision (GameState.bird s) p1).
    { intro H; inversion H; subst. repeat split; auto. }
    destruct (passThrough t ch p1 s) as [[[p2 s2] fl2] |] eqn:Hpt;
      [| discriminate].
    pose proof Hpt as Hci.
    apply passThrough_step in Hpt.
    destruct Hpt as (T2 & X2 & A2 & Sc2 & Pd2 & Pp2 & Hn2 & Hq2).
    assert (Hci2 : GameState.chapterIndex s2 = GameState.chapterIndex s).
    { unfold passThrough in Hci. destruct_branches; inversion Hci; reflexivity. }
    destruct fl2.
    + destruct (answerSelection cq p2 s2) as [[p3 s3] |] eqn:Has;
        [| discriminate].
      pose proof Has as Hci3.
      apply answerSelection_step in Has.
      destruct Has as (T3 & P3 & X3 & C3 & Ph3 & Sp3 & N3 & G3).
      assert (Hci4 : GameState.chapterIndex s3 = GameState.chapterIndex s2).
      { unfold answerSelection in Hci3.
        destruct_branches; inversion Hci3; reflexivity. }
      intro H; inversion H; subst p' s' fl.
      split; [congruence |]. split; [congruence |].
      rewrite P3. unfold behindBird in *. rewrite X3, X2.
      split; [intro; apply (proj1 Pp2); auto |].
      split; [exact (proj2 Pp2) | congruence].
    + intro H; inversion H; subst p' s' fl.
      split; [congruence |]. split; [congruence |].
      unfold behindBird in *. rewrite X2.
      split; [intro; apply (proj1 Pp2); auto |].
      split; [exact (proj2 Pp2) | congruence].
  - unfold previewPipe.
    change (Pipe.type p) with (Pipe.type (movePipe d p)).
    change (Pipe.passed p) with (Pipe.passed (movePipe d p)).
    generalize (movePipe d p). intro p1.
    destruct (checkCollision (GameState.bird s) p1).
    { intro H; inversion H; subst. repeat split; auto. }
    destruct (PipeType_eqb _ _ && negb (Pipe.passed p1) && _) eqn:Hc.
    + apply andb_prop in Hc. destruct Hc as [Hc Hx].
      assert (Hb : behindBird p1) by (unfold behindBird; num_lra).
      cbn [Pipe.scored Pipe.set_passed].
      destruct (negb (Pipe.scored p1)); intro H; inversion H; subst; cbn;
        repeat split; auto.
    + intro H; inversion H; subst. repeat split; auto.
Qed.

Lemma loopBody_counter b p s p' s' fl :
  loopBody b p s = Some (p', s', fl) ->
  Pipe.type p = question ->
  (Pipe.passed p = true ->
   GameState.pipesSinceLastQuestion s' = GameState.pipesSinceLastQuestion s)
  /\ (Pipe.passed p = false -> Pipe.passed p' = true ->
      GameState.pipesSinceLastQuestion s' = 0%Z \/ ~ isPlayingBody b).
Proof.
  destruct b as [t d ch cq | t d]; cbn [loopBody bodyDelta].
  - unfold playingPipe.
    change (Pipe.type p) with (Pipe.type (movePipe d p)).
    change (Pipe.passed p) with (Pipe.passed (movePipe d p)).
    generalize (movePipe d p). intro p1.
    destruct (checkCollision (GameState.bird s) p1).
    { intros H Ht; inversion H; subst. split; [reflexivity |].
      intros Hp Hp'. congruence. }
    destruct (passThrough t ch p1 s) as [[[p2 s2] fl2] |] eqn:Hpt;
      [| discriminate].
    intros H Ht.
    assert (Hc2 : (Pipe.passed p1 = true ->
                   GameState.pipesSinceLastQuestion s2
                   = GameState.pipesSinceLastQuestion s)
                  /\ (Pipe.passed p1 = false -> Pipe.passed p2 = true ->
                      GameState.pipesSinceLastQuestion s2 = 0%Z)).
    { unfold passThrough in Hpt.
      destruct (Pipe.passed p1) eqn:Hp; cbn [negb andb] in Hpt.
      - inversion Hpt; subst. split; intros; congruence.
      - destruct (_ <? _); cbn [negb andb Pipe.type Pipe.set_passed] in Hpt.
        + rewrite Ht in Hpt. destruct ch; [| discriminate].
          destruct (_ <? _)%Z; inversion Hpt; subst; cbn;
            split; intros; congruence.
        + inversion Hpt; subst. split; intros; congruence. }
    destruct Hc2 as (Hc2a & Hc2b).
    destruct fl2.
    + destruct (answerSelection cq p2 s2) as [[p3 s3] |] eqn:Has;
        [| discriminate].
      apply answerSelection_step in Has.
      destruct Has as (T3 & P3 & X3 & C3 & Ph3 & Sp3 & N3 & G3).
      inversion H; subst p' s' fl. rewrite C3, P3.
      split; [exact Hc2a |]. intros Hp Hp'. left. auto.
    + inversion H; subst p' s' fl. split; [exact Hc2a |].
      intros Hp Hp'. left. auto.
  - unfold previewPipe.
    change (Pipe.type p) with (Pipe.type (movePipe d p)).
    generalize (movePipe d p). intro p1.
    destruct (checkCollision (GameState.bird s) p1).
    { intros H Ht; inversion H; subst. split; [reflexivity |].
      intros _ _. right. intros []. }
    intros H Ht. rewrite Ht in H. cbn [PipeType_eqb andb] in H.
    inversion H; subst. split; [reflexivity |]. intros _ _. right. intros [].
Qed.

Lemma playingPipe_behind_passed t d ch cq p s p' s' :
  playingPipe t d ch cq p s = Some (p', s', Continue) ->
  behindBird p' -> Pipe.passed p' = true.
Proof.
  unfold playingPipe. generalize (movePipe d p). intro p1.
  destruct (checkCollision (GameState.bird s) p1); [discriminate |].
  destruct (passThrough t ch p1 s) as [[[p2 s2] fl2] |] eqn:Hpt;
    [| discriminate].
  apply passThrough_step in Hpt.
  destruct Hpt as (T2 & X2 & A2 & Sc2 & Pd2 & Pp2 & Hn2 & Hq2).
  destruct fl2; [| discriminate].
  destruct (answerSelection cq p2 s2) as [[p3 s3] |] eqn:Has; [| discriminate].
  apply answerSelection_step in Has.
  destruct Has as (T3 & P3 & X3 & C3 & Ph3 & Sp3 & N3 & G3).
  intro H; inversion H; subst p' s'. rewrite P3. unfold behindBird in *.
  rewrite X3, X2. intro Hb. apply (proj1 Pp2). now right.
Qed.

Lemma loopBody_phase b p s p' s' fl :
  loopBody b p s = Some (p', s', fl) ->
  GameState.phase s' = GameState.phase s
  \/ GameState.phase s' = game_over
  \/ (GameState.phase s' = chapter_complete
      /\ isPlayingBody b /\ fl = Break).
Proof.
  destruct b as [t d ch cq | t d]; cbn [loopBody bodyDelta isPlayingBody].
  - unfold playingPipe. generalize (movePipe d p). intro p1.
    destruct (checkCollision (GameState.bird s) p1).
    { intro H; inversion H; subst. right. left. reflexivity. }
    destruct (passThrough t ch p1 s) as [[[p2 s2] fl2] |] eqn:Hpt;
      [| discriminate].
    assert (Hp2 : GameState.phase s2 = GameState.phase s
                  \/ (GameState.phase s2 = chapter_complete /\ fl2 = Break)).
    { unfold passThrough in Hpt.
      destruct_branches; inversion Hpt; subst; cbn; auto. }
    destruct fl2.
    + destruct (answerSelection cq p2 s2) as [[p3 s3] |] eqn:Has;
        [| discriminate].
      apply answerSelection_step in Has.
      destruct Has as (T3 & P3 & X3 & C3 & Ph3 & _).
      intro H; inversion H; subst p' s' fl. rewrite Ph3.
      destruct Hp2 as [Hp2 | [_ Hp2]]; [auto | discriminate].
    + intro H; inversion H; subst p' s' fl.
      destruct Hp2 as [Hp2 | [Hp2 _]]; auto.
  - unfold previewPipe. generalize (movePipe d p). intro p1.
    intro H. destruct_branches; inversion H; subst; cbn; auto.
Qed.

Lemma loopBody_behind_passed b p s p' s' :
  loopBody b p s = Some (p', s', Continue) ->
  isPlayingBody b -> behindBird p' -> Pipe.passed p' = true.
Proof.
  destruct b; [| intros _ []]. intros Hb _.
  eapply playingPipe_behind_passed; eauto.
Qed.

Lemma loopBody_phase_continue b p s p' s' :
  loopBody b p s = Some (p', s', Continue) ->
  GameState.phase s' = GameState.phase s.
Proof.
  destruct b as [t d ch cq | t d]; cbn [loopBody]; intro Hb.
  - unfold playingPipe in Hb.
    destruct (checkCollision _ _); [discriminate |].
    destruct (passThrough _ _ _ _) as [[[p2 s2] [|]] |] eqn:Hpt;
      try discriminate.
    destruct (answerSelection _ _ _) as [[p3 s3] |] eqn:Has;
      [| discriminate].
    apply answerSelection_step in Has.
    destruct Has as (_ & _ & _ & _ & Ph3 & _).
    inversion Hb; subst. rewrite Ph3.
    unfold passThrough in Hpt.
    destruct_branches; inversion Hpt; subst; reflexivity.
  - unfold previewPipe in Hb.
    destruct_branches; inversion Hb; subst; reflexivity.
Qed.

(** ** The loop as a whole *)

Lemma Forall2_transfer {A B} (R : A -> B -> Prop) (P : A -> Prop) (Q : B -> Prop) l l' :
  (forall a b, R a b -> P a -> Q b) ->
  Forall2 R l l' -> Forall P l -> Forall Q l'.
Proof.
  intros HRP H2. induction H2 as [| a b l l' Hab _ IH]; intro HP;
    constructor; inversion HP; subst; eauto.
Qed.

Lemma Forall2_refl {A} (R : A -> A -> Prop) l :
  (forall a, R a a) -> Forall2 R l l.
Proof. intro H. induction l; constructor; auto. Qed.

Section Loops.

Variable b : LoopBody.
Hypothesis delta_nonneg : 0 <= bodyDelta b.

(** A pipe before and after a loop that may have stopped before it. *)
Definition stepped (p p' : Pipe.t) : Prop :=
  Pipe.type p' = Pipe.type p
  /\ Pipe.x (movePipe (bodyDelta b) p) <= Pipe.x p'
  /\ Pipe.x p' <= Pipe.x p
  /\ (Pipe.passed p = true -> Pipe.passed p' = true).

(** A pipe before and after a loop that went through it. *)
Definition moved (p p' : Pipe.t) : Prop :=
  Pipe.x p' = Pipe.x (movePipe (bodyDelta b) p)
  /\ (isPlayingBody b -> behindBird p' -> Pipe.passed p' = true).

Lemma stepped_refl p : stepped p p.
Proof.
  unfold stepped. repeat split; auto; [now apply movePipe_le | lra].
Qed.

Lemma loopBody_stepped p s p' s' fl :
  loopBody b p s = Some (p', s', fl) -> stepped p p'.
Proof.
  intro H. apply loopBody_pipe in H. destruct H as (T & X & P & _).
  unfold stepped. rewrite X. repeat split; auto; [lra |].
  now apply movePipe_le.
Qed.

Lemma loop_stepped l s l' s' fl :
  forPipes (loopBody b) l s = Some (l', s', fl) -> Forall2 stepped l l'.
Proof.
  revert l s l' s' fl. apply forPipes_elim.
  - constructor.
  - intros p s p' s' rest Hb. constructor.
    + eapply loopBody_stepped; eauto.
    + apply Forall2_refl, stepped_refl.
  - intros p s p' s1 rest rest' s' fl Hb _ IH. constructor; [| exact IH].
    eapply loopBody_stepped; eauto.
Qed.

Lemma loop_moved_flow l s l' s' fl :
  forPipes (loopBody b) l s = Some (l', s', fl) ->
  fl = Continue -> Forall2 moved l l'.
Proof.
  revert l s l' s' fl. apply (forPipes_elim (loopBody b)
    (fun l s l' s' fl => fl = Continue -> Forall2 moved l l')).
  - constructor.
  - discriminate.
  - intros p s p' s1 rest rest' s' fl Hb _ IH Hfl. constructor; [| auto].
    split.
    + apply loopBody_pipe in Hb. apply Hb.
    + eapply loopBody_behind_passed; eauto.
Qed.

Lemma loop_moved l s l' s' :
  forPipes (loopBody b) l s = Some (l', s', Continue) -> Forall2 moved l l'.
Proof. intro H. eapply loop_moved_flow; eauto. Qed.

Lemma loop_phase l s l' s' fl :
  forPipes (loopBody b) l s = Some (l', s', fl) ->
  GameState.phase s' = GameState.phase s
  \/ GameState.phase s' = game_over
  \/ (GameState.phase s' = chapter_complete /\ isPlayingBody b
      /\ fl = Break).
Proof.
  revert l s l' s' fl. apply forPipes_elim.
  - auto.
  - intros p s p' s' rest Hb. apply loopBody_phase in Hb.
    destruct Hb as [H | [H | (H & Hp & _)]]; auto.
  - intros p s p' s1 rest rest' s' fl Hb _ IH.
    assert (H1 : GameState.phase s1 = GameState.phase s)
      by (eapply loopBody_phase_continue; eauto).
    destruct IH as [H | [H | H]]; auto. left. congruence.
Qed.

Lemma loop_chapterIndex l s l' s' fl :
  forPipes (loopBody b) l s = Some (l', s', fl) ->
  GameState.chapterIndex s' = GameState.chapterIndex s.
Proof.
  revert l s l' s' fl. apply forPipes_elim.
  - reflexivity.
  - intros p s p' s' rest Hb. apply loopBody_pipe in Hb. apply Hb.
  - intros p s p' s1 rest rest' s' fl Hb _ IH.
    apply loopBody_pipe in Hb. destruct Hb as (_ & _ & _ & _ & Hc).
    congruence.
Qed.

(** Passed normal pipes leave the counters alone. *)
Lemma loop_passed_normals l s l' s' fl :
  forPipes (loopBody b) l s = Some (l', s', fl) ->
  Forall (fun p => Pipe.type p = normal /\ Pipe.passed p = true) l ->
  GameState.pipesSinceLastQuestion s' = GameState.pipesSinceLastQuestion s
  /\ GameState.displayScore s' = GameState.displayScore s.
Proof.
  revert l s l' s' fl. apply (forPipes_elim (loopBody b)
    (fun l s l' s' fl =>
       Forall (fun p => Pipe.type p = normal /\ Pipe.passed p = true) l ->
       GameState.pipesSinceLastQuestion s' = GameState.pipesSinceLastQuestion s
       /\ GameState.displayScore s' = GameState.displayScore s)).
  - auto.
  - intros p s p' s' rest Hb Hall. inversion Hall as [| ? ? [Ht Hp] _]; subst.
    apply loopBody_step in Hb. destruct Hb as (_ & Hsp & _ & Hn).
    assert (Hs : spent p = true) by (unfold spent; now rewrite Ht).
    destruct (Hsp Hs) as [_ Hd]. destruct (Hn Ht) as [He _]. split; lia.
  - intros p s p' s1 rest rest' s' fl Hb _ IH Hall.
    inversion Hall as [| ? ? [Ht Hp] Hrest]; subst.
    apply loopBody_step in Hb. destruct Hb as (_ & Hsp & _ & Hn).
    assert (Hs : spent p = true) by (unfold spent; now rewrite Ht).
    destruct (Hsp Hs) as [_ Hd]. destruct (Hn Ht) as [He _].
    destruct (IH Hrest). split; lia.
Qed.

(** Normal pipes still ahead of the bird's left edge after their move are
    not passed and leave the counters alone. *)
Definition ahead (p : Pipe.t) : Prop :=
  Pipe.type p = normal /\ Pipe.passed p = false
  /\ ~ behindBird (movePipe (bodyDelta b) p).

Lemma loopBody_ahead p s p' s' fl :
  loopBody b p s = Some (p', s', fl) -> ahead p ->
  Pipe.passed p' = false
  /\ GameState.pipesSinceLastQuestion s' = GameState.pipesSinceLastQuestion s
  /\ GameState.displayScore s' = GameState.displayScore s.
Proof.
  intros Hb (Ht & Hp & Hnb).
  pose proof (loopBody_pipe _ _ _ _ _ _ Hb) as (_ & X & _ & P4 & _).
  assert (Hp' : Pipe.passed p' = false).
  { destruct (Pipe.passed p') eqn:E; [| reflexivity].
    destruct (P4 eq_refl) as [H | H]; [congruence |].
    exfalso. apply Hnb. unfold behindBird in *. now rewrite <- X. }
  apply loopBody_step in Hb. destruct Hb as (T & _ & Hg & Hn).
  destruct (Hn Ht) as [He [Hc | Hc]].
  - repeat split; auto; lia.
  - exfalso. assert (Hs : spent p' = true) by (apply Hg; lia).
    unfold spent in Hs. rewrite T, Ht in Hs. congruence.
Qed.

Lemma loop_ahead l s l' s' fl :
  forPipes (loopBody b) l s = Some (l', s', fl) ->
  Forall ahead l ->
  Forall (fun p => Pipe.passed p = false) l'
  /\ GameState.pipesSinceLastQuestion s' = GameState.pipesSinceLastQuestion s
  /\ GameState.displayScore s' = GameState.displayScore s.
Proof.
  revert l s l' s' fl. apply (forPipes_elim (loopBody b)
    (fun l s l' s' fl =>
       Forall ahead l ->
       Forall (fun p => Pipe.passed p = false) l'
       /\ GameState.pipesSinceLastQuestion s'
          = GameState.pipesSinceLastQuestion s
       /\ GameState.displayScore s' = GameState.displayScore s)).
  - auto.
  - intros p s p' s' rest Hb Hall. inversion Hall as [| ? ? Ha Hrest]; subst.
    destruct (loopBody_ahead _ _ _ _ _ Hb Ha) as (Hp & Hc & Hd).
    split; [| auto]. constructor; [exact Hp |].
    eapply Forall_impl; [| exact Hrest]. intros a Haa. apply Haa.
  - intros p s p' s1 rest rest' s' fl Hb _ IH Hall.
    inversion Hall as [| ? ? Ha Hrest]; subst.
    destruct (loopBody_ahead _ _ _ _ _ Hb Ha) as (Hp & Hc & Hd).
    destruct (IH Hrest) as (Hf & Hc' & Hd').
    split; [constructor; assumption |]. split; congruence.
Qed.

End Loops.

(** ** At most one question pipe (C2) *)

Definition isNormal (p : Pipe.t) : Prop := Pipe.type p = normal.

(** The pipe list is one of: normal pipes only; normal pipes followed by one
    question pipe not passed yet, the last of the list and the rightmost; or
    passed normal pipes, one passed question pipe, and normal pipes at least
    310 to its right that are not passed, the counter being 0. *)
Inductive Shape (counter : Z) : list Pipe.t -> Prop :=
| shape_normal pipes :
    Forall isNormal pipes -> Shape counter pipes
| shape_unpassed pre q :
    Pipe.type q = question -> Pipe.passed q = false ->
    Forall (fun p => isNormal p /\ Pipe.x p <= Pipe.x q) pre ->
    Shape counter (pre ++ [q])
| shape_passed pre q post :
    Pipe.type q = question -> Pipe.passed q = true -> behindBird q ->
    counter = 0%Z ->
    Forall (fun p => isNormal p /\ Pipe.passed p = true) pre ->
    Forall (fun p => isNormal p /\ Pipe.passed p = false
                     /\ Pipe.x q + 310 <= Pipe.x p) post ->
    Shape counter (pre ++ q :: post).

(** The test of line 1062: a question pipe whose question is not answered. *)
Definition unanswered (p : Pipe.t) : bool :=
  PipeType_eqb (Pipe.type p) question
  && negb (Num.truthy (Pipe.questionAnswered p)).

Definition isQuestionPipe (p : Pipe.t) : bool :=
  PipeType_eqb (Pipe.type p) question.

Lemma filter_normal_nil f l :
  (forall p, f p = true -> Pipe.type p = question) ->
  Forall isNormal l -> filter f l = [].
Proof.
  intros Hf H. induction H as [| p l Hp _ IH]; [reflexivity |].
  cbn. destruct (f p) eqn:E; [| exact IH].
  apply Hf in E. unfold isNormal in Hp. congruence.
Qed.

Lemma Shape_one_question counter pipes :
  Shape counter pipes -> (length (filter isQuestionPipe pipes) <= 1)%nat.
Proof.
  assert (Hf : forall p, isQuestionPipe p = true -> Pipe.type p = question).
  { intros p. unfold isQuestionPipe. destruct (Pipe.type p); auto; discriminate. }
  intros [pipes' H | pre q Ht Hp H | pre q post Ht Hp Hb Hc H1 H2].
  - rewrite (filter_normal_nil _ _ Hf H). cbn. lia.
  - rewrite filter_app, (filter_normal_nil _ pre Hf).
    + cbn. destruct (isQuestionPipe q); cbn; lia.
    + eapply Forall_impl; [| exact H]. intros a Ha; apply Ha.
  - rewrite filter_app, (filter_normal_nil _ pre Hf).
    + cbn. rewrite (filter_normal_nil _ post Hf).
      * destruct (isQuestionPipe q); cbn; lia.
      * eapply Forall_impl; [| exact H2]. intros a Ha; apply Ha.
    + eapply Forall_impl; [| exact H1]. intros a Ha; apply Ha.
Qed.

Lemma Forall_filter {A} (P : A -> Prop) f l :
  Forall P l -> Forall P (filter f l).
Proof.
  intro H. apply Forall_forall. intros a Ha. apply filter_In in Ha.
  rewrite Forall_forall in H. apply H, Ha.
Qed.

Lemma Shape_filter f counter pipes :
  Shape counter pipes -> Shape counter (filter f pipes).
Proof.
  intros [pipes' H | pre q Ht Hp H | pre q post Ht Hp Hb Hc H1 H2].
  - apply shape_normal. now apply Forall_filter.
  - rewrite filter_app. cbn. destruct (f q).
    + apply shape_unpassed; auto. now apply Forall_filter.
    + rewrite app_nil_r. apply shape_normal. apply Forall_filter.
      eapply Forall_impl; [| exact H]. intros a Ha; apply Ha.
  - rewrite filter_app. cbn. destruct (f q).
    + apply shape_passed; auto; now apply Forall_filter.
    + apply shape_normal. apply Forall_app. split; apply Forall_filter.
      * eapply Forall_impl; [| exact H1]. intros a Ha; apply Ha.
      * eapply Forall_impl; [| exact H2]. intros a Ha; apply Ha.
Qed.

Lemma hasQuestionPipe_normal l :
  Forall isNormal l -> hasQuestionPipe l = false.
Proof.
  intro H. induction H as [| p l Hp _ IH]; [reflexivity |].
  cbn. unfold isNormal in Hp. rewrite Hp. cbn. exact IH.
Qed.

Lemma hasQuestionPipe_app l1 l2 :
  hasQuestionPipe (l1 ++ l2) = hasQuestionPipe l1 || hasQuestionPipe l2.
Proof. apply existsb_app. Qed.

(** In a state about to enter the preview, or about to spawn a normal pipe,
    what the shape can be. *)
Lemma Shape_no_question counter pipes :
  Shape counter pipes -> hasQuestionPipe pipes = false ->
  (NORMAL_PIPES_BETWEEN_QUESTIONS <= counter)%Z ->
  Forall isNormal pipes.
Proof.
  intros [pipes' H | pre q Ht Hp H | pre q post Ht Hp Hb Hc H1 H2] Hq Hge.
  - exact H.
  - rewrite hasQuestionPipe_app in Hq. apply orb_false_elim in Hq.
    destruct Hq as [_ Hq]. cbn in Hq. rewrite Ht, Hp in Hq. discriminate.
  - unfold NORMAL_PIPES_BETWEEN_QUESTIONS in Hge. lia.
Qed.

Definition earlyPhase (ph : GamePhase) : bool :=
  match ph with
  | loading | chapter_intro | ready_to_play | auto_fly => true
  | _ => false
  end.

Definition pipesInv (s : GameState.t) : Prop :=
  Shape (GameState.pipesSinceLastQuestion s) (GameState.pipes s)
  /\ Forall (fun p => Pipe.x p <= PIPE_SPAWN_X) (GameState.pipes s)
  /\ (earlyPhase (GameState.phase s) = true -> GameState.pipes s = [])
  /\ (GameState.phase s = question_preview ->
      Forall isNormal (GameState.pipes s)).

Lemma pipesInv_sameGame s s' :
  sameGame s s' -> pipesInv s -> pipesInv s'.
Proof.
  intros (A & B & C & D & E & F & G) (H1 & H2 & H3 & H4).
  unfold pipesInv. rewrite A, B, G. auto.
Qed.

Lemma stepped_normal b l l' :
  Forall2 (stepped b) l l' -> Forall isNormal l -> Forall isNormal l'.
Proof.
  apply Forall2_transfer. intros p p' (T & _) H. unfold isNormal in *. congruence.
Qed.

Lemma stepped_bound b B l l' :
  Forall2 (stepped b) l l' ->
  Forall (fun p => Pipe.x p <= B) l -> Forall (fun p => Pipe.x p <= B) l'.
Proof.
  apply Forall2_transfer. intros p p' (_ & _ & X & _) H. lra.
Qed.

Lemma movePipe_x d p : Pipe.x (movePipe d p) == (Pipe.x p - PIPE_SPEED * d)%Q.
Proof. unfold movePipe. cbn [Pipe.x Pipe.set_x]. num_plain. reflexivity. Qed.

Lemma Forall2_and {A B} (R1 R2 : A -> B -> Prop) l l' :
  Forall2 R1 l l' -> Forall2 R2 l l' ->
  Forall2 (fun a b => R1 a b /\ R2 a b) l l'.
Proof.
  intro H. induction H as [| a b l l' Hab _ IH]; intro H2;
    inversion H2; subst; constructor; auto.
Qed.

(** The loop of the [playing] phase keeps the shape, the off-screen pipes
    removed. *)
Lemma playing_loop_shape b pipes0 s0 pipes' s1 fl :
  isPlayingBody b -> 0 <= bodyDelta b ->
  Shape (GameState.pipesSinceLastQuestion s0) pipes0 ->
  forPipes (loopBody b) pipes0 s0 = Some (pipes', s1, fl) ->
  Shape (GameState.pipesSinceLastQuestion s1) (removeOffscreen pipes').
Proof.
  intros Hplay Hd Hshape Hloop.
  destruct Hshape as [pipes H | pre q Ht Hp H | pre q post Ht Hp Hb Hc H1 H2].
  - (* normal pipes only *)
    apply shape_normal. apply Forall_filter.
    eapply stepped_normal; [| exact H]. eapply loop_stepped; eauto.
  - (* an unpassed question pipe at the end *)
    rewrite forPipes_app in Hloop.
    destruct (forPipes (loopBody b) pre s0) as [[[pre' sa] fla] |] eqn:Hpre;
      [| discriminate].
    pose proof (loop_stepped b Hd _ _ _ _ _ Hpre) as Hst.
    destruct fla.
    + (* the loop reaches the question pipe *)
      pose proof (Forall2_and _ _ _ _ Hst (loop_moved b _ _ _ _ Hpre)) as Hmv.
      cbn [forPipes] in Hloop.
      destruct (loopBody b q sa) as [[[q' sb] flq] |] eqn:Hq; [| discriminate].
      assert (Hout : pipes' = pre' ++ [q'] /\ s1 = sb).
      { destruct flq; inversion Hloop; subst; auto. }
      destruct Hout as [-> ->]. clear Hloop.
      pose proof (loopBody_pipe _ _ _ _ _ _ Hq) as (Tq & Xq & P3 & P4 & _).
      apply Shape_filter.
      assert (Hle : Forall (fun p => isNormal p /\ Pipe.x p <= Pipe.x q'
                                     /\ (behindBird p -> Pipe.passed p = true))
                           pre').
      { eapply Forall2_transfer; [| exact Hmv | exact H].
        intros p p' [(T & _) (X & Pb)] [Hn Hx].
        split; [unfold isNormal in *; congruence |]. split; [| auto].
        rewrite X, Xq, !movePipe_x. lra. }
      destruct (Pipe.passed q') eqn:Hq'.
      * destruct (P4 eq_refl) as [Hpq | Hbq]; [congruence |].
        destruct (loopBody_counter _ _ _ _ _ _ Hq Ht) as [_ Hc0].
        destruct (Hc0 Hp Hq') as [Hc0' | Hn]; [| contradiction].
        change (pre' ++ [q']) with (pre' ++ q' :: []).
        apply shape_passed;
          [congruence | exact Hq' | exact Hbq | exact Hc0' | | constructor].
        eapply Forall_impl; [| exact Hle]. intros p (Hn & Hx & Hpb).
        split; [exact Hn |]. apply Hpb. unfold behindBird in *. lra.
      * apply shape_unpassed; [congruence | exact Hq' |].
        eapply Forall_impl; [| exact Hle]. intros p (Hn & Hx & _). auto.
    + inversion Hloop; subst. apply Shape_filter. apply shape_unpassed; auto.
      eapply Forall2_transfer; [| exact Hst | exact H].
      intros p p' (T & _ & X & _) [Hn Hx]. split; [| lra].
      unfold isNormal in *. congruence.
  - (* a passed question pipe *)
    rewrite forPipes_app in Hloop.
    destruct (forPipes (loopBody b) pre s0) as [[[pre' sa] fla] |] eqn:Hpre;
      [| discriminate].
    pose proof (loop_stepped b Hd _ _ _ _ _ Hpre) as Hst.
    assert (Hpre' : Forall (fun p => isNormal p /\ Pipe.passed p = true) pre').
    { eapply Forall2_transfer; [| exact Hst | exact H1].
      intros p p' (T & _ & _ & P) [Hn Hpp].
      split; [unfold isNormal in *; congruence | auto]. }
    destruct (loop_passed_normals b _ _ _ _ _ Hpre) as [Hca _].
    { eapply Forall_impl; [| exact H1]. intros p Hpp; exact Hpp. }
    destruct fla.
    + cbn [forPipes] in Hloop.
      destruct (loopBody b q sa) as [[[q' sb] flq] |] eqn:Hq; [| discriminate].
      pose proof (loopBody_pipe _ _ _ _ _ _ Hq) as (Tq & Xq & P3 & P4 & _).
      destruct (loopBody_counter _ _ _ _ _ _ Hq Ht) as [Hcb _].
      specialize (Hcb Hp). specialize (P3 Hp).
      assert (Hxq : Pipe.x q' <= Pipe.x q).
      { rewrite Xq. now apply movePipe_le. }
      assert (Hbq : behindBird q') by (unfold behindBird in *; lra).
      destruct flq.
      * destruct (forPipes (loopBody b) post sb) as [[[post' sc] flc] |] eqn:Hpost;
          [| discriminate].
        inversion Hloop; subst pipes' s1 fl. clear Hloop.
        pose proof (loop_stepped b Hd _ _ _ _ _ Hpost) as Hst2.
        unfold removeOffscreen.
        destruct (Pipe.x q' + PIPE_WIDTH >? - (50)) eqn:Hon.
        -- fold (removeOffscreen (pre' ++ q' :: post')). apply Shape_filter.
           assert (Hah : Forall (ahead b) post).
           { eapply Forall_impl; [| exact H2]. intros p (Hn & Hpp & Hx).
             split; [exact Hn |]. split; [exact Hpp |].
             unfold behindBird. apply NumFacts.gtb_lt in Hon. rewrite Xq in Hon.
             pose proof (movePipe_x (bodyDelta b) q) as E1.
             pose proof (movePipe_x (bodyDelta b) p) as E2.
             num_lra. }
           destruct (loop_ahead b _ _ _ _ _ Hpost Hah) as (Hup & Hcc & _).
           apply shape_passed;
             [congruence | exact P3 | exact Hbq | congruence | exact Hpre' |].
           assert (Hx2 : Forall (fun p => isNormal p
                                          /\ Pipe.x q' + 310 <= Pipe.x p) post').
           { eapply Forall2_transfer; [| exact Hst2 | exact H2].
             intros p p' (T & X & _) (Hn & _ & Hx).
             split; [unfold isNormal in *; congruence |].
             rewrite Xq.
             pose proof (movePipe_x (bodyDelta b) q) as E1.
             pose proof (movePipe_x (bodyDelta b) p) as E2. lra. }
           clear - Hup Hx2. induction post' as [| p l IH]; [constructor |].
           inversion Hup; inversion Hx2; subst. constructor; [tauto | auto].
        -- rewrite filter_app. cbn [filter]. rewrite Hon.
           apply shape_normal. apply Forall_app. split; apply Forall_filter.
           ++ eapply Forall_impl; [| exact Hpre']. intros p Hpp; apply Hpp.
           ++ eapply stepped_normal; [exact Hst2 |].
              eapply Forall_impl; [| exact H2]. intros p Hpp; apply Hpp.
      * inversion Hloop; subst pipes' s1 fl. apply Shape_filter.
        apply shape_passed;
          [congruence | exact P3 | exact Hbq | congruence | exact Hpre' |].
        eapply Forall_impl; [| exact H2]. intros p (Hn & Hpp & Hx).
        repeat split; auto. lra.
    + inversion Hloop; subst pipes' s1 fl. apply Shape_filter.
      apply shape_passed; auto. congruence.
Qed.

Lemma frameDelta_nonneg currentTime lastFrameTime :
  lastFrameTime <= currentTime -> 0 <= frameDelta currentTime lastFrameTime.
Proof.
  intro H. unfold frameDelta. apply NumFacts.Math_min_glb.
  - destruct (lastFrameTime =? 0); unfold_consts; num_plain.
    + assert (E : (currentTime - currentTime) / (1000 / 60) == 0) by field.
      rewrite E. lra.
    + apply Qle_shift_div_l; [reflexivity | lra].
  - unfold MAX_DELTA_TIME. lra.
Qed.

Lemma frameDelta_max currentTime lastFrameTime :
  frameDelta currentTime lastFrameTime <= MAX_DELTA_TIME.
Proof. apply NumFacts.Math_min_le_r. Qed.

Section PipesInvariant.

Variable chapters : list Chapter.t.
Variables currentTime deltaTime random : Q.
Hypothesis delta_nonneg : 0 <= deltaTime.

Lemma Shape_spawn counter pipes :
  Shape counter pipes -> hasQuestionPipe pipes = false ->
  Shape counter (pipes ++ [createNormalPipe random]).
Proof.
  intros [pipes' H | pre q Ht Hp H | pre q post Ht Hp Hb Hc H1 H2] Hq.
  - apply shape_normal. apply Forall_app. split; [exact H |].
    constructor; [reflexivity | constructor].
  - rewrite hasQuestionPipe_app in Hq. apply orb_false_elim in Hq.
    destruct Hq as [_ Hq]. cbn in Hq. rewrite Ht, Hp in Hq. discriminate.
  - rewrite <- app_assoc. cbn [app]. apply shape_passed; auto.
    apply Forall_app. split; [exact H2 |].
    constructor; [| constructor]. split; [reflexivity |].
    split; [reflexivity |]. unfold behindBird in Hb.
    change (Pipe.x (createNormalPipe random)) with PIPE_SPAWN_X. num_lra.
Qed.

Lemma frameStep_pipesInv s s' :
  frameStep chapters currentTime deltaTime random s s' ->
  pipesInv s -> pipesInv s'.
Proof.
  intros Hstep Hinv. pose proof Hinv as (Hs & Hb & He & Hp).
  destruct Hstep as [Hsame | Hph Hsame | Hph Hsame | Hph Hsame
                    | chapter Hph Hge Hq Hch Hqi Hsame
                    | s0 pipes0 pipes' s1 fl Hph Hsame Hp0 Hcond Hloop ->
                    | s0 pipes' s1 fl Hph Hsame Hloop Hs'].
  - eapply pipesInv_sameGame; eauto.
  - eapply pipesInv_sameGame; [exact Hsame |].
    unfold pipesInv. cbn. repeat split; auto; discriminate.
  - eapply pipesInv_sameGame; [exact Hsame |].
    unfold pipesInv. cbn. repeat split; auto; try discriminate.
    apply shape_normal. constructor.
  - eapply pipesInv_sameGame; [exact Hsame |].
    rewrite Hph in He. rewrite (He eq_refl).
    unfold pipesInv. cbn. repeat split; try discriminate.
    + apply (shape_unpassed _ [] createQuestionPipe); auto.
    + constructor; [| constructor]. vm_compute. discriminate.
  - eapply pipesInv_sameGame; [exact Hsame |].
    unfold pipesInv. cbn. repeat split; auto; try discriminate.
    intros _. eapply Shape_no_question; eauto.
  - (* the loop of [playing] *)
    destruct Hsame as (A & B & C & D & E & F & G).
    assert (Hs0 : Shape (GameState.pipesSinceLastQuestion s0) pipes0).
    { rewrite G. destruct Hp0 as [-> | [Hq ->]]; [exact Hs |].
      now apply Shape_spawn. }
    assert (Hb0 : Forall (fun p => Pipe.x p <= PIPE_SPAWN_X) pipes0).
    { destruct Hp0 as [-> | [Hq ->]]; [exact Hb |].
      apply Forall_app. split; [exact Hb |].
      constructor; [| constructor]. cbn. lra. }
    set (b := InPlaying currentTime deltaTime
                (nth_error chapters (GameState.chapterIndex s))
                (currentQuestionOf chapters s)) in *.
    change (forPipes (loopBody b) pipes0 s0 = Some (pipes', s1, fl)) in Hloop.
    unfold pipesInv. cbn [GameState.pipes GameState.set_pipes
                          GameState.pipesSinceLastQuestion GameState.phase].
    split; [| split; [| split]].
    + exact (playing_loop_shape b pipes0 s0 pipes' s1 fl I delta_nonneg
               Hs0 Hloop).
    + apply Forall_filter. eapply stepped_bound; [| exact Hb0].
      exact (loop_stepped b delta_nonneg _ _ _ _ _ Hloop).
    + pose proof (loop_phase b _ _ _ _ _ Hloop) as [H | [H | [H _]]];
        rewrite H; try rewrite A, Hph; discriminate.
    + pose proof (loop_phase b _ _ _ _ _ Hloop) as [H | [H | [H _]]];
        rewrite H; try rewrite A, Hph; discriminate.
  - (* the loop of [question_preview] *)
    destruct Hsame as (A & B & C & D & E & F & G).
    set (b := InPreview currentTime deltaTime) in *.
    change (forPipes (loopBody b) (GameState.pipes s) s0
            = Some (pipes', s1, fl)) in Hloop.
    pose proof (loop_stepped b delta_nonneg _ _ _ _ _ Hloop) as Hst.
    assert (Hn : Forall isNormal (removeOffscreen pipes')).
    { apply Forall_filter. eapply stepped_normal; eauto. }
    assert (Hbd : Forall (fun p => Pipe.x p <= PIPE_SPAWN_X)
                         (removeOffscreen pipes')).
    { apply Forall_filter. eapply stepped_bound; eauto. }
    destruct Hs' as [-> | Hsame'].
    + unfold pipesInv. cbn [GameState.pipes GameState.set_pipes
                            GameState.pipesSinceLastQuestion GameState.phase].
      split; [now apply shape_normal |]. split; [exact Hbd |].
      split; [| auto].
      pose proof (loop_phase b _ _ _ _ _ Hloop) as [H | [H | [_ [[] _]]]];
        rewrite H; try rewrite A, Hph; discriminate.
    + eapply pipesInv_sameGame; [exact Hsame' |].
      unfold pipesInv. cbn. repeat split; try discriminate.
      * apply shape_unpassed; auto.
        clear - Hn Hbd. induction (removeOffscreen pipes'); [constructor |].
        inversion Hn; inversion Hbd; subst. constructor; auto.
      * apply Forall_app. split; [exact Hbd |].
        constructor; [| constructor]. vm_compute. discriminate.
Qed.

End PipesInvariant.

Section Reachable.

Variable Math_sin : Q -> Q.
Variable chapters : list Chapter.t.

Definition compInv (c : Component.t) : Prop :=
  pipesInv (Component.gameStateRef c)
  /\ (Component.assetsLoaded c = false ->
      GameState.phase (Component.gameStateRef c) = loading).

Lemma jump_sameGame now c :
  sameGame (Component.gameStateRef c) (Component.gameStateRef (jump now c))
  /\ Component.assetsLoaded (jump now c) = Component.assetsLoaded c.
Proof.
  unfold jump. destruct (_ <? _)%Z; [split; [apply sameGame_refl | reflexivity] |].
  cbn. destruct (GameState.phase (Component.gameStateRef c));
    split; try reflexivity; repeat split.
Qed.

Lemma handleCanvasClick_assetsLoaded perfNow dateNow c :
  Component.assetsLoaded (handleCanvasClick chapters perfNow dateNow c)
  = Component.assetsLoaded c.
Proof.
  unfold handleCanvasClick.
  destruct (GameState.phase (Component.gameStateRef c));
    try apply jump_sameGame; try reflexivity.
  destruct (_ <? _)%Z; reflexivity.
Qed.

Lemma handleCanvasClick_compInv perfNow dateNow c :
  compInv c -> compInv (handleCanvasClick chapters perfNow dateNow c).
Proof.
  intros [Hinv Hload]. pose proof Hinv as (Hs & Hb & He & Hp).
  split.
  - unfold handleCanvasClick.
    destruct (GameState.phase (Component.gameStateRef c)) eqn:Hph;
      try (eapply pipesInv_sameGame; [apply jump_sameGame | exact Hinv]).
    + (* ready_to_play *)
      unfold pipesInv. cbn. repeat split; auto; discriminate.
    + (* game_over *)
      unfold pipesInv. cbn. repeat split; try discriminate.
      * now apply Shape_filter.
      * now apply Forall_filter.
    + (* chapter_complete *)
      destruct (_ <? _)%Z; unfold pipesInv; cbn;
        repeat split; auto; try discriminate.
      apply shape_normal. constructor.
    + (* game_complete *)
      unfold pipesInv. cbn. repeat split; auto; try discriminate.
      apply shape_normal. constructor.
  - rewrite handleCanvasClick_assetsLoaded. intro Hl.
    specialize (Hload Hl). unfold handleCanvasClick. rewrite Hload.
    destruct (jump_sameGame dateNow c) as [(A & _) _].
    cbv beta iota zeta. rewrite A. exact Hload.
Qed.

Lemma gameLoop_compInv currentTime random c c' :
  admissible (Frame currentTime random) c ->
  gameLoop Math_sin chapters currentTime random c = Some c' ->
  compInv c -> compInv c'.
Proof.
  intros (Hl & Ht & _) Hloop [Hinv _]. unfold gameLoop in Hloop.
  destruct (framePhase _ _ _ _ _ _) as [s' |] eqn:Hf; [| discriminate].
  inversion Hloop; subst c'. unfold compInv.
  cbn [Component.assetsLoaded Component.gameStateRef].
  split; [| intro; congruence].
  apply framePhase_frameStep in Hf.
  eapply frameStep_pipesInv; eauto. now apply frameDelta_nonneg.
Qed.

Lemma initialComponent_compInv : compInv (initialComponent chapters).
Proof.
  split; [| reflexivity]. unfold pipesInv. cbn.
  repeat split; auto; try discriminate. apply shape_normal. constructor.
Qed.

Lemma reachable_compInv c : reachable Math_sin chapters c -> compInv c.
Proof.
  induction 1 as [| e c c' _ IH Hadm Hh].
  - apply initialComponent_compInv.
  - destruct e as [now | currentTime random | perfNow dateNow]; cbn in Hh.
    + inversion Hh; subst c'. destruct IH as [(Hs & Hb & He & Hp) Hload].
      cbn in Hadm. specialize (Hload Hadm).
      rewrite Hload in He. specialize (He eq_refl).
      split; [| discriminate]. unfold pipesInv, onAssetsLoaded. cbn.
      rewrite He. repeat split; auto; try discriminate.
      apply shape_normal. constructor.
    + eapply gameLoop_compInv; eauto.
    + inversion Hh; subst c'. now apply handleCanvasClick_compInv.
Qed.

End Reachable.

(** C2: in every state reachable from the initial one by admissible events
    (the end of loading, frames, inputs) the pipe list holds at most one
    question pipe whose question is not answered; it even holds at most one
    question pipe at all. *)
Theorem C2_at_most_one_active_question :
  forall (Math_sin : Q -> Q) (chapters : list Chapter.t) (c : Component.t),
    reachable Math_sin chapters c ->
    (length (filter unanswered (GameState.pipes (Component.gameStateRef c)))
     <= 1)%nat
    /\ (length (filter isQuestionPipe
                       (GameState.pipes (Component.gameStateRef c)))
        <= 1)%nat.
Proof.
  intros Math_sin chapters c Hr.
  apply reachable_compInv in Hr. destruct Hr as [(Hs & _) _].
  pose proof (Shape_one_question _ _ Hs) as H1. split; [| exact H1].
  eapply Nat.le_trans; [| exact H1].
  clear. induction (GameState.pipes (Component.gameStateRef c)) as [| p l IH];
    [cbn; lia |].
  cbn. unfold unanswered at 1, isQuestionPipe at 1.
  destruct (PipeType_eqb (Pipe.type p) question); cbn.
  - destruct (negb _); cbn; lia.
  - exact IH.
Qed.

Lemma C2_at_most_one_active_question_witness :
  filter unanswered (GameState.pipes (Component.gameStateRef afterOpening))
  = [createQuestionPipe]
  /\ (length (filter unanswered
                     (GameState.pipes (Component.gameStateRef afterOpening)))
      <= 1)%nat.
Proof.
  split; [vm_compute; reflexivity |].
  exact (proj1 (C2_at_most_one_active_question flatSine singleQuestionGame
                  afterOpening afterOpening_reachable)).
Defined.

(** ** The score aggregate (C10) *)

(** The sum over all chapters of [chapterScores[i].correct]. *)
Definition sumCorrect (l : list ChapterScore.t) : Z :=
  fold_right (fun cs acc => (ChapterScore.correct cs + acc)%Z) 0%Z l.

Definition questionCounts (chapters : list Chapter.t) : list Z :=
  map (fun c => Z.of_nat (length (Chapter.questions c))) chapters.

(** The score is consistent, and has the totals [createInitialScore] gave
    it. *)
Definition scoreOk (chapters : list Chapter.t) (sc : GameScore.t) : Prop :=
  GameScore.totalCorrect sc = sumCorrect (GameScore.chapterScores sc)
  /\ map ChapterScore.total (GameScore.chapterScores sc)
     = questionCounts chapters.

Lemma createInitialScore_ok chapters : scoreOk chapters (createInitialScore chapters).
Proof.
  unfold scoreOk, createInitialScore. cbn. split.
  - induction chapters as [| c l IH]; [reflexivity |]. cbn. exact IH.
  - unfold questionCounts. rewrite map_map. reflexivity.
Qed.

Lemma bumpCorrect_sum i : forall l l',
  bumpCorrect i l = Some l' ->
  sumCorrect l' = (sumCorrect l + 1)%Z
  /\ map ChapterScore.total l' = map ChapterScore.total l.
Proof.
  induction i as [| i IH]; intros [| cs l] l' H; try discriminate.
  - cbn in H. inversion H; subst. cbn. split; [lia | reflexivity].
  - cbn in H. destruct (bumpCorrect i l) as [r |] eqn:E; [| discriminate].
    inversion H; subst. destruct (IH l r E) as [Hs Ht].
    unfold sumCorrect in *. cbn [fold_right map]. rewrite Hs, Ht.
    split; [lia | reflexivity].
Qed.

Lemma scoreCorrectAnswer_ok chapters i sc sc' :
  scoreCorrectAnswer i sc = Some sc' -> scoreOk chapters sc -> scoreOk chapters sc'.
Proof.
  unfold scoreCorrectAnswer, scoreOk.
  destruct (bumpCorrect i (GameScore.chapterScores sc)) as [l |] eqn:E;
    [| discriminate].
  intros H [H1 H2]. inversion H; subst.
  cbn [GameScore.totalCorrect GameScore.chapterScores].
  destruct (bumpCorrect_sum _ _ _ E) as [Hs Ht]. rewrite Hs, Ht.
  split; [lia | auto].
Qed.

Lemma loopBody_scoreOk chapters b p s p' s' fl :
  loopBody b p s = Some (p', s', fl) ->
  scoreOk chapters (GameState.score s) -> scoreOk chapters (GameState.score s').
Proof.
  destruct b as [t d ch cq | t d]; cbn [loopBody].
  - unfold playingPipe. generalize (movePipe d p). intro p1.
    destruct (checkCollision _ _).
    { intro H; inversion H; subst. auto. }
    destruct (passThrough t ch p1 s) as [[[p2 s2] fl2] |] eqn:Hpt;
      [| discriminate].
    apply passThrough_step in Hpt. destruct Hpt as (_ & _ & _ & Sc2 & _).
    destruct fl2.
    + destruct (answerSelection cq p2 s2) as [[p3 s3] |] eqn:Has;
        [| discriminate].
      intro H; inversion H; subst p' s' fl. rewrite <- Sc2.
      unfold answerSelection in Has.
      destruct_branches; inversion Has; subst; gs_simpl; auto.
      intro Hok. eapply scoreCorrectAnswer_ok; eauto.
    + intro H; inversion H; subst. now rewrite Sc2.
  - unfold previewPipe. generalize (movePipe d p). intro p1. intro H.
    destruct_branches; inversion H; subst; gs_simpl; auto.
Qed.

Lemma loop_scoreOk chapters b l s l' s' fl :
  forPipes (loopBody b) l s = Some (l', s', fl) ->
  scoreOk chapters (GameState.score s) -> scoreOk chapters (GameState.score s').
Proof.
  revert l s l' s' fl. apply (forPipes_elim (loopBody b)
    (fun l s l' s' fl =>
       scoreOk chapters (GameState.score s) ->
       scoreOk chapters (GameState.score s'))).
  - auto.
  - intros p s p' s' rest Hb. eapply loopBody_scoreOk; eauto.
  - intros p s p' s1 rest rest' s' fl Hb _ IH H. apply IH.
    eapply loopBody_scoreOk; eauto.
Qed.

Section ScoreInvariant.

Variable Math_sin : Q -> Q.
Variable chapters : list Chapter.t.

Lemma frameStep_scoreOk t d r s s' :
  frameStep chapters t d r s s' ->
  scoreOk chapters (GameState.score s) -> scoreOk chapters (GameState.score s').
Proof.
  intros Hstep Hok.
  destruct Hstep as [Hsame | Hph Hsame | Hph Hsame | Hph Hsame
                    | chapter Hph Hge Hq Hch Hqi Hsame
                    | s0 pipes0 pipes' s1 fl Hph Hsame Hp0 Hcond Hloop ->
                    | s0 pipes' s1 fl Hph Hsame Hloop Hs'];
    try (destruct Hsame as (_ & _ & _ & _ & E & _); gs_simpl;
         rewrite E; exact Hok).
  - gs_simpl.
    change (forPipes (loopBody (InPlaying t d
              (nth_error chapters (GameState.chapterIndex s))
              (currentQuestionOf chapters s))) pipes0 s0
            = Some (pipes', s1, fl)) in Hloop.
    eapply loop_scoreOk; eauto.
    destruct Hsame as (_ & _ & _ & _ & E & _). now rewrite E.
  - change (forPipes (loopBody (InPreview t d)) (GameState.pipes s) s0
            = Some (pipes', s1, fl)) in Hloop.
    assert (H1 : scoreOk chapters (GameState.score s1)).
    { eapply loop_scoreOk; eauto.
      destruct Hsame as (_ & _ & _ & _ & E & _). now rewrite E. }
    destruct Hs' as [-> | Hsame']; [exact H1 |].
    destruct Hsame' as (_ & _ & _ & _ & E & _). gs_simpl. now rewrite E.
Qed.

Lemma handleCanvasClick_scoreOk perfNow dateNow c :
  scoreOk chapters (GameState.score (Component.gameStateRef c)) ->
  scoreOk chapters
    (GameState.score
       (Component.gameStateRef (handleCanvasClick chapters perfNow dateNow c))).
Proof.
  intro Hok. unfold handleCanvasClick.
  destruct (GameState.phase (Component.gameStateRef c));
    try (destruct (jump_sameGame dateNow c) as [(_ & _ & _ & _ & E & _) _];
         rewrite E; exact Hok);
    try exact Hok.
  - destruct (_ <? _)%Z; exact Hok.
  - apply createInitialScore_ok.
Qed.

Lemma reachable_scoreOk c :
  reachable Math_sin chapters c ->
  scoreOk chapters (GameState.score (Component.gameStateRef c)).
Proof.
  induction 1 as [| e c c' _ IH Hadm Hh].
  - apply createInitialScore_ok.
  - destruct e as [now | currentTime random | perfNow dateNow]; cbn in Hh.
    + inversion Hh; subst c'. exact IH.
    + unfold gameLoop in Hh.
      destruct (framePhase _ _ _ _ _ _) as [s' |] eqn:Hf; [| discriminate].
      inversion Hh; subst c'. apply framePhase_frameStep in Hf.
      eapply frameStep_scoreOk; eauto.
    + inversion Hh; subst c'. now apply handleCanvasClick_scoreOk.
Qed.

End ScoreInvariant.

(** C10: in every reachable state [score.totalCorrect] is the sum over all
    chapters of [score.chapterScores[i].correct]. *)
Theorem C10_score_consistency :
  forall (Math_sin : Q -> Q) (chapters : list Chapter.t) (c : Component.t),
    reachable Math_sin chapters c ->
    GameScore.totalCorrect (GameState.score (Component.gameStateRef c))
    = sumCorrect
        (GameScore.chapterScores (GameState.score (Component.gameStateRef c))).
Proof.
  intros Math_sin chapters c Hr.
  exact (proj1 (reachable_scoreOk Math_sin chapters c Hr)).
Qed.

Lemma C10_score_consistency_witness :
  GameScore.totalCorrect (GameState.score (Component.gameStateRef afterOpening))
  = sumCorrect
      (GameScore.chapterScores
         (GameState.score (Component.gameStateRef afterOpening))).
Proof.
  exact (C10_score_consistency flatSine singleQuestionGame afterOpening
           afterOpening_reachable).
Defined.

(** ** Physics integration (C9) *)

(** The bird after frames with the elapsed-time factors [deltas] and no
    input. *)
Fixpoint fall (deltas : list Q) (bird : Bird.t) : Bird.t :=
  match deltas with
  | [] => bird
  | d :: rest => fall rest (updateBirdPhysics d bird)
  end.

Definition total (deltas : list Q) : Q := fold_right Qplus 0 deltas.

Definition totalSquares (deltas : list Q) : Q :=
  fold_right (fun d acc => (d * d + acc)%Q) 0 deltas.

(** The closed form of constant acceleration from rest: [y0 + g t^2 / 2]. *)
Definition closedForm (y0 t : Q) : Q := (y0 + GRAVITY * t * t / 2)%Q.

Lemma updateBirdPhysics_spec d bird :
  Bird.velocity (updateBirdPhysics d bird)
  == (Bird.velocity bird + GRAVITY * d)%Q
  /\ Bird.y (updateBirdPhysics d bird)
     == (Bird.y bird + (Bird.velocity bird + GRAVITY * d) * d)%Q.
Proof.
  unfold updateBirdPhysics.
  cbn [Bird.velocity Bird.y Bird.set_y Bird.set_velocity].
  split; num_plain; reflexivity.
Qed.

Lemma fall_spec deltas : forall bird,
  Bird.velocity (fall deltas bird)
  == (Bird.velocity bird + GRAVITY * total deltas)%Q
  /\ Bird.y (fall deltas bird)
     == (Bird.y bird + Bird.velocity bird * total deltas
         + GRAVITY * (total deltas * total deltas + totalSquares deltas) / 2)%Q.
Proof.
  induction deltas as [| d rest IH]; intro bird.
  - cbn. split; field.
  - cbn [fall total totalSquares fold_right].
    destruct (IH (updateBirdPhysics d bird)) as [Hv Hy].
    destruct (updateBirdPhysics_spec d bird) as [Ev Ey].
    fold (total rest). fold (totalSquares rest).
    rewrite Hv, Hy, Ev, Ey. split; field.
Qed.

Lemma passThrough_bird t ch p s p' s' fl :
  passThrough t ch p s = Some (p', s', fl) ->
  GameState.bird s' = GameState.bird s.
Proof.
  unfold passThrough. intro H.
  destruct_branches; inversion H; subst; gs_simpl; reflexivity.
Qed.

Lemma answerSelection_bird cq p s p' s' :
  answerSelection cq p s = Some (p', s') ->
  GameState.bird s' = GameState.bird s.
Proof.
  unfold answerSelection. intro H.
  destruct_branches; inversion H; subst; gs_simpl; reflexivity.
Qed.

Lemma loopBody_bird b p s p' s' fl :
  loopBody b p s = Some (p', s', fl) -> GameState.bird s' = GameState.bird s.
Proof.
  destruct b as [t d ch cq | t d]; cbn [loopBody].
  - unfold playingPipe. generalize (movePipe d p). intros p1.
    destruct (checkCollision _ _).
    { intro H; inversion H; subst. reflexivity. }
    destruct (passThrough t ch p1 s) as [[[p2 s2] fl2] |] eqn:Hpt;
      [| discriminate].
    apply passThrough_bird in Hpt.
    destruct fl2.
    + destruct (answerSelection cq p2 s2) as [[p3 s3] |] eqn:Has;
        [| discriminate].
      apply answerSelection_bird in Has.
      intro H; inversion H; subst. congruence.
    + intro H; inversion H; subst. exact Hpt.
  - unfold previewPipe. generalize (movePipe d p). intros p1 H.
    destruct_branches; inversion H; subst; gs_simpl; reflexivity.
Qed.

Lemma loop_bird b l s l' s' fl :
  forPipes (loopBody b) l s = Some (l', s', fl) ->
  GameState.bird s' = GameState.bird s.
Proof.
  revert l s l' s' fl. apply forPipes_elim.
  - reflexivity.
  - intros p s p' s' rest Hb. eapply loopBody_bird; eauto.
  - intros p s p' s1 rest rest' s' fl Hb _ IH.
    apply loopBody_bird in Hb. congruence.
Qed.

Definition inFlight (ph : GamePhase) : Prop :=
  ph = playing \/ ph = question_preview.

Lemma animateBird_flight n s :
  Bird.y (GameState.bird (animateBird n s)) = Bird.y (GameState.bird s)
  /\ Bird.velocity (GameState.bird (animateBird n s))
     = Bird.velocity (GameState.bird s)
  /\ GameState.pipes (animateBird n s) = GameState.pipes s.
Proof. unfold animateBird. gs_simpl. destruct (_ =? _)%Z; repeat split. Qed.

Section Flight.

Variable Math_sin : Q -> Q.
Variable chapters : list Chapter.t.

Lemma framePhase_physics t d r s s' :
  inFlight (GameState.phase s) ->
  framePhase Math_sin chapters t d r s = Some s' ->
  Bird.y (GameState.bird s') = Bird.y (updateBirdPhysics d (GameState.bird s))
  /\ Bird.velocity (GameState.bird s')
     = Bird.velocity (updateBirdPhysics d (GameState.bird s)).
Proof.
  intros [Hph | Hph]; unfold framePhase; rewrite Hph.
  - unfold framePlaying.
    set (s2 := GameState.set_bird _ _).
    assert (H2 : GameState.bird s2 = updateBirdPhysics d (GameState.bird s))
      by reflexivity.
    destruct (outOfBounds (GameState.bird s2)).
    { intro H; inversion H; subst. gs_simpl. now rewrite H2. }
    destruct (animateBird_flight 6 s2) as (Ay & Av & _).
    rewrite H2 in Ay, Av. clearbody s2.
    set (s3 := animateBird 6 s2) in *. clearbody s3.
    intro H.
    assert (Hl : forall pipes0 l1 s1 fl,
               forPipes (playingPipe t d
                           (nth_error chapters (GameState.chapterIndex s))
                           match nth_error chapters (GameState.chapterIndex s) with
                           | Some chapter =>
                               nth_error (Chapter.questions chapter)
                                         (GameState.questionIndex s)
                           | None => None
                           end) pipes0 s3 = Some (l1, s1, fl) ->
               GameState.bird s1 = GameState.bird s3).
    { intros pipes0 l1 s1 fl Hf.
      exact (loop_bird (InPlaying t d _ _) _ _ _ _ _ Hf). }
    destruct_branches; inversion H; subst; gs_simpl; auto;
      match goal with
      | Hf : forPipes _ _ _ = Some _ |- _ =>
          rewrite (Hl _ _ _ _ Hf); auto
      end.
  - unfold frameQuestionPreview.
    set (s2 := GameState.set_bird _ _).
    assert (H2 : GameState.bird s2 = updateBirdPhysics d (GameState.bird s))
      by reflexivity.
    destruct (outOfBounds (GameState.bird s2)).
    { intro H; inversion H; subst. gs_simpl. now rewrite H2. }
    destruct (animateBird_flight 6 s2) as (Ay & Av & _).
    rewrite H2 in Ay, Av. clearbody s2.
    set (s3 := animateBird 6 s2) in *. clearbody s3.
    destruct (forPipes _ _ s3) as [[[l1 s1] fl] |] eqn:Hf; [| discriminate].
    pose proof (loop_bird (InPreview t d) _ _ _ _ _ Hf) as Hb.
    destruct (_ >=? _); intro H; inversion H; subst; gs_simpl;
      rewrite Hb; auto.
Qed.

(** [flight c deltas c']: frames take the component from [c] to [c'], each
    starting in a phase that lets the bird fly, with no input between them;
    [deltas] are their elapsed-time factors. *)
Inductive flight : Component.t -> list Q -> Component.t -> Prop :=
| flight_done c : flight c [] c
| flight_frame c currentTime random c1 deltas c' :
    inFlight (GameState.phase (Component.gameStateRef c)) ->
    gameLoop Math_sin chapters currentTime random c = Some c1 ->
    flight c1 deltas c' ->
    flight c (frameDelta currentTime (Component.lastFrameTimeRef c) :: deltas)
           c'.

Lemma flight_fall c deltas c' :
  flight c deltas c' ->
  Forall (fun d => d <= MAX_DELTA_TIME) deltas
  /\ Bird.y (GameState.bird (Component.gameStateRef c'))
     = Bird.y (fall deltas (GameState.bird (Component.gameStateRef c)))
  /\ Bird.velocity (GameState.bird (Component.gameStateRef c'))
     = Bird.velocity (fall deltas (GameState.bird (Component.gameStateRef c))).
Proof.
  induction 1 as [c | c t r c1 deltas c' Hph Hloop _ IH].
  - repeat split. constructor.
  - destruct IH as (Hmax & Hy & Hv).
    split; [constructor; [apply frameDelta_max | exact Hmax] |].
    unfold gameLoop in Hloop.
    destruct (framePhase _ _ _ _ _ _) as [s' |] eqn:Hf; [| discriminate].
    inversion Hloop; subst c1.
    cbn [Component.gameStateRef] in *.
    destruct (framePhase_physics _ _ _ _ _ Hph Hf) as [Ey Ev].
    cbn [fall].
    assert (Hb : forall b1 b2,
               Bird.y b1 = Bird.y b2 -> Bird.velocity b1 = Bird.velocity b2 ->
               Bird.y (fall deltas b1) = Bird.y (fall deltas b2)
               /\ Bird.velocity (fall deltas b1)
                  = Bird.velocity (fall deltas b2)).
    { clear. induction deltas as [| d rest IH]; intros b1 b2 Hy Hv; [auto |].
      cbn [fall]. apply IH; unfold updateBirdPhysics;
        cbn [Bird.velocity Bird.y Bird.set_y Bird.set_velocity];
        congruence. }
    destruct (Hb _ _ Ey Ev) as [Fy Fv]. split; congruence.
Qed.

End Flight.

(** C9 (amended): every frame that starts in the [playing] or
    [question_preview] phase updates the velocity by [GRAVITY * dt] and then
    the position by [velocity * dt], with [dt <= MAX_DELTA_TIME]; so after
    frames with the elapsed-time factors [deltas] and no input the velocity
    is [v0 + GRAVITY * T] and the position
    [y0 + v0 * T + GRAVITY * (T^2 + sum of dt^2) / 2] with [T] the sum of the
    factors: from rest it exceeds the closed form [y0 + GRAVITY * T^2 / 2] by
    [GRAVITY * (sum of dt^2) / 2]. *)
Theorem C9_physics_integration :
  forall (Math_sin : Q -> Q) (chapters : list Chapter.t)
         (c c' : Component.t) (deltas : list Q),
    flight Math_sin chapters c deltas c' ->
    let bird := GameState.bird (Component.gameStateRef c) in
    let bird' := GameState.bird (Component.gameStateRef c') in
    Forall (fun d => d <= MAX_DELTA_TIME) deltas
    /\ Bird.y bird' = Bird.y (fall deltas bird)
    /\ Bird.velocity bird' = Bird.velocity (fall deltas bird)
    /\ Bird.velocity bird'
       == Bird.velocity bird + GRAVITY * total deltas
    /\ Bird.y bird'
       == Bird.y bird + Bird.velocity bird * total deltas
          + GRAVITY * (total deltas * total deltas + totalSquares deltas) / 2
    /\ (Bird.velocity bird == 0 ->
        Bird.y bird' - closedForm (Bird.y bird) (total deltas)
        == GRAVITY * totalSquares deltas / 2).
Proof.
  intros Math_sin chapters c c' deltas Hf bird bird'.
  destruct (flight_fall Math_sin chapters c deltas c' Hf) as (Hmax & Hy & Hv).
  destruct (fall_spec deltas bird) as [Fv Fy].
  subst bird bird'. split; [exact Hmax |]. split; [exact Hy |].
  split; [exact Hv |]. rewrite Hy, Hv.
  split; [exact Fv |]. split; [exact Fy |].
  intro H0. rewrite Fy, H0. unfold closedForm. field.
Qed.

(** The component one frame of 1000/60 ms after [afterOpening], where the
    bird is at rest in the [playing] phase. *)
Definition afterOneFrame : Component.t :=
  Eval vm_compute in
    match gameLoop flatSine singleQuestionGame (7002 + (50 # 3)) 0
                   afterOpening with
    | Some c => c
    | None => afterOpening
    end.

Lemma oneFrame_run :
  gameLoop flatSine singleQuestionGame (7002 + (50 # 3)) 0 afterOpening
  = Some afterOneFrame.
Proof. vm_compute. reflexivity. Qed.

(** C9, as the spec states it, fails: one frame of elapsed-time factor 1 from
    rest at [y0 = 211] puts the bird at [211 + 1/2], while the closed form
    [y0 + GRAVITY * t^2 / 2] gives [211 + 1/4]; every number here is a binary
    fraction, so the difference is no rounding error. *)
Lemma C9_not_the_closed_form :
  reachable flatSine singleQuestionGame afterOpening
  /\ gameLoop flatSine singleQuestionGame (7002 + (50 # 3)) 0 afterOpening
     = Some afterOneFrame
  /\ frameDelta (7002 + (50 # 3)) (Component.lastFrameTimeRef afterOpening)
     == 1
  /\ Bird.velocity (GameState.bird (Component.gameStateRef afterOpening)) == 0
  /\ Bird.y (GameState.bird (Component.gameStateRef afterOpening)) == 211
  /\ Bird.y (GameState.bird (Component.gameStateRef afterOneFrame))
     == 211 + 1 / 2
  /\ closedForm
       (Bird.y (GameState.bird (Component.gameStateRef afterOpening))) 1
     == 211 + 1 / 4
  /\ ~ Bird.y (GameState.bird (Component.gameStateRef afterOneFrame))
       == closedForm
            (Bird.y (GameState.bird (Component.gameStateRef afterOpening))) 1.
Proof.
  split; [exact afterOpening_reachable |]. split; [exact oneFrame_run |].
  repeat split; try (vm_compute; reflexivity).
  vm_compute. discriminate.
Qed.

Lemma C9_physics_integration_witness :
  Bird.y (GameState.bird (Component.gameStateRef afterOneFrame))
  - closedForm
      (Bird.y (GameState.bird (Component.gameStateRef afterOpening)))
      (total [frameDelta (7002 + (50 # 3))
                (Component.lastFrameTimeRef afterOpening)])
  == GRAVITY
     * totalSquares [frameDelta (7002 + (50 # 3))
                       (Component.lastFrameTimeRef afterOpening)] / 2.
Proof.
  refine (proj2 (proj2 (proj2 (proj2 (proj2
            (C9_physics_integration flatSine singleQuestionGame
               afterOpening afterOneFrame _ _))))) _).
  - eapply flight_frame; [left; reflexivity | exact oneFrame_run |].
    apply flight_done.
  - vm_compute. reflexivity.
Defined.

(** ** Passing the question pipe (C5) *)

(** [s'] is [s] but for [displayScore] and [pipesSinceLastQuestion]. *)
Definition countersOnly (s s' : GameState.t) : Prop :=
  s' = GameState.set_pipesSinceLastQuestion
         (GameState.pipesSinceLastQuestion s')
         (GameState.set_displayScore (GameState.displayScore s') s).

Lemma countersOnly_refl s : countersOnly s s.
Proof. destruct s. reflexivity. Qed.

Lemma countersOnly_trans s1 s2 s3 :
  countersOnly s1 s2 -> countersOnly s2 s3 -> countersOnly s1 s3.
Proof.
  unfold countersOnly. intros H12 H23. rewrite H23 at 1. rewrite H12 at 1.
  destruct s1. reflexivity.
Qed.

Lemma playingPipe_normal_behind t d ch cq p s :
  Pipe.type p = normal -> behindBird (movePipe d p) ->
  exists p' s',
    playingPipe t d ch cq p s = Some (p', s', Continue) /\ countersOnly s s'.
Proof.
  intros Ht Hb. unfold playingPipe.
  change (Pipe.type p) with (Pipe.type (movePipe d p)) in Ht.
  revert Ht Hb. generalize (movePipe d p). intros p1 Ht Hb.
  rewrite (checkCollision_behind _ _ Hb).
  unfold passThrough.
  rewrite (ltb_of_lt (Pipe.x p1 + PIPE_WIDTH) 50)
    by (unfold behindBird in Hb; num_lra).
  rewrite andb_true_r.
  assert (Hans : forall q s0, Pipe.type q = normal ->
                              answerSelection cq q s0 = Some (q, s0)).
  { intros q s0 Hq. unfold answerSelection. now rewrite Hq. }
  destruct (Pipe.passed p1); cbn [negb].
  - rewrite (Hans _ _ Ht). eexists _, _. split; [reflexivity |].
    apply countersOnly_refl.
  - cbn [Pipe.type Pipe.set_passed Pipe.scored]. rewrite Ht.
    destruct (Pipe.scored p1); cbn [negb].
    + rewrite Hans by exact Ht. eexists _, _. split; [reflexivity |].
      apply countersOnly_refl.
    + rewrite Hans by exact Ht. eexists _, _. split; [reflexivity |].
      unfold countersOnly. destruct s. reflexivity.
Qed.

Lemma loop_normals_behind t d ch cq l : forall s,
  Forall (fun p => Pipe.type p = normal /\ behindBird (movePipe d p)) l ->
  exists l' s',
    forPipes (playingPipe t d ch cq) l s = Some (l', s', Continue)
    /\ countersOnly s s'.
Proof.
  induction l as [| p l IH]; intros s H.
  - exists [], s. split; [reflexivity | apply countersOnly_refl].
  - inversion H as [| ? ? [Ht Hb] Hrest]; subst.
    destruct (playingPipe_normal_behind t d ch cq p s Ht Hb)
      as (p' & s1 & Hp & Hc1).
    destruct (IH s1 Hrest) as (l' & s2 & Hl & Hc2).
    exists (p' :: l'), s2. cbn [forPipes]. rewrite Hp, Hl.
    split; [reflexivity |]. eapply countersOnly_trans; eauto.
Qed.

(** The question pipe on its passing frame. *)
Lemma playingPipe_question_pass t d chapter cq q s :
  Pipe.type q = question -> Pipe.passed q = false ->
  behindBird (movePipe d q) ->
  playingPipe t d (Some chapter) cq q s
  = let s1 := GameState.set_currentQuestionActive false
                (GameState.set_pipesSinceLastQuestion 0%Z s) in
    if (Z.of_nat (GameState.questionIndex s)
        <? Z.of_nat (length (Chapter.questions chapter)) - 1)%Z
    then Some (Pipe.set_passed true (movePipe d q),
               GameState.set_questionIndex (S (GameState.questionIndex s)) s1,
               Continue)
    else Some (Pipe.set_passed true (movePipe d q),
               GameState.set_scrollProgress 0
                 (GameState.set_phaseStartTime t
                    (GameState.set_phase chapter_complete s1)),
               Break).
Proof.
  intros Ht Hp Hb. unfold playingPipe.
  change (Pipe.type q) with (Pipe.type (movePipe d q)) in Ht.
  change (Pipe.passed q) with (Pipe.passed (movePipe d q)) in Hp.
  revert Ht Hp Hb. generalize (movePipe d q). intros p1 Ht Hp Hb.
  rewrite (checkCollision_behind _ _ Hb).
  unfold passThrough. rewrite Hp.
  rewrite (ltb_of_lt (Pipe.x p1 + PIPE_WIDTH) 50)
    by (unfold behindBird in Hb; num_lra).
  cbn [negb andb Pipe.type Pipe.set_passed]. rewrite Ht. gs_simpl.
  destruct (_ <? _)%Z; [| reflexivity].
  unfold answerSelection. cbn [Pipe.type Pipe.set_passed Pipe.x].
  unfold Num.gtb. 
  rewrite (ltb_of_ge 50 (Pipe.x p1 + PIPE_WIDTH))
    by (unfold behindBird in Hb; num_lra).
  rewrite andb_false_r.
  destruct (_ && _); reflexivity.
Qed.

Lemma Shape_unpassed_question counter pipes q :
  Shape counter pipes -> In q pipes ->
  Pipe.type q = question -> Pipe.passed q = false ->
  exists pre,
    pipes = pre ++ [q]
    /\ Forall (fun p => isNormal p /\ Pipe.x p <= Pipe.x q) pre.
Proof.
  intros [pipes' H | pre q0 Ht0 Hp0 H | pre q0 post Ht0 Hp0 Hb Hc H1 H2]
         Hin Ht Hp.
  - rewrite Forall_forall in H. specialize (H q Hin). unfold isNormal in H.
    congruence.
  - apply in_app_or in Hin. destruct Hin as [Hin | [<- | []]].
    + rewrite Forall_forall in H. destruct (H q Hin) as [Hn _].
      unfold isNormal in Hn. congruence.
    + exists pre. auto.
  - apply in_app_or in Hin. destruct Hin as [Hin | [<- | Hin]].
    + rewrite Forall_forall in H1. destruct (H1 q Hin) as [Hn _].
      unfold isNormal in Hn. congruence.
    + congruence.
    + rewrite Forall_forall in H2. destruct (H2 q Hin) as [Hn _].
      unfold isNormal in Hn. congruence.
Qed.

Lemma scoreOk_total chapters sc i chapter :
  scoreOk chapters sc -> nth_error chapters i = Some chapter ->
  exists cs,
    nth_error (GameScore.chapterScores sc) i = Some cs
    /\ ChapterScore.total cs = Z.of_nat (length (Chapter.questions chapter)).
Proof.
  intros [_ Hmap] Hch.
  assert (H : nth_error (map ChapterScore.total (GameScore.chapterScores sc)) i
              = Some (Z.of_nat (length (Chapter.questions chapter)))).
  { rewrite Hmap. unfold questionCounts. rewrite nth_error_map, Hch.
    reflexivity. }
  rewrite nth_error_map in H.
  destruct (nth_error (GameScore.chapterScores sc) i) as [cs |];
    [| discriminate].
  exists cs. split; [reflexivity |]. now inversion H.
Qed.

(** C5: in a reachable state of the [playing] phase, on a frame that keeps
    the bird inside the play area and moves a question pipe not passed before
    with its right edge left of the bird's left edge (x = 50), the frame ends
    with [pipesSinceLastQuestion = 0] and [currentQuestionActive = false];
    when the question is not the chapter's last, [questionIndex] grows by 1
    and the phase stays [playing]; otherwise the phase becomes
    [chapter_complete], and the chapter's [total] is its number of
    questions. *)
Theorem C5_question_pass_through :
  forall (Math_sin : Q -> Q) (chapters : list Chapter.t) (c : Component.t)
         (currentTime random : Q) (chapter : Chapter.t) (q : Pipe.t),
    reachable Math_sin chapters c ->
    admissible (Frame currentTime random) c ->
    let s := Component.gameStateRef c in
    let deltaTime := frameDelta currentTime (Component.lastFrameTimeRef c) in
    GameState.phase s = playing ->
    outOfBounds (updateBirdPhysics deltaTime (GameState.bird s)) = false ->
    nth_error chapters (GameState.chapterIndex s) = Some chapter ->
    In q (GameState.pipes s) ->
    Pipe.type q = question -> Pipe.passed q = false ->
    behindBird (movePipe deltaTime q) ->
    exists c',
      gameLoop Math_sin chapters currentTime random c = Some c'
      /\ let s' := Component.gameStateRef c' in
         GameState.pipesSinceLastQuestion s' = 0%Z
         /\ GameState.currentQuestionActive s' = false
         /\ ((Z.of_nat (GameState.questionIndex s)
              < Z.of_nat (length (Chapter.questions chapter)) - 1)%Z ->
             GameState.questionIndex s' = S (GameState.questionIndex s)
             /\ GameState.phase s' = playing)
         /\ ((Z.of_nat (length (Chapter.questions chapter)) - 1
              <= Z.of_nat (GameState.questionIndex s))%Z ->
             GameState.phase s' = chapter_complete
             /\ GameState.questionIndex s' = GameState.questionIndex s
             /\ exists cs,
                 nth_error (GameScore.chapterScores (GameState.score s'))
                           (GameState.chapterIndex s') = Some cs
                 /\ ChapterScore.total cs
                    = Z.of_nat (length (Chapter.questions chapter))).
Proof.
  intros Math_sin chapters c currentTime random chapter q Hr Hadm s deltaTime
         Hph Hin_bounds Hch Hin Ht Hp Hb.
  destruct (reachable_compInv _ _ _ Hr) as [(Hshape & _) _].
  pose proof (reachable_scoreOk _ _ _ Hr) as Hok.
  destruct (Shape_unpassed_question _ _ _ Hshape Hin Ht Hp) as (pre & Hpipes & Hpre).
  destruct (scoreOk_total _ _ _ _ Hok Hch) as (cs & Hcs & Htot).
  destruct Hadm as (_ & Hlast & _).
  assert (Hd : 0 <= deltaTime) by now apply frameDelta_nonneg.
  fold s in Hshape, Hok, Hpipes, Hcs.
  unfold gameLoop, framePhase. fold s. fold deltaTime. rewrite Hph, Hch.
  unfold framePlaying.
  set (s2 := GameState.set_bird _ _).
  change (GameState.bird s2)
    with (updateBirdPhysics deltaTime (GameState.bird s)).
  rewrite Hin_bounds.
  destruct (animateBird_sameGame 6 s2) as (A & B & C & D & E & F & G).
  assert (B' : GameState.pipes (animateBird 6 s2) = pre ++ [q])
    by (rewrite B; exact Hpipes).
  assert (D' : GameState.questionIndex (animateBird 6 s2)
               = GameState.questionIndex s) by (rewrite D; reflexivity).
  assert (E' : GameState.score (animateBird 6 s2) = GameState.score s)
    by (rewrite E; reflexivity).
  assert (C' : GameState.chapterIndex (animateBird 6 s2)
               = GameState.chapterIndex s) by (rewrite C; reflexivity).
  assert (A' : GameState.phase (animateBird 6 s2) = playing)
    by (rewrite A; exact Hph).
  clear A B C D E F G. clearbody s2.
  set (s3 := animateBird 6 s2) in *. clearbody s3.
  fold (hasQuestionPipe (GameState.pipes s3)). rewrite B'.
  assert (Hq : hasQuestionPipe (pre ++ [q]) = true).
  { rewrite hasQuestionPipe_app. cbn. rewrite Ht, Hp. cbn. apply orb_true_r. }
  rewrite Hq. cbn [negb]. rewrite !andb_false_r.
  rewrite forPipes_app.
  set (cq := nth_error (Chapter.questions chapter) (GameState.questionIndex s)).
  destruct (loop_normals_behind currentTime deltaTime (Some chapter) cq pre s3)
    as (pre' & sa & Hloop & Hca).
  { eapply Forall_impl; [| exact Hpre]. intros p [Hn Hx]. split; [exact Hn |].
    unfold behindBird in *.
    pose proof (movePipe_x deltaTime p). pose proof (movePipe_x deltaTime q).
    lra. }
  rewrite Hloop. cbn [forPipes].
  rewrite (playingPipe_question_pass _ _ _ _ _ _ Ht Hp Hb).
  assert (Hqa : GameState.questionIndex sa = GameState.questionIndex s).
  { rewrite Hca. gs_simpl. exact D'. }
  assert (Hsa : GameState.score sa = GameState.score s).
  { rewrite Hca. gs_simpl. exact E'. }
  assert (Hcia : GameState.chapterIndex sa = GameState.chapterIndex s).
  { rewrite Hca. gs_simpl. exact C'. }
  assert (Hpa : GameState.phase sa = GameState.phase s3).
  { rewrite Hca. gs_simpl. reflexivity. }
  cbv zeta.
  destruct (_ <? _)%Z eqn:Hlt; rewrite Hqa in Hlt.
  - apply Z.ltb_lt in Hlt. eexists. split; [reflexivity |].
    cbn [Component.gameStateRef]. gs_simpl.
    split; [reflexivity |]. split; [reflexivity |]. split.
    + intros _. split; [now rewrite Hqa |]. rewrite Hpa. exact A'.
    + intro Hge. lia.
  - apply Z.ltb_ge in Hlt. eexists. split; [reflexivity |].
    cbn [Component.gameStateRef]. gs_simpl.
    split; [reflexivity |]. split; [reflexivity |]. split.
    + intro H. lia.
    + intros _. split; [reflexivity |]. split; [exact Hqa |].
      exists cs. rewrite Hsa, Hcia. auto.
Qed.

(** *** The frame that passes the question pipe of [highFlight] *)

Definition beforePass : Component.t :=
  Eval vm_compute in
    match runChecked flatSine singleQuestionGame (highFlight 1 155)
                     afterOpening with
    | Some c => c
    | None => afterOpening
    end.

Lemma highFlight_run :
  runChecked flatSine singleQuestionGame (highFlight 1 155) afterOpening
  = Some beforePass.
Proof. vm_compute. reflexivity. Qed.

Lemma beforePass_reachable : reachable flatSine singleQuestionGame beforePass.
Proof.
  exact (runChecked_reachable flatSine singleQuestionGame (highFlight 1 155)
           _ _ afterOpening_reachable highFlight_run).
Qed.

Lemma C5_question_pass_through_witness :
  exists c',
    gameLoop flatSine singleQuestionGame 9602 0 beforePass = Some c'
    /\ GameState.pipesSinceLastQuestion (Component.gameStateRef c') = 0%Z
    /\ GameState.currentQuestionActive (Component.gameStateRef c') = false
    /\ GameState.phase (Component.gameStateRef c') = chapter_complete.
Proof.
  destruct (C5_question_pass_through flatSine singleQuestionGame beforePass
              9602 0
              housingChapter
              (Pipe.mk (-2) question None None (Some 36) (Some 196)
                       (Some 226) (Some 386) false false (Some true)))
    as (c' & Hrun & Hcounter & Hactive & _ & Hlast).
  - exact beforePass_reachable.
  - apply admissibleb_sound. vm_compute. reflexivity.
  - vm_compute. reflexivity.
  - vm_compute. reflexivity.
  - vm_compute. reflexivity.
  - left. vm_compute. reflexivity.
  - reflexivity.
  - reflexivity.
  - unfold behindBird. vm_compute. reflexivity.
  - exists c'. split; [exact Hrun |]. split; [exact Hcounter |].
    split; [exact Hactive |]. apply Hlast. vm_compute. discriminate.
Defined.

(** ** The frame on a single question pipe *)

Lemma animateBird_pipes n s :
  GameState.pipes (animateBird n s) = GameState.pipes s.
Proof. unfold animateBird. gs_simpl. destruct (_ =? _)%Z; reflexivity. Qed.

Lemma animateBird_bird_y n s :
  Bird.y (GameState.bird (animateBird n s)) = Bird.y (GameState.bird s).
Proof. unfold animateBird. gs_simpl. destruct (_ =? _)%Z; reflexivity. Qed.

(** The [playing] frame when the only pipe is a question pipe not passed
    yet. *)
Lemma framePlaying_single t d elapsed r ch cq s q :
  GameState.pipes s = [q] -> Pipe.type q = question -> Pipe.passed q = false ->
  outOfBounds (updateBirdPhysics d (GameState.bird s)) = false ->
  framePlaying t d elapsed r ch cq s
  = match playingPipe t d ch cq q
            (animateBird 6
               (GameState.set_bird (updateBirdPhysics d (GameState.bird s))
                  (GameState.set_scrollProgress
                     (Num.Math_min 1 (elapsed / SCROLL_ANIMATION_DURATION))
                     s)))
    with
    | Some (q', s', _) => Some (GameState.set_pipes (removeOffscreen [q']) s')
    | None => None
    end.
Proof.
  intros Hpipes Ht Hp Hin. unfold framePlaying. cbv zeta.
  set (s2 := GameState.set_bird _ _).
  change (GameState.bird s2) with (updateBirdPhysics d (GameState.bird s)).
  rewrite Hin.
  assert (E : GameState.pipes (animateBird 6 s2) = [q])
    by (rewrite animateBird_pipes; exact Hpipes).
  rewrite E. cbn [existsb]. rewrite Ht, Hp. cbn [PipeType_eqb negb andb orb].
  rewrite !andb_false_r. cbn [forPipes].
  destruct (playingPipe t d ch cq q (animateBird 6 s2)) as [[[q' s'] [|]] |];
    reflexivity.
Qed.

(** ** Answer scoring (C1) *)

(** The statement of [playingPipe_answer] for the pipe loop, and the same
    for the frame when the pipe is the only one on screen. *)
Definition answerScored (q : Question.t) (selectedYes : bool)
    (cs : ChapterScore.t) (state state' : GameState.t) : Prop :=
  (Question.answer q = selectedYes ->
   GameState.displayScore state' = (GameState.displayScore state + 5)%Z
   /\ GameScore.totalCorrect (GameState.score state')
      = (GameScore.totalCorrect (GameState.score state) + 1)%Z
   /\ nth_error (GameScore.chapterScores (GameState.score state'))
                (GameState.chapterIndex state)
      = Some (ChapterScore.mk (ChapterScore.correct cs + 1)
                              (ChapterScore.total cs))
   /\ (forall j, j <> GameState.chapterIndex state ->
         nth_error (GameScore.chapterScores (GameState.score state')) j
         = nth_error (GameScore.chapterScores (GameState.score state)) j))
  /\ (Question.answer q <> selectedYes ->
      GameState.displayScore state'
      = Z.max 0 (GameState.displayScore state - 2)
      /\ (0 <= GameState.displayScore state')%Z
      /\ GameState.score state' = GameState.score state).

(** C1: a question pipe that is not answered yet, that overlaps the bird
    horizontally after its move and in one of whose slots the bird's vertical
    span lies, has its answer locked in, by the loop body of the [playing]
    phase and, when it is the only pipe on screen, by the frame:
    [questionAnswered] becomes true, and no later frame scores the pipe
    again.  When the selected answer (YES = true) is the question's, the
    chapter's [correct] counter and [totalCorrect] both grow by exactly 1 and
    [displayScore] by 5; otherwise [displayScore] drops by 2 but not below 0
    and the score aggregate is unchanged. *)
Theorem C1_answer_scoring :
  (forall (currentTime deltaTime : Q) (currentChapter : option Chapter.t)
          (q : Question.t) (pipe : Pipe.t) (state : GameState.t)
          (cs : ChapterScore.t) (selectedYes : bool),
      questionGeometry pipe ->
      Num.truthy (Pipe.questionAnswered pipe) = false ->
      overBird (movePipe deltaTime pipe) ->
      (if selectedYes then inYesSlot (GameState.bird state) pipe
       else inNoSlot (GameState.bird state) pipe) ->
      nth_error (GameScore.chapterScores (GameState.score state))
                (GameState.chapterIndex state) = Some cs ->
      exists pipe' state',
        playingPipe currentTime deltaTime currentChapter (Some q) pipe state
        = Some (pipe', state', Continue)
        /\ Pipe.questionAnswered pipe' = Some true
        /\ (forall cq s, answerSelection cq pipe' s = Some (pipe', s))
        /\ answerScored q selectedYes cs state state')
  /\ (forall (Math_sin : Q -> Q) (chapters : list Chapter.t)
             (c : Component.t) (currentTime random : Q)
             (chapter : Chapter.t) (q : Question.t) (pipe : Pipe.t)
             (cs : ChapterScore.t) (selectedYes : bool),
         let state := Component.gameStateRef c in
         let deltaTime :=
           frameDelta currentTime (Component.lastFrameTimeRef c) in
         let bird := updateBirdPhysics deltaTime (GameState.bird state) in
         GameState.phase state = playing ->
         GameState.pipes state = [pipe] ->
         questionGeometry pipe ->
         Pipe.passed pipe = false ->
         Num.truthy (Pipe.questionAnswered pipe) = false ->
         overBird (movePipe deltaTime pipe) ->
         outOfBounds bird = false ->
         (if selectedYes then inYesSlot bird pipe else inNoSlot bird pipe) ->
         nth_error chapters (GameState.chapterIndex state) = Some chapter ->
         nth_error (Chapter.questions chapter) (GameState.questionIndex state)
         = Some q ->
         nth_error (GameScore.chapterScores (GameState.score state))
                   (GameState.chapterIndex state) = Some cs ->
         exists c' pipe',
           gameLoop Math_sin chapters currentTime random c = Some c'
           /\ GameState.phase (Component.gameStateRef c') = playing
           /\ GameState.pipes (Component.gameStateRef c') = [pipe']
           /\ Pipe.questionAnswered pipe' = Some true
           /\ (forall cq s, answerSelection cq pipe' s = Some (pipe', s))
           /\ answerScored q selectedYes cs state (Component.gameStateRef c')).
Proof.
  split.
  - intros currentTime deltaTime currentChapter q pipe state cs selectedYes
           HG Hna Hov Hslot Hcs.
    destruct (playingPipe_answer currentTime deltaTime currentChapter q pipe
                state cs selectedYes HG Hna Hov Hslot Hcs)
      as (pipe' & state' & Hrun & Hans & Hlock & Hyes & Hno).
    exists pipe', state'. unfold answerScored. auto.
  - intros Math_sin chapters c currentTime random chapter q pipe cs selectedYes
           state deltaTime bird Hph Hpipes HG Hpassed Hna Hov Hin Hslot
           Hch Hq Hcs.
    unfold gameLoop, framePhase. fold state. fold deltaTime.
    rewrite Hph, Hch, Hq.
    rewrite (framePlaying_single currentTime deltaTime _ random _ _ state pipe
               Hpipes (proj1 HG) Hpassed Hin).
    set (s2 := GameState.set_bird _ _).
    destruct (animateBird_sameGame 6 s2) as (A & _ & C & _ & E & F & _).
    pose proof (animateBird_bird_y 6 s2) as Hy.
    change (Bird.y (GameState.bird s2)) with (Bird.y bird) in Hy.
    change (GameState.phase s2) with (GameState.phase state) in A.
    change (GameState.chapterIndex s2) with (GameState.chapterIndex state) in C.
    change (GameState.score s2) with (GameState.score state) in E.
    change (GameState.displayScore s2) with (GameState.displayScore state) in F.
    set (s3 := animateBird 6 s2) in *. clearbody s3. clear s2.
    destruct (playingPipe_answer currentTime deltaTime (Some chapter) q pipe
                s3 cs selectedYes HG Hna Hov)
      as (pipe' & state' & Hrun & Hans & Hlock & Hyes & Hno).
    { unfold inYesSlot, inNoSlot in *. rewrite Hy. exact Hslot. }
    { rewrite E, C. exact Hcs. }
    rewrite Hrun.
    destruct (loopBody_pipe
                (InPlaying currentTime deltaTime (Some chapter) (Some q))
                pipe s3 pipe' state' Continue Hrun) as (_ & Hx & _).
    pose proof (loopBody_phase_continue
                  (InPlaying currentTime deltaTime (Some chapter) (Some q))
                  pipe s3 pipe' state' Hrun) as Hph'.
    cbn [bodyDelta] in Hx.
    assert (Hkeep : removeOffscreen [pipe'] = [pipe']).
    { unfold removeOffscreen. cbn [filter]. rewrite Hx.
      rewrite (proj2 (NumFacts.gtb_lt
                        (Pipe.x (movePipe deltaTime pipe) + PIPE_WIDTH)
                        (- (50)))); [reflexivity |].
      destruct Hov as [_ Hov]. num_lra. }
    rewrite Hkeep.
    eexists _, pipe'. split; [reflexivity |].
    cbn [Component.gameStateRef]. gs_simpl.
    split; [rewrite Hph', A; exact Hph |]. split; [reflexivity |].
    split; [exact Hans |]. split; [exact Hlock |].
    unfold answerScored. gs_simpl. rewrite F, E, C in *.
    split; assumption.
Qed.

(** The frame of [highFlight] in which the bird enters the YES slot. *)
Definition beforeAnswer : Component.t :=
  Eval vm_compute in
    match runChecked flatSine singleQuestionGame (highFlight 1 112)
                     afterOpening with
    | Some c => c
    | None => afterOpening
    end.

Lemma beforeAnswer_reachable :
  reachable flatSine singleQuestionGame beforeAnswer.
Proof.
  apply (runChecked_reachable flatSine singleQuestionGame (highFlight 1 112)
           afterOpening);
    [exact afterOpening_reachable | vm_compute; reflexivity].
Qed.

Lemma C1_answer_scoring_witness :
  reachable flatSine singleQuestionGame beforeAnswer
  /\ exists c',
       gameLoop flatSine singleQuestionGame (26656 # 3) 0 beforeAnswer
       = Some c'
       /\ GameState.displayScore (Component.gameStateRef c') = 5%Z
       /\ GameScore.totalCorrect (GameState.score (Component.gameStateRef c'))
          = 1%Z.
Proof.
  split; [exact beforeAnswer_reachable |].
  destruct (proj2 C1_answer_scoring flatSine singleQuestionGame beforeAnswer
              (26656 # 3) 0 housingChapter yesQuestion
              (Pipe.set_x 84 createQuestionPipe) (ChapterScore.mk 0 1) true)
    as (c' & pipe' & Hrun & _ & _ & _ & _ & Hyes & _).
  - reflexivity.
  - vm_compute. reflexivity.
  - repeat split; reflexivity.
  - reflexivity.
  - reflexivity.
  - split; vm_compute; reflexivity.
  - vm_compute. reflexivity.
  - split; vm_compute; reflexivity.
  - reflexivity.
  - reflexivity.
  - reflexivity.
  - exists c'. split; [exact Hrun |].
    destruct (Hyes eq_refl) as (Hd & Ht & _). split; [exact Hd | exact Ht].
Defined.

(** ** One chapter, one question (C3) *)

(** The phases in which the bird does not fly and no input makes it fly. *)
Definition quietPhase (phase : GamePhase) : bool :=
  match phase with
  | loading | chapter_intro | chapter_complete | game_complete => true
  | _ => false
  end.

Definition isQuestion (p : Pipe.t) : Prop := Pipe.type p = question.

(** What the counters of a game of one chapter with one question satisfy:
    the chapter and question indices stay 0, and no display point comes from
    a normal pipe. *)
Definition soloScore (s : GameState.t) : Prop :=
  GameState.chapterIndex s = 0%nat
  /\ GameState.questionIndex s = 0%nat
  /\ (0 <= GameState.displayScore s
      <= 5 * GameScore.totalCorrect (GameState.score s))%Z.

(** With them: all pipes are question pipes, and while the bird flies (or
    has crashed) the pipe counter is at its threshold, so that no normal pipe
    is spawned. *)
Definition soloInv (s : GameState.t) : Prop :=
  soloScore s
  /\ Forall isQuestion (GameState.pipes s)
  /\ (quietPhase (GameState.phase s) = false ->
      (NORMAL_PIPES_BETWEEN_QUESTIONS <= GameState.pipesSinceLastQuestion s)%Z).

Lemma soloInv_sameGame s s' : sameGame s s' -> soloInv s -> soloInv s'.
Proof.
  intros (Ph & Pi & Ci & Qi & Sc & Ds & Ct) ((C0 & Q0 & D0) & Hp & Hc).
  unfold soloInv, soloScore. rewrite Ph, Pi, Ci, Qi, Sc, Ds, Ct. auto.
Qed.

Section Solo.

Variable chapter : Chapter.t.
Hypothesis one_question : length (Chapter.questions chapter) = 1%nat.

Definition soloBody (b : LoopBody) : Prop :=
  match b with
  | InPlaying _ _ currentChapter _ => currentChapter = Some chapter
  | InPreview _ _ => True
  end.

Lemma loopBody_solo b p s p' s' fl :
  soloBody b -> isQuestion p -> soloScore s ->
  (NORMAL_PIPES_BETWEEN_QUESTIONS <= GameState.pipesSinceLastQuestion s)%Z ->
  loopBody b p s = Some (p', s', fl) ->
  isQuestion p' /\ soloScore s'
  /\ ((NORMAL_PIPES_BETWEEN_QUESTIONS <= GameState.pipesSinceLastQuestion s')%Z
      \/ (GameState.phase s' = chapter_complete /\ isPlayingBody b
          /\ fl = Break)).
Proof.
  unfold isQuestion, soloScore.
  destruct b as [t d ch cq | t d]; cbn [loopBody soloBody isPlayingBody];
    intros Hb Hq (C0 & Q0 & D0) Hc.
  - subst ch. unfold playingPipe.
    change (Pipe.type p) with (Pipe.type (movePipe d p)) in Hq.
    generalize dependent (movePipe d p). intros p1 Hq.
    destruct (checkCollision _ _).
    { intro H; inversion H; subst. gs_simpl. auto. }
    unfold passThrough.
    destruct (negb (Pipe.passed p1) && _) eqn:Hpass.
    + change (Pipe.type (Pipe.set_passed true p1)) with (Pipe.type p1).
      rewrite Hq. gs_simpl. rewrite Q0, one_question.
      change (Z.of_nat 0 <? Z.of_nat 1 - 1)%Z with false. cbv iota.
      intro H; inversion H; subst. gs_simpl.
      split; [exact Hq |]. split; [auto |]. right. auto.
    + destruct (answerSelection cq p1 s) as [[p3 s3] |] eqn:Has;
        [| discriminate].
      intro H; inversion H; subst p' s' fl. unfold answerSelection in Has.
      destruct_branches; inversion Has; subst; gs_simpl;
        cbn [Pipe.type Pipe.set_questionAnswered];
        (split; [exact Hq |]); (split; [| left; exact Hc]);
        (split; [exact C0 |]); (split; [exact Q0 |]); try exact D0.
      * match goal with
        | E : scoreCorrectAnswer _ _ = Some _ |- _ =>
            unfold scoreCorrectAnswer in E;
            destruct (bumpCorrect _ _); inversion E; subst
        end.
        cbn [GameScore.totalCorrect]. lia.
      * lia.
  - unfold previewPipe.
    change (Pipe.type p) with (Pipe.type (movePipe d p)) in Hq.
    generalize dependent (movePipe d p). intros p1 Hq. rewrite Hq.
    cbn [PipeType_eqb andb].
    destruct (checkCollision _ _); intro H; inversion H; subst; gs_simpl; auto.
Qed.

Lemma loop_solo b l s l' s' fl :
  soloBody b ->
  forPipes (loopBody b) l s = Some (l', s', fl) ->
  Forall isQuestion l -> soloScore s ->
  (NORMAL_PIPES_BETWEEN_QUESTIONS <= GameState.pipesSinceLastQuestion s)%Z ->
  Forall isQuestion l' /\ soloScore s'
  /\ ((NORMAL_PIPES_BETWEEN_QUESTIONS <= GameState.pipesSinceLastQuestion s')%Z
      \/ (GameState.phase s' = chapter_complete /\ isPlayingBody b)).
Proof.
  intro Hbody. revert l s l' s' fl. apply (forPipes_elim (loopBody b)
    (fun l s l' s' fl =>
       Forall isQuestion l -> soloScore s ->
       (NORMAL_PIPES_BETWEEN_QUESTIONS <= GameState.pipesSinceLastQuestion s)%Z ->
       Forall isQuestion l' /\ soloScore s'
       /\ ((NORMAL_PIPES_BETWEEN_QUESTIONS
            <= GameState.pipesSinceLastQuestion s')%Z
           \/ (GameState.phase s' = chapter_complete /\ isPlayingBody b)))).
  - auto.
  - intros p s p' s' rest Hb Hl Hs Hc. inversion Hl as [| ? ? Hp Hrest]; subst.
    destruct (loopBody_solo _ _ _ _ _ _ Hbody Hp Hs Hc Hb) as (Hp' & Hs' & Hc').
    split; [constructor; assumption |]. split; [exact Hs' |].
    destruct Hc' as [Hc' | (Hph & Hpl & _)]; auto.
  - intros p s p' s1 rest rest' s' fl Hb _ IH Hl Hs Hc.
    inversion Hl as [| ? ? Hp Hrest]; subst.
    destruct (loopBody_solo _ _ _ _ _ _ Hbody Hp Hs Hc Hb) as (Hp' & Hs' & Hc').
    destruct Hc' as [Hc' | (_ & _ & Hfl)]; [| discriminate].
    destruct (IH Hrest Hs' Hc') as (Hl' & Hs'' & Hc'').
    split; [constructor; assumption |]. auto.
Qed.

Lemma frameStep_solo t d r s s' :
  frameStep [chapter] t d r s s' -> soloInv s -> soloInv s'.
Proof.
  intros Hstep Hinv.
  destruct Hstep as [Hsame | Hph Hsame | Hph Hsame | Hph Hsame
                    | ch Hph Hge Hq Hch Hqi Hsame
                    | s0 pipes0 pipes' s1 fl Hph Hsame Hp0 Hcond Hloop ->
                    | s0 pipes' s1 fl Hph Hsame Hloop Hs'].
  - exact (soloInv_sameGame _ _ Hsame Hinv).
  - apply (soloInv_sameGame _ _ Hsame).
    destruct Hinv as (Hs & Hp & Hc). unfold soloInv, soloScore in *. gs_simpl.
    split; [exact Hs |]. split; [exact Hp |]. intros _. apply Hc.
    destruct Hph as [-> | ->]; reflexivity.
  - apply (soloInv_sameGame _ _ Hsame).
    destruct Hinv as (Hs & Hp & Hc). unfold soloInv, soloScore in *. gs_simpl.
    split; [exact Hs |]. split; [constructor |]. intros _. lia.
  - apply (soloInv_sameGame _ _ Hsame).
    destruct Hinv as (Hs & Hp & Hc). unfold soloInv, soloScore in *. gs_simpl.
    split; [exact Hs |]. split.
    + apply Forall_app. split; [exact Hp |]. repeat constructor.
    + intros _. apply Hc. rewrite Hph. reflexivity.
  - apply (soloInv_sameGame _ _ Hsame).
    destruct Hinv as (Hs & Hp & Hc). unfold soloInv, soloScore in *. gs_simpl.
    split; [exact Hs |]. split; [exact Hp |]. intros _. apply Hc.
    rewrite Hph. reflexivity.
  - destruct Hinv as (Hs & Hp & Hc).
    assert (Hc5 : (NORMAL_PIPES_BETWEEN_QUESTIONS
                   <= GameState.pipesSinceLastQuestion s)%Z)
      by (apply Hc; rewrite Hph; reflexivity).
    assert (H0 : pipes0 = GameState.pipes s).
    { destruct Hp0 as [H0 | (Hno & _)]; [exact H0 |].
      destruct Hcond as [Hyes | [Hlt | (ch & Hch & Hlen)]].
      - congruence.
      - lia.
      - destruct Hs as (C0 & Q0 & _). rewrite C0 in Hch. cbn in Hch.
        inversion Hch; subst ch. rewrite Q0, one_question in Hlen. lia. }
    subst pipes0.
    change (forPipes (loopBody (InPlaying t d
              (nth_error [chapter] (GameState.chapterIndex s))
              (currentQuestionOf [chapter] s))) (GameState.pipes s) s0
            = Some (pipes', s1, fl)) in Hloop.
    destruct Hsame as (Ph & Pi & Ci & Qi & Sc & Ds & Ct).
    assert (Hbody : soloBody (InPlaying t d
                       (nth_error [chapter] (GameState.chapterIndex s))
                       (currentQuestionOf [chapter] s))).
    { cbn [soloBody]. destruct Hs as (C0 & _). rewrite C0. reflexivity. }
    destruct (loop_solo _ _ _ _ _ _ Hbody Hloop) as (Hl' & Hs' & Hc').
    + exact Hp.
    + unfold soloScore in *. rewrite Ci, Qi, Sc, Ds. exact Hs.
    + rewrite Ct. exact Hc5.
    + unfold soloInv, soloScore in *. gs_simpl.
      split; [exact Hs' |]. split; [apply Forall_filter; exact Hl' |].
      destruct Hc' as [Hc' | (Hph' & _)]; [auto |].
      rewrite Hph'. discriminate.
  - destruct Hinv as (Hs & Hp & Hc).
    assert (Hc5 : (NORMAL_PIPES_BETWEEN_QUESTIONS
                   <= GameState.pipesSinceLastQuestion s)%Z)
      by (apply Hc; rewrite Hph; reflexivity).
    change (forPipes (loopBody (InPreview t d)) (GameState.pipes s) s0
            = Some (pipes', s1, fl)) in Hloop.
    destruct Hsame as (Ph & Pi & Ci & Qi & Sc & Ds & Ct).
    destruct (loop_solo _ _ _ _ _ _ (I : soloBody (InPreview t d)) Hloop)
      as (Hl' & Hsc' & Hc').
    + exact Hp.
    + unfold soloScore in *. rewrite Ci, Qi, Sc, Ds. exact Hs.
    + rewrite Ct. exact Hc5.
    + destruct Hc' as [Hc' | (_ & [])].
      destruct Hs' as [-> | Hsame'].
      * unfold soloInv, soloScore in *. gs_simpl.
        split; [exact Hsc' |]. split; [apply Forall_filter; exact Hl' | auto].
      * apply (soloInv_sameGame _ _ Hsame').
        unfold soloInv, soloScore in *. gs_simpl.
        split; [exact Hsc' |]. split; [| auto].
        apply Forall_app. split; [apply Forall_filter; exact Hl' |].
        repeat constructor.
Qed.

Lemma handleCanvasClick_solo perfNow dateNow c :
  soloInv (Component.gameStateRef c) ->
  soloInv (Component.gameStateRef (handleCanvasClick [chapter] perfNow dateNow c)).
Proof.
  intro Hinv. unfold handleCanvasClick.
  destruct (GameState.phase (Component.gameStateRef c)) eqn:Hph;
    try (destruct (jump_sameGame dateNow c) as [Hsame _];
         exact (soloInv_sameGame _ _ Hsame Hinv));
    destruct Hinv as (Hs & Hp & Hc); unfold soloInv, soloScore in *;
    cbn [Component.gameStateRef]; gs_simpl; rewrite ?Hph in *.
  - split; [exact Hs |]. split; [exact Hp |]. intros _. now apply Hc.
  - split; [exact Hs |]. split; [apply Forall_filter; exact Hp |].
    intros _. now apply Hc.
  - destruct Hs as (C0 & Q0 & D0). rewrite C0. cbn [length Z.of_nat].
    change (0 <? Z.pos (Pos.of_succ_nat 0) - 1)%Z with false. cbv iota.
    gs_simpl. split; [auto |]. split; [exact Hp |]. discriminate.
  - split; [| split; [constructor | discriminate]].
    split; [reflexivity |]. split; [reflexivity |]. cbn. lia.
Qed.

Variable Math_sin : Q -> Q.

Lemma reachable_solo c :
  reachable Math_sin [chapter] c -> soloInv (Component.gameStateRef c).
Proof.
  induction 1 as [| e c c' _ IH Hadm Hh].
  - split; [| split; [constructor | discriminate]].
    split; [reflexivity |]. split; [reflexivity |]. cbn. lia.
  - destruct e as [now | currentTime random | perfNow dateNow]; cbn in Hh.
    + inversion Hh; subst c'. cbn [onAssetsLoaded Component.gameStateRef].
      destruct IH as (Hs & Hp & Hc). unfold soloInv, soloScore in *. gs_simpl.
      split; [exact Hs |]. split; [exact Hp |]. discriminate.
    + unfold gameLoop in Hh.
      destruct (framePhase _ _ _ _ _ _) as [s' |] eqn:Hf; [| discriminate].
      inversion Hh; subst c'. apply framePhase_frameStep in Hf.
      eapply frameStep_solo; eauto.
    + inversion Hh; subst c'. now apply handleCanvasClick_solo.
Qed.

End Solo.

(** *** Frames at another height

    In the [playing] phase a frame reads the bird's height in four tests:
    the bounds of the play area, the collision with a pipe, and the two slot
    tests of the answer selection.  Where these tests come out alike, the
    frame does the same at either height. *)

Definition birdAt (y : Q) (s : GameState.t) : GameState.t :=
  GameState.set_bird (Bird.set_y y (GameState.bird s)) s.

Definition atHeight (y : Q) (c : Component.t) : Component.t :=
  Component.mk (Component.assetsLoaded c) (birdAt y (Component.gameStateRef c))
               (Component.lastFrameTimeRef c) (Component.lastJumpTimeRef c).

(** The tests of lines 1066, 1068 and 1070. *)
Definition facing (p : Pipe.t) : bool :=
  (50 + BIRD_WIDTH >? Pipe.x p) && (50 <? Pipe.x p + PIPE_WIDTH).

Definition yesSlotb (y : Q) (p : Pipe.t) : bool :=
  (y >? Num.orZero (Pipe.topPipeBottom p))
  && (y + BIRD_HEIGHT <? Num.orZero (Pipe.middlePipeTop p)).

Definition noSlotb (y : Q) (p : Pipe.t) : bool :=
  (y >? Num.orZero (Pipe.middlePipeBottom p))
  && (y + BIRD_HEIGHT <? Num.orZero (Pipe.bottomPipeTop p)).

(** The answer selection does not tell the two heights apart. *)
Definition sameAnswer (y1 y2 : Q) (p : Pipe.t) : Prop :=
  facing p = false
  \/ (yesSlotb y1 p = yesSlotb y2 p /\ noSlotb y1 p = noSlotb y2 p).

Lemma animateBird_birdAt n y s :
  animateBird n (birdAt y s) = birdAt y (animateBird n s).
Proof.
  unfold animateBird, birdAt. gs_simpl. destruct (_ =? _)%Z; reflexivity.
Qed.

Lemma checkCollision_height bird bird' p :
  Bird.y bird = Bird.y bird' -> checkCollision bird p = checkCollision bird' p.
Proof. intro H. unfold checkCollision. rewrite H. reflexivity. Qed.

Lemma passThrough_birdAt t ch p y s :
  passThrough t ch p (birdAt y s)
  = match passThrough t ch p s with
    | Some (p', s', fl) => Some (p', birdAt y s', fl)
    | None => None
    end.
Proof.
  unfold passThrough, birdAt. gs_simpl.
  destruct (negb _ && _); [| reflexivity].
  destruct (Pipe.type _).
  - destruct (negb _); reflexivity.
  - destruct ch; [| reflexivity]. destruct (_ <? _)%Z; reflexivity.
Qed.

Lemma passThrough_view t ch p s p' s' fl :
  passThrough t ch p s = Some (p', s', fl) ->
  GameState.bird s' = GameState.bird s
  /\ facing p' = facing p
  /\ forall y, yesSlotb y p' = yesSlotb y p /\ noSlotb y p' = noSlotb y p.
Proof.
  unfold passThrough. intro H.
  destruct_branches; try discriminate.
  all: inversion H; subst.
  all: split; [reflexivity |]; split; [reflexivity |]; intro y; split;
    reflexivity.
Qed.

Lemma answerSelection_birdAt cq p y s :
  sameAnswer (Bird.y (GameState.bird s)) y p ->
  answerSelection cq p (birdAt y s)
  = match answerSelection cq p s with
    | Some (p', s') => Some (p', birdAt y s')
    | None => None
    end.
Proof.
  intro H. unfold answerSelection. cbv zeta.
  destruct (PipeType_eqb _ _ && _); [| reflexivity].
  change ((50 + BIRD_WIDTH >? Pipe.x p) && (50 <? Pipe.x p + PIPE_WIDTH))
    with (facing p).
  destruct (facing p) eqn:Hf; [| reflexivity].
  destruct H as [H | [Hyes Hno]]; [congruence |].
  change ((Bird.y (GameState.bird (birdAt y s))
           >? Num.orZero (Pipe.topPipeBottom p))
          && (Bird.y (GameState.bird (birdAt y s)) + BIRD_HEIGHT
              <? Num.orZero (Pipe.middlePipeTop p)))
    with (yesSlotb y p).
  change ((Bird.y (GameState.bird (birdAt y s))
           >? Num.orZero (Pipe.middlePipeBottom p))
          && (Bird.y (GameState.bird (birdAt y s)) + BIRD_HEIGHT
              <? Num.orZero (Pipe.bottomPipeTop p)))
    with (noSlotb y p).
  change ((Bird.y (GameState.bird s) >? Num.orZero (Pipe.topPipeBottom p))
          && (Bird.y (GameState.bird s) + BIRD_HEIGHT
              <? Num.orZero (Pipe.middlePipeTop p)))
    with (yesSlotb (Bird.y (GameState.bird s)) p).
  change ((Bird.y (GameState.bird s) >? Num.orZero (Pipe.middlePipeBottom p))
          && (Bird.y (GameState.bird s) + BIRD_HEIGHT
              <? Num.orZero (Pipe.bottomPipeTop p)))
    with (noSlotb (Bird.y (GameState.bird s)) p).
  rewrite <- Hyes, <- Hno.
  destruct (_ || _); [| reflexivity].
  destruct cq; [| reflexivity].
  destruct (Bool.eqb _ _); [| reflexivity].
  unfold birdAt. gs_simpl.
  destruct (scoreCorrectAnswer _ _); reflexivity.
Qed.

Lemma playingPipe_birdAt t d ch cq p y s :
  checkCollision (GameState.bird s) (movePipe d p) = false ->
  checkCollision (Bird.set_y y (GameState.bird s)) (movePipe d p) = false ->
  sameAnswer (Bird.y (GameState.bird s)) y (movePipe d p) ->
  playingPipe t d ch cq p (birdAt y s)
  = match playingPipe t d ch cq p s with
    | Some (p', s', fl) => Some (p', birdAt y s', fl)
    | None => None
    end.
Proof.
  intros H1 H2 Hsame. unfold playingPipe. cbv zeta.
  change (GameState.bird (birdAt y s))
    with (Bird.set_y y (GameState.bird s)).
  rewrite H1, H2, passThrough_birdAt.
  destruct (passThrough t ch (movePipe d p) s) as [[[p2 s2] [|]] |] eqn:Hpt;
    try reflexivity.
  destruct (passThrough_view _ _ _ _ _ _ _ Hpt) as (Hb & Hf & Hslots).
  rewrite answerSelection_birdAt.
  - destruct (answerSelection cq p2 s2) as [[p3 s3] |]; reflexivity.
  - rewrite Hb. unfold sameAnswer in *. rewrite Hf.
    destruct Hsame as [Hsame | [Hyes Hno]]; [left; exact Hsame | right].
    destruct (Hslots y) as [-> ->].
    destruct (Hslots (Bird.y (GameState.bird s))) as [-> ->]. auto.
Qed.

Section AtHeight.

Variable Math_sin : Q -> Q.
Variable chapters : list Chapter.t.

Lemma gameLoop_atHeight t r c y q :
  let s := Component.gameStateRef c in
  let d := frameDelta t (Component.lastFrameTimeRef c) in
  let b1 := updateBirdPhysics d (GameState.bird s) in
  let b2 := updateBirdPhysics d (Bird.set_y y (GameState.bird s)) in
  GameState.phase s = playing ->
  GameState.pipes s = [q] -> Pipe.type q = question -> Pipe.passed q = false ->
  outOfBounds b1 = false -> outOfBounds b2 = false ->
  checkCollision b1 (movePipe d q) = false ->
  checkCollision b2 (movePipe d q) = false ->
  sameAnswer (Bird.y b1) (Bird.y b2) (movePipe d q) ->
  gameLoop Math_sin chapters t r (atHeight y c)
  = match gameLoop Math_sin chapters t r c with
    | Some c' => Some (atHeight (Bird.y b2) c')
    | None => None
    end.
Proof.
  intros s d b1 b2 Hph Hpipes Ht Hp Hin1 Hin2 Hc1 Hc2 Hsame.
  unfold gameLoop, framePhase.
  cbn [atHeight Component.gameStateRef Component.lastFrameTimeRef
       Component.assetsLoaded Component.lastJumpTimeRef].
  fold s. fold d.
  change (GameState.phase (birdAt y s)) with (GameState.phase s).
  change (GameState.chapterIndex (birdAt y s)) with (GameState.chapterIndex s).
  change (GameState.questionIndex (birdAt y s))
    with (GameState.questionIndex s).
  change (GameState.phaseStartTime (birdAt y s))
    with (GameState.phaseStartTime s).
  rewrite Hph.
  rewrite (framePlaying_single t d _ r _ _ s q Hpipes Ht Hp Hin1).
  rewrite (framePlaying_single t d _ r _ _ (birdAt y s) q Hpipes Ht Hp Hin2).
  set (scroll := Num.Math_min 1 _).
  change (GameState.set_bird
            (updateBirdPhysics d (GameState.bird (birdAt y s)))
            (GameState.set_scrollProgress scroll (birdAt y s)))
    with (birdAt (Bird.y b2)
            (GameState.set_bird (updateBirdPhysics d (GameState.bird s))
               (GameState.set_scrollProgress scroll s))).
  rewrite animateBird_birdAt.
  set (s3 := animateBird 6 _).
  assert (Hy3 : Bird.y (GameState.bird s3) = Bird.y b1)
    by (unfold s3; rewrite animateBird_bird_y; reflexivity).
  rewrite playingPipe_birdAt.
  - destruct (playingPipe t d _ _ q s3) as [[[q' s'] fl] |]; reflexivity.
  - rewrite (checkCollision_height _ b1 _ Hy3). exact Hc1.
  - rewrite (checkCollision_height
               (Bird.set_y (Bird.y b2) (GameState.bird s3)) b2 _ eq_refl).
    exact Hc2.
  - rewrite Hy3. exact Hsame.
Qed.

End AtHeight.

Lemma updateBirdPhysics_height d y bird delta :
  y == Bird.y bird + delta ->
  Bird.y (updateBirdPhysics d (Bird.set_y y bird))
  == Bird.y (updateBirdPhysics d bird) + delta.
Proof.
  intro H. unfold updateBirdPhysics.
  cbn [Bird.y Bird.set_y Bird.velocity Bird.set_velocity].
  generalize ((Bird.velocity bird + GRAVITY * d) * d). intro k.
  num_plain. lra.
Qed.

(** *** Flights that go the same way at every height of a range *)

(** The frame at [t] is decided alike for the bird of [c] and for a bird up
    to [w] below it: both stay inside the play area, and the only pipe, a
    question pipe not passed yet, is ahead of them, or behind them, or has
    both of them inside its YES slot. *)
Definition steadyFrame (w t : Q) (c : Component.t) : bool :=
  let s := Component.gameStateRef c in
  let d := frameDelta t (Component.lastFrameTimeRef c) in
  let y := Bird.y (updateBirdPhysics d (GameState.bird s)) in
  match GameState.phase s, GameState.pipes s with
  | playing, [q] =>
      let q' := movePipe d q in
      let top := Num.orZero (Pipe.topPipeBottom q') in
      let middleTop := Num.orZero (Pipe.middlePipeTop q') in
      let middleBottom := Num.orZero (Pipe.middlePipeBottom q') in
      let bottom := Num.orZero (Pipe.bottomPipeTop q') in
      PipeType_eqb (Pipe.type q) question && negb (Pipe.passed q)
      && (y >=? PLAY_AREA_TOP)
      && (PLAY_AREA_BOTTOM >=? y + w + BIRD_HEIGHT)
      && ((50 + BIRD_WIDTH <? Pipe.x q')
          || (Pipe.x q' + PIPE_WIDTH <? 50)
          || ((top <? y) && (y + w + BIRD_HEIGHT <? middleTop)
              && (middleBottom >=? middleTop) && (bottom >=? middleTop)))
  | _, _ => false
  end.

(** The phases in which an input leaves the bird's height alone. *)
Definition keepsHeight (phase : GamePhase) : bool :=
  match phase with
  | game_over | game_complete => false
  | _ => true
  end.

Section SteadyRuns.

Variable Math_sin : Q -> Q.
Variable chapters : list Chapter.t.

(** The run of [events] from [c], as long as every frame of it is steady
    over the range [w] and every input keeps the height. *)
Fixpoint steadyRun (w : Q) (events : list Event) (c : Component.t)
  : option Component.t :=
  match events with
  | [] => Some c
  | Frame t r :: rest =>
      if admissibleb (Frame t r) c && steadyFrame w t c then
        match gameLoop Math_sin chapters t r c with
        | Some c' => steadyRun w rest c'
        | None => None
        end
      else None
  | Input perfNow dateNow :: rest =>
      if keepsHeight (GameState.phase (Component.gameStateRef c)) then
        steadyRun w rest (handleCanvasClick chapters perfNow dateNow c)
      else None
  | AssetsLoaded _ :: _ => None
  end.

Lemma handleCanvasClick_atHeight perfNow dateNow y c :
  keepsHeight (GameState.phase (Component.gameStateRef c)) = true ->
  handleCanvasClick chapters perfNow dateNow (atHeight y c)
  = atHeight y (handleCanvasClick chapters perfNow dateNow c)
  /\ Bird.y (GameState.bird
               (Component.gameStateRef
                  (handleCanvasClick chapters perfNow dateNow c)))
     = Bird.y (GameState.bird (Component.gameStateRef c)).
Proof.
  unfold handleCanvasClick, jump.
  cbn [atHeight Component.gameStateRef Component.lastFrameTimeRef
       Component.assetsLoaded Component.lastJumpTimeRef].
  change (GameState.phase (birdAt y (Component.gameStateRef c)))
    with (GameState.phase (Component.gameStateRef c)).
  change (GameState.chapterIndex (birdAt y (Component.gameStateRef c)))
    with (GameState.chapterIndex (Component.gameStateRef c)).
  destruct (GameState.phase (Component.gameStateRef c)); cbn [keepsHeight];
    intro H; try discriminate; cbv zeta;
    repeat match goal with
      | |- context [if ?b then _ else _] => destruct b
      end;
    split; reflexivity.
Qed.

Lemma steadyFrame_sound w delta t r c y :
  0 <= delta -> delta <= w ->
  y == Bird.y (GameState.bird (Component.gameStateRef c)) + delta ->
  steadyFrame w t c = true ->
  forall c', gameLoop Math_sin chapters t r c = Some c' ->
  exists y',
    y' == Bird.y (GameState.bird (Component.gameStateRef c')) + delta
    /\ gameLoop Math_sin chapters t r (atHeight y c) = Some (atHeight y' c').
Proof.
  intros Hd0 Hdw Hy Hsteady c' Hloop.
  unfold steadyFrame in Hsteady. cbv zeta in Hsteady.
  destruct (GameState.phase (Component.gameStateRef c)) eqn:Hph;
    try discriminate.
  destruct (GameState.pipes (Component.gameStateRef c)) as [| q [| ? ?]]
    eqn:Hpipes; try discriminate.
  set (d := frameDelta t (Component.lastFrameTimeRef c)) in *.
  set (b1 := updateBirdPhysics d (GameState.bird (Component.gameStateRef c)))
    in *.
  set (b2 := updateBirdPhysics d
               (Bird.set_y y (GameState.bird (Component.gameStateRef c)))).
  assert (Hy2 : Bird.y b2 == Bird.y b1 + delta)
    by (apply updateBirdPhysics_height; exact Hy).
  apply andb_prop in Hsteady. destruct Hsteady as [Hsteady Hview].
  apply andb_prop in Hsteady. destruct Hsteady as [Hsteady Hbottom].
  apply andb_prop in Hsteady. destruct Hsteady as [Hsteady Htop].
  apply andb_prop in Hsteady. destruct Hsteady as [Htype Hpassed].
  assert (Ht : Pipe.type q = question)
    by (destruct (Pipe.type q); [discriminate | reflexivity]).
  apply negb_true_iff in Hpassed.
  apply NumFacts.geb_le in Htop, Hbottom.
  assert (Hin1 : outOfBounds b1 = false).
  { unfold outOfBounds. apply orb_false_intro.
    - apply NumFacts.ltb_ge. exact Htop.
    - apply NumFacts.gtb_le. revert Hbottom. num_plain. unfold_consts. lra. }
  assert (Hin2 : outOfBounds b2 = false).
  { unfold outOfBounds. apply orb_false_intro.
    - apply NumFacts.ltb_ge. revert Htop. unfold_consts. lra.
    - apply NumFacts.gtb_le. revert Hbottom. num_plain. unfold_consts. lra. }
  assert (Hview' :
            (checkCollision b1 (movePipe d q) = false
             /\ checkCollision b2 (movePipe d q) = false)
            /\ sameAnswer (Bird.y b1) (Bird.y b2) (movePipe d q)).
  { change (Pipe.type q) with (Pipe.type (movePipe d q)) in Ht.
    generalize dependent (movePipe d q). intros q' Hview Ht.
    apply orb_prop in Hview. destruct Hview as [Hview | Hview];
      [apply orb_prop in Hview; destruct Hview as [Hview | Hview] |].
    - split.
      + unfold checkCollision. rewrite Hview. cbn [orb]. auto.
      + left. unfold facing. apply NumFacts.ltb_lt in Hview.
        apply andb_false_intro1. apply NumFacts.gtb_le. lra.
    - apply NumFacts.ltb_lt in Hview. split.
      + unfold checkCollision.
        rewrite (proj2 (NumFacts.gtb_lt 50 (Pipe.x q' + PIPE_WIDTH)) Hview).
        rewrite orb_true_r. auto.
      + left. unfold facing. apply andb_false_intro2.
        apply NumFacts.ltb_ge. lra.
    - apply andb_prop in Hview. destruct Hview as [Hview Hbot].
      apply andb_prop in Hview. destruct Hview as [Hview Hmid].
      apply andb_prop in Hview. destruct Hview as [Hyes1 Hyes2].
      apply NumFacts.ltb_lt in Hyes1, Hyes2.
      apply NumFacts.geb_le in Hbot, Hmid.
      set (top := Num.orZero (Pipe.topPipeBottom q')) in *.
      set (middleTop := Num.orZero (Pipe.middlePipeTop q')) in *.
      set (middleBottom := Num.orZero (Pipe.middlePipeBottom q')) in *.
      set (bottom := Num.orZero (Pipe.bottomPipeTop q')) in *.
      assert (Hcol : forall b, top < Bird.y b ->
                Bird.y b + BIRD_HEIGHT < middleTop ->
                checkCollision b q' = false
                /\ yesSlotb (Bird.y b) q' = true
                /\ noSlotb (Bird.y b) q' = false).
      { intros b Hb1 Hb2. unfold checkCollision, yesSlotb, noSlotb.
        cbv zeta. rewrite Ht. fold top middleTop middleBottom bottom.
        rewrite (proj2 (NumFacts.ltb_ge (Bird.y b) top)) by lra.
        rewrite (proj2 (NumFacts.gtb_le (Bird.y b + BIRD_HEIGHT) middleTop))
          by (num_plain; lra).
        rewrite (proj2 (NumFacts.gtb_le (Bird.y b + BIRD_HEIGHT) bottom))
          by (num_plain; lra).
        rewrite (proj2 (NumFacts.gtb_lt (Bird.y b) top)) by lra.
        rewrite (proj2 (NumFacts.ltb_lt (Bird.y b + BIRD_HEIGHT) middleTop))
          by (num_plain; lra).
        rewrite (proj2 (NumFacts.gtb_le (Bird.y b) middleBottom))
          by (revert Hb2; unfold_consts; num_plain; lra).
        rewrite andb_false_r. destruct (_ || _); auto. }
      destruct (Hcol b1) as (C1 & Y1 & N1).
      { exact Hyes1. }
      { revert Hyes2. unfold_consts. num_plain. lra. }
      destruct (Hcol b2) as (C2 & Y2 & N2).
      { lra. }
      { revert Hyes2. unfold_consts. num_plain. lra. }
      split; [auto |]. right. rewrite Y1, Y2, N1, N2. auto. }
  destruct Hview' as [[Hc1 Hc2] Hsame].
  exists (Bird.y b2). split.
  - unfold gameLoop in Hloop.
    destruct (framePhase _ _ _ _ _ _) as [s' |] eqn:Hf; [| discriminate].
    inversion Hloop; subst c'. cbn [Component.gameStateRef].
    destruct (framePhase_physics Math_sin chapters _ _ _ _ _
                (or_introl Hph) Hf) as [E _].
    rewrite E. exact Hy2.
  - rewrite (gameLoop_atHeight Math_sin chapters t r c y q Hph Hpipes Ht
               Hpassed Hin1 Hin2 Hc1 Hc2 Hsame).
    rewrite Hloop. reflexivity.
Qed.

Lemma steadyRun_sound w delta events :
  0 <= delta -> delta <= w ->
  forall c c' y,
    y == Bird.y (GameState.bird (Component.gameStateRef c)) + delta ->
    steadyRun w events c = Some c' ->
    exists y',
      y' == Bird.y (GameState.bird (Component.gameStateRef c')) + delta
      /\ runChecked Math_sin chapters events (atHeight y c)
         = Some (atHeight y' c').
Proof.
  intros Hd0 Hdw.
  induction events as [| e rest IH]; intros c c' y Hy Hrun;
    cbn [steadyRun] in Hrun.
  - inversion Hrun; subst c'. exists y. split; [exact Hy | reflexivity].
  - destruct e as [now | t r | perfNow dateNow]; [discriminate | |].
    + destruct (_ && _) eqn:Hok in Hrun; [| discriminate].
      apply andb_prop in Hok. destruct Hok as [Hadm Hsteady].
      destruct (gameLoop Math_sin chapters t r c) as [c1 |] eqn:Hloop;
        [| discriminate].
      destruct (steadyFrame_sound w delta t r c y Hd0 Hdw Hy Hsteady c1 Hloop)
        as (y1 & Hy1 & Hloop1).
      destruct (IH c1 c' y1 Hy1 Hrun) as (y' & Hy' & Hrest).
      exists y'. split; [exact Hy' |].
      cbn [runChecked handle].
      change (admissibleb (Frame t r) (atHeight y c))
        with (admissibleb (Frame t r) c).
      rewrite Hadm, Hloop1. exact Hrest.
    + destruct (keepsHeight _) eqn:Hkeep; [| discriminate].
      destruct (handleCanvasClick_atHeight perfNow dateNow y c Hkeep)
        as [Hclick Hsame].
      destruct (IH _ c' y (ltac:(rewrite Hsame; exact Hy)) Hrun)
        as (y' & Hy' & Hrest).
      exists y'. split; [exact Hy' |].
      cbn [runChecked handle admissibleb]. rewrite Hclick. exact Hrest.
Qed.

End SteadyRuns.

(** *** The scenario of one chapter with one question *)

(** Loading ends, the intro elapses, the player taps: the bird flies by
    itself. *)
Definition takeOffEvents : list Event :=
  [AssetsLoaded 0; Frame 3001 0; Input 3002 3002].

Definition afterTakeOff : Component.t :=
  Eval vm_compute in
    match runChecked flatSine singleQuestionGame takeOffEvents
                     (initialComponent singleQuestionGame) with
    | Some c => c
    | None => initialComponent singleQuestionGame
    end.

(** Where the bird is when [auto_fly] ends at time 7002: somewhere between
    171 and 251, by the host's sine. *)
Definition autoFlyHeight (Math_sin : Q -> Q) : Q :=
  centerY + Math_sin (7002 * (3 # 1000)) * 40.

Definition steadyOr (c : Component.t) (r : option Component.t) : Component.t :=
  match r with Some c' => c' | None => c end.

(** The two flights as they go for the highest bird of their range (171,
    respectively 211): where it starts, where it is when the answer is
    chosen, and where it is when the pipe is passed. *)
Definition lowStart : Component.t :=
  Eval vm_compute in atHeight 171 afterOpening.

Definition lowAnswered : Component.t :=
  Eval vm_compute in
    steadyOr lowStart
      (steadyRun flatSine singleQuestionGame 40 (lowFlight 1 113) lowStart).

Definition lowPassed : Component.t :=
  Eval vm_compute in
    steadyOr lowStart
      (steadyRun flatSine singleQuestionGame 40 (lowFlight 114 43) lowAnswered).

Definition highAnswered : Component.t :=
  Eval vm_compute in
    steadyOr afterOpening
      (steadyRun flatSine singleQuestionGame 40 (highFlight 1 113)
                 afterOpening).

Definition highPassed : Component.t :=
  Eval vm_compute in
    steadyOr afterOpening
      (steadyRun flatSine singleQuestionGame 40 (highFlight 114 43)
                 highAnswered).

Section OneQuestion.

Variable Math_sin : Q -> Q.
Variables (id : string) (number : Z) (title subtitle description : string).
Variables (questionId text feedbackCorrect feedbackWrong : string).

Definition oneQuestionGame : list Chapter.t :=
  [Chapter.mk id number title subtitle description
     [Question.mk questionId text true feedbackCorrect feedbackWrong]].

Lemma takeOff_run :
  runChecked Math_sin oneQuestionGame takeOffEvents
             (initialComponent oneQuestionGame)
  = Some afterTakeOff.
Proof. vm_compute. reflexivity. Qed.

Lemma autoFly_end :
  runChecked Math_sin oneQuestionGame [Frame 7002 0] afterTakeOff
  = Some (atHeight (autoFlyHeight Math_sin) afterOpening).
Proof. vm_compute. reflexivity. Qed.

Lemma lowFlight_answered :
  steadyRun Math_sin oneQuestionGame 40 (lowFlight 1 113) lowStart
  = Some lowAnswered.
Proof. vm_compute. reflexivity. Qed.

Lemma lowFlight_passed :
  steadyRun Math_sin oneQuestionGame 40 (lowFlight 114 43) lowAnswered
  = Some lowPassed.
Proof. vm_compute. reflexivity. Qed.

Lemma highFlight_answered :
  steadyRun Math_sin oneQuestionGame 40 (highFlight 1 113) afterOpening
  = Some highAnswered.
Proof. vm_compute. reflexivity. Qed.

Lemma highFlight_passed :
  steadyRun Math_sin oneQuestionGame 40 (highFlight 114 43) highAnswered
  = Some highPassed.
Proof. vm_compute. reflexivity. Qed.

Hypothesis sine_range : forall x, -1 <= Math_sin x /\ Math_sin x <= 1.

Lemma autoFlyHeight_range :
  171 <= autoFlyHeight Math_sin /\ autoFlyHeight Math_sin <= 251.
Proof.
  unfold autoFlyHeight.
  destruct (sine_range (7002 * (3 # 1000))) as [Hlo Hhi].
  revert Hlo Hhi. generalize (Math_sin (7002 * (3 # 1000))). intros v Hlo Hhi.
  change centerY with 211. num_plain. split; lra.
Qed.

(** What the flights have in common. *)
Definition flown (start answered passed : Component.t)
    (intoSlot throughSlot : list Event) : Prop :=
  runChecked Math_sin oneQuestionGame intoSlot start = Some answered
  /\ runChecked Math_sin oneQuestionGame throughSlot answered = Some passed.

Lemma steady_flown w delta y start answered passed intoSlot throughSlot :
  0 <= delta -> delta <= w ->
  y == Bird.y (GameState.bird (Component.gameStateRef start)) + delta ->
  steadyRun Math_sin oneQuestionGame w intoSlot start = Some answered ->
  steadyRun Math_sin oneQuestionGame w throughSlot answered = Some passed ->
  exists y1 y2,
    flown (atHeight y start) (atHeight y1 answered) (atHeight y2 passed)
          intoSlot throughSlot.
Proof.
  intros Hd0 Hdw Hy Hinto Hthrough.
  destruct (steadyRun_sound Math_sin oneQuestionGame w delta intoSlot Hd0 Hdw
              start answered y Hy Hinto) as (y1 & Hy1 & Hrun1).
  destruct (steadyRun_sound Math_sin oneQuestionGame w delta throughSlot
              Hd0 Hdw answered passed y1 Hy1 Hthrough) as (y2 & Hy2 & Hrun2).
  exists y1, y2. split; assumption.
Qed.

End OneQuestion.

Definition flatAnswered : Component.t :=
  Eval vm_compute in
    steadyOr afterOpening
      (runChecked flatSine singleQuestionGame (highFlight 1 113) afterOpening).

Lemma flatAnswered_run :
  runChecked flatSine singleQuestionGame (openingEvents ++ highFlight 1 113)
             (initialComponent singleQuestionGame)
  = Some flatAnswered.
Proof. vm_compute. reflexivity. Qed.

(** C3, as the spec states it, fails.  In the game of one chapter with one
    question whose answer is YES, whatever the host's sine and the events: no
    state has a normal pipe, so the player passes none before the question;
    and no state has [displayScore = 10] with [totalCorrect = 1], since
    display points only come five at a time with a correct answer.  Flying
    into the YES slot of the question pipe, which is there as soon as the
    bird flies, gives [displayScore = 5] and [totalCorrect = 1]. *)
Lemma C3_no_plain_obstacle_no_ten_points :
  ~ (exists (Math_sin : Q -> Q) (c : Component.t) (p : Pipe.t),
        reachable Math_sin singleQuestionGame c
        /\ In p (GameState.pipes (Component.gameStateRef c))
        /\ Pipe.type p = normal)
  /\ ~ (exists (Math_sin : Q -> Q) (c : Component.t),
           reachable Math_sin singleQuestionGame c
           /\ GameState.displayScore (Component.gameStateRef c) = 10%Z
           /\ GameScore.totalCorrect
                (GameState.score (Component.gameStateRef c)) = 1%Z)
  /\ runChecked flatSine singleQuestionGame
                (openingEvents ++ highFlight 1 113)
                (initialComponent singleQuestionGame)
     = Some flatAnswered
  /\ GameState.displayScore (Component.gameStateRef flatAnswered) = 5%Z
  /\ GameScore.totalCorrect
       (GameState.score (Component.gameStateRef flatAnswered)) = 1%Z.
Proof.
  split; [| split].
  - intros (Math_sin & c & p & Hr & Hin & Ht).
    destruct (reachable_solo housingChapter eq_refl Math_sin c Hr) as (_ & Hp & _).
    rewrite Forall_forall in Hp. specialize (Hp p Hin).
    unfold isQuestion in Hp. congruence.
  - intros (Math_sin & c & Hr & Hd & Hc).
    destruct (reachable_solo housingChapter eq_refl Math_sin c Hr) as ((_ & _ & Hs) & _).
    lia.
  - split; [exact flatAnswered_run |]. split; reflexivity.
Qed.

(** C3 (amended): in a game of one chapter with one question whose answer is
    YES, with a host sine between -1 and 1: no state has a normal pipe and
    [displayScore] never exceeds [5 * totalCorrect]; the question pipe spawns
    in the frame that ends [auto_fly], with [displayScore = 0] and no
    [question_preview] before it; some flight takes the bird into the YES
    slot, which gives [displayScore = 5] and [totalCorrect = 1]; flying on
    past the pipe makes the phase [chapter_complete] with the chapter score
    [{correct: 1, total: 1}]; and the next input makes it [game_complete]
    with [totalCorrect = 1] and [totalQuestions = 1]. *)
Theorem C3_one_question_scenario :
  forall (Math_sin : Q -> Q) (chapter : Chapter.t) (question : Question.t),
    (forall x, -1 <= Math_sin x /\ Math_sin x <= 1) ->
    Chapter.questions chapter = [question] ->
    Question.answer question = true ->
    let chapters := [chapter] in
    let state := Component.gameStateRef in
    (forall c, reachable Math_sin chapters c ->
       Forall isQuestion (GameState.pipes (state c))
       /\ (GameState.displayScore (state c)
           <= 5 * GameScore.totalCorrect (GameState.score (state c)))%Z)
    /\ exists (intoSlot throughSlot : list Event)
              (cFly cSpawn cYes cPass : Component.t),
        runChecked Math_sin chapters takeOffEvents (initialComponent chapters)
        = Some cFly
        /\ GameState.phase (state cFly) = auto_fly
        /\ GameState.pipes (state cFly) = []
        /\ runChecked Math_sin chapters [Frame 7002 0] cFly = Some cSpawn
        /\ GameState.phase (state cSpawn) = playing
        /\ GameState.pipes (state cSpawn) = [createQuestionPipe]
        /\ GameState.displayScore (state cSpawn) = 0%Z
        /\ runChecked Math_sin chapters intoSlot cSpawn = Some cYes
        /\ map Pipe.questionAnswered (GameState.pipes (state cYes))
           = [Some true]
        /\ GameState.displayScore (state cYes) = 5%Z
        /\ GameScore.totalCorrect (GameState.score (state cYes)) = 1%Z
        /\ runChecked Math_sin chapters throughSlot cYes = Some cPass
        /\ GameState.phase (state cPass) = chapter_complete
        /\ GameScore.chapterScores (GameState.score (state cPass))
           = [ChapterScore.mk 1 1]
        /\ forall perfNow dateNow,
            let cEnd := handleCanvasClick chapters perfNow dateNow cPass in
            GameState.phase (state cEnd) = game_complete
            /\ GameScore.totalCorrect (GameState.score (state cEnd)) = 1%Z
            /\ GameScore.totalQuestions (GameState.score (state cEnd)) = 1%Z.
Proof.
  intros Math_sin chapter question Hsine Hquestions Hanswer chapters state.
  split.
  - intros c Hr.
    assert (Hone : length (Chapter.questions chapter) = 1%nat)
      by (rewrite Hquestions; reflexivity).
    destruct (reachable_solo chapter Hone Math_sin c Hr)
      as ((_ & _ & Hs) & Hp & _).
    split; [exact Hp | apply Hs].
  - destruct chapter as [id number title subtitle description questions].
    cbn [Chapter.questions] in Hquestions. subst questions.
    destruct question as [questionId text answer feedbackCorrect feedbackWrong].
    cbn [Question.answer] in Hanswer. subst answer.
    change chapters
      with (oneQuestionGame id number title subtitle description questionId
                            text feedbackCorrect feedbackWrong).
    set (game := oneQuestionGame _ _ _ _ _ _ _ _ _).
    destruct (autoFlyHeight_range Math_sin Hsine) as [Hlo Hhi].
    set (y := autoFlyHeight Math_sin) in *.
    assert (Hflown :
              exists intoSlot throughSlot answered passed y1 y2,
                flown Math_sin id number title subtitle description questionId
                      text feedbackCorrect feedbackWrong
                      (atHeight y afterOpening) (atHeight y1 answered)
                      (atHeight y2 passed) intoSlot throughSlot
                /\ map Pipe.questionAnswered
                       (GameState.pipes (state answered)) = [Some true]
                /\ GameState.displayScore (state answered) = 5%Z
                /\ GameScore.totalCorrect (GameState.score (state answered))
                   = 1%Z
                /\ GameState.phase (state passed) = chapter_complete
                /\ GameState.chapterIndex (state passed) = 0%nat
                /\ GameState.score (state passed)
                   = GameScore.mk [ChapterScore.mk 1 1] 1 1).
    { destruct (Qlt_le_dec 211 y) as [Hhigh | Hlow].
      - exists (highFlight 1 113), (highFlight 114 43),
               highAnswered, highPassed.
        destruct (steady_flown Math_sin id number title subtitle description
                    questionId text feedbackCorrect feedbackWrong
                    40 (y - 211)%Q y afterOpening highAnswered highPassed
                    (highFlight 1 113) (highFlight 114 43))
          as (y1 & y2 & Hf).
        + lra.
        + lra.
        + change (Bird.y (GameState.bird (Component.gameStateRef afterOpening)))
            with 211. ring.
        + apply highFlight_answered.
        + apply highFlight_passed.
        + exists y1, y2. split; [exact Hf |]. repeat split.
      - exists (lowFlight 1 113), (lowFlight 114 43), lowAnswered, lowPassed.
        destruct (steady_flown Math_sin id number title subtitle description
                    questionId text feedbackCorrect feedbackWrong
                    40 (y - 171)%Q y lowStart lowAnswered lowPassed
                    (lowFlight 1 113) (lowFlight 114 43))
          as (y1 & y2 & Hf).
        + lra.
        + lra.
        + change (Bird.y (GameState.bird (Component.gameStateRef lowStart)))
            with 171. ring.
        + apply lowFlight_answered.
        + apply lowFlight_passed.
        + exists y1, y2. split; [exact Hf |]. repeat split. }
    destruct Hflown as (intoSlot & throughSlot & answered & passed & y1 & y2
                        & [Hinto Hthrough] & Ha & Hd & Hc & Hph & Hci & Hsc).
    exists intoSlot, throughSlot, afterTakeOff, (atHeight y afterOpening),
           (atHeight y1 answered), (atHeight y2 passed).
    split; [apply takeOff_run |]. split; [reflexivity |].
    split; [reflexivity |]. split; [apply autoFly_end |].
    split; [reflexivity |]. split; [vm_compute; reflexivity |].
    split; [reflexivity |]. split; [exact Hinto |].
    split; [exact Ha |]. split; [exact Hd |]. split; [exact Hc |].
    split; [exact Hthrough |]. split; [exact Hph |].
    split; [change (GameState.score (state (atHeight y2 passed)))
              with (GameState.score (state passed)); rewrite Hsc; reflexivity |].
    intros perfNow dateNow cEnd. subst cEnd. unfold handleCanvasClick.
    change (GameState.phase (Component.gameStateRef (atHeight y2 passed)))
      with (GameState.phase (state passed)).
    rewrite Hph.
    change (GameState.chapterIndex (Component.gameStateRef (atHeight y2 passed)))
      with (GameState.chapterIndex (state passed)).
    rewrite Hci. cbn [length Z.of_nat game oneQuestionGame].
    change (0 <? Z.pos (Pos.of_succ_nat 0) - 1)%Z with false. cbv iota.
    unfold state. cbn [Component.gameStateRef]. gs_simpl.
    change (GameState.score (Component.gameStateRef (atHeight y2 passed)))
      with (GameState.score (state passed)).
    rewrite Hsc. repeat split.
Qed.

Lemma C3_one_question_scenario_witness :
  Forall isQuestion (GameState.pipes (Component.gameStateRef flatAnswered))
  /\ (GameState.displayScore (Component.gameStateRef flatAnswered)
      <= 5 * GameScore.totalCorrect
               (GameState.score (Component.gameStateRef flatAnswered)))%Z.
Proof.
  refine (proj1 (C3_one_question_scenario flatSine
                   housingChapter yesQuestion _ eq_refl eq_refl) flatAnswered _).
  - intro x. split; vm_compute; discriminate.
  - exact (runChecked_reachable flatSine singleQuestionGame
             (openingEvents ++ highFlight 1 113) _ _
             (reachable_init flatSine singleQuestionGame) flatAnswered_run).
Defined.

(* ================================================================== *)
(** * More of the game *)

(** ** Loops: what every iteration keeps, the whole loop keeps *)

Lemma forPipes_state body (J : GameState.t -> Prop) :
  (forall p s p' s' fl, body p s = Some (p', s', fl) -> J s -> J s') ->
  forall l s l' s' fl,
    forPipes body l s = Some (l', s', fl) -> J s -> J s'.
Proof.
  intro Hbody.
  apply (forPipes_elim body (fun l s l' s' fl => J s -> J s')).
  - auto.
  - intros p s p' s' rest Hb. eapply Hbody; eauto.
  - intros p s p' s1 rest rest' s' fl Hb _ IH H. apply IH.
    eapply Hbody; eauto.
Qed.

Lemma forPipes_pipes body (R : Pipe.t -> Pipe.t -> Prop) :
  (forall p, R p p) ->
  (forall p s p' s' fl, body p s = Some (p', s', fl) -> R p p') ->
  forall l s l' s' fl,
    forPipes body l s = Some (l', s', fl) -> Forall2 R l l'.
Proof.
  intros Hrefl Hbody.
  apply (forPipes_elim body (fun l s l' s' fl => Forall2 R l l')).
  - constructor.
  - intros p s p' s' rest Hb. constructor.
    + eapply Hbody; eauto.
    + now apply Forall2_refl.
  - intros p s p' s1 rest rest' s' fl Hb _ IH. constructor; [| exact IH].
    eapply Hbody; eauto.
Qed.

(** The loop throws only where an iteration does. *)
Lemma forPipes_total body (J : GameState.t -> Prop) :
  (forall p s, J s -> exists p' s' fl, body p s = Some (p', s', fl) /\ J s') ->
  forall l s, J s -> exists l' s' fl, forPipes body l s = Some (l', s', fl).
Proof.
  intro Hbody. induction l as [| p rest IH]; intros s HJ.
  - cbn. eauto.
  - cbn. destruct (Hbody p s HJ) as (p' & s1 & fl & Hb & HJ1). rewrite Hb.
    destruct fl; [| eauto].
    destruct (IH s1 HJ1) as (rest' & s2 & fl2 & Hr). rewrite Hr. eauto.
Qed.

(** ** The geometry of the pipes *)

(** A normal pipe as [createNormalPipe] makes it: a gap of
    [PIPE_GAP_NORMAL] inside the pipe area. *)
Definition normalGeometry (p : Pipe.t) : Prop :=
  Pipe.type p = normal
  /\ exists gapTop gapBottom,
      Pipe.gapTop p = Some gapTop /\ Pipe.gapBottom p = Some gapBottom
      /\ gapBottom == gapTop + PIPE_GAP_NORMAL
      /\ PIPE_AREA_TOP <= gapTop /\ gapBottom < PIPE_AREA_BOTTOM.


Lemma createNormalPipe_geometry random :
  0 <= random -> random < 1 -> normalGeometry (createNormalPipe random).
Proof.
  intros H0 H1. split; [reflexivity |].
  unfold createNormalPipe. cbn [Pipe.gapTop Pipe.gapBottom].
  eexists; eexists. split; [reflexivity |]. split; [reflexivity |].
  unfold_consts. num_plain. repeat split; try reflexivity; nra.
Qed.



(** A pipe keeps its kind and its edges through an iteration. *)
Definition sameEdges (p p' : Pipe.t) : Prop :=
  Pipe.type p' = Pipe.type p
  /\ Pipe.gapTop p' = Pipe.gapTop p
  /\ Pipe.gapBottom p' = Pipe.gapBottom p
  /\ Pipe.topPipeBottom p' = Pipe.topPipeBottom p
  /\ Pipe.middlePipeTop p' = Pipe.middlePipeTop p
  /\ Pipe.middlePipeBottom p' = Pipe.middlePipeBottom p
  /\ Pipe.bottomPipeTop p' = Pipe.bottomPipeTop p.

Lemma sameEdges_refl p : sameEdges p p.
Proof. repeat split. Qed.

Lemma loopBody_sameEdges b p s p' s' fl :
  loopBody b p s = Some (p', s', fl) -> sameEdges p p'.
Proof.
  destruct b as [t d ch cq | t d]; cbn [loopBody]; intro H.
  - unfold playingPipe in H.
    assert (E : sameEdges p (movePipe d p)) by (repeat split).
    revert E H. generalize (movePipe d p). intros p1 E H.
    destruct (checkCollision _ _); [inversion H; subst; exact E |].
    destruct (passThrough t ch p1 s) as [[[p2 s2] fl2] |] eqn:Hpt;
      [| discriminate].
    assert (E2 : sameEdges p p2).
    { unfold passThrough in Hpt.
      destruct_branches; inversion Hpt; subst; exact E. }
    destruct fl2; [| inversion H; subst; exact E2].
    destruct (answerSelection cq p2 s2) as [[p3 s3] |] eqn:Has;
      [| discriminate].
    inversion H; subst p' s' fl.
    unfold answerSelection in Has.
    destruct_branches; inversion Has; subst; exact E2.
  - unfold previewPipe in H.
    assert (E : sameEdges p (movePipe d p)) by (repeat split).
    revert E H. generalize (movePipe d p). intros p1 E H.
    destruct_branches; inversion H; subst; exact E.
Qed.

(** The pipe is one that [createNormalPipe] or [createQuestionPipe] made. *)
Definition wellShaped (p : Pipe.t) : Prop :=
  normalGeometry p \/ questionGeometry p.

(** The pipe is not yet more than 50 px left of the canvas
    ([removeOffscreen] keeps it). *)
Definition onScreen (p : Pipe.t) : Prop := -(50) < Pipe.x p + PIPE_WIDTH.

Lemma sameEdges_wellShaped p p' :
  sameEdges p p' -> wellShaped p -> wellShaped p'.
Proof.
  intros (T & G1 & G2 & E1 & E2 & E3 & E4) [[Hn Hg] | Hq].
  - left. split; [congruence |]. rewrite G1, G2. exact Hg.
  - right. unfold questionGeometry in *. rewrite T, E1, E2, E3, E4. exact Hq.
Qed.

Lemma createQuestionPipe_wellShaped : wellShaped createQuestionPipe.
Proof. right. repeat split. Qed.

Lemma removeOffscreen_onScreen pipes : Forall onScreen (removeOffscreen pipes).
Proof.
  unfold removeOffscreen. apply Forall_forall. intros p Hp.
  apply filter_In in Hp. destruct Hp as [_ Hp]. unfold onScreen. num_lra.
Qed.

(** ** What every state of a run satisfies: the score shown is not negative,
    and the pipes are well shaped and on the screen *)

Definition tidy (s : GameState.t) : Prop :=
  (0 <= GameState.displayScore s)%Z
  /\ Forall wellShaped (GameState.pipes s)
  /\ Forall onScreen (GameState.pipes s).

Lemma tidy_sameGame s s' : sameGame s s' -> tidy s -> tidy s'.
Proof.
  intros (_ & P & _ & _ & _ & D & _) (H1 & H2 & H3).
  unfold tidy. rewrite P, D. auto.
Qed.

Lemma loopBody_displayScore b p s p' s' fl :
  loopBody b p s = Some (p', s', fl) ->
  (0 <= GameState.displayScore s)%Z -> (0 <= GameState.displayScore s')%Z.
Proof.
  destruct b as [t d ch cq | t d]; cbn [loopBody]; intros H H0.
  - unfold playingPipe in H. revert H. generalize (movePipe d p). intros p1 H.
    destruct (checkCollision _ _); [inversion H; subst; exact H0 |].
    destruct (passThrough t ch p1 s) as [[[p2 s2] fl2] |] eqn:Hpt;
      [| discriminate].
    assert (H2 : (0 <= GameState.displayScore s2)%Z).
    { unfold passThrough in Hpt.
      destruct_branches; inversion Hpt; subst; gs_simpl; lia. }
    destruct fl2; [| inversion H; subst; exact H2].
    destruct (answerSelection cq p2 s2) as [[p3 s3] |] eqn:Has;
      [| discriminate].
    inversion H; subst p' s' fl.
    unfold answerSelection in Has.
    destruct_branches; inversion Has; subst; gs_simpl; lia.
  - unfold previewPipe in H. revert H. generalize (movePipe d p). intros p1 H.
    destruct_branches; inversion H; subst; gs_simpl; lia.
Qed.

Section Tidy.

Variable Math_sin : Q -> Q.
Variable chapters : list Chapter.t.

Lemma loop_tidy b l s l' s' fl :
  forPipes (loopBody b) l s = Some (l', s', fl) ->
  (0 <= GameState.displayScore s)%Z -> Forall wellShaped l ->
  tidy (GameState.set_pipes (removeOffscreen l') s').
Proof.
  intros Hloop H0 Hw. unfold tidy. gs_simpl.
  split; [| split].
  - revert H0. eapply (forPipes_state (loopBody b)
      (fun s => (0 <= GameState.displayScore s)%Z)); eauto.
    intros; eapply loopBody_displayScore; eauto.
  - unfold removeOffscreen. apply Forall_filter.
    eapply Forall2_transfer; [| | exact Hw].
    + intros a c. apply sameEdges_wellShaped.
    + eapply forPipes_pipes; eauto; [apply sameEdges_refl |].
      intros; eapply loopBody_sameEdges; eauto.
  - apply removeOffscreen_onScreen.
Qed.

Lemma frameStep_tidy t d random s s' :
  0 <= random -> random < 1 ->
  frameStep chapters t d random s s' -> tidy s -> tidy s'.
Proof.
  intros Hr0 Hr1 Hstep Hinv. pose proof Hinv as (H0 & Hw & Ho).
  destruct Hstep as [Hsame | Hph Hsame | Hph Hsame | Hph Hsame
                    | chapter Hph Hge Hq Hch Hqi Hsame
                    | s0 pipes0 pipes' s1 fl Hph Hsame Hp0 Hcond Hloop ->
                    | s0 pipes' s1 fl Hph Hsame Hloop Hs'].
  - eapply tidy_sameGame; eauto.
  - eapply tidy_sameGame; eauto.
  - eapply tidy_sameGame; eauto. unfold tidy. gs_simpl. auto.
  - eapply tidy_sameGame; eauto. unfold tidy. gs_simpl.
    split; [exact H0 |]. split; apply Forall_app; split; auto.
    + constructor; [apply createQuestionPipe_wellShaped | constructor].
    + constructor; [| constructor]. unfold onScreen. cbn. num_lra.
  - eapply tidy_sameGame; eauto.
  - destruct Hsame as (_ & _ & _ & _ & _ & D & _).
    change (forPipes (loopBody (InPlaying t d
              (nth_error chapters (GameState.chapterIndex s))
              (currentQuestionOf chapters s))) pipes0 s0
            = Some (pipes', s1, fl)) in Hloop.
    eapply loop_tidy; eauto; [now rewrite D |].
    destruct Hp0 as [-> | [_ ->]]; [exact Hw |].
    apply Forall_app. split; [exact Hw |].
    constructor; [| constructor]. left.
    now apply createNormalPipe_geometry.
  - destruct Hsame as (_ & P & _ & _ & _ & D & _).
    change (forPipes (loopBody (InPreview t d)) (GameState.pipes s) s0
            = Some (pipes', s1, fl)) in Hloop.
    assert (H1 : tidy (GameState.set_pipes (removeOffscreen pipes') s1)).
    { eapply loop_tidy; eauto. now rewrite D. }
    destruct Hs' as [-> | Hsame']; [exact H1 |].
    eapply tidy_sameGame; eauto. destruct H1 as (A & B & C).
    unfold tidy in *. gs_simpl.
    split; [exact A |]. split; apply Forall_app; split; auto.
    + constructor; [apply createQuestionPipe_wellShaped | constructor].
    + constructor; [| constructor]. unfold onScreen. cbn. num_lra.
Qed.

Lemma handleCanvasClick_tidy perfNow dateNow c :
  tidy (Component.gameStateRef c) ->
  tidy (Component.gameStateRef (handleCanvasClick chapters perfNow dateNow c)).
Proof.
  intros Hinv. pose proof Hinv as (H0 & Hw & Ho). unfold handleCanvasClick.
  destruct (GameState.phase (Component.gameStateRef c));
    try (eapply tidy_sameGame; [apply jump_sameGame | exact Hinv]).
  - unfold tidy. cbn. auto.
  - unfold tidy. cbn. repeat split; auto using Forall_filter.
  - destruct (_ <? _)%Z; unfold tidy; cbn; auto.
  - unfold tidy. cbn. repeat split; auto; lia.
Qed.

Lemma reachable_tidy c :
  reachable Math_sin chapters c -> tidy (Component.gameStateRef c).
Proof.
  induction 1 as [| e c c' _ IH Hadm Hh].
  - unfold tidy. cbn. repeat split; auto; lia.
  - destruct e as [now | currentTime random | perfNow dateNow]; cbn in Hh.
    + inversion Hh; subst c'. exact IH.
    + destruct Hadm as (_ & _ & Hr0 & Hr1). unfold gameLoop in Hh.
      destruct (framePhase _ _ _ _ _ _) as [s' |] eqn:Hf; [| discriminate].
      inversion Hh; subst c'. apply framePhase_frameStep in Hf.
      eapply frameStep_tidy; eauto.
    + inversion Hh; subst c'. now apply handleCanvasClick_tidy.
Qed.

End Tidy.



(** X3: the score shown is never negative: in every reachable state
    [displayScore >= 0] (a wrong answer takes 2 points but stops at 0). *)
Theorem X3_display_score_not_negative :
  forall (Math_sin : Q -> Q) (chapters : list Chapter.t) (c : Component.t),
    reachable Math_sin chapters c ->
    (0 <= GameState.displayScore (Component.gameStateRef c))%Z.
Proof.
  intros Math_sin chapters c Hr. apply (reachable_tidy _ _ _ Hr).
Qed.

Lemma X3_display_score_not_negative_witness :
  reachable flatSine singleQuestionGame crashedComponent
  /\ (0 <= GameState.displayScore (Component.gameStateRef crashedComponent))%Z.
Proof.
  split; [exact crashedComponent_reachable |].
  apply (X3_display_score_not_negative flatSine singleQuestionGame
           crashedComponent).
  exact crashedComponent_reachable.
Defined.

(** ** The current chapter and the current question *)

(** There is a chapter, and every chapter has a question. *)
Definition playable (chapters : list Chapter.t) : Prop :=
  chapters <> []
  /\ Forall (fun chapter => Chapter.questions chapter <> []) chapters.

Definition playableb (chapters : list Chapter.t) : bool :=
  negb (length chapters =? 0)%nat
  && forallb (fun chapter =>
                negb (length (Chapter.questions chapter) =? 0)%nat)
             chapters.

Lemma playableb_sound chapters : playableb chapters = true -> playable chapters.
Proof.
  unfold playableb, playable. intro H. apply andb_prop in H.
  destruct H as [Hn Hq]. split.
  - intros ->. discriminate.
  - rewrite forallb_forall in Hq. apply Forall_forall. intros ch Hin E.
    specialize (Hq ch Hin). rewrite E in Hq. discriminate.
Qed.

(** [chapters[state.chapterIndex]] and its
    [questions[state.questionIndex]] are defined. *)
Definition indexed (chapters : list Chapter.t) (s : GameState.t) : Prop :=
  exists chapter,
    nth_error chapters (GameState.chapterIndex s) = Some chapter
    /\ (GameState.questionIndex s < length (Chapter.questions chapter))%nat.

Lemma indexed_sameGame chapters s s' :
  sameGame s s' -> indexed chapters s -> indexed chapters s'.
Proof.
  intros (_ & _ & C & Q & _) H. unfold indexed. now rewrite C, Q.
Qed.

Lemma passThrough_questionIndex t chapter p s p' s' fl :
  passThrough t (Some chapter) p s = Some (p', s', fl) ->
  (GameState.questionIndex s < length (Chapter.questions chapter))%nat ->
  (GameState.questionIndex s' < length (Chapter.questions chapter))%nat.
Proof.
  unfold passThrough. intros H Hlt.
  destruct_branches; inversion H; subst; gs_simpl; auto.
  match goal with E : (_ <? _)%Z = true |- _ => apply Z.ltb_lt in E end.
  gs_simpl. lia.
Qed.

Lemma answerSelection_questionIndex cq p s p' s' :
  answerSelection cq p s = Some (p', s') ->
  GameState.questionIndex s' = GameState.questionIndex s.
Proof.
  unfold answerSelection. intro H.
  destruct_branches; inversion H; subst; reflexivity.
Qed.

Lemma playingPipe_questionIndex t d chapter cq p s p' s' fl :
  playingPipe t d (Some chapter) cq p s = Some (p', s', fl) ->
  (GameState.questionIndex s < length (Chapter.questions chapter))%nat ->
  (GameState.questionIndex s' < length (Chapter.questions chapter))%nat.
Proof.
  unfold playingPipe. generalize (movePipe d p). intros p1 H Hlt.
  destruct (checkCollision _ _); [inversion H; subst; exact Hlt |].
  destruct (passThrough t (Some chapter) p1 s) as [[[p2 s2] fl2] |] eqn:Hpt;
    [| discriminate].
  apply passThrough_questionIndex in Hpt; [| exact Hlt].
  destruct fl2; [| inversion H; subst; exact Hpt].
  destruct (answerSelection cq p2 s2) as [[p3 s3] |] eqn:Has; [| discriminate].
  apply answerSelection_questionIndex in Has.
  inversion H; subst. now rewrite Has.
Qed.

Lemma previewPipe_questionIndex t d p s p' s' fl :
  previewPipe t d p s = Some (p', s', fl) ->
  GameState.questionIndex s' = GameState.questionIndex s.
Proof.
  unfold previewPipe. intro H.
  destruct_branches; inversion H; subst; reflexivity.
Qed.

Section Indexed.

Variable Math_sin : Q -> Q.
Variable chapters : list Chapter.t.
Hypothesis chapters_playable : playable chapters.

Lemma frameStep_indexed t d random s s' :
  frameStep chapters t d random s s' ->
  indexed chapters s -> indexed chapters s'.
Proof.
  intros Hstep Hinv.
  destruct Hstep as [Hsame | Hph Hsame | Hph Hsame | Hph Hsame
                    | chapter Hph Hge Hq Hch Hqi Hsame
                    | s0 pipes0 pipes' s1 fl Hph Hsame Hp0 Hcond Hloop ->
                    | s0 pipes' s1 fl Hph Hsame Hloop Hs'];
    try (eapply indexed_sameGame; [exact Hsame |]; exact Hinv).
  - destruct Hinv as (chapter & Hch & Hlt). rewrite Hch in Hloop.
    destruct Hsame as (_ & _ & C & Q & _).
    exists chapter. gs_simpl. split.
    + rewrite <- Hch, <- C.
      f_equal. exact (loop_chapterIndex (InPlaying t d _ _) _ _ _ _ _ Hloop).
    + revert Hloop. intro Hloop.
      eapply (forPipes_state _
                (fun s => (GameState.questionIndex s
                           < length (Chapter.questions chapter))%nat));
        [| exact Hloop | now rewrite Q].
      intros ? ? ? ? ?. apply playingPipe_questionIndex.
  - assert (H1 : indexed chapters
                   (GameState.set_pipes (removeOffscreen pipes') s1)).
    { destruct Hinv as (chapter & Hch & Hlt).
      destruct Hsame as (_ & _ & C & Q & _).
      exists chapter. gs_simpl.
      rewrite (loop_chapterIndex (InPreview t d) _ _ _ _ _ Hloop), C.
      split; [exact Hch |].
      assert (E : GameState.questionIndex s1 = GameState.questionIndex s0).
      { eapply (forPipes_state _
                  (fun x => GameState.questionIndex x
                            = GameState.questionIndex s0));
          [| exact Hloop | reflexivity].
        intros p x p' x' f Hb E. apply previewPipe_questionIndex in Hb.
        congruence. }
      now rewrite E, Q. }
    destruct Hs' as [-> | Hsame']; [exact H1 |].
    eapply indexed_sameGame; [exact Hsame' |]. exact H1.
Qed.

Lemma first_indexed :
  exists chapter,
    nth_error chapters 0 = Some chapter
    /\ (0 < length (Chapter.questions chapter))%nat.
Proof.
  destruct chapters_playable as [Hne Hq].
  destruct chapters as [| chapter rest]; [congruence |].
  exists chapter. split; [reflexivity |].
  inversion Hq; subst. destruct (Chapter.questions chapter); [congruence |].
  cbn. lia.
Qed.

Lemma handleCanvasClick_indexed perfNow dateNow c :
  indexed chapters (Component.gameStateRef c) ->
  indexed chapters
    (Component.gameStateRef (handleCanvasClick chapters perfNow dateNow c)).
Proof.
  intros Hinv. unfold handleCanvasClick.
  destruct (GameState.phase (Component.gameStateRef c));
    try (eapply indexed_sameGame; [apply jump_sameGame | exact Hinv]);
    try exact Hinv.
  - destruct (_ <? _)%Z eqn:E; [| exact Hinv].
    apply Z.ltb_lt in E. unfold indexed.
    cbn [Component.gameStateRef]. gs_simpl.
    destruct (nth_error chapters (S (GameState.chapterIndex
                                       (Component.gameStateRef c))))
      as [chapter |] eqn:Hn.
    + exists chapter. split; [reflexivity |].
      destruct chapters_playable as [_ Hq]. rewrite Forall_forall in Hq.
      specialize (Hq chapter (nth_error_In _ _ Hn)).
      destruct (Chapter.questions chapter); [congruence | cbn; lia].
    + apply nth_error_None in Hn. lia.
  - exact first_indexed.
Qed.

Lemma reachable_indexed c :
  reachable Math_sin chapters c -> indexed chapters (Component.gameStateRef c).
Proof.
  induction 1 as [| e c c' _ IH Hadm Hh].
  - exact first_indexed.
  - destruct e as [now | currentTime random | perfNow dateNow]; cbn in Hh.
    + inversion Hh; subst c'. exact IH.
    + unfold gameLoop in Hh.
      destruct (framePhase _ _ _ _ _ _) as [s' |] eqn:Hf; [| discriminate].
      inversion Hh; subst c'. apply framePhase_frameStep in Hf.
      eapply frameStep_indexed; eauto.
    + inversion Hh; subst c'. now apply handleCanvasClick_indexed.
Qed.

End Indexed.

(** X4: when there is a chapter and every chapter has a question, the
    chapter and the question the frame reads
    ([chapters[state.chapterIndex]] and its
    [questions[state.questionIndex]]) are defined in every reachable state,
    and so is the chapter's entry of [score.chapterScores]. *)
Theorem X4_current_question_defined :
  forall (Math_sin : Q -> Q) (chapters : list Chapter.t) (c : Component.t),
    playable chapters ->
    reachable Math_sin chapters c ->
    exists chapter q cs,
      nth_error chapters (GameState.chapterIndex (Component.gameStateRef c))
      = Some chapter
      /\ nth_error (Chapter.questions chapter)
                   (GameState.questionIndex (Component.gameStateRef c))
         = Some q
      /\ nth_error (GameScore.chapterScores
                      (GameState.score (Component.gameStateRef c)))
                   (GameState.chapterIndex (Component.gameStateRef c))
         = Some cs
      /\ ChapterScore.total cs
         = Z.of_nat (length (Chapter.questions chapter)).
Proof.
  intros Math_sin chapters c Hp Hr.
  destruct (reachable_indexed Math_sin chapters Hp c Hr) as (chapter & Hch & Hlt).
  destruct (nth_error (Chapter.questions chapter)
              (GameState.questionIndex (Component.gameStateRef c)))
    as [q |] eqn:Hq; [| apply nth_error_None in Hq; lia].
  destruct (scoreOk_total chapters _ _ chapter
              (reachable_scoreOk Math_sin chapters c Hr) Hch)
    as (cs & Hcs & Ht).
  exists chapter, q, cs. auto.
Qed.

Lemma X4_current_question_defined_witness :
  playable singleQuestionGame
  /\ reachable flatSine singleQuestionGame afterOpening
  /\ exists chapter q cs,
      nth_error singleQuestionGame
                (GameState.chapterIndex (Component.gameStateRef afterOpening))
      = Some chapter
      /\ nth_error (Chapter.questions chapter)
                   (GameState.questionIndex (Component.gameStateRef afterOpening))
         = Some q
      /\ nth_error (GameScore.chapterScores
                      (GameState.score (Component.gameStateRef afterOpening)))
                   (GameState.chapterIndex (Component.gameStateRef afterOpening))
         = Some cs
      /\ ChapterScore.total cs
         = Z.of_nat (length (Chapter.questions chapter)).
Proof.
  split; [apply playableb_sound; reflexivity |].
  split; [exact afterOpening_reachable |].
  apply (X4_current_question_defined flatSine singleQuestionGame afterOpening).
  - apply playableb_sound. reflexivity.
  - exact afterOpening_reachable.
Defined.

(** ** No event throws *)

(** [score.chapterScores[state.chapterIndex]] is defined. *)
Definition scoreEntry (s : GameState.t) : Prop :=
  exists cs,
    nth_error (GameScore.chapterScores (GameState.score s))
              (GameState.chapterIndex s) = Some cs.

Lemma passThrough_total t chapter p s :
  exists p' s' fl,
    passThrough t (Some chapter) p s = Some (p', s', fl)
    /\ GameState.score s' = GameState.score s
    /\ GameState.chapterIndex s' = GameState.chapterIndex s.
Proof.
  unfold passThrough.
  destruct (negb (Pipe.passed p) && _); [| eauto 7].
  cbn [Pipe.type Pipe.set_passed Pipe.scored]. destruct (Pipe.type p).
  - destruct (negb (Pipe.scored p)); eauto 7.
  - destruct (_ <? _)%Z; eauto 7.
Qed.

Lemma answerSelection_total q p s :
  scoreEntry s ->
  exists p' s',
    answerSelection (Some q) p s = Some (p', s') /\ scoreEntry s'.
Proof.
  intros Hs. unfold answerSelection.
  destruct (PipeType_eqb _ _ && _); [| eauto].
  destruct (_ && _); [| eauto].
  destruct (_ || _); [| eauto].
  destruct (Bool.eqb _ _); [| eauto].
  destruct Hs as [cs Hcs].
  destruct (bumpCorrect_spec _ _ _ Hcs) as (l' & Hb & Hn & _).
  unfold scoreCorrectAnswer. rewrite Hb.
  eexists; eexists. split; [reflexivity |].
  eexists. gs_simpl. cbn [GameScore.chapterScores]. exact Hn.
Qed.

Lemma playingPipe_total t d chapter q p s :
  scoreEntry s ->
  exists p' s' fl,
    playingPipe t d (Some chapter) (Some q) p s = Some (p', s', fl)
    /\ scoreEntry s'.
Proof.
  intro Hs. unfold playingPipe. generalize (movePipe d p). intro p1.
  destruct (checkCollision _ _); [eauto 7 |].
  destruct (passThrough_total t chapter p1 s) as (p2 & s2 & fl2 & Hpt & E & C).
  rewrite Hpt.
  assert (Hs2 : scoreEntry s2) by (unfold scoreEntry; now rewrite E, C).
  destruct fl2; [| eauto 7].
  destruct (answerSelection_total q p2 s2 Hs2) as (p3 & s3 & Has & Hs3).
  rewrite Has. eauto 7.
Qed.

Lemma previewPipe_total t d p s :
  exists p' s' fl, previewPipe t d p s = Some (p', s', fl) /\ True.
Proof.
  unfold previewPipe. generalize (movePipe d p). intro p1.
  destruct (checkCollision _ _); [eauto 7 |].
  destruct (_ && _); [| eauto 7].
  cbn [Pipe.scored Pipe.set_passed]. destruct (negb _); eauto 7.
Qed.

Lemma animateBird_scoreEntry n s : scoreEntry s -> scoreEntry (animateBird n s).
Proof.
  destruct (animateBird_sameGame n s) as (_ & _ & C & _ & E & _).
  unfold scoreEntry. now rewrite C, E.
Qed.

Section NoThrow.

Variable Math_sin : Q -> Q.
Variable chapters : list Chapter.t.

Lemma framePhase_total t d random s :
  indexed chapters s -> scoreOk chapters (GameState.score s) ->
  exists s', framePhase Math_sin chapters t d random s = Some s'.
Proof.
  intros (chapter & Hch & Hlt) Hok.
  destruct (nth_error (Chapter.questions chapter) (GameState.questionIndex s))
    as [q |] eqn:Hq; [| apply nth_error_None in Hq; lia].
  destruct (scoreOk_total chapters _ _ chapter Hok Hch) as (cs & Hcs & _).
  unfold framePhase. rewrite Hch, Hq.
  destruct (GameState.phase s); try (eexists; reflexivity).
  - (* chapter_intro *)
    unfold drawChapterIntro. destruct (_ <? _); destruct (_ >? _); eauto.
  - (* auto_fly *)
    destruct (_ >=? _); eauto.
  - (* playing *)
    unfold framePlaying. cbv zeta.
    destruct (outOfBounds _); [eauto |].
    match goal with
    | |- context [animateBird 6 ?x] => set (s3 := animateBird 6 x)
    end.
    assert (H3 : scoreEntry s3).
    { apply animateBird_scoreEntry. exists cs. exact Hcs. }
    clearbody s3.
    assert (Hloop : forall pipes0,
               exists s',
                 match forPipes (playingPipe t d (Some chapter) (Some q))
                                pipes0 s3 with
                 | None => None
                 | Some (pipes, state, _) =>
                     Some (GameState.set_pipes (removeOffscreen pipes) state)
                 end = Some s').
    { intro pipes0.
      destruct (forPipes_total _ scoreEntry
                  (playingPipe_total t d chapter q) pipes0 s3 H3)
        as (l' & s' & fl & Hl).
      rewrite Hl. eauto. }
    destruct (_ && _) at 1; [destruct (_ <? _)%nat; [eauto |] |]; apply Hloop.
  - (* question_preview *)
    unfold frameQuestionPreview. cbv zeta.
    destruct (outOfBounds _); [eauto |].
    match goal with
    | |- context [forPipes ?b ?l ?x] =>
        destruct (forPipes_total b (fun _ => True)
                    (fun p s _ => previewPipe_total t d p s) l x I)
          as (l' & s' & fl & Hl)
    end.
    rewrite Hl. destruct (_ >=? _); eauto.
  - (* chapter_complete *)
    gs_simpl. rewrite Hcs. unfold drawChapterComplete.
    destruct (_ <? _); eauto.
  - (* game_complete *)
    unfold drawGameComplete. gs_simpl. destruct (_ <? _); [eauto |].
    assert (E : length (GameScore.chapterScores (GameState.score s))
                = length chapters).
    { destruct Hok as [_ Hm]. apply (f_equal (@length Z)) in Hm.
      unfold questionCounts in Hm. now rewrite !length_map in Hm. }
    rewrite E, Nat.leb_refl. eauto.
Qed.

End NoThrow.

(** X5: when there is a chapter and every chapter has a question, no event
    throws: from every reachable state every frame, every tap and the end of
    the loading give a next state, so that a run never stops. *)
Theorem X5_no_event_throws :
  forall (Math_sin : Q -> Q) (chapters : list Chapter.t) (c : Component.t),
    playable chapters ->
    reachable Math_sin chapters c ->
    forall e : Event, exists c', handle Math_sin chapters e c = Some c'.
Proof.
  intros Math_sin chapters c Hp Hr e.
  destruct e as [now | currentTime random | perfNow dateNow]; cbn [handle];
    [eauto | | eauto].
  unfold gameLoop.
  destruct (framePhase_total Math_sin chapters currentTime
              (frameDelta currentTime (Component.lastFrameTimeRef c)) random
              (Component.gameStateRef c))
    as (s' & Hs').
  - now apply (reachable_indexed Math_sin).
  - now apply (reachable_scoreOk Math_sin).
  - rewrite Hs'. eauto.
Qed.

Lemma X5_no_event_throws_witness :
  playable singleQuestionGame
  /\ reachable flatSine singleQuestionGame afterOpening
  /\ exists c',
       handle flatSine singleQuestionGame (Frame 7100 0) afterOpening
       = Some c'.
Proof.
  split; [apply playableb_sound; reflexivity |].
  split; [exact afterOpening_reachable |].
  apply (X5_no_event_throws flatSine singleQuestionGame afterOpening).
  - apply playableb_sound. reflexivity.
  - exact afterOpening_reachable.
Defined.

(** ** A question pipe without a question *)

(** The bird after the physics step of the frame at [currentTime]. *)
Definition frameBird (currentTime : Q) (c : Component.t) : Bird.t :=
  updateBirdPhysics (frameDelta currentTime (Component.lastFrameTimeRef c))
                    (GameState.bird (Component.gameStateRef c)).

(** The pipe after its move in the frame at [currentTime]. *)
Definition framePipe (currentTime : Q) (c : Component.t) (pipe : Pipe.t)
  : Pipe.t :=
  movePipe (frameDelta currentTime (Component.lastFrameTimeRef c)) pipe.

Lemma playingPipe_no_question currentTime deltaTime currentChapter pipe state :
  questionGeometry pipe ->
  Num.truthy (Pipe.questionAnswered pipe) = false ->
  overBird (movePipe deltaTime pipe) ->
  inYesSlot (GameState.bird state) pipe \/ inNoSlot (GameState.bird state) pipe ->
  playingPipe currentTime deltaTime currentChapter None pipe state = None.
Proof.
  intros HG Hna Hov Hslot. unfold playingPipe.
  set (p1 := movePipe deltaTime pipe) in *.
  assert (HG1 : questionGeometry p1) by exact HG.
  assert (Hslot1 : inYesSlot (GameState.bird state) p1
                   \/ inNoSlot (GameState.bird state) p1) by exact Hslot.
  assert (Hna1 : Num.truthy (Pipe.questionAnswered p1) = false) by exact Hna.
  clearbody p1. clear HG Hslot Hna pipe.
  rewrite checkCollision_in_slot; [| exact HG1 | exact Hslot1].
  rewrite passThrough_not_behind
    by (unfold behindBird; destruct Hov; num_lra).
  unfold answerSelection.
  destruct HG1 as (Ht & G1 & G2 & G3 & G4).
  destruct createQuestionPipe_edges as (E1 & E2 & E3 & E4).
  rewrite Ht, Hna1. cbn [PipeType_eqb negb andb].
  destruct Hov as [Ho1 Ho2].
  unfold Num.gtb at 1.
  rewrite (ltb_of_lt (Pipe.x p1) (50 + BIRD_WIDTH)) by num_lra.
  rewrite (ltb_of_lt 50 (Pipe.x p1 + PIPE_WIDTH)) by num_lra.
  cbn [andb].
  unfold inYesSlot, inNoSlot in Hslot1.
  rewrite G1, G2, G3, G4, E1, E2, E3, E4 in *. cbn [Num.orZero] in *.
  unfold Num.gtb.
  set (by_ := Bird.y (GameState.bird state)) in *.
  assert (Hany : (((36 <? by_) && (by_ + BIRD_HEIGHT <? 196))
                  || ((226 <? by_) && (by_ + BIRD_HEIGHT <? 386))) = true).
  { destruct Hslot1 as [[H1 H2] | [H1 H2]].
    - rewrite (ltb_of_lt 36 by_) by lra.
      rewrite (ltb_of_lt (by_ + BIRD_HEIGHT) 196) by num_lra. reflexivity.
    - rewrite (ltb_of_lt 226 by_) by lra.
      rewrite (ltb_of_lt (by_ + BIRD_HEIGHT) 386) by num_lra.
      apply orb_true_r. }
  rewrite Hany. reflexivity.
Qed.

(** X6: without a current question (the chapter has no question at
    [questionIndex]) the frame in which the bird enters a slot of the
    question pipe throws: the pipe loop reads [currentQuestion.answer].  So
    does the frame as a whole when the pipe is the only one on screen, as
    the first question pipe of a chapter is. *)
Theorem X6_slot_without_question_throws :
  (forall (currentTime deltaTime : Q) (currentChapter : option Chapter.t)
          (pipe : Pipe.t) (state : GameState.t),
      questionGeometry pipe ->
      Num.truthy (Pipe.questionAnswered pipe) = false ->
      overBird (movePipe deltaTime pipe) ->
      inYesSlot (GameState.bird state) pipe
      \/ inNoSlot (GameState.bird state) pipe ->
      playingPipe currentTime deltaTime currentChapter None pipe state = None)
  /\ (forall (Math_sin : Q -> Q) (chapters : list Chapter.t)
             (c : Component.t) (currentTime random : Q) (pipe : Pipe.t),
         GameState.phase (Component.gameStateRef c) = playing ->
         GameState.pipes (Component.gameStateRef c) = [pipe] ->
         questionGeometry pipe ->
         Pipe.passed pipe = false ->
         Num.truthy (Pipe.questionAnswered pipe) = false ->
         overBird (framePipe currentTime c pipe) ->
         outOfBounds (frameBird currentTime c) = false ->
         inYesSlot (frameBird currentTime c) pipe
         \/ inNoSlot (frameBird currentTime c) pipe ->
         currentQuestionOf chapters (Component.gameStateRef c) = None ->
         gameLoop Math_sin chapters currentTime random c = None).
Proof.
  split; [exact playingPipe_no_question |].
  intros Math_sin chapters c currentTime random pipe
         Hph Hpipes HG Hpassed Hna Hov Hin Hslot Hq.
  unfold frameBird, framePipe in *.
  unfold gameLoop, framePhase. rewrite Hph.
  unfold currentQuestionOf in Hq. rewrite Hq.
  rewrite (framePlaying_single currentTime _ _ random _ _ _ pipe
             Hpipes (proj1 HG) Hpassed Hin).
  set (s2 := GameState.set_bird _ _).
  pose proof (animateBird_bird_y 6 s2) as Hy.
  rewrite playingPipe_no_question; auto.
  unfold inYesSlot, inNoSlot in *. rewrite Hy. exact Hslot.
Qed.

(** A game whose only chapter has no question, and the frame of
    [highFlight] in which the bird enters the YES slot of its pipe. *)
Definition emptyChapter : Chapter.t :=
  Chapter.mk "housing" 1 "HOUSING" "& ELECTIONS" "Rent control" [].

Definition noQuestionGame : list Chapter.t := [emptyChapter].

Definition beforeSlot : Component.t :=
  Eval vm_compute in
    match runChecked flatSine noQuestionGame
                     (openingEvents ++ highFlight 1 112)
                     (initialComponent noQuestionGame) with
    | Some c => c
    | None => initialComponent noQuestionGame
    end.

Lemma beforeSlot_reachable : reachable flatSine noQuestionGame beforeSlot.
Proof.
  apply (runChecked_reachable flatSine noQuestionGame
           (openingEvents ++ highFlight 1 112)
           (initialComponent noQuestionGame));
    [apply reachable_init | vm_compute; reflexivity].
Qed.

Lemma X6_slot_without_question_throws_witness :
  reachable flatSine noQuestionGame beforeSlot
  /\ gameLoop flatSine noQuestionGame (26656 # 3) 0 beforeSlot = None.
Proof.
  split; [exact beforeSlot_reachable |].
  apply (proj2 X6_slot_without_question_throws flatSine noQuestionGame
           beforeSlot (26656 # 3) 0 (Pipe.set_x 84 createQuestionPipe)).
  - reflexivity.
  - vm_compute. reflexivity.
  - repeat split; reflexivity.
  - reflexivity.
  - reflexivity.
  - split; vm_compute; reflexivity.
  - vm_compute. reflexivity.
  - left. split; vm_compute; reflexivity.
  - reflexivity.
Defined.

(** ** The phases and their transitions *)

(** The transitions a frame makes. *)
Definition frameEdge (from to : GamePhase) : bool :=
  match from, to with
  | chapter_intro, ready_to_play
  | auto_fly, playing
  | playing, question_preview
  | playing, game_over
  | playing, chapter_complete
  | question_preview, playing
  | question_preview, game_over => true
  | _, _ => false
  end.

(** The transitions a tap or the space bar makes. *)
Definition inputEdge (from to : GamePhase) : bool :=
  match from, to with
  | ready_to_play, auto_fly
  | game_over, playing
  | chapter_complete, chapter_intro
  | chapter_complete, game_complete
  | game_complete, chapter_intro => true
  | _, _ => false
  end.

Definition GamePhase_eqb (a b : GamePhase) : bool :=
  match a, b with
  | loading, loading | chapter_intro, chapter_intro
  | ready_to_play, ready_to_play | auto_fly, auto_fly | playing, playing
  | question_preview, question_preview | game_over, game_over
  | chapter_complete, chapter_complete | game_complete, game_complete => true
  | _, _ => false
  end.

(** What an event may do to the phase. *)
Definition phaseStep (e : Event) (from to : GamePhase) : bool :=
  match e with
  | AssetsLoaded _ =>
      GamePhase_eqb from loading && GamePhase_eqb to chapter_intro
  | Frame _ _ => GamePhase_eqb from to || frameEdge from to
  | Input _ _ =>
      match from with
      | ready_to_play | game_over | chapter_complete | game_complete =>
          inputEdge from to
      | _ => GamePhase_eqb from to
      end
  end.

Lemma GamePhase_eqb_refl a : GamePhase_eqb a a = true.
Proof. destruct a; reflexivity. Qed.

Section Phases.

Variable Math_sin : Q -> Q.
Variable chapters : list Chapter.t.

Lemma frameStep_phase t d random s s' :
  frameStep chapters t d random s s' ->
  GamePhase_eqb (GameState.phase s) (GameState.phase s')
  || frameEdge (GameState.phase s) (GameState.phase s') = true.
Proof.
  intros Hstep.
  destruct Hstep as [Hsame | Hph Hsame | Hph Hsame | Hph Hsame
                    | chapter Hph Hge Hq Hch Hqi Hsame
                    | s0 pipes0 pipes' s1 fl Hph Hsame Hp0 Hcond Hloop ->
                    | s0 pipes' s1 fl Hph Hsame Hloop Hs'].
  - destruct Hsame as [-> _]. now rewrite GamePhase_eqb_refl.
  - destruct Hsame as [-> _]. gs_simpl. destruct Hph as [-> | ->]; reflexivity.
  - destruct Hsame as [-> _]. gs_simpl. rewrite Hph. reflexivity.
  - destruct Hsame as [-> _]. gs_simpl. rewrite Hph. reflexivity.
  - destruct Hsame as [-> _]. gs_simpl. rewrite Hph. reflexivity.
  - destruct Hsame as [P0 _]. gs_simpl.
    destruct (loop_phase (InPlaying t d _ _) _ _ _ _ _ Hloop)
      as [E | [E | [E _]]]; rewrite E, ?P0, Hph; reflexivity.
  - destruct Hsame as [P0 _].
    assert (H1 : GameState.phase s1 = question_preview
                 \/ GameState.phase s1 = game_over).
    { destruct (loop_phase (InPreview t d) _ _ _ _ _ Hloop)
        as [E | [E | [_ [[] _]]]]; rewrite E, ?P0; auto. }
    destruct Hs' as [-> | [-> _]]; gs_simpl; rewrite Hph;
      [destruct H1 as [-> | ->] |]; reflexivity.
Qed.

End Phases.

(** X7: the phases change only along the transitions of the game: the end
    of the loading leads from [loading] to [chapter_intro]; a frame keeps
    the phase or ends the intro, ends the auto-fly, starts or ends a
    question preview, or ends the play with a crash or a completed chapter;
    a tap starts the auto-fly, retries after a crash, goes on after a
    chapter or restarts after the game, and changes no phase otherwise. *)
Theorem X7_phase_transitions :
  forall (Math_sin : Q -> Q) (chapters : list Chapter.t) (c c' : Component.t)
         (e : Event),
    reachable Math_sin chapters c ->
    admissible e c ->
    handle Math_sin chapters e c = Some c' ->
    phaseStep e (GameState.phase (Component.gameStateRef c))
                (GameState.phase (Component.gameStateRef c')) = true.
Proof.
  intros Math_sin chapters c c' e Hr Hadm Hh.
  destruct e as [now | currentTime random | perfNow dateNow]; cbn in Hh.
  - inversion Hh; subst c'. cbn in Hadm.
    destruct (reachable_compInv _ _ _ Hr) as [_ Hload].
    cbn. rewrite (Hload Hadm). reflexivity.
  - unfold gameLoop in Hh.
    destruct (framePhase _ _ _ _ _ _) as [s' |] eqn:Hf; [| discriminate].
    inversion Hh; subst c'. apply framePhase_frameStep in Hf.
    cbn [phaseStep Component.gameStateRef]. eapply frameStep_phase; eauto.
  - inversion Hh; subst c'. unfold handleCanvasClick, phaseStep.
    destruct (GameState.phase (Component.gameStateRef c)) eqn:Hph;
      try (destruct (jump_sameGame dateNow c) as [[-> _] _];
           rewrite Hph; reflexivity);
      try reflexivity.
    destruct (_ <? _)%Z; reflexivity.
Qed.

Lemma X7_phase_transitions_witness :
  reachable flatSine singleQuestionGame (initialComponent singleQuestionGame)
  /\ phaseStep (AssetsLoaded 0) loading chapter_intro = true.
Proof.
  split; [apply reachable_init |].
  apply (X7_phase_transitions flatSine singleQuestionGame
           (initialComponent singleQuestionGame)
           (onAssetsLoaded 0 (initialComponent singleQuestionGame))
           (AssetsLoaded 0)).
  - apply reachable_init.
  - reflexivity.
  - reflexivity.
Defined.

(** ** The end of a question preview *)

Lemma previewPipe_progress t d p s p' s' fl :
  previewPipe t d p s = Some (p', s', fl) ->
  GameState.questionPreviewProgress s' = GameState.questionPreviewProgress s.
Proof.
  unfold previewPipe. intro H.
  destruct_branches; inversion H; subst; reflexivity.
Qed.

Lemma animateBird_progress n s :
  GameState.questionPreviewProgress (animateBird n s)
  = GameState.questionPreviewProgress s.
Proof. unfold animateBird. gs_simpl. destruct (_ =? _)%Z; reflexivity. Qed.

Lemma progress_full elapsed limit :
  0 < limit -> limit <= elapsed ->
  (Num.Math_min 1 (elapsed / limit) >=? 1) = true.
Proof.
  intros H0 H. apply NumFacts.geb_le. apply NumFacts.Math_min_glb; [lra |].
  num_plain. apply Qle_shift_div_l; lra.
Qed.

(** X8: the end of the preview has the last word in its frame.  In
    [question_preview], a frame at least [QUESTION_PREVIEW_TIME] after the
    preview began in which the bird stays inside the play area ends in
    [playing] with [createQuestionPipe] appended to the pipes, whatever the
    pipe loop of that frame did: a collision with a pipe, which sets
    [game_over], is overwritten. *)
Theorem X8_preview_end_overrides_collision :
  forall (Math_sin : Q -> Q) (chapters : list Chapter.t) (c : Component.t)
         (currentTime random : Q),
    GameState.phase (Component.gameStateRef c) = question_preview ->
    QUESTION_PREVIEW_TIME
    <= currentTime - GameState.phaseStartTime (Component.gameStateRef c) ->
    outOfBounds (frameBird currentTime c) = false ->
    exists c' pipes',
      gameLoop Math_sin chapters currentTime random c = Some c'
      /\ GameState.phase (Component.gameStateRef c') = playing
      /\ GameState.pipes (Component.gameStateRef c')
         = pipes' ++ [createQuestionPipe]
      /\ GameState.phaseStartTime (Component.gameStateRef c') = currentTime.
Proof.
  intros Math_sin chapters c currentTime random Hph Hel Hin.
  unfold frameBird in Hin. unfold gameLoop, framePhase. rewrite Hph.
  unfold frameQuestionPreview. cbv zeta.
  match goal with
  | |- context [outOfBounds (GameState.bird ?x)] =>
      change (outOfBounds (GameState.bird x))
        with (outOfBounds
                (updateBirdPhysics
                   (frameDelta currentTime (Component.lastFrameTimeRef c))
                   (GameState.bird (Component.gameStateRef c))))
  end.
  rewrite Hin.
  match goal with
  | |- context [forPipes ?b ?l ?x] =>
      destruct (forPipes_total b (fun _ => True)
                  (fun p s _ => previewPipe_total _ _ p s) l x I)
        as (l' & s' & fl & Hl);
      assert (Hp : GameState.questionPreviewProgress s'
                   = GameState.questionPreviewProgress x)
  end.
  { eapply (forPipes_state _
              (fun y => GameState.questionPreviewProgress y = _));
      [| exact Hl | reflexivity].
    intros p y p' y' f Hb E. apply previewPipe_progress in Hb. congruence. }
  rewrite Hl. gs_simpl. rewrite Hp, animateBird_progress. gs_simpl.
  rewrite progress_full; [| reflexivity |].
  - eexists; eexists. split; [reflexivity |].
    cbn [Component.gameStateRef]. gs_simpl. repeat split.
  - revert Hel. num_plain. auto.
Qed.

(** After the crash of [crashedComponent] the player retries, and the next
    frame starts the preview of the question again. *)
Definition previewComponent : Component.t :=
  Eval vm_compute in
    match runChecked flatSine singleQuestionGame
                     [Input 8870 20000; Frame 8880 0] crashedComponent with
    | Some c => c
    | None => crashedComponent
    end.

Lemma previewComponent_reachable :
  reachable flatSine singleQuestionGame previewComponent.
Proof.
  apply (runChecked_reachable flatSine singleQuestionGame
           [Input 8870 20000; Frame 8880 0] crashedComponent);
    [exact crashedComponent_reachable | vm_compute; reflexivity].
Qed.

Lemma X8_preview_end_overrides_collision_witness :
  reachable flatSine singleQuestionGame previewComponent
  /\ exists c' pipes',
      gameLoop flatSine singleQuestionGame 11880 0 previewComponent = Some c'
      /\ GameState.phase (Component.gameStateRef c') = playing
      /\ GameState.pipes (Component.gameStateRef c')
         = pipes' ++ [createQuestionPipe]
      /\ GameState.phaseStartTime (Component.gameStateRef c') = 11880.
Proof.
  split; [exact previewComponent_reachable |].
  apply (X8_preview_end_overrides_collision flatSine singleQuestionGame
           previewComponent 11880 0).
  - reflexivity.
  - vm_compute. discriminate.
  - vm_compute. reflexivity.
Defined.

(** ** The bird stays inside the play area while it flies *)

Definition inPlayArea (bird : Bird.t) : Prop :=
  PLAY_AREA_TOP <= Bird.y bird
  /\ Bird.y bird + BIRD_HEIGHT <= PLAY_AREA_BOTTOM.

Lemma outOfBounds_false bird : outOfBounds bird = false -> inPlayArea bird.
Proof. unfold outOfBounds, inPlayArea. intro H. split; num_lra. Qed.

Section PlayArea.

Variable Math_sin : Q -> Q.
Variable chapters : list Chapter.t.
Hypothesis sine_bounded : forall x, -(1) <= Math_sin x /\ Math_sin x <= 1.

Lemma framePhase_flying t d r s s' :
  inFlight (GameState.phase s) ->
  framePhase Math_sin chapters t d r s = Some s' ->
  inFlight (GameState.phase s') ->
  outOfBounds (updateBirdPhysics d (GameState.bird s)) = false.
Proof.
  intros Hfl Hf Hfl'.
  destruct (outOfBounds (updateBirdPhysics d (GameState.bird s))) eqn:Ho;
    [exfalso | reflexivity].
  unfold framePhase in Hf.
  destruct Hfl as [Hph | Hph]; rewrite Hph in Hf.
  - unfold framePlaying in Hf. cbv zeta in Hf.
    match type of Hf with
    | context [outOfBounds (GameState.bird ?x)] =>
        change (outOfBounds (GameState.bird x))
          with (outOfBounds (updateBirdPhysics d (GameState.bird s))) in Hf
    end.
    rewrite Ho in Hf. inversion Hf; subst s'.
    destruct Hfl' as [E | E]; discriminate E.
  - unfold frameQuestionPreview in Hf. cbv zeta in Hf.
    match type of Hf with
    | context [outOfBounds (GameState.bird ?x)] =>
        change (outOfBounds (GameState.bird x))
          with (outOfBounds (updateBirdPhysics d (GameState.bird s))) in Hf
    end.
    rewrite Ho in Hf. inversion Hf; subst s'.
    destruct Hfl' as [E | E]; discriminate E.
Qed.

Lemma framePhase_inPlayArea t d r s s' :
  framePhase Math_sin chapters t d r s = Some s' ->
  inFlight (GameState.phase s') -> inPlayArea (GameState.bird s').
Proof.
  intros Hf Hfl'.
  destruct (GameState.phase s) eqn:Hph;
    try (exfalso; apply framePhase_frameStep in Hf;
         apply frameStep_phase in Hf; rewrite Hph in Hf;
         destruct Hfl' as [E | E]; rewrite E in Hf; discriminate Hf).
  - (* auto_fly *)
    unfold framePhase in Hf. rewrite Hph in Hf.
    destruct (_ >=? _) in Hf; inversion Hf; subst s'; clear Hf.
    + unfold inPlayArea. gs_simpl. cbn [Bird.y Bird.set_velocity].
      rewrite animateBird_bird_y. gs_simpl. cbn [Bird.y Bird.set_y].
      match goal with
      | |- context [Math_sin ?x] => destruct (sine_bounded x) as [L U]
      end.
      change centerY with 211. unfold_consts. num_plain. split; lra.
    + exfalso. destruct Hfl' as [E | E];
        match type of E with
        | GameState.phase (animateBird ?n ?x) = _ =>
            destruct (animateBird_sameGame n x) as [P _]; rewrite P in E
        end; gs_simpl; rewrite Hph in E; discriminate E.
  - (* playing *)
    assert (Hfl : inFlight (GameState.phase s)) by (left; exact Hph).
    pose proof (framePhase_flying _ _ _ _ _ Hfl Hf Hfl') as Ho.
    destruct (framePhase_physics _ _ _ _ _ _ _ Hfl Hf) as [Hy _].
    apply outOfBounds_false in Ho. unfold inPlayArea in *. now rewrite Hy.
  - (* question_preview *)
    assert (Hfl : inFlight (GameState.phase s)) by (right; exact Hph).
    pose proof (framePhase_flying _ _ _ _ _ Hfl Hf Hfl') as Ho.
    destruct (framePhase_physics _ _ _ _ _ _ _ Hfl Hf) as [Hy _].
    apply outOfBounds_false in Ho. unfold inPlayArea in *. now rewrite Hy.
Qed.

Lemma handleCanvasClick_inPlayArea perfNow dateNow c :
  (inFlight (GameState.phase (Component.gameStateRef c)) ->
   inPlayArea (GameState.bird (Component.gameStateRef c))) ->
  inFlight (GameState.phase
              (Component.gameStateRef
                 (handleCanvasClick chapters perfNow dateNow c))) ->
  inPlayArea (GameState.bird
                (Component.gameStateRef
                   (handleCanvasClick chapters perfNow dateNow c))).
Proof.
  intros IH. unfold handleCanvasClick.
  destruct (GameState.phase (Component.gameStateRef c)) eqn:Hph;
    cbn [Component.gameStateRef]; gs_simpl;
    try (intros [E | E]; discriminate E);
    try (unfold jump; destruct (_ <? _)%Z;
         cbn [Component.gameStateRef]; rewrite Hph; gs_simpl;
         rewrite ?Hph; intro Hfl; try exact (IH Hfl);
         destruct Hfl as [E | E]; discriminate E).
  - (* game_over: the retry *)
    intros _. unfold inPlayArea. cbn [Bird.y Bird.set_velocity Bird.set_y].
    change centerY with 211. unfold_consts. split; lra.
  - destruct (_ <? _)%Z; cbn [Component.gameStateRef]; gs_simpl;
      intros [E | E]; discriminate E.
Qed.

Lemma reachable_inPlayArea c :
  reachable Math_sin chapters c ->
  inFlight (GameState.phase (Component.gameStateRef c)) ->
  inPlayArea (GameState.bird (Component.gameStateRef c)).
Proof.
  induction 1 as [| e c c' _ IH Hadm Hh].
  - intros [E | E]; discriminate E.
  - destruct e as [now | currentTime random | perfNow dateNow]; cbn in Hh.
    + inversion Hh; subst c'. intros [E | E]; discriminate E.
    + unfold gameLoop in Hh.
      destruct (framePhase _ _ _ _ _ _) as [s' |] eqn:Hf; [| discriminate].
      inversion Hh; subst c'. cbn [Component.gameStateRef].
      eapply framePhase_inPlayArea; eauto.
    + inversion Hh; subst c'. now apply handleCanvasClick_inPlayArea.
Qed.

End PlayArea.

(** X9: with a host sine between -1 and 1, the bird is inside the play area
    in every reachable state whose phase is [playing] or
    [question_preview]: [0 <= bird.y] and [bird.y + BIRD_HEIGHT <= 512]; a
    frame that would take it outside ends the flight. *)
Theorem X9_bird_inside_play_area :
  forall (Math_sin : Q -> Q) (chapters : list Chapter.t) (c : Component.t),
    (forall x, -(1) <= Math_sin x /\ Math_sin x <= 1) ->
    reachable Math_sin chapters c ->
    GameState.phase (Component.gameStateRef c) = playing
    \/ GameState.phase (Component.gameStateRef c) = question_preview ->
    PLAY_AREA_TOP <= Bird.y (GameState.bird (Component.gameStateRef c))
    /\ Bird.y (GameState.bird (Component.gameStateRef c)) + BIRD_HEIGHT
       <= PLAY_AREA_BOTTOM.
Proof.
  intros Math_sin chapters c Hsin Hr Hph.
  exact (reachable_inPlayArea Math_sin chapters Hsin c Hr Hph).
Qed.

Lemma flatSine_bounded : forall x, -(1) <= flatSine x /\ flatSine x <= 1.
Proof. intro x. unfold flatSine. split; lra. Qed.

Lemma X9_bird_inside_play_area_witness :
  reachable flatSine singleQuestionGame flyingComponent
  /\ PLAY_AREA_TOP
     <= Bird.y (GameState.bird (Component.gameStateRef flyingComponent))
  /\ Bird.y (GameState.bird (Component.gameStateRef flyingComponent))
     + BIRD_HEIGHT <= PLAY_AREA_BOTTOM.
Proof.
  split; [exact flyingComponent_reachable |].
  apply (X9_bird_inside_play_area flatSine singleQuestionGame flyingComponent).
  - exact flatSine_bounded.
  - exact flyingComponent_reachable.
  - left. reflexivity.
Defined.

(** ** The elapsed-time factor *)

Lemma frameDelta_first currentTime lastFrameTime :
  lastFrameTime == 0 -> frameDelta currentTime lastFrameTime == 0.
Proof.
  intro H. unfold frameDelta.
  rewrite (proj2 (NumFacts.eqb_eq lastFrameTime 0) H).
  assert (E : (currentTime - currentTime) / (1000 / 60) == 0) by field.
  unfold Num.Math_min.
  destruct (_ <? _) eqn:Hm.
  - apply NumFacts.ltb_lt in Hm. unfold_consts. num_plain.
    rewrite E in Hm. lra.
  - unfold_consts. num_plain. exact E.
Qed.

(** X10: the frame's elapsed-time factor is capped.  For a time stamp that
    does not go back it lies between 0 and [MAX_DELTA_TIME], and it is 0 in
    the first frame (when [lastFrameTimeRef] is still 0); so whatever the
    pause before the frame, a pipe moves left by at most 3 px in it, and a
    pipe that was right of the bird is not behind the bird after it: no
    pipe skips the bird's column. *)
Theorem X10_frame_delta_capped :
  forall (currentTime lastFrameTime : Q) (pipe : Pipe.t),
    lastFrameTime <= currentTime ->
    0 <= frameDelta currentTime lastFrameTime
    /\ frameDelta currentTime lastFrameTime <= MAX_DELTA_TIME
    /\ (lastFrameTime == 0 -> frameDelta currentTime lastFrameTime == 0)
    /\ Pipe.x pipe - 3
       <= Pipe.x (movePipe (frameDelta currentTime lastFrameTime) pipe)
    /\ Pipe.x (movePipe (frameDelta currentTime lastFrameTime) pipe)
       <= Pipe.x pipe
    /\ (50 + BIRD_WIDTH < Pipe.x pipe ->
        ~ behindBird (movePipe (frameDelta currentTime lastFrameTime) pipe)).
Proof.
  intros currentTime lastFrameTime pipe Hle.
  pose proof (frameDelta_nonneg currentTime lastFrameTime Hle) as H0.
  pose proof (frameDelta_max currentTime lastFrameTime) as H1.
  pose proof (movePipe_x (frameDelta currentTime lastFrameTime) pipe) as Hx.
  unfold MAX_DELTA_TIME in H1. unfold PIPE_SPEED in Hx.
  split; [exact H0 |]. split; [exact H1 |].
  split; [apply frameDelta_first |].
  split; [rewrite Hx; lra |]. split; [rewrite Hx; lra |].
  intros Hr. unfold behindBird. rewrite Hx. unfold_consts. lra.
Qed.

Lemma X10_frame_delta_capped_witness :
  (0 : Q) <= 100000
  /\ frameDelta 100000 0 == 0
  /\ frameDelta 100000 50 <= MAX_DELTA_TIME.
Proof.
  split; [lra |].
  destruct (X10_frame_delta_capped 100000 0 createQuestionPipe) as (_ & _ & H & _);
    [lra |].
  split; [apply H; reflexivity |].
  apply (X10_frame_delta_capped 100000 50 createQuestionPipe). lra.
Defined.

(** ** The frame after a retry *)

(** The pipe is still right of the bird after its move: the loop body moves
    it and does nothing else. *)
Lemma playingPipe_far t d ch cq p s :
  50 + BIRD_WIDTH < Pipe.x (movePipe d p) ->
  playingPipe t d ch cq p s = Some (movePipe d p, s, Continue).
Proof.
  intro Hfar. unfold playingPipe. revert Hfar. generalize (movePipe d p).
  intros p1 Hfar.
  assert (Hc : checkCollision (GameState.bird s) p1 = false).
  { unfold checkCollision.
    rewrite (ltb_of_lt (50 + BIRD_WIDTH) (Pipe.x p1)) by num_lra.
    reflexivity. }
  rewrite Hc.
  rewrite passThrough_not_behind by (unfold behindBird; num_lra).
  unfold answerSelection.
  destruct (PipeType_eqb _ _ && _); [| reflexivity].
  unfold Num.gtb at 1.
  rewrite (ltb_of_ge (Pipe.x p1) (50 + BIRD_WIDTH)) by num_lra.
  reflexivity.
Qed.

Lemma forPipes_far t d ch cq l : forall s,
  Forall (fun p => 50 + BIRD_WIDTH < Pipe.x (movePipe d p)) l ->
  forPipes (playingPipe t d ch cq) l s = Some (map (movePipe d) l, s, Continue).
Proof.
  induction l as [| p l IH]; intros s H; [reflexivity |].
  inversion H; subst. cbn [forPipes map].
  rewrite playingPipe_far by assumption. rewrite IH by assumption.
  reflexivity.
Qed.

(** The state [handleCanvasClick] leaves in [game_over] (lines 1279-1286). *)
Definition retried (perfNow : Q) (s : GameState.t) : GameState.t :=
  GameState.set_pipes
    (filter (fun p => Pipe.x p >? 100) (GameState.pipes s))
    (GameState.set_bird
       (Bird.set_velocity 0 (Bird.set_y centerY (GameState.bird s)))
       (GameState.set_phaseStartTime perfNow
          (GameState.set_phase playing s))).

Lemma handleCanvasClick_retried chapters perfNow dateNow c :
  GameState.phase (Component.gameStateRef c) = game_over ->
  handleCanvasClick chapters perfNow dateNow c
  = Component.mk (Component.assetsLoaded c)
                 (retried perfNow (Component.gameStateRef c))
                 (Component.lastFrameTimeRef c) (Component.lastJumpTimeRef c).
Proof. intro H. unfold handleCanvasClick. rewrite H. reflexivity. Qed.

Lemma retried_far d perfNow s :
  0 <= d -> d <= MAX_DELTA_TIME ->
  Forall (fun p => 50 + BIRD_WIDTH < Pipe.x (movePipe d p))
         (GameState.pipes (retried perfNow s)).
Proof.
  intros H0 H1. unfold retried. gs_simpl. apply Forall_forall. intros p Hp.
  apply filter_In in Hp. destruct Hp as [_ Hp].
  pose proof (movePipe_x d p) as Hx. rewrite Hx.
  unfold MAX_DELTA_TIME in H1. num_lra.
Qed.

Lemma retried_bird d perfNow s :
  0 <= d -> d <= MAX_DELTA_TIME ->
  outOfBounds (updateBirdPhysics d (GameState.bird (retried perfNow s)))
  = false.
Proof.
  intros H0 H1. unfold retried, outOfBounds, updateBirdPhysics. gs_simpl.
  cbn [Bird.y Bird.velocity Bird.set_y Bird.set_velocity].
  change centerY with 211. unfold MAX_DELTA_TIME in H1.
  apply orb_false_intro.
  - apply ltb_of_ge. unfold_consts. num_plain. nra.
  - unfold Num.gtb. apply ltb_of_ge. unfold_consts. num_plain. nra.
Qed.

Section AfterRetry.

Variable Math_sin : Q -> Q.
Variable chapters : list Chapter.t.

Lemma framePhase_retried t d r perfNow s :
  framePhase Math_sin chapters t d r (retried perfNow s)
  = framePlaying t d (t - perfNow) r
      (nth_error chapters (GameState.chapterIndex s))
      (currentQuestionOf chapters s) (retried perfNow s).
Proof. reflexivity. Qed.

(** What the frame after a retry leaves of the state before the retry. *)
Definition flownOn (s s' : GameState.t) : Prop :=
  (GameState.phase s' = playing \/ GameState.phase s' = question_preview)
  /\ GameState.score s' = GameState.score s
  /\ GameState.displayScore s' = GameState.displayScore s
  /\ GameState.questionIndex s' = GameState.questionIndex s
  /\ GameState.chapterIndex s' = GameState.chapterIndex s.

(** The [playing] frame on the state a retry leaves: a new preview, or the
    pipes moved and perhaps a new one. *)
Lemma framePlaying_retried t d elapsed r chapter cq perfNow s :
  0 <= d -> d <= MAX_DELTA_TIME -> 0 <= r -> r < 1 ->
  exists s',
    framePlaying t d elapsed r (Some chapter) cq (retried perfNow s) = Some s'
    /\ flownOn s s'.
Proof.
  intros H0 H1 Hr0 Hr1. unfold framePlaying. cbv zeta.
  set (s2 := GameState.set_bird _ _).
  change (GameState.bird s2)
    with (updateBirdPhysics d (GameState.bird (retried perfNow s))).
  rewrite retried_bird by assumption.
  destruct (animateBird_sameGame 6 s2) as (A & B & C & D & E & F & G).
  change (GameState.phase s2) with playing in A.
  change (GameState.pipes s2) with (GameState.pipes (retried perfNow s)) in B.
  change (GameState.chapterIndex s2) with (GameState.chapterIndex s) in C.
  change (GameState.questionIndex s2) with (GameState.questionIndex s) in D.
  change (GameState.score s2) with (GameState.score s) in E.
  change (GameState.displayScore s2) with (GameState.displayScore s) in F.
  clear G. set (s3 := animateBird 6 s2) in *. clearbody s3. clear s2.
  assert (Hloop : forall pipes0,
             pipes0 = GameState.pipes s3
             \/ pipes0 = GameState.pipes s3 ++ [createNormalPipe r] ->
             exists s',
               match forPipes (playingPipe t d (Some chapter) cq) pipes0 s3 with
               | None => None
               | Some (pipes, state, _) =>
                   Some (GameState.set_pipes (removeOffscreen pipes) state)
               end = Some s'
               /\ flownOn s s').
  { intros pipes0 Hp0.
    rewrite forPipes_far.
    - eexists. split; [reflexivity |]. unfold flownOn. gs_simpl. auto 10.
    - destruct Hp0 as [-> | ->]; rewrite B.
      + now apply retried_far.
      + apply Forall_app. split; [now apply retried_far |].
        constructor; [| constructor].
        pose proof (movePipe_x d (createNormalPipe r)) as Hx. rewrite Hx.
        unfold MAX_DELTA_TIME in H1. cbn [Pipe.x createNormalPipe].
        num_lra. }
  destruct (_ && _) eqn:Hcond at 1.
  - destruct (_ <? _)%nat.
    + eexists. split; [reflexivity |]. unfold flownOn. gs_simpl. auto 10.
    + apply Hloop.
      match goal with
      | |- (if ?b then _ else _) = _ \/ _ => destruct b
      end; [right | left]; reflexivity.
  - apply Hloop.
    match goal with
    | |- (if ?b then _ else _) = _ \/ _ => destruct b
    end; [right | left]; reflexivity.
Qed.

Lemma gameLoop_unfold currentTime random c :
  gameLoop Math_sin chapters currentTime random c
  = match framePhase Math_sin chapters currentTime
            (frameDelta currentTime (Component.lastFrameTimeRef c)) random
            (Component.gameStateRef c) with
    | None => None
    | Some state =>
        Some (Component.mk (Component.assetsLoaded c) state currentTime
                           (Component.lastJumpTimeRef c))
    end.
Proof. reflexivity. Qed.

(** The frame on the component a retry leaves. *)
Lemma gameLoop_retried loaded s lastFrameTime lastJumpTime perfNow
      currentTime random chapter :
  lastFrameTime <= currentTime -> 0 <= random -> random < 1 ->
  nth_error chapters (GameState.chapterIndex s) = Some chapter ->
  exists c',
    gameLoop Math_sin chapters currentTime random
             (Component.mk loaded (retried perfNow s) lastFrameTime
                           lastJumpTime)
    = Some c'
    /\ flownOn s (Component.gameStateRef c').
Proof.
  intros Ht Hr0 Hr1 Hch. rewrite gameLoop_unfold.
  cbn [Component.gameStateRef Component.lastFrameTimeRef
       Component.assetsLoaded Component.lastJumpTimeRef].
  rewrite framePhase_retried, Hch.
  destruct (framePlaying_retried currentTime
              (frameDelta currentTime lastFrameTime)
              (currentTime - perfNow) random chapter
              (currentQuestionOf chapters s) perfNow s
              (frameDelta_nonneg _ _ Ht) (frameDelta_max _ _) Hr0 Hr1)
    as (s' & Hf & Hon).
  rewrite Hf. eexists. split; [reflexivity | exact Hon].
Qed.

End AfterRetry.

(** X11: the frame after a retry cannot end the game.  When the player
    retries in [game_over] (and there is a current chapter), the next frame,
    with a time stamp that does not go back and a random number in
    [[0, 1)], returns and ends in [playing] or starts a question preview,
    and it leaves the score, the score shown and the indices as they were:
    the retry removed every pipe within 100 px of the left edge, so no pipe
    is at the bird, and the bird is back at the centre. *)
Theorem X11_no_crash_after_retry :
  forall (Math_sin : Q -> Q) (chapters : list Chapter.t) (c : Component.t)
         (perfNow : Q) (dateNow : Z) (currentTime random : Q)
         (chapter : Chapter.t),
    GameState.phase (Component.gameStateRef c) = game_over ->
    nth_error chapters (GameState.chapterIndex (Component.gameStateRef c))
    = Some chapter ->
    admissible (Frame currentTime random)
               (handleCanvasClick chapters perfNow dateNow c) ->
    exists c',
      gameLoop Math_sin chapters currentTime random
               (handleCanvasClick chapters perfNow dateNow c) = Some c'
      /\ (GameState.phase (Component.gameStateRef c') = playing
          \/ GameState.phase (Component.gameStateRef c') = question_preview)
      /\ GameState.score (Component.gameStateRef c')
         = GameState.score (Component.gameStateRef c)
      /\ GameState.displayScore (Component.gameStateRef c')
         = GameState.displayScore (Component.gameStateRef c)
      /\ GameState.questionIndex (Component.gameStateRef c')
         = GameState.questionIndex (Component.gameStateRef c)
      /\ GameState.chapterIndex (Component.gameStateRef c')
         = GameState.chapterIndex (Component.gameStateRef c).
Proof.
  intros Math_sin chapters c perfNow dateNow currentTime random chapter
         Hph Hch Hadm.
  rewrite (handleCanvasClick_retried chapters perfNow dateNow c Hph) in *.
  destruct Hadm as (_ & Ht & Hr0 & Hr1).
  exact (gameLoop_retried Math_sin chapters _ _ _ _ perfNow currentTime
           random chapter Ht Hr0 Hr1 Hch).
Qed.

Lemma X11_no_crash_after_retry_witness :
  reachable flatSine singleQuestionGame crashedComponent
  /\ exists c',
      gameLoop flatSine singleQuestionGame 8880 0
               (handleCanvasClick singleQuestionGame 8870 20000
                                  crashedComponent)
      = Some c'
      /\ (GameState.phase (Component.gameStateRef c') = playing
          \/ GameState.phase (Component.gameStateRef c') = question_preview).
Proof.
  split; [exact crashedComponent_reachable |].
  destruct (X11_no_crash_after_retry flatSine singleQuestionGame
              crashedComponent 8870 20000 8880 0 housingChapter)
    as (c' & Hrun & Hph & _).
  - reflexivity.
  - reflexivity.
  - vm_compute. repeat split; discriminate.
  - exists c'. split; assumption.
Defined.

(** ** A question asked twice *)

Lemma retried_no_pipes perfNow s :
  Forall (fun p => Pipe.x p <= 100) (GameState.pipes s) ->
  GameState.pipes (retried perfNow s) = [].
Proof.
  unfold retried. gs_simpl. induction 1 as [| p l Hp _ IH]; [reflexivity |].
  cbn [filter]. unfold Num.gtb. rewrite (ltb_of_ge 100 (Pipe.x p)) by exact Hp.
  exact IH.
Qed.

(** X12: a retry can ask a question again.  When the game is over with no
    pipe more than 100 px from the left edge (the bird crashed at or just
    after the question pipe) and the pipe counter is at least
    [NORMAL_PIPES_BETWEEN_QUESTIONS], the retry clears the pipes and the
    next frame starts the preview of the question at [questionIndex],
    whether or not the removed pipe had been answered; the score is kept. *)
Theorem X12_retry_asks_question_again :
  forall (Math_sin : Q -> Q) (chapters : list Chapter.t) (c : Component.t)
         (perfNow : Q) (dateNow : Z) (currentTime random : Q)
         (chapter : Chapter.t),
    GameState.phase (Component.gameStateRef c) = game_over ->
    Forall (fun p => Pipe.x p <= 100)
           (GameState.pipes (Component.gameStateRef c)) ->
    (NORMAL_PIPES_BETWEEN_QUESTIONS
     <= GameState.pipesSinceLastQuestion (Component.gameStateRef c))%Z ->
    nth_error chapters (GameState.chapterIndex (Component.gameStateRef c))
    = Some chapter ->
    (GameState.questionIndex (Component.gameStateRef c)
     < length (Chapter.questions chapter))%nat ->
    Component.lastFrameTimeRef c <= currentTime ->
    exists c',
      gameLoop Math_sin chapters currentTime random
               (handleCanvasClick chapters perfNow dateNow c) = Some c'
      /\ GameState.phase (Component.gameStateRef c') = question_preview
      /\ GameState.pipes (Component.gameStateRef c') = []
      /\ GameState.currentQuestionActive (Component.gameStateRef c') = true
      /\ GameState.questionIndex (Component.gameStateRef c')
         = GameState.questionIndex (Component.gameStateRef c)
      /\ GameState.score (Component.gameStateRef c')
         = GameState.score (Component.gameStateRef c).
Proof.
  intros Math_sin chapters c perfNow dateNow currentTime random chapter
         Hph Hleft Hcount Hch Hqi Ht.
  rewrite (handleCanvasClick_retried chapters perfNow dateNow c Hph).
  unfold gameLoop. cbn [Component.gameStateRef Component.lastFrameTimeRef].
  set (s := Component.gameStateRef c) in *.
  set (d := frameDelta currentTime (Component.lastFrameTimeRef c)).
  rewrite framePhase_retried. fold s. rewrite Hch.
  unfold framePlaying. cbv zeta.
  set (s2 := GameState.set_bird _ _).
  change (GameState.bird s2)
    with (updateBirdPhysics d (GameState.bird (retried perfNow s))).
  rewrite (retried_bird d perfNow s (frameDelta_nonneg _ _ Ht)
             (frameDelta_max _ _)).
  destruct (animateBird_sameGame 6 s2) as (A & B & C & D & E & F & G).
  change (GameState.pipes s2) with (GameState.pipes (retried perfNow s)) in B.
  rewrite (retried_no_pipes perfNow s Hleft) in B.
  change (GameState.questionIndex s2) with (GameState.questionIndex s) in D.
  change (GameState.score s2) with (GameState.score s) in E.
  change (GameState.pipesSinceLastQuestion s2)
    with (GameState.pipesSinceLastQuestion s) in G.
  clear A C F. set (s3 := animateBird 6 s2) in *. clearbody s3. clear s2.
  rewrite B, G, D. cbn [existsb negb andb].
  rewrite (proj2 (Z.geb_le _ _) Hcount). cbn [andb].
  rewrite (proj2 (Nat.ltb_lt _ _) Hqi).
  eexists. split; [reflexivity |].
  cbn [Component.gameStateRef]. gs_simpl. rewrite B, D, E. auto.
Qed.

(** The bird answers the question of [singleQuestionGame] and then falls
    onto the middle pipe. *)
Definition answeredCrash : Component.t :=
  Eval vm_compute in
    match runChecked flatSine singleQuestionGame
                     (flightEvents 7002 7002 [20; 55; 83; 105]%Z 1 138)
                     afterOpening with
    | Some c => c
    | None => afterOpening
    end.

Lemma answeredCrash_reachable :
  reachable flatSine singleQuestionGame answeredCrash.
Proof.
  apply (runChecked_reachable flatSine singleQuestionGame
           (flightEvents 7002 7002 [20; 55; 83; 105]%Z 1 138) afterOpening);
    [exact afterOpening_reachable | vm_compute; reflexivity].
Qed.

Lemma X12_retry_asks_question_again_witness :
  reachable flatSine singleQuestionGame answeredCrash
  /\ map Pipe.questionAnswered
         (GameState.pipes (Component.gameStateRef answeredCrash))
     = [Some true]
  /\ exists c',
      gameLoop flatSine singleQuestionGame 9410 0
               (handleCanvasClick singleQuestionGame 9400 20000 answeredCrash)
      = Some c'
      /\ GameState.phase (Component.gameStateRef c') = question_preview.
Proof.
  split; [exact answeredCrash_reachable |]. split; [reflexivity |].
  destruct (X12_retry_asks_question_again flatSine singleQuestionGame
              answeredCrash 9400 20000 9410 0 housingChapter)
    as (c' & Hrun & Hph & _).
  - reflexivity.
  - repeat constructor. vm_compute. discriminate.
  - vm_compute. discriminate.
  - reflexivity.
  - vm_compute. lia.
  - vm_compute. discriminate.
  - exists c'. split; assumption.
Defined.

(** The question is asked again and answered again. *)
Definition answeredTwice : Component.t :=
  Eval vm_compute in
    match runChecked flatSine singleQuestionGame
                     ([Input 9400 20000; Frame 9410 0; Frame 12410 0]
                      ++ flightEvents 12410 20000 [20; 55; 83; 105]%Z 1 113)
                     answeredCrash with
    | Some c => c
    | None => answeredCrash
    end.

Lemma answeredTwice_reachable :
  reachable flatSine singleQuestionGame answeredTwice.
Proof.
  apply (runChecked_reachable flatSine singleQuestionGame
           ([Input 9400 20000; Frame 9410 0; Frame 12410 0]
            ++ flightEvents 12410 20000 [20; 55; 83; 105]%Z 1 113)
           answeredCrash);
    [exact answeredCrash_reachable | vm_compute; reflexivity].
Qed.

(** X13: the number of correct answers is not bounded by the number of
    questions.  In a game of one chapter with one question, run with a sine
    between -1 and 1, a reachable state has [totalCorrect = 2] with
    [totalQuestions = 1]: the player answers, crashes at the pipe and
    retries, and the question is asked, answered and counted again. *)
Theorem X13_correct_answers_may_exceed_questions :
  exists (Math_sin : Q -> Q) (chapters : list Chapter.t) (c : Component.t),
    (forall x, -(1) <= Math_sin x /\ Math_sin x <= 1)
    /\ playable chapters
    /\ reachable Math_sin chapters c
    /\ GameScore.totalQuestions (GameState.score (Component.gameStateRef c))
       = 1%Z
    /\ GameScore.totalCorrect (GameState.score (Component.gameStateRef c))
       = 2%Z
    /\ GameScore.chapterScores (GameState.score (Component.gameStateRef c))
       = [ChapterScore.mk 2 1].
Proof.
  exists flatSine, singleQuestionGame, answeredTwice.
  split; [exact flatSine_bounded |].
  split; [apply playableb_sound; reflexivity |].
  split; [exact answeredTwice_reachable |].
  repeat split.
Qed.

(** ** The totals of the score *)

(** The number of questions of the game. *)
Definition questionTotal (chapters : list Chapter.t) : Z :=
  fold_right Z.add 0%Z (questionCounts chapters).

(** What [createInitialScore] set up and the game keeps: the total number of
    questions, and counters of correct answers that are not negative. *)
Definition totalsKept (chapters : list Chapter.t) (sc : GameScore.t) : Prop :=
  GameScore.totalQuestions sc = questionTotal chapters
  /\ Forall (fun cs => (0 <= ChapterScore.correct cs)%Z)
            (GameScore.chapterScores sc).

Lemma fold_left_counts chapters : forall acc,
  fold_left (fun sum c => (sum + Z.of_nat (length (Chapter.questions c)))%Z)
            chapters acc
  = (acc + questionTotal chapters)%Z.
Proof.
  unfold questionTotal, questionCounts.
  induction chapters as [| c l IH]; intro acc; cbn [fold_left map fold_right].
  - lia.
  - rewrite IH. lia.
Qed.

Lemma createInitialScore_totals chapters :
  totalsKept chapters (createInitialScore chapters).
Proof.
  unfold totalsKept, createInitialScore.
  cbn [GameScore.totalQuestions GameScore.chapterScores]. split.
  - now rewrite fold_left_counts.
  - apply Forall_forall. intros cs Hin. apply in_map_iff in Hin.
    destruct Hin as (c & <- & _). cbn. lia.
Qed.

Lemma bumpCorrect_nonneg i : forall l l',
  bumpCorrect i l = Some l' ->
  Forall (fun cs => (0 <= ChapterScore.correct cs)%Z) l ->
  Forall (fun cs => (0 <= ChapterScore.correct cs)%Z) l'.
Proof.
  induction i as [| i IH]; intros [| cs l] l' H Hall; try discriminate;
    inversion Hall; subst.
  - cbn in H. inversion H; subst. constructor; [cbn; lia | assumption].
  - cbn in H. destruct (bumpCorrect i l) as [r |] eqn:E; [| discriminate].
    inversion H; subst. constructor; [assumption |]. eapply IH; eauto.
Qed.

Lemma loopBody_totals chapters b p s p' s' fl :
  loopBody b p s = Some (p', s', fl) ->
  totalsKept chapters (GameState.score s) ->
  totalsKept chapters (GameState.score s').
Proof.
  destruct b as [t d ch cq | t d]; cbn [loopBody].
  - unfold playingPipe. generalize (movePipe d p). intro p1.
    destruct (checkCollision _ _).
    { intro H; inversion H; subst. auto. }
    destruct (passThrough t ch p1 s) as [[[p2 s2] fl2] |] eqn:Hpt;
      [| discriminate].
    apply passThrough_step in Hpt. destruct Hpt as (_ & _ & _ & Sc2 & _).
    destruct fl2.
    + destruct (answerSelection cq p2 s2) as [[p3 s3] |] eqn:Has;
        [| discriminate].
      intro H; inversion H; subst p' s' fl. rewrite <- Sc2.
      unfold answerSelection in Has.
      destruct_branches; inversion Has; subst; gs_simpl; auto.
      intros [Ht Hc].
      match goal with
      | E : scoreCorrectAnswer _ _ = Some _ |- _ =>
          unfold scoreCorrectAnswer in E;
          destruct (bumpCorrect _ _) as [l' |] eqn:Hb; [| discriminate];
          inversion E; subst
      end.
      split; [exact Ht |]. cbn [GameScore.chapterScores].
      eapply bumpCorrect_nonneg; eauto.
    + intro H; inversion H; subst. now rewrite Sc2.
  - unfold previewPipe. generalize (movePipe d p). intro p1. intro H.
    destruct_branches; inversion H; subst; gs_simpl; auto.
Qed.

Section Totals.

Variable Math_sin : Q -> Q.
Variable chapters : list Chapter.t.

Lemma frameStep_totals t d r s s' :
  frameStep chapters t d r s s' ->
  totalsKept chapters (GameState.score s) ->
  totalsKept chapters (GameState.score s').
Proof.
  intros Hstep Hok.
  destruct Hstep as [Hsame | Hph Hsame | Hph Hsame | Hph Hsame
                    | chapter Hph Hge Hq Hch Hqi Hsame
                    | s0 pipes0 pipes' s1 fl Hph Hsame Hp0 Hcond Hloop ->
                    | s0 pipes' s1 fl Hph Hsame Hloop Hs'];
    try (destruct Hsame as (_ & _ & _ & _ & E & _); gs_simpl;
         rewrite E; exact Hok).
  - gs_simpl. destruct Hsame as (_ & _ & _ & _ & E & _).
    eapply (forPipes_state _
              (fun x => totalsKept chapters (GameState.score x)));
      [| exact Hloop | now rewrite E].
    intros p x p' x' f.
    apply (loopBody_totals chapters (InPlaying t d _ _)).
  - assert (H1 : totalsKept chapters (GameState.score s1)).
    { destruct Hsame as (_ & _ & _ & _ & E & _).
      eapply (forPipes_state _
                (fun x => totalsKept chapters (GameState.score x)));
        [| exact Hloop | now rewrite E].
      intros p x p' x' f. apply (loopBody_totals chapters (InPreview t d)). }
    destruct Hs' as [-> | Hsame']; [exact H1 |].
    destruct Hsame' as (_ & _ & _ & _ & E & _). rewrite E. exact H1.
Qed.

Lemma handleCanvasClick_totals perfNow dateNow c :
  totalsKept chapters (GameState.score (Component.gameStateRef c)) ->
  totalsKept chapters
    (GameState.score
       (Component.gameStateRef (handleCanvasClick chapters perfNow dateNow c))).
Proof.
  intro Hok. unfold handleCanvasClick.
  destruct (GameState.phase (Component.gameStateRef c));
    try (destruct (jump_sameGame dateNow c) as [(_ & _ & _ & _ & E & _) _];
         rewrite E; exact Hok);
    try exact Hok.
  - destruct (_ <? _)%Z; exact Hok.
  - apply createInitialScore_totals.
Qed.

Lemma reachable_totals c :
  reachable Math_sin chapters c ->
  totalsKept chapters (GameState.score (Component.gameStateRef c)).
Proof.
  induction 1 as [| e c c' _ IH Hadm Hh].
  - apply createInitialScore_totals.
  - destruct e as [now | currentTime random | perfNow dateNow]; cbn in Hh.
    + inversion Hh; subst c'. exact IH.
    + unfold gameLoop in Hh.
      destruct (framePhase _ _ _ _ _ _) as [s' |] eqn:Hf; [| discriminate].
      inversion Hh; subst c'. apply framePhase_frameStep in Hf.
      eapply frameStep_totals; eauto.
    + inversion Hh; subst c'. now apply handleCanvasClick_totals.
Qed.

(** [state.chapterIndex] stays inside the chapter list. *)
Lemma reachable_chapterIndex c :
  chapters <> [] ->
  reachable Math_sin chapters c ->
  (GameState.chapterIndex (Component.gameStateRef c) < length chapters)%nat.
Proof.
  intro Hne. induction 1 as [| e c c' _ IH Hadm Hh].
  - cbn. destruct chapters; [congruence | cbn; lia].
  - destruct e as [now | currentTime random | perfNow dateNow]; cbn in Hh.
    + inversion Hh; subst c'. exact IH.
    + unfold gameLoop in Hh.
      destruct (framePhase _ _ _ _ _ _) as [s' |] eqn:Hf; [| discriminate].
      inversion Hh; subst c'. cbn [Component.gameStateRef].
      apply framePhase_frameStep in Hf.
      destruct Hf as [Hsame | Hph Hsame | Hph Hsame | Hph Hsame
                     | chapter Hph Hge Hq Hch Hqi Hsame
                     | s0 pipes0 pipes' s1 fl Hph Hsame Hp0 Hcond Hloop ->
                     | s0 pipes' s1 fl Hph Hsame Hloop Hs'];
        try (destruct Hsame as (_ & _ & E & _); gs_simpl;
             rewrite E; exact IH).
      * gs_simpl. destruct Hsame as (_ & _ & E & _).
        rewrite (loop_chapterIndex (InPlaying currentTime _ _ _)
                   _ _ _ _ _ Hloop), E.
        exact IH.
      * destruct Hsame as (_ & _ & E & _).
        pose proof (loop_chapterIndex (InPreview currentTime _)
                      _ _ _ _ _ Hloop) as E1.
        destruct Hs' as [-> | (_ & _ & E2 & _)]; gs_simpl;
          [| rewrite E2]; rewrite E1, E; exact IH.
    + inversion Hh; subst c'. unfold handleCanvasClick.
      destruct (GameState.phase (Component.gameStateRef c));
        try (destruct (jump_sameGame dateNow c) as [(_ & _ & E & _) _];
             rewrite E; exact IH);
        try exact IH.
      * destruct (_ <? _)%Z eqn:E; [| exact IH].
        apply Z.ltb_lt in E. cbn [Component.gameStateRef]. gs_simpl. lia.
      * cbn. destruct chapters; [congruence | cbn; lia].
Qed.

End Totals.

(** X14: the totals of the score never change.  In every reachable state
    [score.totalQuestions] is the number of questions of all chapters,
    [score.chapterScores] has one entry per chapter whose [total] is the
    number of questions of that chapter, and no [correct] counter is
    negative. *)
Theorem X14_score_totals_kept :
  forall (Math_sin : Q -> Q) (chapters : list Chapter.t) (c : Component.t),
    reachable Math_sin chapters c ->
    GameScore.totalQuestions (GameState.score (Component.gameStateRef c))
    = questionTotal chapters
    /\ map ChapterScore.total
           (GameScore.chapterScores
              (GameState.score (Component.gameStateRef c)))
       = map (fun chapter => Z.of_nat (length (Chapter.questions chapter)))
             chapters
    /\ Forall (fun cs => (0 <= ChapterScore.correct cs)%Z)
              (GameScore.chapterScores
                 (GameState.score (Component.gameStateRef c))).
Proof.
  intros Math_sin chapters c Hr.
  destruct (reachable_totals Math_sin chapters c Hr) as [Ht Hc].
  destruct (reachable_scoreOk Math_sin chapters c Hr) as [_ Hm].
  auto.
Qed.

Lemma X14_score_totals_kept_witness :
  GameScore.totalQuestions
    (GameState.score (Component.gameStateRef answeredTwice))
  = 1%Z.
Proof.
  apply (X14_score_totals_kept flatSine singleQuestionGame answeredTwice).
  exact answeredTwice_reachable.
Defined.

(** ** The scale of the canvas *)

Lemma Math_max_ge_l a b : a <= Num.Math_max a b.
Proof.
  unfold Num.Math_max. destruct (a <? b) eqn:E.
  - apply NumFacts.ltb_lt in E. lra.
  - lra.
Qed.

Lemma Math_max_ge_r a b : b <= Num.Math_max a b.
Proof.
  unfold Num.Math_max. destruct (a <? b) eqn:E.
  - lra.
  - apply NumFacts.ltb_ge in E. lra.
Qed.

Lemma Math_max_cases a b : Num.Math_max a b = a \/ Num.Math_max a b = b.
Proof. unfold Num.Math_max. destruct (a <? b); auto. Qed.

(** X15: on a window narrower than 768 px the scale [updateScale] sets
    makes the canvas cover the window: the scaled canvas is at least as wide
    and at least as high as the window and matches it in one of the two
    directions, so that it is cropped, not letterboxed, in the other; on a
    wider window the scale is 1. *)
Theorem X15_scale_covers_window :
  forall innerWidth innerHeight : Q,
    (innerWidth < 768 ->
     innerWidth <= CANVAS_WIDTH * updateScale innerWidth innerHeight
     /\ innerHeight <= CANVAS_HEIGHT * updateScale innerWidth innerHeight
     /\ (CANVAS_WIDTH * updateScale innerWidth innerHeight == innerWidth
         \/ CANVAS_HEIGHT * updateScale innerWidth innerHeight
            == innerHeight))
    /\ (768 <= innerWidth -> updateScale innerWidth innerHeight = 1).
Proof.
  intros w h. unfold updateScale. split.
  - intro Hw. rewrite (ltb_of_lt w 768 Hw). cbv zeta.
    pose proof (Math_max_ge_l (w / CANVAS_WIDTH) (h / CANVAS_HEIGHT)) as Hl.
    pose proof (Math_max_ge_r (w / CANVAS_WIDTH) (h / CANVAS_HEIGHT)) as Hr.
    pose proof (Math_max_cases (w / CANVAS_WIDTH) (h / CANVAS_HEIGHT)) as Hc.
    set (m := Num.Math_max _ _) in *. clearbody m.
    assert (Ew : 288 * (w / 288) == w) by field.
    assert (Eh : 512 * (h / 512) == h) by field.
    unfold_consts. num_plain.
    split; [lra |]. split; [lra |].
    destruct Hc as [-> | ->]; [left | right]; num_plain; assumption.
  - intro Hw. rewrite (ltb_of_ge w 768 Hw). reflexivity.
Qed.

(** ** Word wrap *)

Open Scope string_scope.

Lemma splitOnSpace_cons text :
  exists word words, splitOnSpace text = word :: words.
Proof.
  destruct text as [| c rest]; cbn; [eauto |].
  destruct (Ascii.eqb c " "); [eauto |].
  destruct (splitOnSpace rest); eauto.
Qed.

(** A piece has no space in it: it is its own only piece. *)
Lemma splitOnSpace_pieces text :
  Forall (fun word => splitOnSpace word = [word]) (splitOnSpace text).
Proof.
  induction text as [| c rest IH]; cbn.
  - constructor; [reflexivity | constructor].
  - destruct (Ascii.eqb c " ") eqn:Ec.
    + constructor; [reflexivity | exact IH].
    + destruct (splitOnSpace rest) as [| word words]; cbn.
      * constructor; [| constructor]. cbn. rewrite Ec. reflexivity.
      * inversion IH; subst. constructor; [| assumption].
        cbn. rewrite Ec. match goal with H : _ = [word] |- _ => rewrite H end.
        reflexivity.
Qed.

Lemma splitOnSpace_app a b :
  splitOnSpace (a ++ " " ++ b) = (splitOnSpace a ++ splitOnSpace b)%list.
Proof.
  induction a as [| c a IH]; cbn.
  - reflexivity.
  - destruct (Ascii.eqb c " ").
    + cbn in IH. rewrite IH. reflexivity.
    + cbn in IH. rewrite IH.
      destruct (splitOnSpace_cons a) as (w & ws & E). rewrite E. reflexivity.
Qed.

(** The words of some lines: their non-empty pieces. *)
Definition wordsOf (lines : list string) : list string :=
  filter nonEmpty (flat_map splitOnSpace lines).

Lemma wordsOf_app l1 l2 : wordsOf (l1 ++ l2) = (wordsOf l1 ++ wordsOf l2)%list.
Proof. unfold wordsOf. now rewrite flat_map_app, filter_app. Qed.

Lemma wordsOf_empty : wordsOf [""] = [].
Proof. reflexivity. Qed.

Lemma wordsOf_single line :
  wordsOf [line] = filter nonEmpty (splitOnSpace line).
Proof. unfold wordsOf. cbn [flat_map]. now rewrite app_nil_r. Qed.

Lemma nonEmpty_false s : nonEmpty s = false -> s = "".
Proof. destruct s; [reflexivity | discriminate]. Qed.

Section WrapText.

Variable measureText : string -> Q.
Variable maxWidth : Q.

(** The words of the lines and of the line in the making. *)
Definition wordsSoFar (acc : list string * string) : list string :=
  (wordsOf (fst acc) ++ wordsOf [snd acc])%list.

Lemma wrapWord_words acc word :
  splitOnSpace word = [word] ->
  wordsSoFar (wrapWord measureText maxWidth acc word)
  = (wordsSoFar acc ++ filter nonEmpty [word])%list.
Proof.
  intro Hw. destruct acc as [lines cur]. unfold wrapWord, wordsSoFar.
  assert (Hword : wordsOf [word] = filter nonEmpty [word]).
  { now rewrite wordsOf_single, Hw. }
  destruct (nonEmpty cur) eqn:Hc.
  - destruct (measureText _ >? maxWidth); cbn [andb fst snd].
    + rewrite wordsOf_app, Hword, <- app_assoc. reflexivity.
    + rewrite !wordsOf_single, splitOnSpace_app, Hw, filter_app, app_assoc.
      reflexivity.
  - rewrite andb_false_r. cbn [fst snd].
    apply nonEmpty_false in Hc. subst cur.
    rewrite wordsOf_empty, app_nil_r, Hword. reflexivity.
Qed.

Lemma fold_words words : forall acc,
  Forall (fun word => splitOnSpace word = [word]) words ->
  wordsSoFar (fold_left (wrapWord measureText maxWidth) words acc)
  = (wordsSoFar acc ++ filter nonEmpty words)%list.
Proof.
  induction words as [| w ws IH]; intros acc Hall; cbn [fold_left].
  - cbn. now rewrite app_nil_r.
  - inversion Hall; subst. rewrite IH by assumption.
    rewrite wrapWord_words by assumption.
    rewrite <- app_assoc, <- filter_app. reflexivity.
Qed.

(** A line is good when it is not empty and fits [maxWidth] or is a single
    word of the text. *)
Definition goodLine (text line : string) : Prop :=
  nonEmpty line = true
  /\ (measureText line <= maxWidth \/ In line (splitOnSpace text)).

Definition goodSoFar (text : string) (acc : list string * string) : Prop :=
  Forall (goodLine text) (fst acc)
  /\ (nonEmpty (snd acc) = true -> goodLine text (snd acc)).

Lemma nonEmpty_app a b : nonEmpty a = true -> nonEmpty (a ++ b) = true.
Proof. destruct a; [discriminate | reflexivity]. Qed.

Lemma wrapWord_good text acc word :
  In word (splitOnSpace text) ->
  goodSoFar text acc ->
  goodSoFar text (wrapWord measureText maxWidth acc word).
Proof.
  intros Hin [Hlines Hcur]. destruct acc as [lines cur].
  cbn [fst snd] in *. unfold wrapWord.
  destruct (nonEmpty cur) eqn:Hc.
  - destruct (measureText _ >? maxWidth) eqn:Hm; cbn [andb]; split;
      cbn [fst snd].
    + apply Forall_app. split; [exact Hlines |].
      constructor; [auto | constructor].
    + intro Hn. split; [exact Hn | right; exact Hin].
    + exact Hlines.
    + intros _. split; [now apply nonEmpty_app |].
      left. apply NumFacts.gtb_le in Hm. exact Hm.
  - rewrite andb_false_r. split; cbn [fst snd]; [exact Hlines |].
    intro Hn. split; [exact Hn | right; exact Hin].
Qed.

Lemma fold_good text words : forall acc,
  (forall word, In word words -> In word (splitOnSpace text)) ->
  goodSoFar text acc ->
  goodSoFar text (fold_left (wrapWord measureText maxWidth) words acc).
Proof.
  induction words as [| w ws IH]; intros acc Hin Hacc; cbn [fold_left].
  - exact Hacc.
  - apply IH; [intros; apply Hin; now right |].
    apply wrapWord_good; [apply Hin; now left | exact Hacc].
Qed.

End WrapText.

(** X16: [wrapText] makes no empty line, and a line is wider than
    [maxWidth] only when it is a single word of the text (a word is never
    broken): every line fits the width or is one of the pieces of
    [text.split(" ")].  The empty text gives no line at all. *)
Theorem X16_wrapped_lines_fit :
  forall (measureText : string -> Q) (text : string) (maxWidth : Q),
    Forall (fun line =>
              line <> ""
              /\ (measureText line <= maxWidth
                  \/ In line (splitOnSpace text)))
           (wrapText measureText text maxWidth)
    /\ wrapText measureText "" maxWidth = [].
Proof.
  intros measureText text maxWidth. split;
    [| unfold wrapText, wrapWord; cbn; rewrite andb_false_r; reflexivity].
  unfold wrapText.
  pose proof (fold_good measureText maxWidth text (splitOnSpace text)
                ([], "") (fun _ H => H)) as Hgood.
  destruct (fold_left _ _ _) as [lines cur].
  destruct Hgood as [Hlines Hcur].
  { split; [constructor | discriminate]. }
  cbn [fst snd] in *.
  assert (Hweak : forall l,
             Forall (goodLine measureText maxWidth text) l ->
             Forall (fun line =>
                       line <> ""
                       /\ (measureText line <= maxWidth
                           \/ In line (splitOnSpace text))) l).
  { intros l Hl. eapply Forall_impl; [| exact Hl].
    intros line [Hn Hfit]. split; [| exact Hfit].
    intros ->. discriminate. }
  destruct (nonEmpty cur) eqn:Hc.
  - apply Hweak. apply Forall_app. split; [exact Hlines |].
    constructor; [auto | constructor].
  - apply Hweak. exact Hlines.
Qed.

(** X17: [wrapText] keeps the words of the text and their order: the
    non-empty pieces (between spaces) of the lines, read line after line,
    are the non-empty pieces of the text. *)
Theorem X17_wrapped_words_kept :
  forall (measureText : string -> Q) (text : string) (maxWidth : Q),
    filter nonEmpty
           (flat_map splitOnSpace (wrapText measureText text maxWidth))
    = filter nonEmpty (splitOnSpace text).
Proof.
  intros measureText text maxWidth.
  change (wordsOf (wrapText measureText text maxWidth)
          = filter nonEmpty (splitOnSpace text)).
  unfold wrapText.
  pose proof (fold_words measureText maxWidth (splitOnSpace text) ([], "")
                (splitOnSpace_pieces text)) as H.
  destruct (fold_left _ _ _) as [lines cur].
  unfold wordsSoFar in H. cbn [fst snd] in H.
  rewrite wordsOf_empty in H. change (wordsOf []) with (@nil string) in H.
  cbn [app] in H. rewrite <- H.
  destruct (nonEmpty cur) eqn:Hc.
  - now rewrite wordsOf_app.
  - apply nonEmpty_false in Hc. subst cur.
    now rewrite wordsOf_empty, app_nil_r.
Qed.

Close Scope string_scope.

(** ** The validation of a chapter list *)

Lemma validQuestion_toJs q : validQuestion (questionToJs q) = true.
Proof. reflexivity. Qed.

Lemma validChapter_toJs c : validChapter (chapterToJs c) = true.
Proof.
  unfold validChapter, chapterToJs. cbn.
  apply forallb_forall. intros v Hin. apply in_map_iff in Hin.
  destruct Hin as (q & <- & _). apply validQuestion_toJs.
Qed.

(** X18: [validateChapters] accepts every value of type [Chapter[]]: the
    objects of any list of chapters, whatever their strings, numbers and
    answers, including the empty list and chapters without questions (on
    which the game cannot be played). *)
Theorem X18_validation_accepts_typed_chapters :
  forall chapters : list Chapter.t,
    validateChapters (chaptersToJs chapters) = true.
Proof.
  intro chapters. unfold validateChapters, chaptersToJs.
  apply forallb_forall. intros v Hin. apply in_map_iff in Hin.
  destruct Hin as (c & <- & _). apply validChapter_toJs.
Qed.

(** What [validateChapters] promises of a question and of a chapter: the
    properties the game reads are there and have the types of the
    interfaces. *)
Definition questionShape (v : JsValue) : Prop :=
  exists id text answer feedbackCorrect feedbackWrong,
    get v "id" = JsString id
    /\ get v "text" = JsString text
    /\ get v "answer" = JsBoolean answer
    /\ get v "feedbackCorrect" = JsString feedbackCorrect
    /\ get v "feedbackWrong" = JsString feedbackWrong.

Definition chapterShape (v : JsValue) : Prop :=
  exists id number title subtitle description questions,
    get v "id" = JsString id
    /\ get v "number" = JsNumber number
    /\ get v "title" = JsString title
    /\ get v "subtitle" = JsString subtitle
    /\ get v "description" = JsString description
    /\ get v "questions" = JsArray questions
    /\ Forall questionShape questions.

Lemma typeof_string v :
  String.eqb (typeof v) "string" = true <-> exists s, v = JsString s.
Proof.
  split.
  - destruct v; cbn; try discriminate; eauto.
  - intros [s ->]. reflexivity.
Qed.

Lemma typeof_number v :
  String.eqb (typeof v) "number" = true <-> exists n, v = JsNumber n.
Proof.
  split.
  - destruct v; cbn; try discriminate; eauto.
  - intros [s ->]. reflexivity.
Qed.

Lemma typeof_boolean v :
  String.eqb (typeof v) "boolean" = true <-> exists b, v = JsBoolean b.
Proof.
  split.
  - destruct v; cbn; try discriminate; eauto.
  - intros [s ->]. reflexivity.
Qed.

Lemma get_object v key s : get v key = JsString s -> exists props, v = JsObject props.
Proof. destruct v; cbn; try discriminate; eauto. Qed.

Lemma validQuestion_shape v : validQuestion v = true <-> questionShape v.
Proof.
  unfold validQuestion, questionShape. split.
  - destruct (negb _ || _); [discriminate |]. cbv zeta. intro H.
    repeat (apply andb_prop in H; destruct H as [H ?]).
    repeat match goal with
           | E : String.eqb (typeof _) "string" = true |- _ =>
               apply typeof_string in E; destruct E as [? E]
           | E : String.eqb (typeof _) "boolean" = true |- _ =>
               apply typeof_boolean in E; destruct E as [? E]
           end.
    eauto 12.
  - intros (id & text & answer & fc & fw & E1 & E2 & E3 & E4 & E5).
    destruct (get_object _ _ _ E1) as [props ->].
    cbn [typeof String.eqb negb isNull orb]. cbv zeta.
    rewrite E1, E2, E3, E4, E5. reflexivity.
Qed.

Lemma validChapter_shape v : validChapter v = true <-> chapterShape v.
Proof.
  unfold validChapter, chapterShape. split.
  - destruct (negb _ || _); [discriminate |]. cbv zeta.
    match goal with
    | |- (if ?b then _ else _) = true -> _ =>
        destruct b eqn:H; [discriminate |]
    end.
    repeat (apply orb_false_elim in H; destruct H as [H ?]).
    repeat match goal with
           | E : negb _ = false |- _ => apply negb_false_iff in E
           end.
    repeat match goal with
           | E : String.eqb (typeof _) "string" = true |- _ =>
               apply typeof_string in E; destruct E as [? E]
           | E : String.eqb (typeof _) "number" = true |- _ =>
               apply typeof_number in E; destruct E as [? E]
           end.
    destruct (get v "questions") as [| | | | | | questions |] eqn:Eq;
      try discriminate.
    intro Hall. do 5 eexists. exists questions.
    repeat (split; [eassumption |]). split; [reflexivity |].
    apply Forall_forall. intros q Hin. apply validQuestion_shape.
    rewrite forallb_forall in Hall. now apply Hall.
  - intros (id & number & title & subtitle & description & questions
            & E1 & E2 & E3 & E4 & E5 & E6 & Hall).
    destruct (get_object _ _ _ E1) as [props ->].
    cbn [typeof String.eqb negb isNull orb]. cbv zeta.
    rewrite E1, E2, E3, E4, E5, E6. cbn.
    apply forallb_forall. intros q Hin. apply validQuestion_shape.
    rewrite Forall_forall in Hall. now apply Hall.
Qed.

(** X19: [validateChapters] accepts a value exactly when it is an array
    whose elements are objects with a string [id], a number [number],
    strings [title], [subtitle] and [description] and an array [questions]
    of objects with strings [id], [text], [feedbackCorrect] and
    [feedbackWrong] and a boolean [answer]; so an accepted value has every
    property the game reads, and anything that is not an array is
    rejected. *)
Theorem X19_validation_characterised :
  forall v : JsValue,
    validateChapters v = true
    <-> exists items, v = JsArray items /\ Forall chapterShape items.
Proof.
  intro v. unfold validateChapters. split.
  - destruct v as [| | | | | | items |]; try discriminate.
    intro H. exists items. split; [reflexivity |].
    apply Forall_forall. intros c Hin. apply validChapter_shape.
    rewrite forallb_forall in H. now apply H.
  - intros (items & -> & Hall). apply forallb_forall. intros c Hin.
    apply validChapter_shape. rewrite Forall_forall in Hall. now apply Hall.
Qed.

(** ** The chapters the component holds *)

Lemma SAMPLE_GAME_DATA_playable : playable SAMPLE_GAME_DATA.
Proof. apply playableb_sound. reflexivity. Qed.

(** X20: the component always has a current chapter.  The chapter list it
    holds is the [chapters] prop when that is given and not empty and the
    sample data otherwise, so it is never empty; in every reachable state
    [chapters[state.chapterIndex]] and its entry of [score.chapterScores]
    are defined; and on the sample data (three chapters of four questions)
    no event throws. *)
Theorem X20_component_has_current_chapter :
  forall (propChapters : option (list Chapter.t)) (topics : list string),
    initialChapters propChapters topics <> []
    /\ (forall chapters,
           propChapters = Some chapters -> chapters <> [] ->
           initialChapters propChapters topics = chapters)
    /\ (propChapters = None \/ propChapters = Some [] ->
        initialChapters propChapters topics = SAMPLE_GAME_DATA
        /\ map (fun chapter => length (Chapter.questions chapter))
               SAMPLE_GAME_DATA = [4; 4; 4]%nat
        /\ forall (Math_sin : Q -> Q) (c : Component.t) (e : Event),
            reachable Math_sin (initialChapters propChapters topics) c ->
            exists c',
              handle Math_sin (initialChapters propChapters topics) e c
              = Some c')
    /\ (forall (Math_sin : Q -> Q) (c : Component.t),
           reachable Math_sin (initialChapters propChapters topics) c ->
           exists chapter cs,
             nth_error (initialChapters propChapters topics)
                       (GameState.chapterIndex (Component.gameStateRef c))
             = Some chapter
             /\ nth_error (GameScore.chapterScores
                             (GameState.score (Component.gameStateRef c)))
                          (GameState.chapterIndex (Component.gameStateRef c))
                = Some cs).
Proof.
  intros propChapters topics.
  assert (Hne : initialChapters propChapters topics <> []).
  { unfold initialChapters, getGameData.
    destruct propChapters as [[| c l] |]; cbn; discriminate. }
  split; [exact Hne |]. split; [| split].
  - intros chapters -> Hc. unfold initialChapters.
    destruct chapters; [congruence | reflexivity].
  - intro Hp.
    assert (E : initialChapters propChapters topics = SAMPLE_GAME_DATA)
      by (destruct Hp as [-> | ->]; reflexivity).
    split; [exact E |]. split; [reflexivity |].
    rewrite E. intros Math_sin c e Hr.
    destruct e as [now | currentTime random | perfNow dateNow];
      cbn [handle]; [eauto | | eauto].
    unfold gameLoop.
    destruct (framePhase_total Math_sin SAMPLE_GAME_DATA currentTime
                (frameDelta currentTime (Component.lastFrameTimeRef c)) random
                (Component.gameStateRef c))
      as (s' & Hs').
    + exact (reachable_indexed Math_sin _ SAMPLE_GAME_DATA_playable c Hr).
    + now apply (reachable_scoreOk Math_sin).
    + rewrite Hs'. eauto.
  - intros Math_sin c Hr.
    pose proof (reachable_chapterIndex Math_sin _ c Hne Hr) as Hlt.
    destruct (nth_error (initialChapters propChapters topics)
                (GameState.chapterIndex (Component.gameStateRef c)))
      as [chapter |] eqn:Hch; [| apply nth_error_None in Hch; lia].
    destruct (scoreOk_total _ _ _ chapter
                (reachable_scoreOk Math_sin _ c Hr) Hch) as (cs & Hcs & _).
    eauto.
Qed.

(** ** The topics of the onboarding *)

Lemma includes_In topicId topics :
  existsb (String.eqb topicId) topics = true <-> In topicId topics.
Proof.
  rewrite existsb_exists. split.
  - intros (t & Hin & E). apply String.eqb_eq in E. now subst.
  - intro Hin. exists topicId. split; [exact Hin | apply String.eqb_refl].
Qed.

Lemma toggleTopic_kept topicId topics :
  (length topics <= 3)%nat -> NoDup topics ->
  (length (toggleTopic topicId topics) <= 3)%nat
  /\ NoDup (toggleTopic topicId topics)
  /\ (forall t, In t (toggleTopic topicId topics) ->
                In t topics \/ t = topicId).
Proof.
  intros Hlen Hnd. unfold toggleTopic.
  destruct (existsb _ _) eqn:Hin.
  - split; [| split].
    + pose proof (filter_length_le
                    (fun t => negb (String.eqb t topicId)) topics). lia.
    + now apply NoDup_filter.
    + intros t Ht. apply filter_In in Ht. tauto.
  - destruct (length topics <? 3)%nat eqn:Hl.
    + apply Nat.ltb_lt in Hl. split; [| split].
      * rewrite length_app. cbn. lia.
      * apply NoDup_app; [exact Hnd | repeat constructor; auto |].
        intros t Ht [<- | []].
        apply includes_In in Ht. congruence.
      * intros t Ht. apply in_app_or in Ht. destruct Ht as [Ht | [<- | []]];
          auto.
    + auto.
Qed.

(** X21: the player never has more than three topics and never the same
    topic twice: whatever topics are clicked, in whatever order, from the
    empty selection the onboarding starts with, the selection has at most 3
    entries, no duplicate, and only topics that were clicked; a click on a
    selected topic removes it, and a click on a fourth topic does
    nothing. *)
Theorem X21_at_most_three_topics :
  forall clicks : list string,
    (length (fold_left (fun topics topicId => toggleTopic topicId topics)
                       clicks []) <= 3)%nat
    /\ NoDup (fold_left (fun topics topicId => toggleTopic topicId topics)
                        clicks [])
    /\ (forall t,
           In t (fold_left (fun topics topicId => toggleTopic topicId topics)
                           clicks []) ->
           In t clicks)
    /\ (forall topicId topics,
           In topicId topics -> ~ In topicId (toggleTopic topicId topics))
    /\ (forall topicId topics,
           ~ In topicId topics -> (3 <= length topics)%nat ->
           toggleTopic topicId topics = topics).
Proof.
  intro clicks.
  assert (H : forall topics,
             (length topics <= 3)%nat -> NoDup topics ->
             (length (fold_left (fun topics topicId =>
                                   toggleTopic topicId topics)
                                clicks topics) <= 3)%nat
             /\ NoDup (fold_left (fun topics topicId =>
                                    toggleTopic topicId topics)
                                 clicks topics)
             /\ (forall t,
                    In t (fold_left (fun topics topicId =>
                                       toggleTopic topicId topics)
                                    clicks topics) ->
                    In t topics \/ In t clicks)).
  { induction clicks as [| topicId rest IH]; intros topics Hlen Hnd;
      cbn [fold_left].
    - auto.
    - destruct (toggleTopic_kept topicId topics Hlen Hnd) as (A & B & C).
      destruct (IH _ A B) as (A' & B' & C').
      split; [exact A' |]. split; [exact B' |].
      intros t Ht. destruct (C' t Ht) as [Hin | Hin].
      + destruct (C t Hin) as [? | ->]; [now left | right; now left].
      + right. now right. }
  destruct (H [] (Nat.le_0_l 3) (NoDup_nil _)) as (A & B & C).
  split; [exact A |]. split; [exact B |]. split; [| split].
  - intros t Ht. destruct (C t Ht) as [[] | Hin]. exact Hin.
  - intros topicId topics Hin. unfold toggleTopic.
    rewrite (proj2 (includes_In topicId topics) Hin).
    intro Hf. apply filter_In in Hf. destruct Hf as [_ Hf].
    rewrite String.eqb_refl in Hf. discriminate.
  - intros topicId topics Hnin Hlen. unfold toggleTopic.
    destruct (existsb _ _) eqn:E.
    + apply includes_In in E. contradiction.
    + rewrite (proj2 (Nat.ltb_ge _ _) Hlen). reflexivity.
Qed.

(** ** The sprite of the bird *)

(** [bird.frame] is an index of the three sprites. *)
Definition spriteOk (bird : Bird.t) : Prop :=
  (0 <= Bird.frame bird <= 2)%Z.

Lemma animateBird_spriteOk n s :
  spriteOk (GameState.bird s) -> spriteOk (GameState.bird (animateBird n s)).
Proof.
  unfold animateBird, spriteOk. gs_simpl. intro H.
  destruct (_ =? _)%Z; gs_simpl; [| exact H].
  cbn [Bird.frame Bird.set_frame].
  pose proof (Z.rem_bound_pos (Bird.frame (GameState.bird s) + 1) 3).
  lia.
Qed.

Lemma updateBirdPhysics_frame d bird :
  Bird.frame (updateBirdPhysics d bird) = Bird.frame bird.
Proof. reflexivity. Qed.

Section Sprite.

Variable Math_sin : Q -> Q.
Variable chapters : list Chapter.t.

Lemma framePhase_spriteOk t d r s s' :
  framePhase Math_sin chapters t d r s = Some s' ->
  spriteOk (GameState.bird s) -> spriteOk (GameState.bird s').
Proof.
  unfold framePhase. intros Hf Hok.
  destruct (GameState.phase s).
  - (* loading *)
    inversion Hf; subst. exact Hok.
  - (* chapter_intro *)
    destruct (drawChapterIntro _ _); [| discriminate].
    destruct (_ >? _); inversion Hf; subst; exact Hok.
  - (* ready_to_play *)
    inversion Hf; subst. apply animateBird_spriteOk. exact Hok.
  - (* auto_fly *)
    match type of Hf with
    | context [animateBird ?n ?x] =>
        assert (H3 : spriteOk (GameState.bird (animateBird n x)))
          by (apply animateBird_spriteOk; exact Hok);
        set (s3 := animateBird n x) in *; clearbody s3
    end.
    destruct (_ >=? _); inversion Hf; subst; exact H3.
  - (* playing *)
    unfold framePlaying in Hf. cbv zeta in Hf.
    destruct (outOfBounds _); [inversion Hf; subst; exact Hok |].
    match type of Hf with
    | context [animateBird ?n ?x] =>
        assert (H3 : spriteOk (GameState.bird (animateBird n x)))
          by (apply animateBird_spriteOk; exact Hok);
        set (s3 := animateBird n x) in *; clearbody s3
    end.
    assert (Hl : forall pipes0 l1 s1 fl,
               forPipes (playingPipe t d
                           (nth_error chapters (GameState.chapterIndex s))
                           match nth_error chapters (GameState.chapterIndex s) with
                           | Some chapter =>
                               nth_error (Chapter.questions chapter)
                                         (GameState.questionIndex s)
                           | None => None
                           end) pipes0 s3 = Some (l1, s1, fl) ->
               GameState.bird s1 = GameState.bird s3).
    { intros pipes0 l1 s1 fl Hloop.
      exact (loop_bird (InPlaying t d _ _) _ _ _ _ _ Hloop). }
    destruct_branches; inversion Hf; subst; gs_simpl; auto;
      match goal with
      | Hloop : forPipes _ _ _ = Some _ |- _ =>
          rewrite (Hl _ _ _ _ Hloop); exact H3
      end.
  - (* question_preview *)
    unfold frameQuestionPreview in Hf. cbv zeta in Hf.
    destruct (outOfBounds _); [inversion Hf; subst; exact Hok |].
    match type of Hf with
    | context [animateBird ?n ?x] =>
        assert (H3 : spriteOk (GameState.bird (animateBird n x)))
          by (apply animateBird_spriteOk; exact Hok);
        set (s3 := animateBird n x) in *; clearbody s3
    end.
    destruct (forPipes _ _ s3) as [[[l1 s1] fl] |] eqn:Hloop; [| discriminate].
    pose proof (loop_bird (InPreview t d) _ _ _ _ _ Hloop) as Hb.
    destruct (_ >=? _); inversion Hf; subst; gs_simpl; rewrite Hb; exact H3.
  - (* game_over *)
    inversion Hf; subst. exact Hok.
  - (* chapter_complete *)
    destruct (drawChapterComplete _ _ _); [| discriminate].
    inversion Hf; subst. exact Hok.
  - (* game_complete *)
    destruct (drawGameComplete _ _ _); [| discriminate].
    inversion Hf; subst. exact Hok.
Qed.

Lemma handleCanvasClick_spriteOk perfNow dateNow c :
  spriteOk (GameState.bird (Component.gameStateRef c)) ->
  spriteOk (GameState.bird
              (Component.gameStateRef
                 (handleCanvasClick chapters perfNow dateNow c))).
Proof.
  intro Hok. unfold handleCanvasClick.
  destruct (GameState.phase (Component.gameStateRef c)) eqn:Hph;
    cbn [Component.gameStateRef]; gs_simpl; try exact Hok;
    try (unfold jump; destruct (_ <? _)%Z;
         cbn [Component.gameStateRef]; rewrite ?Hph; exact Hok).
  unfold spriteOk. cbn. lia.
Qed.

Lemma reachable_spriteOk c :
  reachable Math_sin chapters c ->
  spriteOk (GameState.bird (Component.gameStateRef c)).
Proof.
  induction 1 as [| e c c' _ IH Hadm Hh].
  - unfold spriteOk. cbn. lia.
  - destruct e as [now | currentTime random | perfNow dateNow]; cbn in Hh.
    + inversion Hh; subst c'. exact IH.
    + unfold gameLoop in Hh.
      destruct (framePhase _ _ _ _ _ _) as [s' |] eqn:Hf; [| discriminate].
      inversion Hh; subst c'. cbn [Component.gameStateRef].
      eapply framePhase_spriteOk; eauto.
    + inversion Hh; subst c'. now apply handleCanvasClick_spriteOk.
Qed.

End Sprite.

(** X22: the sprite index of the bird is always valid: in every reachable
    state [bird.frame] is 0, 1 or 2, an index of the three bird sprites, so
    [drawBird] never finds its sprite undefined. *)
Theorem X22_bird_sprite_index :
  forall (Math_sin : Q -> Q) (chapters : list Chapter.t) (c : Component.t),
    reachable Math_sin chapters c ->
    (0 <= Bird.frame (GameState.bird (Component.gameStateRef c)) <= 2)%Z.
Proof.
  intros Math_sin chapters c Hr.
  exact (reachable_spriteOk Math_sin chapters c Hr).
Qed.

Lemma X22_bird_sprite_index_witness :
  reachable flatSine singleQuestionGame answeredTwice
  /\ (0 <= Bird.frame (GameState.bird (Component.gameStateRef answeredTwice))
      <= 2)%Z.
Proof.
  split; [exact answeredTwice_reachable |].
  apply (X22_bird_sprite_index flatSine singleQuestionGame answeredTwice).
  exact answeredTwice_reachable.
Defined.

(** ** The question index moves one question at a time *)

(** The number of question pipes of the list that are not passed yet. *)
Definition unpassedQuestions (pipes : list Pipe.t) : nat :=
  length (filter (fun p => PipeType_eqb (Pipe.type p) question
                           && negb (Pipe.passed p)) pipes).

Lemma loopBody_questionStep b p s p' s' fl :
  loopBody b p s = Some (p', s', fl) ->
  (GameState.questionIndex s <= GameState.questionIndex s'
   <= GameState.questionIndex s + unpassedQuestions [p])%nat.
Proof.
  unfold unpassedQuestions. cbn [filter].
  replace (length (if PipeType_eqb (Pipe.type p) question
                      && negb (Pipe.passed p)
                   then [p] else []))
    with (if PipeType_eqb (Pipe.type p) question && negb (Pipe.passed p)
          then 1%nat else 0%nat)
    by (destruct (_ && _); reflexivity).
  destruct b as [t d ch cq | t d]; cbn [loopBody]; intro H.
  - unfold playingPipe in H.
    change (Pipe.type p) with (Pipe.type (movePipe d p)).
    change (Pipe.passed p) with (Pipe.passed (movePipe d p)).
    revert H. generalize (movePipe d p). intros p1 H.
    destruct (checkCollision _ _); [inversion H; subst; gs_simpl; lia |].
    destruct (passThrough t ch p1 s) as [[[p2 s2] fl2] |] eqn:Hpt;
      [| discriminate].
    assert (H2 : (GameState.questionIndex s <= GameState.questionIndex s2
                  <= GameState.questionIndex s
                     + (if PipeType_eqb (Pipe.type p1) question
                           && negb (Pipe.passed p1)
                        then 1 else 0))%nat).
    { unfold passThrough in Hpt.
      destruct (Pipe.passed p1); cbn [negb andb] in *.
      - inversion Hpt; subst. lia.
      - destruct (_ <? _); cbn [andb] in Hpt; [| inversion Hpt; subst; lia].
        cbn [Pipe.type Pipe.set_passed Pipe.scored] in Hpt.
        destruct (Pipe.type p1); cbn [PipeType_eqb andb].
        + destruct (negb (Pipe.scored p1)); inversion Hpt; subst; gs_simpl;
            lia.
        + destruct ch as [chapter |]; [| discriminate].
          destruct (_ <? _)%Z; inversion Hpt; subst; gs_simpl; lia. }
    destruct fl2; [| inversion H; subst; exact H2].
    destruct (answerSelection cq p2 s2) as [[p3 s3] |] eqn:Has;
      [| discriminate].
    apply answerSelection_questionIndex in Has.
    inversion H; subst. rewrite Has. exact H2.
  - apply previewPipe_questionIndex in H. rewrite H. lia.
Qed.

Lemma unpassedQuestions_cons p l :
  unpassedQuestions (p :: l)
  = (unpassedQuestions [p] + unpassedQuestions l)%nat.
Proof.
  unfold unpassedQuestions. cbn [filter].
  destruct (_ && _); cbn [length]; lia.
Qed.

Lemma unpassedQuestions_app l1 l2 :
  unpassedQuestions (l1 ++ l2)
  = (unpassedQuestions l1 + unpassedQuestions l2)%nat.
Proof. unfold unpassedQuestions. now rewrite filter_app, length_app. Qed.

Lemma loop_questionStep b : forall l s l' s' fl,
  forPipes (loopBody b) l s = Some (l', s', fl) ->
  (GameState.questionIndex s <= GameState.questionIndex s'
   <= GameState.questionIndex s + unpassedQuestions l)%nat.
Proof.
  apply (forPipes_elim (loopBody b)
           (fun l s l' s' fl =>
              (GameState.questionIndex s <= GameState.questionIndex s'
               <= GameState.questionIndex s + unpassedQuestions l)%nat)).
  - intro s. lia.
  - intros p s p' s' rest Hb. apply loopBody_questionStep in Hb.
    rewrite unpassedQuestions_cons. lia.
  - intros p s p' s1 rest rest' s' fl Hb _ IH.
    apply loopBody_questionStep in Hb.
    rewrite unpassedQuestions_cons. lia.
Qed.

Lemma normals_unpassedQuestions (P : Pipe.t -> Prop) l :
  (forall p, P p -> Pipe.type p = normal) ->
  Forall P l -> unpassedQuestions l = 0%nat.
Proof.
  intros HP. induction 1 as [| p l Hp _ IH]; [reflexivity |].
  rewrite unpassedQuestions_cons, IH. unfold unpassedQuestions.
  cbn [filter]. rewrite (HP p Hp). reflexivity.
Qed.

Lemma Shape_unpassedQuestions counter pipes :
  Shape counter pipes -> (unpassedQuestions pipes <= 1)%nat.
Proof.
  intros [l H | pre q Ht Hp H | pre q post Ht Hp Hb Hc H1 H2].
  - rewrite (normals_unpassedQuestions isNormal l); auto.
  - rewrite unpassedQuestions_app.
    rewrite (normals_unpassedQuestions _ pre (fun p H => proj1 H) H).
    unfold unpassedQuestions. cbn [filter]. destruct (_ && _); cbn; lia.
  - rewrite unpassedQuestions_app, unpassedQuestions_cons.
    rewrite (normals_unpassedQuestions _ pre (fun p H => proj1 H) H1).
    rewrite (normals_unpassedQuestions _ post (fun p H => proj1 H) H2).
    unfold unpassedQuestions. cbn [filter]. rewrite Hp, andb_false_r.
    cbn. lia.
Qed.

Section QuestionStep.

Variable Math_sin : Q -> Q.
Variable chapters : list Chapter.t.

Lemma frameStep_questionStep t d r s s' :
  frameStep chapters t d r s s' ->
  (unpassedQuestions (GameState.pipes s) <= 1)%nat ->
  GameState.chapterIndex s' = GameState.chapterIndex s
  /\ (GameState.questionIndex s' = GameState.questionIndex s
      \/ GameState.questionIndex s' = S (GameState.questionIndex s)
         /\ GameState.phase s = playing).
Proof.
  intros Hstep Hone.
  destruct Hstep as [Hsame | Hph Hsame | Hph Hsame | Hph Hsame
                    | chapter Hph Hge Hq Hch Hqi Hsame
                    | s0 pipes0 pipes' s1 fl Hph Hsame Hp0 Hcond Hloop ->
                    | s0 pipes' s1 fl Hph Hsame Hloop Hs'];
    try (destruct Hsame as (_ & _ & C & Q & _); gs_simpl;
         rewrite C, Q; auto).
  - destruct Hsame as (_ & _ & C & Q & _). gs_simpl.
    pose proof (loop_chapterIndex (InPlaying t d _ _) _ _ _ _ _ Hloop) as C1.
    pose proof (loop_questionStep (InPlaying t d _ _) _ _ _ _ _ Hloop) as Q1.
    assert (Hone0 : (unpassedQuestions pipes0 <= 1)%nat).
    { destruct Hp0 as [-> | [_ ->]]; [exact Hone |].
      rewrite unpassedQuestions_app. unfold unpassedQuestions at 2.
      cbn. lia. }
    split; [congruence |]. rewrite Q in Q1.
    assert (E : GameState.questionIndex s1 = GameState.questionIndex s
                \/ GameState.questionIndex s1
                   = S (GameState.questionIndex s)) by lia.
    destruct E as [-> | ->]; auto.
  - destruct Hsame as (_ & P & C & Q & _).
    pose proof (loop_chapterIndex (InPreview t d) _ _ _ _ _ Hloop) as C1.
    assert (Q1 : GameState.questionIndex s1 = GameState.questionIndex s0).
    { eapply (forPipes_state _
                (fun x => GameState.questionIndex x
                          = GameState.questionIndex s0));
        [| exact Hloop | reflexivity].
      intros p x p' x' f Hb E. apply previewPipe_questionIndex in Hb.
      congruence. }
    destruct Hs' as [-> | (_ & _ & C2 & Q2 & _)]; gs_simpl;
      rewrite ?C2, ?Q2; gs_simpl; split; try congruence; left; congruence.
Qed.

End QuestionStep.

(** X23: no question is skipped.  From a reachable state a frame never
    changes [chapterIndex] and leaves [questionIndex] as it is or, in
    [playing], raises it by exactly one; a tap keeps [questionIndex] or
    sets it to 0 (next chapter, restart). *)
Theorem X23_question_index_steps :
  forall (Math_sin : Q -> Q) (chapters : list Chapter.t) (c c' : Component.t)
         (e : Event),
    reachable Math_sin chapters c ->
    handle Math_sin chapters e c = Some c' ->
    match e with
    | Frame _ _ =>
        GameState.chapterIndex (Component.gameStateRef c')
        = GameState.chapterIndex (Component.gameStateRef c)
        /\ (GameState.questionIndex (Component.gameStateRef c')
            = GameState.questionIndex (Component.gameStateRef c)
            \/ GameState.questionIndex (Component.gameStateRef c')
               = S (GameState.questionIndex (Component.gameStateRef c))
               /\ GameState.phase (Component.gameStateRef c) = playing)
    | _ =>
        GameState.questionIndex (Component.gameStateRef c')
        = GameState.questionIndex (Component.gameStateRef c)
        \/ GameState.questionIndex (Component.gameStateRef c') = 0%nat
    end.
Proof.
  intros Math_sin chapters c c' e Hr Hh.
  destruct e as [now | currentTime random | perfNow dateNow]; cbn in Hh.
  - inversion Hh; subst c'. left. reflexivity.
  - unfold gameLoop in Hh.
    destruct (framePhase _ _ _ _ _ _) as [s' |] eqn:Hf; [| discriminate].
    inversion Hh; subst c'. cbn [Component.gameStateRef].
    apply framePhase_frameStep in Hf.
    eapply frameStep_questionStep; [exact Hf |].
    destruct (reachable_compInv _ _ _ Hr) as [(Hs & _) _].
    eapply Shape_unpassedQuestions; eauto.
  - inversion Hh; subst c'. unfold handleCanvasClick.
    destruct (GameState.phase (Component.gameStateRef c));
      try (destruct (jump_sameGame dateNow c) as [(_ & _ & _ & E & _) _];
           left; exact E);
      try (left; reflexivity).
    + destruct (_ <? _)%Z; [right | left]; reflexivity.
    + right. reflexivity.
Qed.

Lemma X23_question_index_steps_witness :
  reachable flatSine singleQuestionGame afterOpening
  /\ exists c',
      handle flatSine singleQuestionGame (Frame 7100 0) afterOpening = Some c'
      /\ GameState.chapterIndex (Component.gameStateRef c')
         = GameState.chapterIndex (Component.gameStateRef afterOpening).
Proof.
  split; [exact afterOpening_reachable |].
  destruct (handle flatSine singleQuestionGame (Frame 7100 0) afterOpening)
    as [c' |] eqn:Hh; [| vm_compute in Hh; discriminate].
  exists c'. split; [reflexivity |].
  apply (X23_question_index_steps flatSine singleQuestionGame afterOpening c'
           (Frame 7100 0) afterOpening_reachable Hh).
Defined.

(** ** The least time a screen lasts *)

Lemma progress_full_inv elapsed limit :
  0 < limit ->
  (Num.Math_min 1 (elapsed / limit) >=? 1) = true -> limit <= elapsed.
Proof.
  intros H0 H. apply NumFacts.geb_le in H.
  pose proof (NumFacts.Math_min_le_r 1 (elapsed / limit)) as Hr.
  assert (H1 : (1 <= elapsed / limit)%Q).
  { eapply Qle_trans; [exact H |]. eapply Qle_trans; [exact Hr |].
    unfold Num.div. rewrite Qred_correct. apply Qle_refl. }
  apply (Qmult_le_compat_r _ _ limit) in H1; [| lra].
  assert (E : (elapsed / limit * limit == elapsed)%Q) by (field; lra).
  rewrite E in H1. lra.
Qed.

(** X24: every timed screen lasts its time.  A frame ends the chapter intro
    only more than [CHAPTER_INTRO_TIME] after the intro began, ends the
    auto-fly only at least [AUTO_FLY_TIME] after the tap that started it,
    and ends a question preview by showing the pipe only at least
    [QUESTION_PREVIEW_TIME] after the preview began: the player has at
    least 3 seconds to read a question before its pipe appears. *)
Theorem X24_screens_last_their_time :
  forall (Math_sin : Q -> Q) (chapters : list Chapter.t) (c c' : Component.t)
         (currentTime random : Q),
    gameLoop Math_sin chapters currentTime random c = Some c' ->
    (GameState.phase (Component.gameStateRef c) = chapter_intro ->
     GameState.phase (Component.gameStateRef c') = ready_to_play ->
     CHAPTER_INTRO_TIME
     < currentTime - GameState.phaseStartTime (Component.gameStateRef c))
    /\ (GameState.phase (Component.gameStateRef c) = auto_fly ->
        GameState.phase (Component.gameStateRef c') = playing ->
        AUTO_FLY_TIME
        <= currentTime - GameState.phaseStartTime (Component.gameStateRef c))
    /\ (GameState.phase (Component.gameStateRef c) = question_preview ->
        GameState.phase (Component.gameStateRef c') = playing ->
        QUESTION_PREVIEW_TIME
        <= currentTime - GameState.phaseStartTime (Component.gameStateRef c)).
Proof.
  intros Math_sin chapters c c' currentTime random Hloop.
  unfold gameLoop in Hloop.
  destruct (framePhase _ _ _ _ _ _) as [s' |] eqn:Hf; [| discriminate].
  inversion Hloop; subst c'. cbn [Component.gameStateRef]. clear Hloop.
  set (s := Component.gameStateRef c) in *.
  set (d := frameDelta currentTime (Component.lastFrameTimeRef c)) in *.
  clearbody s d. unfold framePhase in Hf.
  split; [| split]; intros Hph Hph'; rewrite Hph in Hf.
  - destruct (drawChapterIntro _ _); [| discriminate].
    destruct (_ >? _) eqn:E.
    + apply NumFacts.gtb_lt in E. revert E. num_plain. auto.
    + inversion Hf; subst s'. gs_simpl. congruence.
  - match type of Hf with
    | context [animateBird ?n ?x] =>
        destruct (animateBird_sameGame n x) as [P _]
    end.
    destruct (_ >=? _) eqn:E.
    + apply progress_full_inv in E; [| reflexivity].
      revert E. num_plain. auto.
    + inversion Hf; subst s'.
      pose proof (eq_trans (eq_sym P) Hph') as X. gs_simpl. congruence.
  - unfold frameQuestionPreview in Hf. cbv zeta in Hf.
    destruct (outOfBounds _); [inversion Hf; subst s'; discriminate Hph' |].
    match type of Hf with
    | context [forPipes ?b ?l ?x] =>
        destruct (forPipes b l x) as [[[l1 s1] fl] |] eqn:Hl;
        [| discriminate];
        assert (Hp : GameState.questionPreviewProgress s1
                     = GameState.questionPreviewProgress x)
    end.
    { eapply (forPipes_state _
                (fun y => GameState.questionPreviewProgress y = _));
        [| exact Hl | reflexivity].
      intros p y p' y' f Hb E. apply previewPipe_progress in Hb. congruence. }
    gs_simpl. rewrite Hp, animateBird_progress in Hf. gs_simpl.
    destruct (_ >=? _) eqn:E.
    + apply progress_full_inv in E; [| reflexivity].
      revert E. num_plain. auto.
    + inversion Hf; subst s'. gs_simpl.
      destruct (loop_phase (InPreview currentTime d) _ _ _ _ _ Hl)
        as [E1 | [E1 | [_ [[] _]]]]; rewrite E1 in Hph';
        [| discriminate Hph'].
      match type of Hph' with
      | GameState.phase (animateBird ?n ?x) = _ =>
          destruct (animateBird_sameGame n x) as [P _];
          pose proof (eq_trans (eq_sym P) Hph') as X
      end.
      gs_simpl. congruence.
Qed.

Lemma X24_screens_last_their_time_witness :
  QUESTION_PREVIEW_TIME
  <= 11880 - GameState.phaseStartTime (Component.gameStateRef previewComponent).
Proof.
  destruct (gameLoop flatSine singleQuestionGame 11880 0 previewComponent)
    as [c' |] eqn:Hrun; [| vm_compute in Hrun; discriminate].
  apply (X24_screens_last_their_time flatSine singleQuestionGame
           previewComponent c' 11880 0 Hrun).
  - reflexivity.
  - vm_compute in Hrun. inversion Hrun; subst c'. reflexivity.
Defined.

(** ** A chapter ends at its last question, the game at its last chapter *)

(** The question index is the last of the chapter. *)
Definition atLastQuestion (chapter : Chapter.t) (s : GameState.t) : Prop :=
  S (GameState.questionIndex s) = length (Chapter.questions chapter).

(** What the pipe loop of [playing] keeps. *)
Definition endsAtLast (chapter : Chapter.t) (s : GameState.t) : Prop :=
  (GameState.questionIndex s < length (Chapter.questions chapter))%nat
  /\ (GameState.phase s = chapter_complete -> atLastQuestion chapter s).

Lemma playingPipe_endsAtLast t d chapter cq p s p' s' fl :
  playingPipe t d (Some chapter) cq p s = Some (p', s', fl) ->
  endsAtLast chapter s -> endsAtLast chapter s'.
Proof.
  intros H [Hlt Hend]. split; [eapply playingPipe_questionIndex; eauto |].
  unfold playingPipe in H. revert H. generalize (movePipe d p). intros p1 H.
  destruct (checkCollision _ _);
    [inversion H; subst; gs_simpl; discriminate |].
  destruct (passThrough t (Some chapter) p1 s) as [[[p2 s2] fl2] |] eqn:Hpt;
    [| discriminate].
  assert (H2 : GameState.phase s2 = chapter_complete ->
               atLastQuestion chapter s2).
  { unfold passThrough in Hpt. unfold atLastQuestion in *.
    cbv zeta in Hpt.
    destruct (negb _ && _); [| inversion Hpt; subst; exact Hend].
    destruct (Pipe.type _).
    - destruct (negb _); inversion Hpt; subst; gs_simpl; exact Hend.
    - destruct (_ <? _)%Z eqn:E; inversion Hpt; subst; gs_simpl.
      + intro Ph. specialize (Hend Ph). apply Z.ltb_lt in E.
        gs_simpl. lia.
      + intros _. apply Z.ltb_ge in E. gs_simpl. lia. }
  destruct fl2; [| inversion H; subst; exact H2].
  destruct (answerSelection cq p2 s2) as [[p3 s3] |] eqn:Has; [| discriminate].
  pose proof (answerSelection_questionIndex _ _ _ _ _ Has) as Q3.
  apply answerSelection_step in Has.
  destruct Has as (_ & _ & _ & _ & Ph3 & _).
  inversion H; subst. unfold atLastQuestion in *. rewrite Ph3, Q3. exact H2.
Qed.

(** In [chapter_complete] and in [game_complete] the question index is the
    last of the current chapter, and in [game_complete] the chapter is the
    last one. *)
Definition completedLast (chapters : list Chapter.t) (s : GameState.t)
  : Prop :=
  (GameState.phase s = chapter_complete \/ GameState.phase s = game_complete ->
   exists chapter,
     nth_error chapters (GameState.chapterIndex s) = Some chapter
     /\ atLastQuestion chapter s)
  /\ (GameState.phase s = game_complete ->
      S (GameState.chapterIndex s) = length chapters).

Lemma completedLast_sameGame chapters s s' :
  sameGame s s' -> completedLast chapters s -> completedLast chapters s'.
Proof.
  intros (P & _ & C & Q & _) H. unfold completedLast, atLastQuestion in *.
  now rewrite P, C, Q.
Qed.

Lemma completedLast_other chapters s :
  GameState.phase s <> chapter_complete ->
  GameState.phase s <> game_complete ->
  completedLast chapters s.
Proof. intros H1 H2. split; [intros [E | E] | intro E]; congruence. Qed.

Section CompletedLast.

Variable Math_sin : Q -> Q.
Variable chapters : list Chapter.t.

Lemma frameStep_completedLast t d r s s' :
  frameStep chapters t d r s s' ->
  indexed chapters s -> completedLast chapters s -> completedLast chapters s'.
Proof.
  intros Hstep Hidx Hinv.
  destruct Hstep as [Hsame | Hph Hsame | Hph Hsame | Hph Hsame
                    | chapter Hph Hge Hq Hch Hqi Hsame
                    | s0 pipes0 pipes' s1 fl Hph Hsame Hp0 Hcond Hloop ->
                    | s0 pipes' s1 fl Hph Hsame Hloop Hs'];
    try (eapply completedLast_sameGame; [exact Hsame |];
         apply completedLast_other; gs_simpl; discriminate).
  - eapply completedLast_sameGame; eauto.
  - destruct Hidx as (chapter & Hch & Hlt). rewrite Hch in Hloop.
    destruct Hsame as (P & _ & C & Q & _).
    pose proof (loop_chapterIndex (InPlaying t d _ _) _ _ _ _ _ Hloop) as C1.
    assert (H1 : endsAtLast chapter s1).
    { eapply (forPipes_state _ (endsAtLast chapter));
        [| exact Hloop |].
      - intros ? ? ? ? ?. apply playingPipe_endsAtLast.
      - split; [now rewrite Q |]. rewrite P, Hph. discriminate. }
    destruct (loop_phase (InPlaying t d _ _) _ _ _ _ _ Hloop)
      as [E | [E | [E _]]].
    + apply completedLast_other; gs_simpl; rewrite E, P, Hph; discriminate.
    + apply completedLast_other; gs_simpl; rewrite E; discriminate.
    + split; gs_simpl; [| rewrite E; discriminate].
      intros _. exists chapter. split; [now rewrite C1, C |].
      apply (proj2 H1 E).
  - destruct Hsame as (P & _).
    assert (H1 : GameState.phase s1 = question_preview
                 \/ GameState.phase s1 = game_over).
    { destruct (loop_phase (InPreview t d) _ _ _ _ _ Hloop)
        as [E | [E | [_ [[] _]]]]; rewrite E, ?P; auto. }
    destruct Hs' as [-> | Hsame'].
    + apply completedLast_other; gs_simpl; destruct H1 as [-> | ->];
        discriminate.
    + eapply completedLast_sameGame; [exact Hsame' |].
      apply completedLast_other; gs_simpl; discriminate.
Qed.

Lemma handleCanvasClick_completedLast perfNow dateNow c :
  indexed chapters (Component.gameStateRef c) ->
  completedLast chapters (Component.gameStateRef c) ->
  completedLast chapters
    (Component.gameStateRef (handleCanvasClick chapters perfNow dateNow c)).
Proof.
  intros (chapter & Hch & Hlt) Hinv. unfold handleCanvasClick.
  destruct (GameState.phase (Component.gameStateRef c)) eqn:Hph;
    try (eapply completedLast_sameGame; [apply jump_sameGame | exact Hinv]);
    try (apply completedLast_other; cbn; discriminate).
  destruct (_ <? _)%Z eqn:E;
    [apply completedLast_other; cbn; discriminate |].
  apply Z.ltb_ge in E. destruct Hinv as [Hlast _].
  assert (Hci : (GameState.chapterIndex (Component.gameStateRef c)
                 < length chapters)%nat)
    by (apply nth_error_Some; congruence).
  split; cbn [Component.gameStateRef]; gs_simpl.
  - intros _. apply Hlast. left. exact Hph.
  - intros _. lia.
Qed.

Lemma reachable_completedLast c :
  playable chapters ->
  reachable Math_sin chapters c ->
  completedLast chapters (Component.gameStateRef c).
Proof.
  intros Hp Hr. induction Hr as [| e c c' Hr IH Hadm Hh].
  - apply completedLast_other; cbn; discriminate.
  - pose proof (reachable_indexed Math_sin chapters Hp c Hr) as Hidx.
    destruct e as [now | currentTime random | perfNow dateNow]; cbn in Hh.
    + inversion Hh; subst c'. apply completedLast_other; cbn; discriminate.
    + unfold gameLoop in Hh.
      destruct (framePhase _ _ _ _ _ _) as [s' |] eqn:Hf; [| discriminate].
      inversion Hh; subst c'. apply framePhase_frameStep in Hf.
      eapply frameStep_completedLast; eauto.
    + inversion Hh; subst c'. now apply handleCanvasClick_completedLast.
Qed.

End CompletedLast.

(** X25: a chapter ends only at its last question and the game only at its
    last chapter.  When there is a chapter and every chapter has a
    question, in every reachable state whose phase is [chapter_complete] or
    [game_complete] the question index is the last of the current chapter,
    and in [game_complete] the chapter index is the last of the list. *)
Theorem X25_completion_at_the_end :
  forall (Math_sin : Q -> Q) (chapters : list Chapter.t) (c : Component.t),
    playable chapters ->
    reachable Math_sin chapters c ->
    (GameState.phase (Component.gameStateRef c) = chapter_complete
     \/ GameState.phase (Component.gameStateRef c) = game_complete ->
     exists chapter,
       nth_error chapters (GameState.chapterIndex (Component.gameStateRef c))
       = Some chapter
       /\ S (GameState.questionIndex (Component.gameStateRef c))
          = length (Chapter.questions chapter))
    /\ (GameState.phase (Component.gameStateRef c) = game_complete ->
        S (GameState.chapterIndex (Component.gameStateRef c))
        = length chapters).
Proof.
  intros Math_sin chapters c Hp Hr.
  exact (reachable_completedLast Math_sin chapters c Hp Hr).
Qed.

(** The only question of [singleQuestionGame] is passed and the player taps
    on the chapter's end screen: the game is complete. *)
Definition gameDone : Component.t :=
  Eval vm_compute in
    match runChecked flatSine singleQuestionGame
                     [Frame 9602 0; Input 9700 9700] beforePass with
    | Some c => c
    | None => beforePass
    end.

Lemma gameDone_reachable : reachable flatSine singleQuestionGame gameDone.
Proof.
  apply (runChecked_reachable flatSine singleQuestionGame
           [Frame 9602 0; Input 9700 9700] beforePass);
    [exact beforePass_reachable | vm_compute; reflexivity].
Qed.

Lemma X25_completion_at_the_end_witness :
  playable singleQuestionGame
  /\ reachable flatSine singleQuestionGame gameDone
  /\ GameState.phase (Component.gameStateRef gameDone) = game_complete
  /\ (exists chapter,
        nth_error singleQuestionGame
                  (GameState.chapterIndex (Component.gameStateRef gameDone))
        = Some chapter
        /\ S (GameState.questionIndex (Component.gameStateRef gameDone))
           = length (Chapter.questions chapter))
  /\ S (GameState.chapterIndex (Component.gameStateRef gameDone))
     = length singleQuestionGame.
Proof.
  assert (Hp : playable singleQuestionGame)
    by (apply playableb_sound; reflexivity).
  destruct (X25_completion_at_the_end flatSine singleQuestionGame gameDone
              Hp gameDone_reachable) as [H1 H2].
  split; [exact Hp |]. split; [exact gameDone_reachable |].
  split; [reflexivity |].
  split; [apply H1; right; reflexivity | apply H2; reflexivity].
Defined.
